(* ===== verification/_CoqProject ===== *)
-Q . S2P
Prelude.v
NetHeaders.v
NetHeadersFacts.v
Routing.v
Clock.v
SeqNumber.v
FlowKey.v
FlowEntry.v
FlowTcp.v
FlowIcmp.v
FlowTable.v
FlowTableInv.v
FlowTableOps.v
FlowTableSpec.v
FlowLife.v
FlowTableRun.v
FlowTableTheorems.v
FlowTableExamples.v
Pipeline.v
PipelineFacts.v
PipelineSweep.v
FlowTracker.v
PipelineExamples.v
Shared.v
Queue.v
QueueFifo.v
PacketBuffer.v
WireTap.v
PdTap.v
TapFacts.v
PdRuntime.v
PoolOwnership.v
PdRoute.v
TapReadback.v
PdExamples.v
Layout.v
Store.v
StoreRecord.v
StoreMedium.v
StoreDevice.v
StoreCrash.v
StoreRequests.v
StoreBoot.v
StoreLive.v
StoreReset.v
StoreExamples.v
Channel.v
ChannelCodec.v
ChannelStream.v
PackageEndpoint.v
PackageCertificate.v
PackageDer.v
PackageArmour.v
PackageArchive.v
PackageStage.v
Package.v
PackageInstall.v
PackageExamples.v
CaptureRing.v
CaptureSuperblock.v
CaptureCrc.v
CaptureSuperblockFacts.v
CaptureCheckpoint.v
Pcapng.v
PcapngFacts.v
PcapngRead.v
Recorder.v
RecorderGeometry.v
RecorderBlocks.v
RecorderOps.v
RecorderRun.v
RecorderKeeps.v
RecorderInvariant.v
RecorderReadback.v
RecorderExamples.v
Deck.v
DeckAccount.v
DeckDisk.v
DeckExamples.v
