(* ===== verification/Prelude.v ===== *)
(** * A verification of the librefirewall appliance

    librefirewall is a firewall appliance: a set of seL4 protection domains written in
    Rust ([datad/]) and a controller in Elixir ([ctrld/], not modelled). Frames come off a
    network driver into a shared buffer pool, a forwarding domain decides each one and
    rewrites what it forwards, a recorder reads what was decided off a tap, a store domain
    keeps the appliance's identity, owner and configuration on a block device, and a
    management domain speaks to a controller over one framed channel and takes an owner
    from an uploaded package. This development models the Rust code that carries those
    decisions and proves what makes it correct. File names below are under [datad/crates]
    unless they start with [pds/].

    ** How the code is modelled

    Definitions keep the names of the source; a method [T::f] is [T_f]. A w-bit integer is
    a [Z], with every wrap, saturation and checked operation written out; a byte slice is
    a [list Z] and [bytes_ok] says its elements are bytes; a struct is a Record updated
    with [r <| field := v |>]; [Result] and [Option] are [Result] and [option], and
    [try!] is [?]. Loops bounded by a const of the source are a Fixpoint on that bound;
    the other loops are on fuel with a lemma that it suffices (see "Bounds").
    - Sequential code over a struct is a function from the struct to its answer and the
      struct it leaves.
    - Code over memory another domain maps is a tree of single accesses ([Shared.Prog]),
      run alone, under any interference between any two accesses, or interleaved with
      another thread. Accesses take effect in program order: this is the x86 and
      release/acquire assumption of the source, and weaker orders are not modelled.
    - Code over the block device is a tree of requests ([StoreMedium.Io]), run against a
      device that may refuse, fail, answer short or for another request, and lose power at
      any moment ([StoreDevice]). Sectors are written whole; between two flushes any
      subset of the writes may be on the medium; a run that is never answered ends there.

    ** The parts, and where each is

    - [net-headers] (frames, parsers, checksum, rewriting): [NetHeaders],
      [NetHeadersFacts].
    - [routing] (interfaces, neighbours, egress choice): [Routing].
    - [clock] (calibration, uptime, civil time): [Clock]. [tcp/src/seq.rs]: [SeqNumber].
    - [flow] (the connection tracker): [FlowKey], [FlowEntry], [FlowTcp], [FlowIcmp] are
      one flow; [FlowTable] is the table; [FlowTableInv] its representation invariant,
      [FlowTableOps] and [FlowTableSpec] each operation against it, [FlowLife] one flow's
      life, [FlowTableRun] whole passes, [FlowTableTheorems] the table as a transition
      system, [FlowTableExamples] concrete runs.
    - [pipeline] (ownership, admission, routing, tracking, policy): [Pipeline]. It reaches
      the table only through the class [Tracker] with its laws [TrackerLaws];
      [PipelineFacts] and [PipelineSweep] are proved against those laws, and [FlowTracker]
      discharges them for the table. [PipelineExamples].
    - [queue] (rings between domains): [Queue], [QueueFifo]. [packet-buffer]:
      [PacketBuffer]. [wire/src/tap.rs] and [pd-runtime/src/tap.rs]: [WireTap], [PdTap],
      [TapFacts], [TapReadback]. [pd-runtime/src/lib.rs] (pool owner and forwarding
      stage): [PdRuntime], [PoolOwnership], [PdRoute], [PdExamples].
    - [store] and [pds/store/src/main.rs] (the persistent record, documents, reset, boot
      and the two requests that change it): [Store], [StoreRecord], [StoreMedium],
      [StoreDevice], [StoreCrash], [StoreRequests], [StoreBoot], [StoreLive],
      [StoreReset], [StoreExamples].
    - [channel] (framing of the controller channel): [Channel], [ChannelCodec],
      [ChannelStream].
    - [package] (the onboarding package) and the reading half of [store/src/install.rs]:
      [PackageEndpoint], [PackageCertificate], [PackageDer], [PackageArmour],
      [PackageArchive], [PackageStage], [Package], [PackageInstall], [PackageExamples].

    - [capture-ring] (the recording ring on a block device and the two-copy superblock it
      resumes from): [CaptureRing], [CaptureSuperblock], [CaptureCrc] (the CRC and what it
      detects), [CaptureSuperblockFacts], [CaptureCheckpoint]. [pcapng] (the block encoder
      of the recordings): [Pcapng], [PcapngFacts], and [PcapngRead], a reader written for
      the proofs.
    - [recorder/src/lib.rs] (one recording: records framed into segments, segments flushed
      to the ring, the superblock, power cuts, downloads): [Recorder]; its arithmetic and
      each operation in [RecorderGeometry], [RecorderBlocks], [RecorderOps]; the recording
      with its device as a transition system in [RecorderRun], the invariant in
      [RecorderKeeps] and [RecorderInvariant], what a download reads in
      [RecorderReadback], concrete runs in [RecorderExamples].
    - [recorder/src/deck.rs] and [preload.rs] (both recordings on one device): [Deck] over
      the class [Medium] of what it asks of a device, [DeckAccount] its bookkeeping on any
      medium, [DeckDisk] a disk with a volatile write cache, [DeckExamples].
    [Layout] holds what the fixed record layouts of the store and of the superblock share.

    They meet as in the code: [PdRoute] drives [Pipeline] over [NetHeaders], [Routing] and
    a [Tracker], through the rings of [Queue], the pool of [PacketBuffer] and the tap;
    [StoreRequests] takes a package reader by its contract [package_sound], which
    [PackageInstall] discharges.

    ** What the theorems show

    - Forwarding: a frame is forwarded exactly when the appliance is owned, the frame is
      admitted and routed, and the tracker or the first matching rule lets it through
      ([forward_iff]); a dropped frame opens nothing; after a commit every flow is in the
      end one the new configuration admits, within a bounded number of wakeups; the sweep
      and the filter agree.
    - Tracking: in every reachable table the representation is exact ([reachable_wf]), no
      packet displaces a live assured flow, verdicts say what the table holds, lookups
      agree with a scan, states agree with the segments seen, and expired flows are
      reaped.
    - Domains: a pass of the forwarding stage against hostile peers returns, is bounded
      and leaves exactly the decisions on what it read ([poll_refines_account]); the ring
      refines a bounded FIFO under every interleaving and confines a peer that keeps to
      no protocol; each buffer has one owner; what the tap records is read back.
    - Storage: a request that changes the record leaves the old state or its one successor
      whatever the device does and whenever the power goes ([requests_are_atomic]); a boot
      recovers it; the record's encoding is exact; a reset gives up its request before
      anything else; on a device that works requests complete.
    - Channel: a frame has one encoding; any cutting of a stream into deliveries reads as
      the stream; a peer cannot make the decoder hold more than a frame.
    - Package: each of the readers accepts exactly one spelling (archive, armour, DER
      length, endpoint line), and an accepted package binds the appliance's own key.
    - Recording: a superblock copy decodes exactly when it was encoded and no burst of up
      to 32 bits passes for one; whatever checkpoint the power interrupts, a boot finds
      the newest whole one ([checkpoints_recover]); a packet block reads back as the
      record it was given; across any sequence of records, flushes, wraps and power cuts a
      download of what the ring still holds is the stream that was framed
      ([recording_reads_back]); every record the deck is handed is in a recording or in
      one counted refusal ([every_record_is_accounted_for]).
    - Six theorems record defects: [window_check_depends_on_isn] (flow),
      [interrupted_mint_loses_identity] (store),
      [skipped_checkpoint_rewrites_the_copy_in_use] (capture-ring),
      [resumed_ring_serves_a_lost_segment] (recorder), [superblock_outruns_its_barrier]
      and [download_outlives_its_segment] (deck).

    ** Bounds

    [fold_loop] has three rounds where a 32-bit sum needs two;
    [window_scale_loop], [parse_frames] and [read_frames] have the length of their input,
    each turn consuming some of it ([window_scale_loop_fuel], [parse_frames_fuel],
    [read_frames_spec]); [next_frames] two looks, the second finding an emptied buffer;
    [drain_loop] one turn more than its limit; [unarmour_loop] the member's length and
    [stage_loop] the archive bound in blocks, both the source's own bounds, enough by
    [unarmour_complete] and [stage_loop_complete]; [overwrite_loop] the sectors of the
    store; [spell] and [octets_of] the digits of the widest number they print; the readers
    of [PcapngRead] the length of what they read; [download] more turns than bytes left,
    each turn reading at least one. A recording's theorems take its positions to stay
    below 2^64 and the checkpoint's its generation, which at any rate of writing is beyond
    the life of the device; [POLL_BUDGET] is the source's own bound.

    ** Parameters

    SHA-256 (its digests are 32 bytes; and [power_cut] takes a copy of the record that
    mixes sectors of different writes to fail its digest); verification and minting of the appliance's
    identity and the chain verifier (third-party cryptography); [config::load]; the
    encoding of the appliance's public key; the device and the other domains. Every
    theorem with a hypothesis about a parameter has a witness that instantiates it.

    ** Not modelled

    Device drivers and DMA ([virtio], [nic-driver-core], most of [blk], [uart-16550],
    [rtc], [hpet]); bindings to cryptographic libraries ([crypto], [tls], [x509]); record
    layouts and rendering ([log], [metrics], most of [wire]); text handling of the
    management surface ([http], [onboarding]); the entry points of the protection domains
    other than the store's medium; the build and test tools; [ctrld/].

    ** Plan

    Next: the appliance's own TCP endpoint ([tcp]) and its addressing ([ip-endpoint]); the
    capture ring and its file format ([capture-ring], [pcapng], [recorder]); the
    configuration document ([config]), which would replace the parameter of [Package]. *)
From Stdlib Require Export ZArith Lia ZifyBool.
From stdpp Require Export prelude gmap list.

#[export] Set Default Proof Using "Type*".
#[global] Open Scope Z_scope.

(** ** Results

    Rust's [Result<T, E>]. *)
Inductive Result (T E : Type) : Type :=
| Ok (value : T)
| Err (error : E).
Arguments Ok {T E} value.
Arguments Err {T E} error.

#[export] Instance Result_eq_dec `{EqDecision T, EqDecision E} : EqDecision (Result T E).
Proof. solve_decision. Defined.

(** The [?] operator and early [return Err(..)]. *)
Definition result_bind {T U E} (r : Result T E) (k : T → Result U E) : Result U E :=
  match r with Ok x => k x | Err e => Err e end.

Notation "'try!' x '<-' e ';' k" := (result_bind e (λ x, k))
  (at level 20, x pattern, e at level 100, k at level 200, right associativity).

(** ** Stateful code

    A method on [&mut self] is a function from the struct to its answer and the
    struct it leaves: [St S A]. *)
Definition St (S A : Type) : Type := S → A * S.
Definition st_ret {S A} (x : A) : St S A := λ s, (x, s).
Definition st_bind {S A B} (m : St S A) (k : A → St S B) : St S B :=
  λ s, k (m s).1 (m s).2.
Definition st_read {S A} (f : S → A) : St S A := λ s, (f s, s).
Definition st_edit {S} (f : S → S) : St S unit := λ s, (tt, f s).

Notation "'let!' x ':=' m 'in' k" := (st_bind m (λ x, k))
  (at level 10, x pattern, m at level 100, k at level 200).
Notation "m ';;;' k" := (st_bind m (λ _, k)) (at level 199, k at level 200, right associativity).

Lemma st_bind_read {S A B} (f : S → A) (k : A → St S B) s : st_bind (st_read f) k s = k (f s) s.
Proof. reflexivity. Qed.

Lemma st_bind_run {S A B} (m : St S A) (k : A → St S B) s a s' :
  m s = (a, s') → st_bind m k s = k a s'.
Proof. unfold st_bind. by intros ->. Qed.

(** ** Functional record update

    [r <| field := v |>] is the struct [r] with one field assigned. [Eta]
    rebuilds a record field by field; the setter of a projection is found by
    abstracting that projection out of the rebuilding function. *)
Class Eta (R : Type) := eta : R → R.
Class Assign {R T : Type} (proj : R → T) := assign : (T → T) → R → R.
Arguments assign {R T} proj {_} g r /.

Ltac derive_assign :=
  lazymatch goal with
  | |- @Assign ?R ?T ?proj =>
      let rebuild := eval hnf in (@eta R _) in
      lazymatch eval pattern proj in rebuild with
      | ?abstracted _ =>
          let s := constr:(fun (g : T → T) (r : R) => abstracted (fun r' => g (proj r')) r) in
          let s := eval cbv beta in s in
          exact s
      end
  end.
#[export] Hint Extern 0 (Assign _) => derive_assign : typeclass_instances.

Notation "r <| f := v |>" := (assign f (λ _, v) r)
  (at level 1, f at next level, v at level 200, left associativity,
   format "r  <| f  :=  v |>").
Notation "r <| f ::= g |>" := (assign f g r)
  (at level 1, f at next level, g at level 200, left associativity,
   format "r  <| f  ::=  g |>").

(** ** Machine integers

    A w-bit unsigned integer is a [Z] in [0, 2^w); every operation that can
    leave the range says which way it comes back. *)
Definition in_u (w x : Z) : Prop := 0 ≤ x < 2 ^ w.
Abbreviation is_u8 := (in_u 8) (only parsing).
Abbreviation is_u16 := (in_u 16) (only parsing).
Abbreviation is_u32 := (in_u 32) (only parsing).
Abbreviation is_u64 := (in_u 64) (only parsing).

Definition u8_max : Z := 255.
Definition u16_max : Z := 65535.
Definition u32_max : Z := 4294967295.
Definition u64_max : Z := 18446744073709551615.

(** [wrapping_add], [wrapping_sub], [wrapping_mul] and the [as uN] casts. *)
Definition wrap (w x : Z) : Z := x mod 2 ^ w.
Definition wrapping_add (w x y : Z) : Z := wrap w (x + y).
Definition wrapping_sub (w x y : Z) : Z := wrap w (x - y).
Definition wrapping_mul (w x y : Z) : Z := wrap w (x * y).

(** [saturating_add], [saturating_mul] and [saturating_sub]. *)
Definition saturating_add (w x y : Z) : Z := Z.min (x + y) (2 ^ w - 1).
Definition saturating_mul (w x y : Z) : Z := Z.min (x * y) (2 ^ w - 1).
Definition saturating_sub (x y : Z) : Z := Z.max 0 (x - y).

(** [x as i32] for a [u32] value. *)
Definition as_i32 (x : Z) : Z := if x <? 2 ^ 31 then x else x - 2 ^ 32.

(** [u16::from_be_bytes], [u16::to_be_bytes] and their 32-bit forms. *)
Definition be16 (high low : Z) : Z := high * 256 + low.
Definition be32 (b3 b2 b1 b0 : Z) : Z := ((b3 * 256 + b2) * 256 + b1) * 256 + b0.
Definition to_be16 (x : Z) : Z * Z := (x / 256, x mod 256).
Definition to_be32 (x : Z) : Z * Z * Z * Z :=
  (x / 16777216, (x / 65536) mod 256, (x / 256) mod 256, x mod 256).

(** The [!] operator on a [u16]. *)
Definition not16 (x : Z) : Z := u16_max - x.

(** A counter bump: [*count = count.saturating_add(1)] on a [u64]. *)
Definition bump (count : Z) : Z := saturating_add 64 count 1.

Ltac unfold_ints :=
  unfold bump, in_u, wrapping_add, wrapping_sub, wrapping_mul, wrap, saturating_add,
    saturating_mul, saturating_sub, as_i32, be16, be32, not16,
    u8_max, u16_max, u32_max, u64_max in *;
  change (2 ^ 8) with 256 in *; change (2 ^ 16) with 65536 in *;
  change (2 ^ 31) with 2147483648 in *; change (2 ^ 32) with 4294967296 in *;
  change (2 ^ 64) with 18446744073709551616 in *.

(** Linear arithmetic with the wrap-arounds written out. *)
Ltac ints := unfold_ints; intros; Z.div_mod_to_equations; lia.

(** ** Arrays and slices

    A byte slice is a [list Z]; [bytes_ok] says every element is a [u8]. *)
Definition bytes_ok (bs : list Z) : Prop := Forall (in_u 8) bs.

(** A read at an index the array's type bounds. *)
Definition byte_at (bs : list Z) (i : nat) : Z := nth i bs 0.

(** [split_first_chunk::<N>]: the first [n] elements and the rest, or nothing
    when there are fewer. *)
Definition split_first_chunk {A} (n : nat) (l : list A) : option (list A * list A) :=
  if (length l <? n)%nat then None else Some (take n l, drop n l).

(** Overwriting a span of a fixed-size store, as [copy_nonoverlapping] does. *)
Definition splice {A} (l : list A) (at_ : nat) (piece : list A) : list A :=
  take at_ l ++ piece ++ drop (at_ + length piece) l.

(** ** Words as bytes *)

(** [x.to_le_bytes()] of an [n]-byte word, and [from_le_bytes]. *)
Fixpoint le_bytes (n : nat) (x : Z) : list Z :=
  match n with
  | 0%nat => []
  | S n => x mod 256 :: le_bytes n (x / 256)
  end.
Fixpoint from_le (bytes : list Z) : Z :=
  match bytes with
  | [] => 0
  | byte :: bytes => byte + 256 * from_le bytes
  end.

(** [x.to_be_bytes()] and [from_be_bytes]. *)
Definition be_bytes (n : nat) (x : Z) : list Z := reverse (le_bytes n x).
Definition from_be (bytes : list Z) : Z := from_le (reverse bytes).

(** ** Automation *)
Create HintDb lfw.
Create HintDb lens.

(** Arithmetic over the named lengths (declared to the [lens] database). *)
Ltac lens := autounfold with lens in *; simpl in *; lia.

(** Split every conjunction in sight, then decide booleans with [lia]. *)
Ltac split_all := repeat match goal with |- _ ∧ _ => split end.

(** Case analysis on the scrutinee of a [match] or [if], keeping its equation. *)
Ltac cases := repeat (case_match; simplify_eq/=; try done).

(** ** Shared lemmas *)

Lemma result_bind_Ok {T U E} (r : Result T E) (k : T → Result U E) y :
  result_bind r k = Ok y ↔ ∃ x, r = Ok x ∧ k x = Ok y.
Proof. destruct r; simpl; [split; [eauto|by intros (? & [= <-] & ?)]|split; [done|by intros (? & ? & _)]]. Qed.

Lemma split_first_chunk_Some {A} n (l hd tl : list A) :
  split_first_chunk n l = Some (hd, tl) ↔ l = hd ++ tl ∧ length hd = n.
Proof.
  unfold split_first_chunk. case_match eqn:E.
  - split; [done|]. intros [-> ?]. rewrite length_app in E. lia.
  - split.
    + intros [= <- <-]. rewrite take_drop, length_take. split; [done|lia].
    + intros [-> <-]. by rewrite take_app_length, drop_app_length.
Qed.

Lemma split_first_chunk_None {A} n (l : list A) :
  split_first_chunk n l = None ↔ (length l < n)%nat.
Proof. unfold split_first_chunk. case_match; split; (done || lia). Qed.

Lemma byte_at_app_l (l k : list Z) i : (i < length l)%nat → byte_at (l ++ k) i = byte_at l i.
Proof. apply app_nth1. Qed.

Lemma byte_at_ok (bs : list Z) i : bytes_ok bs → is_u8 (byte_at bs i).
Proof.
  intros Hok. unfold byte_at. destruct (decide (i < length bs)%nat).
  - eapply Forall_forall in Hok; [exact Hok|]. by apply list_elem_of_In, nth_In.
  - rewrite nth_overflow by lia. ints.
Qed.

Lemma bytes_ok_app l k : bytes_ok (l ++ k) ↔ bytes_ok l ∧ bytes_ok k.
Proof. apply Forall_app. Qed.

Lemma length_splice {A} (l piece : list A) n :
  (n + length piece ≤ length l)%nat → length (splice l n piece) = length l.
Proof. intros. unfold splice. rewrite !length_app, length_take, length_drop. lia. Qed.

Lemma be16_range h l : is_u8 h → is_u8 l → is_u16 (be16 h l).
Proof. ints. Qed.

Lemma be32_range a b c d : is_u8 a → is_u8 b → is_u8 c → is_u8 d → is_u32 (be32 a b c d).
Proof. ints. Qed.

Lemma be16_to_be16 x : is_u16 x → be16 (to_be16 x).1 (to_be16 x).2 = x.
Proof. unfold to_be16. simpl. ints. Qed.

Lemma lor_shiftl_add a b n : 0 ≤ n → 0 ≤ b < 2 ^ n → Z.lor (Z.shiftl a n) b = a * 2 ^ n + b.
Proof.
  intros Hn Hb. rewrite <-Z.add_lor_land.
  rewrite Z.shiftl_mul_pow2 by done.
  assert (Z.land (a * 2 ^ n) b = 0) as ->; [|lia].
  apply Z.bits_inj'. intros i Hi. rewrite Z.land_spec, Z.bits_0.
  destruct (Z.ltb_spec i n).
  - rewrite Z.mul_pow2_bits_low by lia. done.
  - rewrite <-(Z.mod_small b (2 ^ n)) by done. rewrite Z.mod_pow2_bits_high by lia.
    apply andb_false_r.
Qed.

Lemma length_le_bytes n x : length (le_bytes n x) = n.
Proof. revert x. induction n; intros x; simpl; auto. Qed.

Lemma le_bytes_ok n x : bytes_ok (le_bytes n x).
Proof.
  revert x. induction n as [|n IH]; intros x; simpl; [constructor|]. constructor; [ints|apply IH].
Qed.

Lemma from_le_range bytes : bytes_ok bytes → 0 ≤ from_le bytes < 2 ^ (8 * Z.of_nat (length bytes)).
Proof.
  induction 1 as [|byte bytes Hb _ IH]; simpl; [lia|].
  replace (8 * Z.of_nat (S (length bytes))) with (8 + 8 * Z.of_nat (length bytes)) by lia.
  rewrite Z.pow_add_r by lia. change (2 ^ 8) with 256 in *. unfold in_u in Hb. change (2 ^ 8) with 256 in Hb. lia.
Qed.

Lemma from_le_le_bytes n x : 0 ≤ x < 2 ^ (8 * Z.of_nat n) → from_le (le_bytes n x) = x.
Proof.
  revert x. induction n as [|n IH]; intros x Hx; simpl.
  - simpl in Hx. lia.
  - replace (8 * Z.of_nat (S n)) with (8 + 8 * Z.of_nat n) in Hx by lia. rewrite Z.pow_add_r in Hx by lia.
    change (2 ^ 8) with 256 in Hx. rewrite IH; [Z.div_mod_to_equations; lia|].
    split; [apply Z.div_pos; lia|]. apply Z.div_lt_upper_bound; lia.
Qed.

Lemma le_bytes_from_le bytes : bytes_ok bytes → le_bytes (length bytes) (from_le bytes) = bytes.
Proof.
  induction 1 as [|byte bytes Hb _ IH]; simpl; [done|]. unfold in_u in Hb. change (2 ^ 8) with 256 in Hb.
  f_equal; [Z.div_mod_to_equations; lia|]. 
  replace ((byte + 256 * from_le bytes) / 256) with (from_le bytes) by (Z.div_mod_to_equations; lia). exact IH.
Qed.

Lemma length_be_bytes n x : length (be_bytes n x) = n.
Proof. unfold be_bytes. by rewrite length_reverse, length_le_bytes. Qed.

Lemma be_bytes_ok n x : bytes_ok (be_bytes n x).
Proof. apply Forall_reverse, le_bytes_ok. Qed.

Lemma from_be_range bytes : bytes_ok bytes → 0 ≤ from_be bytes < 2 ^ (8 * Z.of_nat (length bytes)).
Proof. intros H. unfold from_be. rewrite <- (length_reverse bytes). by apply from_le_range, Forall_reverse. Qed.

Lemma from_be_be_bytes n x : 0 ≤ x < 2 ^ (8 * Z.of_nat n) → from_be (be_bytes n x) = x.
Proof. intros. unfold from_be, be_bytes. rewrite reverse_involutive. by apply from_le_le_bytes. Qed.

Lemma be_bytes_from_be bytes : bytes_ok bytes → be_bytes (length bytes) (from_be bytes) = bytes.
Proof.
  intros H. unfold from_be, be_bytes. rewrite <- (length_reverse bytes), le_bytes_from_le by (by apply Forall_reverse).
  apply reverse_involutive.
Qed.

Lemma saturating_add_range w x y : 0 ≤ w → in_u w x → 0 ≤ y → in_u w (saturating_add w x y).
Proof. unfold in_u, saturating_add. lia. Qed.

Lemma bump_range x : is_u64 x → is_u64 (bump x).
Proof. ints. Qed.

#[export] Hint Resolve byte_at_ok be16_range be32_range bump_range : lfw.
