(* ===== verification/NetHeaders.v ===== *)
(** * Ethernet, ARP, IPv4 and transport headers

    Models [datad/crates/net-headers/src/lib.rs]: the addresses and header
    structs, the RFC 1071 checksum, the one validating parser every dataplane
    frame goes through ([Frame_parse]), the forwarding rewrite, and the ARP, ICMP
    and IPv4 frames an addressed endpoint writes.

    A byte slice is a [list Z]. [Frame] borrows disjoint spans of one mutable
    buffer; the model keeps those spans together with the bytes between and
    behind them, so [Frame_buffer] is the buffer the borrows edit. *)
From S2P Require Import Prelude.

(** ** Lengths and constants *)
Definition MAC_PAIR_LEN : nat := 12.
Definition ETHERNET_HEADER_LEN : nat := 14.
Definition VLAN_TAG_LEN : nat := 4.
Definition IPV4_HEADER_LEN : nat := 20.
Definition UDP_HEADER_LEN : nat := 8.
Definition TCP_HEADER_LEN : nat := 20.
Definition MIN_ROUTABLE_FRAME_LEN : nat := ETHERNET_HEADER_LEN + IPV4_HEADER_LEN.
Definition ARP_PAYLOAD_LEN : nat := 28.
Definition ARP_FRAME_LEN : nat := ETHERNET_HEADER_LEN + ARP_PAYLOAD_LEN.
Definition ICMP_HEADER_LEN : nat := 8.
Definition MIN_ECHO_REPLY_LEN : nat := ETHERNET_HEADER_LEN + IPV4_HEADER_LEN + ICMP_HEADER_LEN.
Definition ARP_HARDWARE_ETHERNET : Z := 1.
Definition ARP_HARDWARE_LEN : Z := 6.
Definition ARP_PROTOCOL_LEN : Z := 4.
Definition ARP_REQUEST : Z := 1.
Definition ARP_REPLY : Z := 2.
Definition ICMP_ECHO_CODE : Z := 0.
Definition IPV4_CHECKSUM_AT : nat := 10.
Definition ICMP_CHECKSUM_AT : nat := 2.

#[export] Hint Unfold MAC_PAIR_LEN ETHERNET_HEADER_LEN VLAN_TAG_LEN IPV4_HEADER_LEN UDP_HEADER_LEN
  TCP_HEADER_LEN MIN_ROUTABLE_FRAME_LEN ARP_PAYLOAD_LEN ARP_FRAME_LEN ICMP_HEADER_LEN
  MIN_ECHO_REPLY_LEN IPV4_CHECKSUM_AT ICMP_CHECKSUM_AT : lens.

(** ** Addresses *)

(** [u32::MAX << (32 - prefix_length)] drops the bits shifted out of the word. *)
Definition prefix_mask (prefix_length : Z) : Z :=
  if prefix_length =? 0 then 0
  else if 32 <=? prefix_length then u32_max
  else wrap 32 (Z.shiftl u32_max (32 - prefix_length)).

(** [struct MacAddress(pub [u8; 6])]. *)
Abbreviation MacAddress := (list Z) (only parsing).

Definition MacAddress_BROADCAST : MacAddress := replicate 6 255.

Definition MacAddress_is_group (m : MacAddress) : bool := negb (Z.land (byte_at m 0) 1 =? 0).

Definition MacAddress_is_broadcast (m : MacAddress) : bool :=
  bool_decide (m = [255; 255; 255; 255; 255; 255]).

Definition MacAddress_is_unicast (m : MacAddress) : bool :=
  negb (MacAddress_is_group m) && negb (bool_decide (m = [0; 0; 0; 0; 0; 0])).

(** [struct Ipv4Address(u32)], the host-order integer. *)
Abbreviation Ipv4Address := Z (only parsing).

Definition Ipv4Address_from_octets (a b c d : Z) : Ipv4Address := be32 a b c d.

Definition Ipv4Address_octets (addr : Ipv4Address) : list Z :=
  let '(a, b, c, d) := to_be32 addr in [a; b; c; d].

Definition Ipv4Address_is_multicast (addr : Ipv4Address) : bool :=
  Z.land addr 0xf0000000 =? 0xe0000000.

Definition Ipv4Address_is_broadcast (addr : Ipv4Address) : bool := addr =? u32_max.

Definition Ipv4Address_is_loopback (addr : Ipv4Address) : bool :=
  Z.land addr 0xff000000 =? 0x7f000000.

Definition Ipv4Address_is_unspecified (addr : Ipv4Address) : bool := addr =? 0.

Definition Ipv4Address_is_unicast (addr : Ipv4Address) : bool :=
  negb (Ipv4Address_is_multicast addr || Ipv4Address_is_broadcast addr
        || Ipv4Address_is_loopback addr || Ipv4Address_is_unspecified addr).

Definition Ipv4Address_shares_prefix (self other : Ipv4Address) (prefix_length : Z) : bool :=
  let mask := prefix_mask prefix_length in
  Z.land self mask =? Z.land other mask.

(** [struct EtherType(pub u16)] and [struct Protocol(pub u8)]. *)
Abbreviation EtherType := Z (only parsing).
Definition EtherType_IPV4 : EtherType := 0x0800.
Definition EtherType_ARP : EtherType := 0x0806.
Definition EtherType_VLAN : EtherType := 0x8100.

Abbreviation Protocol := Z (only parsing).
Definition Protocol_ICMP : Protocol := 1.
Definition Protocol_TCP : Protocol := 6.
Definition Protocol_UDP : Protocol := 17.

Record VlanTag := { priority : Z; drop_eligible : bool; vlan_id : Z }.

Definition VlanTag_from_tci (tci : Z) : VlanTag :=
  {| priority := Z.shiftr tci 13;
     drop_eligible := negb (Z.land tci 0x1000 =? 0);
     vlan_id := Z.land tci 0x0fff |}.

(** ** Headers as values *)
Record Ipv4Header := {
  ip_total_length : Z;
  identification : Z;
  dont_fragment : bool;
  more_fragments : bool;
  fragment_offset : Z;
  ip_ttl : Z;
  ip_protocol : Protocol;
  ip_checksum : Z;
  ip_source : Ipv4Address;
  ip_destination : Ipv4Address
}.

#[export] Instance eta_Ipv4Header : Eta Ipv4Header := λ h,
  Build_Ipv4Header (ip_total_length h) (identification h) (dont_fragment h) (more_fragments h)
    (fragment_offset h) (ip_ttl h) (ip_protocol h) (ip_checksum h) (ip_source h) (ip_destination h).

Definition Ipv4Header_is_fragment (h : Ipv4Header) : bool :=
  h.(more_fragments) || negb (h.(fragment_offset) =? 0).

Record UdpHeader := {
  udp_source_port : Z;
  udp_destination_port : Z;
  udp_length : Z;
  udp_checksum : Z
}.

(** [struct TcpFlags(pub u8)]: one accessor per bit. *)
Abbreviation TcpFlags := Z (only parsing).
Definition TcpFlags_fin (f : TcpFlags) : bool := negb (Z.land f 0x01 =? 0).
Definition TcpFlags_syn (f : TcpFlags) : bool := negb (Z.land f 0x02 =? 0).
Definition TcpFlags_rst (f : TcpFlags) : bool := negb (Z.land f 0x04 =? 0).
Definition TcpFlags_ack (f : TcpFlags) : bool := negb (Z.land f 0x10 =? 0).

Record TcpHeader := {
  tcp_source_port : Z;
  tcp_destination_port : Z;
  tcp_sequence : Z;
  tcp_acknowledgement : Z;
  data_offset : Z;
  tcp_flags : TcpFlags;
  tcp_window : Z;
  tcp_checksum : Z;
  urgent_pointer : Z
}.

Record IcmpHeader := {
  icmp_type : Z;
  icmp_code : Z;
  icmp_checksum : Z;
  rest_of_header : list Z
}.
Definition IcmpHeader_ECHO_REPLY : Z := 0.
Definition IcmpHeader_DESTINATION_UNREACHABLE : Z := 3.
Definition IcmpHeader_REDIRECT : Z := 5.
Definition IcmpHeader_ECHO_REQUEST : Z := 8.
Definition IcmpHeader_TIME_EXCEEDED : Z := 11.
Definition IcmpHeader_PARAMETER_PROBLEM : Z := 12.

Inductive Transport :=
| Udp (h : UdpHeader)
| TruncatedUdp (available : nat)
| Tcp (h : TcpHeader)
| TruncatedTcp (available : nat)
| Icmp (h : IcmpHeader)
| TruncatedIcmp (available : nat)
| NonInitialFragment
| Unparsed (p : Protocol).

Inductive ParseError :=
| FrameTooShort (needed got : nat)
| UnsupportedEtherType (t : EtherType)
| StackedVlanTags
| Ipv4VersionNotFour (version : Z)
| Ipv4OptionsUnsupported (ihl : Z)
| Ipv4TotalLengthBelowHeader (total_length : Z)
| Ipv4TotalLengthExceedsFrame (total_length : Z) (available : nat)
| Ipv4ChecksumInvalid (found computed : Z).

Inductive ParseFailure := PF_FrameTooShort | PF_Ethernet | PF_Ipv4 | PF_Ipv4Checksum.
#[export] Instance ParseFailure_eq_dec : EqDecision ParseFailure.
Proof. solve_decision. Defined.

Definition ParseError_failure (e : ParseError) : ParseFailure :=
  match e with
  | FrameTooShort _ _ => PF_FrameTooShort
  | UnsupportedEtherType _ | StackedVlanTags => PF_Ethernet
  | Ipv4VersionNotFour _ | Ipv4OptionsUnsupported _
  | Ipv4TotalLengthBelowHeader _ | Ipv4TotalLengthExceedsFrame _ _ => PF_Ipv4
  | Ipv4ChecksumInvalid _ _ => PF_Ipv4Checksum
  end.

Definition ParseFailure_ALL : list ParseFailure :=
  [PF_FrameTooShort; PF_Ethernet; PF_Ipv4; PF_Ipv4Checksum].

Definition ParseFailure_slot (f : ParseFailure) : nat :=
  match f with PF_FrameTooShort => 0 | PF_Ethernet => 1 | PF_Ipv4 => 2 | PF_Ipv4Checksum => 3 end.

(** [struct ParseCounters]: one saturating [u64] per failure class. *)
Abbreviation ParseCounters := (list Z) (only parsing).
Definition ParseCounters_new : ParseCounters := replicate (length ParseFailure_ALL) 0.
Definition ParseCounters_record (c : ParseCounters) (e : ParseError) : ParseCounters :=
  alter bump (ParseFailure_slot (ParseError_failure e)) c.
Definition ParseCounters_get (c : ParseCounters) (f : ParseFailure) : Z :=
  default 0 (c !! ParseFailure_slot f).
Definition ParseCounters_total (c : ParseCounters) : Z :=
  foldl (λ sum count, saturating_add 64 sum count) 0 c.

(** ** The RFC 1071 checksum *)

(** Byte pairs added to a running [u32] sum, an odd tail padded with zero. *)
Fixpoint accumulate (sum : Z) (bytes : list Z) : Z :=
  match bytes with
  | high :: low :: rest => accumulate (saturating_add 32 sum (be16 high low)) rest
  | [high] => saturating_add 32 sum (be16 high 0)
  | [] => sum
  end.

(** [while sum > HALF { sum = (sum & HALF) + (sum >> 16) }], at most [fuel] times. *)
Fixpoint fold_loop (fuel : nat) (sum : Z) : Z :=
  match fuel with
  | O => sum
  | S fuel =>
      if u16_max <? sum then fold_loop fuel (Z.land sum u16_max + Z.shiftr sum 16) else sum
  end.

(** A [u32] sum needs two rounds ([fold_spec]); the third is slack. *)
Definition fold (sum : Z) : Z := fold_loop 3 sum.

Definition checksum_over (bytes : list Z) (field : nat) : Z :=
  let before := take field bytes in
  let after := drop (field + 2) bytes in
  not16 (fold (accumulate (accumulate 0 before) after)).

Definition header_checksum (header : list Z) : Z := not16 (fold (accumulate 0 header)).

Definition recomputed_checksum (header : list Z) : Z := checksum_over header IPV4_CHECKSUM_AT.

(** [struct Checksum(u32)], the running sum a transport composes over blocks. *)
Definition Checksum_add_bytes (sum : Z) (bytes : list Z) : Z := accumulate sum bytes.
Definition Checksum_add_u16 (sum value : Z) : Z := saturating_add 32 sum value.
Definition Checksum_add_address (sum : Z) (addr : Ipv4Address) : Z :=
  Checksum_add_u16 (Checksum_add_u16 sum (Z.shiftr addr 16)) (Z.land addr 0xffff).
Definition Checksum_finish (sum : Z) : Z := not16 (fold sum).
Definition Checksum_is_consistent (sum : Z) : bool := fold sum =? u16_max.

(** ** Reading headers *)
Definition version_of (header : list Z) : Z := Z.shiftr (byte_at header 0) 4.
Definition ihl_of (header : list Z) : Z := Z.land (byte_at header 0) 0x0f.
Definition ttl_of (header : list Z) : Z := byte_at header 8.

Definition read_ipv4 (h : list Z) : Ipv4Header :=
  let flags_fragment := be16 (byte_at h 6) (byte_at h 7) in
  {| ip_total_length := be16 (byte_at h 2) (byte_at h 3);
     identification := be16 (byte_at h 4) (byte_at h 5);
     dont_fragment := negb (Z.land flags_fragment 0x4000 =? 0);
     more_fragments := negb (Z.land flags_fragment 0x2000 =? 0);
     fragment_offset := Z.land flags_fragment 0x1fff;
     ip_ttl := byte_at h 8;
     ip_protocol := byte_at h 9;
     ip_checksum := be16 (byte_at h 10) (byte_at h 11);
     ip_source := Ipv4Address_from_octets (byte_at h 12) (byte_at h 13) (byte_at h 14) (byte_at h 15);
     ip_destination :=
       Ipv4Address_from_octets (byte_at h 16) (byte_at h 17) (byte_at h 18) (byte_at h 19) |}.

Definition validate_ipv4 (raw : list Z) (payload_available available_for_ip : nat)
    : Result (Ipv4Header * nat) ParseError :=
  let header := read_ipv4 raw in
  let version := version_of raw in
  if negb (version =? 4) then Err (Ipv4VersionNotFour version) else
  let ihl := ihl_of raw in
  if negb (ihl =? 5) then Err (Ipv4OptionsUnsupported ihl) else
  if negb (header_checksum raw =? 0)
  then Err (Ipv4ChecksumInvalid header.(ip_checksum) (recomputed_checksum raw)) else
  let total_len := Z.to_nat header.(ip_total_length) in
  if (total_len <? IPV4_HEADER_LEN)%nat
  then Err (Ipv4TotalLengthBelowHeader header.(ip_total_length)) else
  let datagram_payload_len := (total_len - IPV4_HEADER_LEN)%nat in
  if (payload_available <? datagram_payload_len)%nat
  then Err (Ipv4TotalLengthExceedsFrame header.(ip_total_length) available_for_ip)
  else Ok (header, datagram_payload_len).

Definition read_udp (payload : list Z) : Transport :=
  match split_first_chunk UDP_HEADER_LEN payload with
  | None => TruncatedUdp (length payload)
  | Some (u, _) =>
      Udp {| udp_source_port := be16 (byte_at u 0) (byte_at u 1);
             udp_destination_port := be16 (byte_at u 2) (byte_at u 3);
             udp_length := be16 (byte_at u 4) (byte_at u 5);
             udp_checksum := be16 (byte_at u 6) (byte_at u 7) |}
  end.

Definition read_tcp (payload : list Z) : Transport :=
  match split_first_chunk TCP_HEADER_LEN payload with
  | None => TruncatedTcp (length payload)
  | Some (t, _) =>
      Tcp {| tcp_source_port := be16 (byte_at t 0) (byte_at t 1);
             tcp_destination_port := be16 (byte_at t 2) (byte_at t 3);
             tcp_sequence := be32 (byte_at t 4) (byte_at t 5) (byte_at t 6) (byte_at t 7);
             tcp_acknowledgement := be32 (byte_at t 8) (byte_at t 9) (byte_at t 10) (byte_at t 11);
             data_offset := Z.shiftr (byte_at t 12) 4;
             tcp_flags := byte_at t 13;
             tcp_window := be16 (byte_at t 14) (byte_at t 15);
             tcp_checksum := be16 (byte_at t 16) (byte_at t 17);
             urgent_pointer := be16 (byte_at t 18) (byte_at t 19) |}
  end.

Definition read_icmp (payload : list Z) : Transport :=
  match split_first_chunk ICMP_HEADER_LEN payload with
  | None => TruncatedIcmp (length payload)
  | Some (i, _) =>
      Icmp {| icmp_type := byte_at i 0;
              icmp_code := byte_at i 1;
              icmp_checksum := be16 (byte_at i 2) (byte_at i 3);
              rest_of_header := [byte_at i 4; byte_at i 5; byte_at i 6; byte_at i 7] |}
  end.

Definition parse_transport (header : Ipv4Header) (payload : list Z) : Transport :=
  if negb (header.(fragment_offset) =? 0) then NonInitialFragment
  else if header.(ip_protocol) =? Protocol_UDP then read_udp payload
  else if header.(ip_protocol) =? Protocol_TCP then read_tcp payload
  else if header.(ip_protocol) =? Protocol_ICMP then read_icmp payload
  else Unparsed header.(ip_protocol).

(** ** Ethernet, IPv4, ARP and ICMP packets an endpoint reads *)
Record EthernetHeader := {
  eth_destination : MacAddress;
  eth_source : MacAddress;
  ether_type : EtherType
}.

Record Ethernet := { eth_header : EthernetHeader; eth_payload : list Z }.

Definition Ethernet_parse (bytes : list Z) : Result Ethernet ParseError :=
  match split_first_chunk ETHERNET_HEADER_LEN bytes with
  | None => Err (FrameTooShort ETHERNET_HEADER_LEN (length bytes))
  | Some (h, payload) =>
      Ok {| eth_header :=
              {| eth_destination := take 6 h;
                 eth_source := take 6 (drop 6 h);
                 ether_type := be16 (byte_at h 12) (byte_at h 13) |};
            eth_payload := payload |}
  end.

Record Ipv4Packet := { pkt_header : Ipv4Header; pkt_payload : list Z }.

Definition Ipv4Packet_parse (bytes : list Z) : Result Ipv4Packet ParseError :=
  let available := length bytes in
  match split_first_chunk IPV4_HEADER_LEN bytes with
  | None => Err (FrameTooShort IPV4_HEADER_LEN available)
  | Some (raw, rest) =>
      try! (header, payload_len) <- validate_ipv4 raw (length rest) available;
      if (length rest <? payload_len)%nat
      then Err (Ipv4TotalLengthExceedsFrame header.(ip_total_length) available)
      else Ok {| pkt_header := header; pkt_payload := take payload_len rest |}
  end.

Inductive ArpOperation := Arp_Request | Arp_Reply.

Record ArpPacket := {
  operation : ArpOperation;
  sender_mac : MacAddress;
  sender_address : Ipv4Address;
  target_mac : MacAddress;
  target_address : Ipv4Address
}.

Inductive ArpError :=
| PayloadTooShort (got : nat)
| HardwareTypeUnsupported (hardware_type : Z)
| ProtocolTypeUnsupported (protocol_type : EtherType)
| AddressLengthsUnsupported (hardware_len protocol_len : Z)
| OperationUnsupported (op : Z).

Definition ArpPacket_parse (payload : list Z) : Result ArpPacket ArpError :=
  match split_first_chunk ARP_PAYLOAD_LEN payload with
  | None => Err (PayloadTooShort (length payload))
  | Some (f, _) =>
      let hardware_type := be16 (byte_at f 0) (byte_at f 1) in
      if negb (hardware_type =? ARP_HARDWARE_ETHERNET)
      then Err (HardwareTypeUnsupported hardware_type) else
      let protocol_type := be16 (byte_at f 2) (byte_at f 3) in
      if negb (protocol_type =? EtherType_IPV4)
      then Err (ProtocolTypeUnsupported protocol_type) else
      let hardware_len := byte_at f 4 in
      let protocol_len := byte_at f 5 in
      if negb (hardware_len =? ARP_HARDWARE_LEN) || negb (protocol_len =? ARP_PROTOCOL_LEN)
      then Err (AddressLengthsUnsupported hardware_len protocol_len) else
      let op := be16 (byte_at f 6) (byte_at f 7) in
      try! operation <-
        (if op =? ARP_REQUEST then Ok Arp_Request
         else if op =? ARP_REPLY then Ok Arp_Reply
         else Err (OperationUnsupported op));
      Ok {| operation := operation;
            sender_mac := take 6 (drop 8 f);
            sender_address :=
              Ipv4Address_from_octets (byte_at f 14) (byte_at f 15) (byte_at f 16) (byte_at f 17);
            target_mac := take 6 (drop 18 f);
            target_address :=
              Ipv4Address_from_octets (byte_at f 24) (byte_at f 25) (byte_at f 26) (byte_at f 27) |}
  end.

Record IcmpEcho := { echo_identifier : Z; echo_sequence : Z; echo_payload : list Z }.

Inductive IcmpError :=
| HeaderTruncated (got : nat)
| NotAnEchoRequest (message_type code : Z)
| ChecksumInvalid (found computed : Z).

Definition IcmpEcho_parse_request (message : list Z) : Result IcmpEcho IcmpError :=
  match split_first_chunk ICMP_HEADER_LEN message with
  | None => Err (HeaderTruncated (length message))
  | Some (h, payload) =>
      let message_type := byte_at h 0 in
      let code := byte_at h 1 in
      if negb (message_type =? IcmpHeader_ECHO_REQUEST) || negb (code =? ICMP_ECHO_CODE)
      then Err (NotAnEchoRequest message_type code)
      else if negb (fold (accumulate 0 message) =? u16_max)
      then Err (ChecksumInvalid (be16 (byte_at h 2) (byte_at h 3))
                  (checksum_over message ICMP_CHECKSUM_AT))
      else Ok {| echo_identifier := be16 (byte_at h 4) (byte_at h 5);
                 echo_sequence := be16 (byte_at h 6) (byte_at h 7);
                 echo_payload := payload |}
  end.

(** ** Frames an endpoint writes

    [write(&self, out)] answers the length and edits a prefix of [out]; the model
    answers the edited storage together with the length. *)
Inductive ReplyError :=
| DoesNotFit (needed capacity : nat)
| PayloadTooLong (len : nat).

Definition be16_bytes (x : Z) : list Z := [(to_be16 x).1; (to_be16 x).2].

(** [*out.first_chunk_mut() = frame]. *)
Definition write_front (out frame : list Z) : list Z := splice out 0 frame.

Record ArpReply := {
  reply_mac : MacAddress;
  reply_address : Ipv4Address;
  reply_target_mac : MacAddress;
  reply_target_address : Ipv4Address
}.

Definition ArpReply_write (r : ArpReply) (out : list Z) : Result (list Z * nat) ReplyError :=
  if (length out <? ARP_FRAME_LEN)%nat then Err (DoesNotFit ARP_FRAME_LEN (length out)) else
  let frame :=
    r.(reply_target_mac) ++ r.(reply_mac) ++ be16_bytes EtherType_ARP
    ++ be16_bytes ARP_HARDWARE_ETHERNET ++ be16_bytes EtherType_IPV4
    ++ [ARP_HARDWARE_LEN; ARP_PROTOCOL_LEN] ++ be16_bytes ARP_REPLY
    ++ r.(reply_mac) ++ Ipv4Address_octets r.(reply_address)
    ++ r.(reply_target_mac) ++ Ipv4Address_octets r.(reply_target_address) in
  Ok (write_front out frame, ARP_FRAME_LEN).

Record ArpRequest := {
  request_mac : MacAddress;
  request_address : Ipv4Address;
  request_target_address : Ipv4Address
}.

Definition ArpRequest_write (r : ArpRequest) (out : list Z) : Result (list Z * nat) ReplyError :=
  if (length out <? ARP_FRAME_LEN)%nat then Err (DoesNotFit ARP_FRAME_LEN (length out)) else
  let frame :=
    MacAddress_BROADCAST ++ r.(request_mac) ++ be16_bytes EtherType_ARP
    ++ be16_bytes ARP_HARDWARE_ETHERNET ++ be16_bytes EtherType_IPV4
    ++ [ARP_HARDWARE_LEN; ARP_PROTOCOL_LEN] ++ be16_bytes ARP_REQUEST
    ++ r.(request_mac) ++ Ipv4Address_octets r.(request_address)
    ++ [0; 0; 0; 0; 0; 0] ++ Ipv4Address_octets r.(request_target_address) in
  Ok (write_front out frame, ARP_FRAME_LEN).

(** The twenty header bytes both writers stamp, the checksum filled in last. *)
Definition originated_ipv4 (total_len proto : Z) (src dst : Ipv4Address) : list Z :=
  let ipv4 := [0x45; 0] ++ be16_bytes total_len ++ [0; 0; 0; 0; 64; proto; 0; 0]
              ++ Ipv4Address_octets src ++ Ipv4Address_octets dst in
  splice ipv4 IPV4_CHECKSUM_AT (be16_bytes (checksum_over ipv4 IPV4_CHECKSUM_AT)).

Record Ipv4Frame := {
  out_destination_mac : MacAddress;
  out_source_mac : MacAddress;
  out_source : Ipv4Address;
  out_destination : Ipv4Address;
  out_protocol : Protocol
}.

Definition Ipv4Frame_PAYLOAD_AT : nat := ETHERNET_HEADER_LEN + IPV4_HEADER_LEN.

(** [IPV4_HEADER_LEN.checked_add(len)] fits a [usize] for every slice length, so
    the refusal is the [u16::try_from]. *)
Definition Ipv4Frame_write (f : Ipv4Frame) (out : list Z) (payload_len : nat)
    : Result (list Z * nat) ReplyError :=
  let total := (IPV4_HEADER_LEN + payload_len)%nat in
  if u16_max <? Z.of_nat total then Err (PayloadTooLong payload_len) else
  let needed := (ETHERNET_HEADER_LEN + total)%nat in
  if (length out <? needed)%nat then Err (DoesNotFit needed (length out)) else
  let head :=
    f.(out_destination_mac) ++ f.(out_source_mac) ++ be16_bytes EtherType_IPV4
    ++ originated_ipv4 (Z.of_nat total) f.(out_protocol) f.(out_source) f.(out_destination) in
  Ok (write_front out head, needed).

Record EchoReply := {
  echo_destination_mac : MacAddress;
  echo_source_mac : MacAddress;
  echo_source : Ipv4Address;
  echo_destination : Ipv4Address;
  echo : IcmpEcho
}.

Definition EchoReply_write (r : EchoReply) (out : list Z) : Result (list Z * nat) ReplyError :=
  let payload := r.(echo).(echo_payload) in
  let total := (IPV4_HEADER_LEN + ICMP_HEADER_LEN + length payload)%nat in
  if u16_max <? Z.of_nat total then Err (PayloadTooLong (length payload)) else
  let needed := (ETHERNET_HEADER_LEN + total)%nat in
  if (length out <? needed)%nat then Err (DoesNotFit needed (length out)) else
  let icmp := [IcmpHeader_ECHO_REPLY; ICMP_ECHO_CODE; 0; 0]
              ++ be16_bytes r.(echo).(echo_identifier) ++ be16_bytes r.(echo).(echo_sequence) in
  let icmp := splice icmp ICMP_CHECKSUM_AT
                (be16_bytes (not16 (fold (accumulate (accumulate 0 icmp) payload)))) in
  let head :=
    r.(echo_destination_mac) ++ r.(echo_source_mac) ++ be16_bytes EtherType_IPV4
    ++ originated_ipv4 (Z.of_nat total) Protocol_ICMP r.(echo_source) r.(echo_destination)
    ++ icmp in
  Ok (write_front out (head ++ payload), needed).

(** ** The forwarded frame *)
Record Frame := {
  macs : list Z;
  (** The EtherType, and the tag where there is one: between the two borrows. *)
  l2_between : list Z;
  ipv4 : list Z;
  vlan : option VlanTag;
  transport : Transport;
  payload : list Z;
  (** Ethernet padding past the datagram. *)
  padding : list Z
}.
#[export] Instance eta_Frame : Eta Frame :=
  λ f, Build_Frame (macs f) (l2_between f) (ipv4 f) (vlan f) (transport f) (payload f) (padding f).

(** The buffer the frame borrows from, as it stands. *)
Definition Frame_buffer (f : Frame) : list Z :=
  macs f ++ l2_between f ++ ipv4 f ++ payload f ++ padding f.

(** The EtherType dispatch: the type, the tag, the bytes consumed and the rest. *)
Definition Frame_dispatch (too_short : nat → ParseError) (ether_type_bytes after_ether_type : list Z)
    : Result (EtherType * option VlanTag * list Z * list Z) ParseError :=
  let outer := be16 (byte_at ether_type_bytes 0) (byte_at ether_type_bytes 1) in
  if outer =? EtherType_VLAN then
    match split_first_chunk VLAN_TAG_LEN after_ether_type with
    | None => Err (too_short (MIN_ROUTABLE_FRAME_LEN + VLAN_TAG_LEN)%nat)
    | Some (tag, rest) =>
        let inner := be16 (byte_at tag 2) (byte_at tag 3) in
        if inner =? EtherType_VLAN then Err StackedVlanTags
        else Ok (inner, Some (VlanTag_from_tci (be16 (byte_at tag 0) (byte_at tag 1))),
                 ether_type_bytes ++ tag, rest)
    end
  else Ok (outer, None, ether_type_bytes, after_ether_type).

Definition Frame_parse (bytes : list Z) : Result Frame ParseError :=
  let frame_len := length bytes in
  let too_short needed := FrameTooShort needed frame_len in
  match split_first_chunk MAC_PAIR_LEN bytes with
  | None => Err (too_short MIN_ROUTABLE_FRAME_LEN)
  | Some (macs, after_macs) =>
  match split_first_chunk 2 after_macs with
  | None => Err (too_short MIN_ROUTABLE_FRAME_LEN)
  | Some (ether_type_bytes, after_ether_type) =>
  try! (ether_type, vlan, between, after_l2) <-
    Frame_dispatch too_short ether_type_bytes after_ether_type;
  if negb (ether_type =? EtherType_IPV4) then Err (UnsupportedEtherType ether_type) else
  let available_for_ip := length after_l2 in
  match split_first_chunk IPV4_HEADER_LEN after_l2 with
  | None => Err (too_short (frame_len - available_for_ip + IPV4_HEADER_LEN)%nat)
  | Some (ipv4, rest) =>
  try! (header, datagram_payload_len) <- validate_ipv4 ipv4 (length rest) available_for_ip;
  if (length rest <? datagram_payload_len)%nat
  then Err (Ipv4TotalLengthExceedsFrame header.(ip_total_length) available_for_ip) else
  let datagram_payload := take datagram_payload_len rest in
  Ok {| macs := macs; l2_between := between; ipv4 := ipv4; vlan := vlan;
        transport := parse_transport header datagram_payload;
        payload := datagram_payload;
        padding := drop datagram_payload_len rest |}
  end end end.

Definition Frame_destination_mac (f : Frame) : MacAddress := take 6 (macs f).
Definition Frame_source_mac (f : Frame) : MacAddress := drop 6 (macs f).
Definition Frame_ipv4 (f : Frame) : Ipv4Header := read_ipv4 (ipv4 f).

(** [Err(TtlExpired { ttl })] carries the TTL as received; the frame is unedited. *)
Definition Frame_rewrite_for_forwarding (f : Frame) (source destination : MacAddress)
    : Result Frame Z :=
  let ttl := ttl_of (ipv4 f) in
  if negb (0 <? ttl - 1) then Err ttl else
  let ipv4 := <[8%nat := ttl - 1]> (ipv4 f) in
  let ipv4 := <[11%nat := 0]> (<[10%nat := 0]> ipv4) in
  let '(high, low) := to_be16 (recomputed_checksum ipv4) in
  let ipv4 := <[11%nat := low]> (<[10%nat := high]> ipv4) in
  Ok (f <| macs := destination ++ source |> <| NetHeaders.ipv4 := ipv4 |>).
