(* ===== verification/NetHeadersFacts.v ===== *)
(** * Properties of the header parsers and writers

    The checksum arithmetic is reduced to residues modulo 65535 ([fold_spec]);
    the parser is inverted once ([Frame_parse_inv]); everything else follows
    from those two. *)
From S2P Require Import Prelude NetHeaders.

(** ** Ones' complement arithmetic *)

(** The sum the accumulator computes while it stays below [u32::MAX]. *)
Fixpoint word_sum (bytes : list Z) : Z :=
  match bytes with
  | high :: low :: rest => be16 high low + word_sum rest
  | [high] => be16 high 0
  | [] => 0
  end.

Lemma land_u16_max x : Z.land x u16_max = x mod 65536.
Proof. unfold u16_max. change 65535 with (Z.ones 16). by rewrite Z.land_ones. Qed.

Lemma shiftr_16 x : Z.shiftr x 16 = x / 65536.
Proof. by rewrite Z.shiftr_div_pow2. Qed.

(** Two rounds always reach the loop's exit condition, and the value they reach
    is the least positive residue modulo 65535 (zero only for zero). *)
Lemma fold_spec s : is_u32 s → fold s = if s =? 0 then 0 else (s - 1) mod 65535 + 1.
Proof.
  intros Hs. unfold fold, fold_loop. rewrite !land_u16_max, !shiftr_16.
  unfold_ints. repeat case_match; Z.div_mod_to_equations; lia.
Qed.

Lemma fold_range s : is_u32 s → is_u16 (fold s).
Proof. intros Hs. rewrite fold_spec by done. case_match; ints. Qed.

(** A word sum completed by the complement of its own fold is consistent. *)
Lemma fold_complement s : 0 ≤ s < 2 ^ 32 - 65536 → fold (s + not16 (fold s)) = u16_max.
Proof.
  intros Hs.
  assert (is_u32 s) by ints. pose proof (fold_range s ltac:(done)) as Hf.
  rewrite (fold_spec (s + _)) by ints. rewrite fold_spec in * by done.
  repeat case_match; ints.
Qed.

Lemma word_sum_bounds bytes : bytes_ok bytes → 0 ≤ word_sum bytes ≤ 65535 * Z.of_nat (length bytes).
Proof.
  intros Hok. revert bytes Hok.
  enough (∀ n bytes, (length bytes ≤ n)%nat → bytes_ok bytes →
    0 ≤ word_sum bytes ≤ 65535 * Z.of_nat (length bytes)) by eauto.
  induction n as [|n IH]; intros [|h [|l rest]] Hn Hok; simpl in *; try lia.
  - apply Forall_cons in Hok as [? _]. ints.
  - apply Forall_cons in Hok as [? [? ?]%Forall_cons].
    specialize (IH rest ltac:(lia) ltac:(done)). ints.
Qed.

(** Below [u32::MAX] the accumulator never saturates. *)
Lemma accumulate_spec n bytes s :
  (length bytes ≤ n)%nat → bytes_ok bytes → 0 ≤ s → s + word_sum bytes < 2 ^ 32 →
  accumulate s bytes = s + word_sum bytes.
Proof.
  revert bytes s. induction n as [|n IH]; intros [|h [|l rest]] s Hn Hok Hs Hlt; simpl in *; try lia.
  - apply Forall_cons in Hok as [? _]. ints.
  - apply Forall_cons in Hok as [? [? Hok]%Forall_cons].
    pose proof (word_sum_bounds rest Hok).
    assert (saturating_add 32 s (be16 h l) = s + be16 h l) as -> by ints.
    rewrite IH; [lia|lia|done|ints|ints].
Qed.

Lemma accumulate_small bytes :
  bytes_ok bytes → Z.of_nat (length bytes) ≤ 65535 → accumulate 0 bytes = word_sum bytes.
Proof.
  intros Hok Hlen. pose proof (word_sum_bounds bytes Hok).
  erewrite accumulate_spec; [lia|done|done|lia|]. change (2 ^ 32) with 4294967296. lia.
Qed.

Lemma word_sum_app l k : Nat.Even (length l) → word_sum (l ++ k) = word_sum l + word_sum k.
Proof.
  intros [m Hm]. revert l Hm. induction m as [|m IH]; intros [|h [|x rest]] Hm; simpl in *; try lia.
  rewrite IH by lia. lia.
Qed.

(** ** Prefixes *)

Lemma prefix_mask_spec p : 0 ≤ p ≤ 32 → prefix_mask p = 2 ^ 32 - 2 ^ (32 - p).
Proof.
  intros Hp. unfold prefix_mask.
  destruct (Z.eqb_spec p 0) as [->|]; [done|].
  destruct (Z.leb_spec 32 p). { replace p with 32 by lia. done. }
  rewrite Z.shiftl_mul_pow2 by lia. unfold wrap, u32_max.
  assert (0 < 2 ^ (32 - p)) by lia.
  assert (2 ^ (32 - p) < 2 ^ 32) by (apply Z.pow_lt_mono_r; lia).
  symmetry. apply (Z.mod_unique _ _ (2 ^ (32 - p) - 1)); [lia|].
  change (2 ^ 32) with 4294967296 in *. lia.
Qed.

(** Masking with a prefix mask clears the host bits and nothing else. *)
Lemma land_prefix_mask x p :
  is_u32 x → 0 ≤ p ≤ 32 → Z.land x (prefix_mask p) = x / 2 ^ (32 - p) * 2 ^ (32 - p).
Proof.
  intros Hx Hp. rewrite prefix_mask_spec by done.
  apply Z.bits_inj'. intros i Hi.
  rewrite Z.land_spec, <-Z.shiftl_mul_pow2, Z.shiftl_spec by lia.
  replace (2 ^ 32 - 2 ^ (32 - p)) with ((2 ^ p - 1) * 2 ^ (32 - p)).
  2:{ rewrite Z.mul_sub_distr_r, <-Z.pow_add_r by lia. f_equal; [f_equal; lia|lia]. }
  rewrite <-(Z.shiftl_mul_pow2 (2 ^ p - 1)), Z.shiftl_spec by lia.
  replace (2 ^ p - 1) with (Z.ones p) by (rewrite Z.ones_equiv; lia).
  destruct (Z.ltb_spec i (32 - p)).
  - rewrite !(Z.testbit_neg_r _ (i - (32 - p))) by lia. by rewrite andb_false_r.
  - rewrite <-Z.shiftr_div_pow2, Z.shiftr_spec by lia.
    replace (i - (32 - p) + (32 - p)) with i by lia.
    destruct (Z.ltb_spec i 32).
    + rewrite Z.ones_spec_low by lia. by rewrite andb_true_r.
    + rewrite (Z.bits_above_log2 x i); [done|ints|].
      destruct (decide (x = 0)) as [->|]; [simpl; lia|].
      apply Z.log2_lt_pow2; [ints|].
      assert (2 ^ 32 ≤ 2 ^ i) by (apply Z.pow_le_mono_r; lia). ints.
Qed.

(** ** The frame parser, characterised *)

(** What the bytes between the MAC pair and the IPv4 header may be. *)
Definition l2_shape (between : list Z) (tag : option VlanTag) : Prop :=
  (tag = None ∧ length between = 2%nat
   ∧ be16 (byte_at between 0) (byte_at between 1) = EtherType_IPV4)
  ∨ (length between = 6%nat
     ∧ be16 (byte_at between 0) (byte_at between 1) = EtherType_VLAN
     ∧ be16 (byte_at between 4) (byte_at between 5) = EtherType_IPV4
     ∧ tag = Some (VlanTag_from_tci (be16 (byte_at between 2) (byte_at between 3)))).

(** A header the validator accepts for [len] bytes of datagram payload. *)
Definition ipv4_valid (raw : list Z) (len : nat) : Prop :=
  length raw = IPV4_HEADER_LEN ∧ version_of raw = 4 ∧ ihl_of raw = 5
  ∧ header_checksum raw = 0
  ∧ Z.to_nat (read_ipv4 raw).(ip_total_length) = (IPV4_HEADER_LEN + len)%nat.

Definition Frame_wf (f : Frame) : Prop :=
  length (macs f) = MAC_PAIR_LEN ∧ l2_shape (l2_between f) (vlan f)
  ∧ ipv4_valid (ipv4 f) (length (payload f))
  ∧ transport f = parse_transport (Frame_ipv4 f) (payload f).

Lemma validate_ipv4_ok raw avail total header len :
  length raw = IPV4_HEADER_LEN →
  validate_ipv4 raw avail total = Ok (header, len) ↔
  ipv4_valid raw len ∧ header = read_ipv4 raw ∧ (len ≤ avail)%nat.
Proof.
  intros Hlen. unfold validate_ipv4, ipv4_valid. split.
  - intros H. cases. split_all; (done || lens).
  - intros [(_ & -> & -> & -> & Htl) [-> Hav]]. rewrite !Z.eqb_refl, Htl. simpl negb. cbv iota.
    rewrite (proj2 (Nat.ltb_ge _ IPV4_HEADER_LEN)) by lia.
    replace (IPV4_HEADER_LEN + len - IPV4_HEADER_LEN)%nat with len by lia.
    by rewrite (proj2 (Nat.ltb_ge _ _)) by lia.
Qed.

Lemma Frame_dispatch_ok ts et after ty tag between rest :
  length et = 2%nat →
  Frame_dispatch ts et after = Ok (ty, tag, between, rest) ∧ ty = EtherType_IPV4 ↔
  et ++ after = between ++ rest ∧ l2_shape between tag ∧ ty = EtherType_IPV4.
Proof.
  intros Het. unfold Frame_dispatch, l2_shape.
  destruct et as [|e0 [|e1 [|]]]; try done. unfold byte_at. simpl nth.
  destruct (Z.eqb_spec (be16 e0 e1) EtherType_VLAN) as [Hv|Hv].
  - split.
    + intros [H ->]. destruct (split_first_chunk _ _) as [[tg rs]|] eqn:Hsp; [|done].
      apply split_first_chunk_Some in Hsp as [-> Htg]. case_match; [done|]. simplify_eq.
      destruct tg as [|t0 [|t1 [|t2 [|t3 [|]]]]]; try done. simpl in *.
      split_all; try done. right. done.
    + intros (Happ & [(-> & Hl & Hty)|(Hl & _ & Hty & ->)] & ->).
      * destruct between as [|b0 [|b1 [|]]]; try done. simplify_eq/=.
        unfold EtherType_VLAN, EtherType_IPV4 in *. lia.
      * destruct between as [|b0 [|b1 [|b2 [|b3 [|b4 [|b5 [|]]]]]]]; try done. simplify_eq/=.
        unfold split_first_chunk. simpl. rewrite drop_0. rewrite Hty. done.
  - split.
    + intros [[= <- <- <- <-] Hty]. split_all; try done. left. done.
    + intros (Happ & [(-> & Hl & Hty)|(Hl & Hv' & _)] & ->).
      * destruct between as [|b0 [|b1 [|]]]; try done. simplify_eq/=. by rewrite Hty.
      * destruct between as [|b0 [|b1 ?]]; try done. simplify_eq/=.
Qed.

Lemma Frame_parse_sound bytes f :
  Frame_parse bytes = Ok f → Frame_buffer f = bytes ∧ Frame_wf f.
Proof.
  unfold Frame_parse.
  destruct (split_first_chunk MAC_PAIR_LEN bytes) as [[ms am]|] eqn:H1; [|done].
  apply split_first_chunk_Some in H1 as [-> Hms].
  destruct (split_first_chunk 2 am) as [[et ae]|] eqn:H2; [|done].
  apply split_first_chunk_Some in H2 as [-> Het].
  destruct (Frame_dispatch _ et ae) as [[[[ty tag] btw] al2]|] eqn:H3; [|done]. simpl.
  destruct (Z.eqb_spec ty EtherType_IPV4) as [Hty|]; [|done]. simpl.
  destruct (proj1 (Frame_dispatch_ok _ _ _ _ _ _ _ Het) (conj H3 Hty)) as (Happ & Hshape & _).
  destruct (split_first_chunk IPV4_HEADER_LEN al2) as [[raw rest]|] eqn:H4; [|done].
  apply split_first_chunk_Some in H4 as [-> Hraw].
  destruct (validate_ipv4 _ _ _) as [[h len]|] eqn:H5; [|done]. simpl.
  apply (validate_ipv4_ok _ _ _ _ _ Hraw) in H5 as (Hvalid & -> & Hle).
  rewrite (proj2 (Nat.ltb_ge _ _)) by done. intros [= <-].
  unfold Frame_buffer, Frame_wf, Frame_ipv4. simpl.
  rewrite take_drop, length_take, Nat.min_l by done. by rewrite Happ.
Qed.

Lemma Frame_parse_complete f : Frame_wf f → Frame_parse (Frame_buffer f) = Ok f.
Proof.
  destruct f as [ms btw raw tag tr pl pad]. unfold Frame_wf, Frame_buffer, Frame_ipv4. simpl.
  intros (Hms & Hshape & Hvalid & ->).
  assert (∃ et ae, et ++ ae = btw ++ raw ++ pl ++ pad ∧ length et = 2%nat) as (et & ae & Happ & Het).
  { destruct Hshape as [(_ & Hl & _)|(Hl & _)]; destruct btw as [|b0 [|b1 btw]]; try done;
      by exists [b0; b1], (btw ++ raw ++ pl ++ pad). }
  unfold Frame_parse. rewrite <-Happ.
  rewrite (proj2 (split_first_chunk_Some _ _ ms _)) by done.
  rewrite (proj2 (split_first_chunk_Some _ _ et _)) by done.
  destruct (proj2 (Frame_dispatch_ok (λ needed, FrameTooShort needed (length (ms ++ et ++ ae)))
    et ae EtherType_IPV4 tag btw (raw ++ pl ++ pad) Het) (conj Happ (conj Hshape eq_refl)))
    as [Hdisp _].
  rewrite Hdisp. simpl.
  rewrite (proj2 (split_first_chunk_Some _ _ raw _)) by (split; [done|apply Hvalid]).
  rewrite (proj2 (validate_ipv4_ok raw _ _ (read_ipv4 raw) (length pl) (proj1 Hvalid))).
  2:{ rewrite length_app. split_all; try done. lia. }
  simpl. rewrite (proj2 (Nat.ltb_ge _ _)) by (rewrite length_app; lia).
  by rewrite take_app_length, drop_app_length.
Qed.

(** C36. The dataplane's parser is exact: it answers a frame precisely when the
    bytes are that frame's buffer and every rule an IPv4 header is held to — the
    EtherType (behind at most one tag), version 4, no options, a consistent
    checksum and a total length the frame carries — holds of it. Nothing malformed
    is accepted and nothing well formed is refused, and the spans the frame
    borrows partition the input. *)
Theorem Frame_parse_exact bytes f :
  Frame_parse bytes = Ok f ↔ Frame_buffer f = bytes ∧ Frame_wf f.
Proof.
  split; [apply Frame_parse_sound|]. intros [<- Hwf]. by apply Frame_parse_complete.
Qed.

(** ** The forwarding rewrite *)

Lemma be16_bytes_ok x : is_u16 x → bytes_ok (be16_bytes x).
Proof.
  intros. unfold be16_bytes, to_be16, bytes_ok. rewrite !Forall_cons, Forall_nil. simpl.
  split_all; ints || done.
Qed.

Lemma word_sum_be16_bytes x : is_u16 x → word_sum (be16_bytes x) = x.
Proof. intros. unfold be16_bytes, to_be16. simpl. ints. Qed.

(** Writing the complement of the folded sum into a two-byte field makes the whole
    block consistent, wherever the field sits. *)
Lemma checksum_field_completes front back :
  bytes_ok front → bytes_ok back → Nat.Even (length front) →
  Z.of_nat (length front + length back) ≤ 65533 →
  let ck := not16 (fold (accumulate (accumulate 0 front) back)) in
  is_u16 ck ∧ fold (accumulate 0 (front ++ be16_bytes ck ++ back)) = u16_max.
Proof.
  intros Hf Hb Hev Hlen ck.
  pose proof (word_sum_bounds front Hf) as Bf. pose proof (word_sum_bounds back Hb) as Bb.
  assert (is_u16 ck ∧ ck = not16 (fold (word_sum front + word_sum back))) as [Hck Heq].
  { subst ck. rewrite accumulate_small by (done || lia).
    rewrite (accumulate_spec (length back)) by (done || lia || (unfold_ints; lia)).
    pose proof (fold_range (word_sum front + word_sum back) ltac:(unfold_ints; lia)).
    split; [ints|done]. }
  split; [done|]. clearbody ck.
  rewrite accumulate_small.
  2:{ rewrite !bytes_ok_app. by auto using be16_bytes_ok. }
  2:{ rewrite !length_app. unfold be16_bytes. simpl. lia. }
  rewrite word_sum_app by done. rewrite (word_sum_app (be16_bytes ck)) by (by exists 1%nat).
  rewrite word_sum_be16_bytes by done. rewrite Heq.
  rewrite (Z.add_comm (not16 _)), Z.add_assoc. apply fold_complement. unfold_ints. lia.
Qed.

Lemma insert_pair_splice (b : list Z) n hi lo :
  (S n < length b)%nat → <[S n := lo]> (<[n := hi]> b) = take n b ++ [hi; lo] ++ drop (n + 2) b.
Proof.
  revert n. induction b as [|x b IH]; intros [|n] Hn; simpl in *; try lia.
  - destruct b as [|y b]; simpl in *; [lia|]. by rewrite drop_0.
  - f_equal. apply IH. lia.
Qed.

Lemma checksum_completes (b : list Z) hi lo :
  bytes_ok b → length b = IPV4_HEADER_LEN →
  to_be16 (recomputed_checksum b) = (hi, lo) →
  header_checksum (<[11%nat := lo]> (<[10%nat := hi]> b)) = 0
  ∧ is_u8 hi ∧ is_u8 lo.
Proof.
  intros Hok Hlen Hck. rewrite insert_pair_splice by (rewrite Hlen; lens).
  assert (bytes_ok (take 10 b) ∧ bytes_ok (drop 12 b)) as [Hf Hb].
  { split; [by apply Forall_take|by apply Forall_drop]. }
  destruct (checksum_field_completes (take 10 b) (drop 12 b)) as [Hu Hc]; try done.
  { rewrite length_take, Hlen. by exists 5%nat. }
  { rewrite length_take, length_drop, Hlen. lens. }
  change (not16 _) with (recomputed_checksum b) in Hu, Hc.
  unfold header_checksum. unfold be16_bytes in Hc. rewrite Hck in Hc. simpl fst in Hc. simpl snd in Hc.
  unfold to_be16 in Hck. simplify_eq. change (10 + 2)%nat with 12%nat.
  rewrite Hc. split_all; ints.
Qed.

(** The header bytes the rewrite leaves: TTL less one, checksum recomputed. *)
Lemma rewritten_header_valid raw len hi lo :
  bytes_ok raw → ipv4_valid raw len → 1 < ttl_of raw →
  to_be16 (recomputed_checksum (<[11%nat := 0]> (<[10%nat := 0]> (<[8%nat := ttl_of raw - 1]> raw))))
    = (hi, lo) →
  let raw' := <[11%nat := lo]> (<[10%nat := hi]>
    (<[11%nat := 0]> (<[10%nat := 0]> (<[8%nat := ttl_of raw - 1]> raw)))) in
  ipv4_valid raw' len
  ∧ read_ipv4 raw' = (read_ipv4 raw) <| ip_ttl := ttl_of raw - 1 |> <| ip_checksum := be16 hi lo |>.
Proof.
  intros Hok (Hlen & Hver & Hihl & _ & Htl) Httl Hck raw'.
  set (zeroed := <[11%nat := 0]> (<[10%nat := 0]> (<[8%nat := ttl_of raw - 1]> raw))) in *.
  assert (bytes_ok zeroed) as Hz.
  { pose proof (byte_at_ok raw 8 Hok). unfold ttl_of in *.
    repeat apply Forall_insert; try done; ints. }
  assert (length zeroed = IPV4_HEADER_LEN) as Hzl by (subst zeroed; by rewrite !length_insert).
  destruct (checksum_completes zeroed hi lo Hz Hzl Hck) as [Hsum _].
  clear Hck Hz Hok. split.
  - unfold ipv4_valid. split_all; [by subst raw'; rewrite !length_insert| | |done|]; subst raw' zeroed;
      do 12 (destruct raw as [|? raw]; [done|]); done.
  - subst raw' zeroed. clear Hsum Hzl.
    do 20 (destruct raw as [|? raw]; [done|]). reflexivity.
Qed.

Lemma rewrite_reparses bytes f src dst f' :
  bytes_ok bytes → Frame_parse bytes = Ok f →
  length src = 6%nat → length dst = 6%nat →
  Frame_rewrite_for_forwarding f src dst = Ok f' →
  Frame_parse (Frame_buffer f') = Ok f'
  ∧ Frame_destination_mac f' = dst ∧ Frame_source_mac f' = src
  ∧ 1 < ip_ttl (Frame_ipv4 f)
  ∧ Frame_ipv4 f' = (Frame_ipv4 f) <| ip_ttl := ip_ttl (Frame_ipv4 f) - 1 |>
                                 <| ip_checksum := ip_checksum (Frame_ipv4 f') |>
  ∧ f' = f <| macs := macs f' |> <| ipv4 := ipv4 f' |>.
Proof.
  intros Hok [Hbuf (Hms & Hshape & Hvalid & Htr)]%Frame_parse_sound Hsrc Hdst.
  assert (bytes_ok (ipv4 f)) as Hraw.
  { rewrite <-Hbuf in Hok. unfold Frame_buffer in Hok. rewrite !bytes_ok_app in Hok. tauto. }
  unfold Frame_rewrite_for_forwarding.
  destruct (Z.ltb_spec 0 (ttl_of (ipv4 f) - 1)) as [Httl|]; [|done]. simpl negb. cbv iota.
  destruct (to_be16 _) as [hi lo] eqn:Hck. intros [= <-].
  destruct (rewritten_header_valid _ _ _ _ Hraw Hvalid ltac:(lia) Hck) as [Hvalid' Hread].
  split.
  - apply Frame_parse_complete. unfold Frame_wf. simpl. split_all; try done.
    + rewrite length_app. lens.
    + rewrite Htr. unfold Frame_ipv4. simpl ipv4. by rewrite Hread.
  - unfold Frame_destination_mac, Frame_source_mac, Frame_ipv4. cbn -[read_ipv4].
    split_all; [by rewrite take_app_length'|by rewrite drop_app_length'
      |unfold ttl_of in *; simpl; lia|by rewrite Hread|done].
Qed.

(** A hop the TTL survives is always taken. *)
Lemma rewrite_succeeds f src dst :
  1 < ip_ttl (Frame_ipv4 f) → ∃ f', Frame_rewrite_for_forwarding f src dst = Ok f'.
Proof.
  unfold Frame_rewrite_for_forwarding, Frame_ipv4, ttl_of. cbn [ip_ttl read_ipv4]. intros Httl.
  rewrite (proj2 (Z.ltb_lt _ _)) by lia. simpl negb. cbv iota. destruct (to_be16 _). by eexists.
Qed.

(** What a rewrite keeps: everything past the IPv4 header, and every length. *)
Lemma rewrite_shape f src dst f' :
  Frame_rewrite_for_forwarding f src dst = Ok f' →
  macs f' = dst ++ src ∧ l2_between f' = l2_between f ∧ length (ipv4 f') = length (ipv4 f)
  ∧ payload f' = payload f ∧ padding f' = padding f.
Proof.
  unfold Frame_rewrite_for_forwarding. destruct (negb _); [done|]. destruct (to_be16 _) as [hi lo].
  intros [= <-]. simpl. by rewrite !length_insert.
Qed.


(** The rewrite refuses exactly the frames whose TTL does not survive a hop,
    and then reports the TTL as received. *)
Theorem Frame_rewrite_refuses_expired f src dst t :
  Frame_rewrite_for_forwarding f src dst = Err t ↔
  ip_ttl (Frame_ipv4 f) ≤ 1 ∧ t = ip_ttl (Frame_ipv4 f).
Proof.
  unfold Frame_rewrite_for_forwarding, Frame_ipv4, ttl_of. cbn [ip_ttl read_ipv4].
  destruct (Z.ltb_spec 0 (byte_at (ipv4 f) 8 - 1)); simpl negb; cbv iota.
  - destruct (to_be16 _). split; [done|lia].
  - split; [intros [= <-]; lia|]. by intros [_ ->].
Qed.

(** A UDP datagram of eight bytes behind an untagged Ethernet header, TTL 64. *)
Definition sample_frame (source_mac destination_mac header : list Z) : Frame :=
  Build_Frame (destination_mac ++ source_mac) [8; 0] header None
    (Udp {| udp_source_port := 5000; udp_destination_port := 53; udp_length := 8; udp_checksum := 0 |})
    [19; 136; 0; 53; 0; 8; 0; 0] [].

