(* ===== verification/Routing.v ===== *)
(** * The forwarding table

    Models [datad/crates/routing/src/lib.rs]: the appliance's interfaces and its
    configured neighbours, and the lookups a forwarding decision is built from.
    [route_spec] characterises the egress choice as the least candidate under a
    total order in which table position plays no part. *)
From S2P Require Import Prelude NetHeaders NetHeadersFacts.

(** [struct PortId(pub u8)]. *)
Abbreviation PortId := Z (only parsing).

Record Interface := {
  if_port : PortId;
  if_mac : MacAddress;
  if_address : Ipv4Address;
  prefix_length : Z;
  enabled : bool
}.
#[export] Instance Interface_eq_dec : EqDecision Interface.
Proof. solve_decision. Defined.

Definition Interface_UNUSED : Interface :=
  {| if_port := 0; if_mac := [0; 0; 0; 0; 0; 0]; if_address := Ipv4Address_from_octets 0 0 0 0;
     prefix_length := 32; enabled := false |}.

Definition Interface_covers (i : Interface) (destination : Ipv4Address) : bool :=
  Ipv4Address_shares_prefix destination (if_address i) (prefix_length i).

Record Neighbour := {
  nb_port : PortId;
  nb_address : Ipv4Address;
  nb_mac : MacAddress
}.
#[export] Instance Neighbour_eq_dec : EqDecision Neighbour.
Proof. solve_decision. Defined.

Definition Neighbour_UNUSED : Neighbour :=
  {| nb_port := 0; nb_address := Ipv4Address_from_octets 0 0 0 0; nb_mac := [0; 0; 0; 0; 0; 0] |}.

Inductive CapacityError :=
| CE_Interfaces (requested capacity : nat)
| CE_Neighbours (requested capacity : nat).

Record Router := {
  interfaces : list Interface;
  interface_count : nat;
  neighbours : list Neighbour;
  neighbour_count : nat
}.
#[export] Instance eta_Router : Eta Router := λ r,
  Build_Router (interfaces r) (interface_count r) (neighbours r) (neighbour_count r).

(** [for (slot, entry) in slots.iter_mut().zip(entries) { *slot = *entry }]. *)
Fixpoint zip_assign {A} (slots entries : list A) : list A :=
  match slots, entries with
  | _ :: slots, e :: entries => e :: zip_assign slots entries
  | slots, [] => slots
  | [], _ => []
  end.

Definition Router_empty (MAX_INTERFACES MAX_NEIGHBOURS : nat) : Router :=
  {| interfaces := replicate MAX_INTERFACES Interface_UNUSED; interface_count := 0;
     neighbours := replicate MAX_NEIGHBOURS Neighbour_UNUSED; neighbour_count := 0 |}.

Definition Router_from_slices (MAX_INTERFACES MAX_NEIGHBOURS : nat)
    (ifs : list Interface) (ns : list Neighbour) : Result Router CapacityError :=
  if (MAX_INTERFACES <? length ifs)%nat then Err (CE_Interfaces (length ifs) MAX_INTERFACES) else
  if (MAX_NEIGHBOURS <? length ns)%nat then Err (CE_Neighbours (length ns) MAX_NEIGHBOURS) else
  let router := Router_empty MAX_INTERFACES MAX_NEIGHBOURS in
  let router := router <| interfaces ::= λ slots, zip_assign slots ifs |>
                       <| interface_count := length ifs |> in
  Ok (router <| neighbours ::= λ slots, zip_assign slots ns |>
             <| neighbour_count := length ns |>).

Definition Router_configured_interfaces (r : Router) : list Interface :=
  take (interface_count r) (interfaces r).

(** [Iterator::find]. *)
Fixpoint find_first {A} (p : A → bool) (l : list A) : option A :=
  match l with
  | [] => None
  | x :: l => if p x then Some x else find_first p l
  end.

Definition Router_interface (r : Router) (port : PortId) : option Interface :=
  find_first (λ entry, if_port entry =? port) (Router_configured_interfaces r).

(** The derived order on tuples and arrays, over one flattened key. *)
Fixpoint lex_lt (a b : list Z) : bool :=
  match a, b with
  | x :: a, y :: b => (x <? y) || ((x =? y) && lex_lt a b)
  | [], _ :: _ => true
  | _, [] => false
  end.

(** [Iterator::min_by_key]: the first element of least key. *)
Definition min_by_key {A} (key : A → list Z) (l : list A) : option A :=
  match l with
  | [] => None
  | x :: l => Some (foldl (λ best y, if lex_lt (key y) (key best) then y else best) x l)
  end.

(** [(Reverse(prefix_length), port, address, mac)]. *)
Definition route_key (i : Interface) : list Z :=
  - prefix_length i :: if_port i :: if_address i :: if_mac i.

Definition route_candidate (destination : Ipv4Address) (i : Interface) : bool :=
  enabled i && (0 <? prefix_length i) && Interface_covers i destination.

Definition Router_route (r : Router) (destination : Ipv4Address) : option Interface :=
  min_by_key route_key
    (filter (λ i, route_candidate destination i = true) (Router_configured_interfaces r)).

Definition Router_neighbour (r : Router) (port : PortId) (address : Ipv4Address)
    : option Neighbour :=
  find_first (λ entry, (nb_port entry =? port) && (nb_address entry =? address))
    (take (neighbour_count r) (neighbours r)).

Definition Router_is_local_address (r : Router) (address : Ipv4Address) : bool :=
  existsb (λ entry, if_address entry =? address) (Router_configured_interfaces r).

(** ** The lexicographic order is a strict total order *)

Lemma lex_lt_irrefl a : lex_lt a a = false.
Proof. induction a as [|x a IH]; simpl; [done|]. by rewrite Z.ltb_irrefl, Z.eqb_refl, IH. Qed.

Lemma lex_lt_trans a b c : lex_lt a b = true → lex_lt b c = true → lex_lt a c = true.
Proof.
  revert b c. induction a as [|x a IH]; intros [|y b] [|z c]; simpl; try done.
  intros H1 H2. apply orb_true_iff in H1, H2. apply orb_true_iff.
  destruct H1 as [H1|[H1 H1']%andb_true_iff], H2 as [H2|[H2 H2']%andb_true_iff]; try (left; lia).
  right. rewrite (IH _ _ H1' H2'). lia.
Qed.

Lemma lex_lt_total a b : lex_lt a b = true ∨ a = b ∨ lex_lt b a = true.
Proof.
  revert b. induction a as [|x a IH]; intros [|y b]; simpl; auto.
  destruct (Z.lt_trichotomy x y) as [|[->|]]; [left; lia| |right; right; lia].
  rewrite Z.eqb_refl, Z.ltb_irrefl. simpl.
  destruct (IH b) as [|[->|]]; auto.
Qed.

(** Not greater, which is what surviving a [min_by_key] scan means. *)
Definition lex_le (a b : list Z) : Prop := lex_lt b a = false.

Lemma lex_le_refl a : lex_le a a.
Proof. apply lex_lt_irrefl. Qed.

Lemma lex_lt_le_trans a b c : lex_lt a b = true → lex_le b c → lex_le a c.
Proof.
  unfold lex_le. intros H1 H2. destruct (lex_lt c a) eqn:H3; [|done].
  by rewrite (lex_lt_trans c a b H3 H1) in H2.
Qed.

Lemma lex_le_antisym a b : lex_le a b → lex_le b a → a = b.
Proof. unfold lex_le. intros. destruct (lex_lt_total a b) as [|[|]]; congruence. Qed.

Lemma min_by_key_spec {A} (key : A → list Z) l x :
  min_by_key key l = Some x → x ∈ l ∧ ∀ y, y ∈ l → lex_le (key x) (key y).
Proof.
  destruct l as [|x0 l]; [done|]. intros [= <-].
  induction l as [|y l IH] using rev_ind.
  { split; [by left|]. intros y ->%list_elem_of_singleton. apply lex_le_refl. }
  rewrite foldl_app. simpl. destruct IH as [Hin Hmin].
  set (best := foldl _ x0 l) in *. destruct (lex_lt (key y) (key best)) eqn:E.
  - split; [rewrite app_comm_cons, elem_of_app; right; by left|]. intros z Hz.
    rewrite app_comm_cons, elem_of_app, list_elem_of_singleton in Hz.
    destruct Hz as [Hz| ->]; [|apply lex_le_refl].
    eapply lex_lt_le_trans; eauto.
  - split; [rewrite app_comm_cons, elem_of_app; by left|]. intros z Hz.
    rewrite app_comm_cons, elem_of_app, list_elem_of_singleton in Hz.
    destruct Hz as [Hz| ->]; [by apply Hmin|done].
Qed.

Lemma min_by_key_None {A} (key : A → list Z) l : min_by_key key l = None ↔ l = [].
Proof. by destruct l. Qed.

(** ** Lookups *)

Lemma find_first_Some {A} (p : A → bool) l x :
  find_first p l = Some x ↔ ∃ before after,
    l = before ++ x :: after ∧ p x = true ∧ Forall (λ y, p y = false) before.
Proof.
  split.
  - induction l as [|y l IH]; simpl; [done|]. destruct (p y) eqn:E.
    + intros [= <-]. by exists [], l.
    + intros (before & after & -> & Hp & Hb)%IH. exists (y :: before), after. by auto.
  - intros (before & after & -> & Hp & Hb).
    induction Hb as [|y before Hy Hb IH]; simpl; [by rewrite Hp|by rewrite Hy].
Qed.

Lemma find_first_None {A} (p : A → bool) l : find_first p l = None ↔ ∀ x, x ∈ l → p x = false.
Proof.
  rewrite <-Forall_forall. induction l as [|y l IH]; simpl; [by rewrite Forall_nil|].
  rewrite Forall_cons, <-IH. destruct (p y); split; (done || by intros []).
Qed.

Lemma zip_assign_take {A} (slots entries : list A) :
  (length entries ≤ length slots)%nat →
  take (length entries) (zip_assign slots entries) = entries.
Proof.
  revert slots. induction entries as [|e entries IH]; intros [|s slots] H; simpl in *; try done.
  - lia.
  - f_equal. apply IH. lia.
Qed.

(** A table within capacity is stored whole; one past it is refused whole. *)
Lemma Router_from_slices_stored mi mn ifs ns r :
  Router_from_slices mi mn ifs ns = Ok r →
  Router_configured_interfaces r = ifs ∧ take (neighbour_count r) (neighbours r) = ns.
Proof.
  unfold Router_from_slices. cases. intros [= <-]. unfold Router_configured_interfaces. simpl.
  split; apply zip_assign_take; rewrite length_replicate; lia.
Qed.

Lemma Router_from_slices_total mi mn ifs ns :
  (length ifs ≤ mi)%nat → (length ns ≤ mn)%nat → ∃ r, Router_from_slices mi mn ifs ns = Ok r.
Proof.
  intros. unfold Router_from_slices.
  rewrite !(proj2 (Nat.ltb_ge _ _)) by done. eauto.
Qed.

(** Two candidates of equal key are the same interface. *)
Lemma route_key_inj d i j :
  route_candidate d i = true → route_candidate d j = true → route_key i = route_key j → i = j.
Proof.
  unfold route_candidate, route_key. destruct i, j. simpl. intros. simplify_eq.
  f_equal; [lia|]. destruct enabled0, enabled1; done.
Qed.

Lemma route_Some r d i :
  Router_route r d = Some i ↔
  (i ∈ Router_configured_interfaces r ∧ route_candidate d i = true)
  ∧ ∀ j, j ∈ Router_configured_interfaces r → route_candidate d j = true →
         lex_le (route_key i) (route_key j).
Proof.
  unfold Router_route. set (l := Router_configured_interfaces r). split.
  - intros [Hin Hmin]%min_by_key_spec. rewrite list_elem_of_filter in Hin.
    split; [tauto|]. intros j Hj Hc. apply Hmin. by rewrite list_elem_of_filter.
  - intros [[Hin Hc] Hmin].
    destruct (min_by_key _ _) as [k|] eqn:E.
    + apply min_by_key_spec in E as [[Hkc Hk]%list_elem_of_filter Hkmin].
      f_equal. apply (route_key_inj d); [done..|].
      apply lex_le_antisym; [|by apply Hmin].
      apply Hkmin. by rewrite list_elem_of_filter.
    + apply min_by_key_None in E. assert (i ∈ @nil Interface) as Hn; [|by inversion Hn].
      rewrite <-E, list_elem_of_filter. done.
Qed.

(** Route selection reads the configured interfaces as a set. *)
Lemma route_ext r1 r2 d :
  (∀ i, i ∈ Router_configured_interfaces r1 ↔ i ∈ Router_configured_interfaces r2) →
  Router_route r1 d = Router_route r2 d.
Proof.
  intros Heq. apply option_eq. intros i. rewrite !route_Some.
  setoid_rewrite Heq. done.
Qed.

(** Whether two addresses agree on their leading [p] bits. *)
Lemma shares_prefix_spec a b p :
  is_u32 a → is_u32 b → 0 ≤ p ≤ 32 →
  Ipv4Address_shares_prefix a b p = true ↔ a / 2 ^ (32 - p) = b / 2 ^ (32 - p).
Proof.
  intros Ha Hb Hp. unfold Ipv4Address_shares_prefix.
  rewrite !land_prefix_mask, Z.eqb_eq by done.
  assert (0 < 2 ^ (32 - p)) by lia. rewrite Z.mul_cancel_r by lia. done.
Qed.

(** The egress of a destination is the configured interface that is up, has a
    non-empty prefix covering it and comes first by (longest prefix, port,
    address, MAC); there is none exactly when no interface qualifies. *)
Theorem route_spec r d i :
  (Router_route r d = Some i ↔
    (i ∈ Router_configured_interfaces r ∧ enabled i = true ∧ 0 < prefix_length i
     ∧ Interface_covers i d = true)
    ∧ ∀ j, j ∈ Router_configured_interfaces r → enabled j = true → 0 < prefix_length j →
           Interface_covers j d = true → lex_le (route_key i) (route_key j))
  ∧ (Router_route r d = None ↔
     ∀ j, j ∈ Router_configured_interfaces r → enabled j = true → 0 < prefix_length j →
          Interface_covers j d = false).
Proof.
  assert (∀ j, route_candidate d j = true ↔
    enabled j = true ∧ 0 < prefix_length j ∧ Interface_covers j d = true) as Hc.
  { intros j. unfold route_candidate. rewrite !andb_true_iff, Z.ltb_lt. tauto. }
  split.
  - rewrite route_Some, Hc. setoid_rewrite Hc. split.
    + intros [(? & ? & ? & ?) Hmin]. split; [done|]. intros j ????. by apply Hmin.
    + intros [(? & ? & ? & ?) Hmin]. split; [done|]. intros j ? (? & ? & ?). by apply Hmin.
  - unfold Router_route. rewrite min_by_key_None. split.
    + intros Hf j Hj He Hp. apply not_true_iff_false. intros Hcov.
      assert (j ∈ @nil Interface) as Hn; [|by inversion Hn].
      rewrite <-Hf, list_elem_of_filter, Hc. done.
    + intros Hn. apply elem_of_nil_inv. intros j [Hj Hin]%list_elem_of_filter.
      apply Hc in Hj as (He & Hp & Hcov). rewrite Hn in Hcov by done. done.
Qed.

(** Table order is immaterial: any two configurations holding the same
    interfaces, in whatever order, route every destination alike. *)
Theorem route_permutation mi mn ifs1 ifs2 ns1 ns2 r1 r2 d :
  Permutation ifs1 ifs2 →
  Router_from_slices mi mn ifs1 ns1 = Ok r1 → Router_from_slices mi mn ifs2 ns2 = Ok r2 →
  Router_route r1 d = Router_route r2 d.
Proof.
  intros Hp [H1 _]%Router_from_slices_stored [H2 _]%Router_from_slices_stored.
  apply route_ext. intros i. by rewrite H1, H2, Hp.
Qed.

Definition lan : Interface :=
  {| if_port := 0; if_mac := [2; 0; 0; 0; 0; 1]; if_address := 0x0a000001; prefix_length := 24; enabled := true |}.
Definition wan : Interface :=
  {| if_port := 1; if_mac := [2; 0; 0; 0; 0; 2]; if_address := 0x0a000101; prefix_length := 16; enabled := true |}.

