(* ===== verification/Clock.v ===== *)
(** * Time arithmetic

    Models [datad/crates/clock/src/lib.rs]: instants and spans in nanoseconds, the
    calibration of a counter against a reference timer, the conversion of a reading
    to uptime and wall-clock time, and the civil calendar with its RFC 3339
    rendering. Products the source forms in [u128] are exact in [Z]; every
    narrowing back to [u64] is written out. *)
From S2P Require Import Prelude.

Definition NANOS_PER_SECOND : Z := 1000000000.
Definition NANOS_PER_MICROSECOND : Z := 1000.
Definition NANOS_PER_MILLISECOND : Z := 1000000.
Definition SECONDS_PER_MINUTE : Z := 60.
Definition SECONDS_PER_HOUR : Z := 60 * SECONDS_PER_MINUTE.
Definition SECONDS_PER_DAY : Z := 24 * SECONDS_PER_HOUR.
Definition NANOS_PER_DAY : Z := SECONDS_PER_DAY * NANOS_PER_SECOND.
Definition UNIX_EPOCH_YEAR : Z := 1970.
Definition DAYS_PER_ERA : Z := 146097.
Definition YEARS_PER_ERA : Z := 400.
Definition DAYS_FROM_SHIFTED_EPOCH_TO_UNIX : Z := 719468.
Definition DAYS_PER_4_YEARS : Z := 1460.
Definition DAYS_PER_CENTURY : Z := 36524.
Definition DAYS_PER_ERA_LESS_ONE : Z := 146096.
Definition DAYS_PER_COMMON_YEAR : Z := 365.
Definition MIN_PLAUSIBLE_TSC_HZ : Z := 10000000.
Definition MAX_PLAUSIBLE_TSC_HZ : Z := 100000000000.
Definition MIN_PLAUSIBLE_EPOCH_YEAR : Z := 2000.
Definition MAX_PLAUSIBLE_EPOCH_YEAR : Z := 2200.

Ltac unfold_clock :=
  unfold NANOS_PER_DAY, SECONDS_PER_DAY, SECONDS_PER_HOUR, SECONDS_PER_MINUTE,
    NANOS_PER_SECOND, NANOS_PER_MICROSECOND, NANOS_PER_MILLISECOND, UNIX_EPOCH_YEAR,
    DAYS_PER_ERA, YEARS_PER_ERA, DAYS_FROM_SHIFTED_EPOCH_TO_UNIX, DAYS_PER_4_YEARS,
    DAYS_PER_CENTURY, DAYS_PER_ERA_LESS_ONE, DAYS_PER_COMMON_YEAR, MIN_PLAUSIBLE_TSC_HZ,
    MAX_PLAUSIBLE_TSC_HZ in *.

(** ** Instants and spans: [Ticks], [Monotonic], [UtcNanos], [Duration] *)
Abbreviation Ticks := Z (only parsing).
Abbreviation Monotonic := Z (only parsing).
Abbreviation UtcNanos := Z (only parsing).
Abbreviation Duration := Z (only parsing).

Definition Monotonic_BOOT : Monotonic := 0.
Definition Monotonic_as_micros (m : Monotonic) : Z := m / NANOS_PER_MICROSECOND.
Definition Monotonic_as_millis (m : Monotonic) : Z := m / NANOS_PER_MILLISECOND.
Definition Monotonic_saturating_add (m : Monotonic) (span : Duration) : Monotonic :=
  saturating_add 64 m span.
Definition Monotonic_since (m earlier : Monotonic) : Duration := saturating_sub m earlier.
Definition UtcNanos_unix_seconds (t : UtcNanos) : Z := t / NANOS_PER_SECOND.
Definition Duration_from_millis (millis : Z) : Duration :=
  saturating_mul 64 millis NANOS_PER_MILLISECOND.
Definition Duration_from_micros (micros : Z) : Duration :=
  saturating_mul 64 micros NANOS_PER_MICROSECOND.

(** ** Calibration *)
Inductive CalibrationError :=
| NoTicksElapsed
| NoReferenceInterval
| ImplausiblySlow (hz : Z)
| ImplausiblyFast (hz : Z).

Definition calibrate (ticks_elapsed reference_elapsed reference_hz : Z) : Result Z CalibrationError :=
  if ticks_elapsed =? 0 then Err NoTicksElapsed else
  if reference_elapsed =? 0 then Err NoReferenceInterval else
  let derived := (ticks_elapsed * reference_hz) / reference_elapsed in
  if MAX_PLAUSIBLE_TSC_HZ <? derived then Err (ImplausiblyFast derived) else
  let derived := wrap 64 derived in
  if derived =? 0 then Err (ImplausiblySlow derived) else
  if derived <? MIN_PLAUSIBLE_TSC_HZ then Err (ImplausiblySlow derived) else
  Ok derived.

Record Calibration := { tsc_hz : Z; boot_ticks : Ticks; boot_unix_nanos : Z }.

Definition Calibration_monotonic (c : Calibration) (now : Ticks) : Monotonic :=
  let elapsed := saturating_sub now (boot_ticks c) in
  let nanos := (elapsed * NANOS_PER_SECOND) / tsc_hz c in
  if u64_max <? nanos then u64_max else wrap 64 nanos.

Definition Calibration_utc (c : Calibration) (now : Ticks) : UtcNanos :=
  saturating_add 64 (boot_unix_nanos c) (Calibration_monotonic c now).

(** ** The civil calendar *)
Definition civil_from_days (days : Z) : Z * Z * Z :=
  let shifted := days + DAYS_FROM_SHIFTED_EPOCH_TO_UNIX in
  let era := shifted / DAYS_PER_ERA in
  let day_of_era := wrap 64 (shifted - era * DAYS_PER_ERA) in
  let era := wrap 64 era in
  let year_of_era := (day_of_era - day_of_era / DAYS_PER_4_YEARS + day_of_era / DAYS_PER_CENTURY
                      - day_of_era / DAYS_PER_ERA_LESS_ONE) / DAYS_PER_COMMON_YEAR in
  let shifted_year := year_of_era + era * YEARS_PER_ERA in
  let day_of_year :=
    day_of_era - (DAYS_PER_COMMON_YEAR * year_of_era + year_of_era / 4 - year_of_era / 100) in
  let month_index := (5 * day_of_year + 2) / 153 in
  let day := day_of_year - (153 * month_index + 2) / 5 + 1 in
  let month := if month_index <? 10 then month_index + 3 else month_index - 9 in
  let year := if month <=? 2 then shifted_year + 1 else shifted_year in
  (year, month, day).

Definition days_from_civil (year month day : Z) : Z :=
  let shifted_year := if month <=? 2 then year - 1 else year in
  let era := shifted_year / YEARS_PER_ERA in
  let year_of_era := shifted_year - era * YEARS_PER_ERA in
  let month_index := if 2 <? month then month - 3 else month + 9 in
  let day_of_year := (153 * month_index + 2) / 5 + day - 1 in
  let day_of_era :=
    year_of_era * DAYS_PER_COMMON_YEAR + year_of_era / 4 - year_of_era / 100 + day_of_year in
  era * DAYS_PER_ERA + day_of_era - DAYS_FROM_SHIFTED_EPOCH_TO_UNIX.

Definition is_leap_year (year : Z) : bool :=
  (year mod 4 =? 0) && (negb (year mod 100 =? 0) || (year mod YEARS_PER_ERA =? 0)).

Definition days_in_month (year month : Z) : Z :=
  if bool_decide (month ∈ [1; 3; 5; 7; 8; 10; 12]) then 31
  else if bool_decide (month ∈ [4; 6; 9; 11]) then 30
  else if month =? 2 then (if is_leap_year year then 29 else 28)
  else 0.

Record CivilTime := {
  year : Z; month : Z; day : Z; hour : Z; minute : Z; second : Z; nanosecond : Z
}.

Inductive CivilTimeError :=
| BeforeEpoch (year : Z)
| MonthOutOfRange (month : Z)
| DayOutOfRange (year month day : Z)
| HourOutOfRange (hour : Z)
| MinuteOutOfRange (minute : Z)
| SecondOutOfRange (second : Z)
| NanosecondOutOfRange (nanosecond : Z).

Definition CivilTime_from_utc (time : UtcNanos) : CivilTime :=
  let nanos_of_day := time mod NANOS_PER_DAY in
  let seconds_of_day := nanos_of_day / NANOS_PER_SECOND in
  let '(y, mo, d) := civil_from_days (time / NANOS_PER_DAY) in
  {| year := wrap 16 y; month := wrap 8 mo; day := wrap 8 d;
     hour := wrap 8 (seconds_of_day / SECONDS_PER_HOUR);
     minute := wrap 8 (seconds_of_day / SECONDS_PER_MINUTE mod SECONDS_PER_MINUTE);
     second := wrap 8 (seconds_of_day mod SECONDS_PER_MINUTE);
     nanosecond := wrap 32 (nanos_of_day mod NANOS_PER_SECOND) |}.

Definition CivilTime_to_unix_seconds (c : CivilTime) : Result Z CivilTimeError :=
  if year c <? UNIX_EPOCH_YEAR then Err (BeforeEpoch (year c)) else
  if (month c =? 0) || (12 <? month c) then Err (MonthOutOfRange (month c)) else
  if (day c =? 0) || (days_in_month (year c) (month c) <? day c)
  then Err (DayOutOfRange (year c) (month c) (day c)) else
  if 23 <? hour c then Err (HourOutOfRange (hour c)) else
  if 59 <? minute c then Err (MinuteOutOfRange (minute c)) else
  if 59 <? second c then Err (SecondOutOfRange (second c)) else
  if NANOS_PER_SECOND <=? nanosecond c then Err (NanosecondOutOfRange (nanosecond c)) else
  let days := days_from_civil (year c) (month c) (day c) in
  Ok (days * SECONDS_PER_DAY + hour c * SECONDS_PER_HOUR + minute c * SECONDS_PER_MINUTE
      + second c).

Definition year_start_unix_nanos (y : Z) : option Z :=
  match CivilTime_to_unix_seconds
          {| year := y; month := 1; day := 1; hour := 0; minute := 0; second := 0;
             nanosecond := 0 |} with
  | Ok seconds => Some (seconds * NANOS_PER_SECOND)
  | Err _ => None
  end.

(** The two bounds are evaluated when the crate is built. *)
Definition MIN_PLAUSIBLE_UNIX_NANOS : Z :=
  default 0 (year_start_unix_nanos MIN_PLAUSIBLE_EPOCH_YEAR).
Definition MAX_PLAUSIBLE_UNIX_NANOS : Z :=
  default 0 (year_start_unix_nanos (MAX_PLAUSIBLE_EPOCH_YEAR + 1)) - 1.

Definition epoch_is_plausible (unix_nanos : Z) : bool :=
  (MIN_PLAUSIBLE_UNIX_NANOS <=? unix_nanos) && (unix_nanos <=? MAX_PLAUSIBLE_UNIX_NANOS).

(** ** RFC 3339 *)
Definition digit (value place : Z) : Z := 48 + wrap 8 (value / place mod 10).
Definition two_digits (value : Z) : list Z := [digit value 10; digit value 1].
Definition four_digits (value : Z) : list Z :=
  [digit value 1000; digit value 100; digit value 10; digit value 1].
Definition nine_digits (value : Z) : list Z :=
  [digit value 100000000; digit value 10000000; digit value 1000000; digit value 100000;
   digit value 10000; digit value 1000; digit value 100; digit value 10; digit value 1].

(** The separators are ['-'], ['T'], [':'], ['.'] and ['Z']. *)
Definition render_rfc3339 (time : UtcNanos) : list Z :=
  let c := CivilTime_from_utc time in
  four_digits (year c) ++ [45] ++ two_digits (month c) ++ [45] ++ two_digits (day c) ++ [84]
  ++ two_digits (hour c) ++ [58] ++ two_digits (minute c) ++ [58] ++ two_digits (second c)
  ++ [46] ++ nine_digits (nanosecond c) ++ [90].

(** ** The era decomposition *)

(** Days before the shifted year [y] of an era, the year opening on 1 March. *)
Definition year_start (y : Z) : Z := 365 * y + y / 4 - y / 100.

(** The year recovered from a day of the era contains that day; the last year of
    an era is the one with 366 days the century rule restores. *)
Lemma year_of_era_spec doe y :
  0 ≤ doe < 146097 →
  y = (doe - doe / 1460 + doe / 36524 - doe / 146096) / 365 →
  0 ≤ y < 400 ∧ year_start y ≤ doe
  ∧ doe ≤ year_start y + 364 + (if is_leap_year (y + 1) then 1 else 0).
Proof.
  intros Hd Hy. unfold year_start, is_leap_year. unfold_clock.
  assert (doe / 36524 = 0 ∨ doe / 36524 = 1 ∨ doe / 36524 = 2 ∨ doe / 36524 = 3 ∨ doe / 36524 = 4)
    as Hc by (Z.div_mod_to_equations; lia).
  assert (doe / 146096 = 0 ∨ doe / 146096 = 1) as He by (Z.div_mod_to_equations; lia).
  repeat destruct Hc as [Hc|Hc]; destruct He as [He|He]; rewrite Hc, He in Hy;
    (split; [Z.div_mod_to_equations; lia|]); (split; [Z.div_mod_to_equations; lia|]).
  all: repeat case_match; Z.div_mod_to_equations; lia.
Qed.

Lemma year_start_mono a b : 0 ≤ a → a ≤ b → year_start a ≤ year_start b.
Proof. unfold year_start. intros. Z.div_mod_to_equations. lia. Qed.

Lemma year_start_succ y :
  0 ≤ y < 400 →
  year_start y + 365 + (if is_leap_year (y + 1) then 1 else 0)
  = year_start (y + 1) + (if y =? 399 then 1 else 0).
Proof.
  intros. unfold year_start, is_leap_year. unfold_clock.
  destruct (Z.eqb_spec y 399) as [->|]; [done|]. repeat case_match; Z.div_mod_to_equations; lia.
Qed.

(** The year of the era is the one whose days enclose the day. *)
Lemma year_of_era_unique doe y :
  0 ≤ y < 400 → year_start y ≤ doe ≤ year_start y + 364 + (if is_leap_year (y + 1) then 1 else 0) →
  (doe - doe / 1460 + doe / 36524 - doe / 146096) / 365 = y ∧ 0 ≤ doe < 146097.
Proof.
  intros Hy Hd. pose proof (year_start_succ y Hy) as Hs.
  assert (year_start (y + 1) ≤ 146096) as Hle.
  { change 146096 with (year_start 400). apply year_start_mono; lia. }
  assert (0 ≤ year_start y) by (change 0 with (year_start 0); apply year_start_mono; lia).
  assert (0 ≤ doe < 146097) as Hdoe.
  { split; [lia|]. destruct (Z.eqb_spec y 399) as [->|]; [|lia].
    unfold year_start in *. change ((399 + 1) / 4) with 100 in *. change ((399 + 1) / 100) with 4 in *. lia. }
  split; [|done].
  destruct (year_of_era_spec doe _ Hdoe eq_refl) as (Hy' & H1 & H2).
  set (y' := _ / 365) in *. clearbody y'.
  pose proof (year_start_succ y' Hy') as Hs'.
  destruct (Z.lt_trichotomy y' y) as [Hlt|[->|Hlt]]; [|done|].
  - pose proof (year_start_mono (y' + 1) y ltac:(lia) ltac:(lia)).
    destruct (Z.eqb_spec y' 399); lia.
  - pose proof (year_start_mono (y + 1) y' ltac:(lia) ltac:(lia)).
    destruct (Z.eqb_spec y 399); lia.
Qed.

(** The month of a shifted year and the first day of it. *)
Definition month_start (mi : Z) : Z := (153 * mi + 2) / 5.

Lemma month_of_year_spec doy :
  0 ≤ doy ≤ 365 →
  0 ≤ (5 * doy + 2) / 153 ≤ 11
  ∧ month_start ((5 * doy + 2) / 153) ≤ doy < month_start ((5 * doy + 2) / 153 + 1).
Proof. intros. unfold month_start. Z.div_mod_to_equations. lia. Qed.

Lemma month_of_year_unique doy mi :
  0 ≤ mi ≤ 11 → month_start mi ≤ doy < month_start (mi + 1) → (5 * doy + 2) / 153 = mi.
Proof. unfold month_start. intros. Z.div_mod_to_equations. lia. Qed.

Lemma days_in_month_cases y m :
  days_in_month y m =
  if (m =? 1) || (m =? 3) || (m =? 5) || (m =? 7) || (m =? 8) || (m =? 10) || (m =? 12) then 31
  else if (m =? 4) || (m =? 6) || (m =? 9) || (m =? 11) then 30
  else if m =? 2 then (if is_leap_year y then 29 else 28) else 0.
Proof.
  unfold days_in_month. repeat case_bool_decide; repeat case_match; try done;
    set_unfold; lia.
Qed.

Lemma is_leap_year_era y era : is_leap_year (y + era * 400) = is_leap_year y.
Proof.
  unfold is_leap_year, YEARS_PER_ERA.
  replace ((y + era * 400) mod 4) with (y mod 4) by (Z.div_mod_to_equations; lia).
  replace ((y + era * 400) mod 100) with (y mod 100) by (Z.div_mod_to_equations; lia).
  by rewrite Z.mod_add.
Qed.

(** A date the calendar has. *)
Definition date_ok (y m d : Z) : Prop := 1 ≤ m ≤ 12 ∧ 1 ≤ d ≤ days_in_month y m.

Lemma civil_from_days_eq days :
  0 ≤ days < 2 ^ 64 →
  let shifted := days + 719468 in
  let doe := shifted mod 146097 in
  let yoe := (doe - doe / 1460 + doe / 36524 - doe / 146096) / 365 in
  let doy := doe - year_start yoe in
  let mi := (5 * doy + 2) / 153 in
  let m := if mi <? 10 then mi + 3 else mi - 9 in
  civil_from_days days =
    (yoe + shifted / 146097 * 400 + (if m <=? 2 then 1 else 0), m, doy - month_start mi + 1).
Proof.
  intros Hd shifted doe yoe doy mi m. unfold civil_from_days, month_start, wrap. unfold_clock.
  fold shifted. change (2 ^ 64) with 18446744073709551616 in *.
  assert (shifted - shifted / 146097 * 146097 = doe) as -> by (subst doe; Z.div_mod_to_equations; lia).
  rewrite (Z.mod_small doe) by (subst doe; Z.div_mod_to_equations; lia).
  rewrite (Z.mod_small (shifted / 146097)) by (subst shifted; Z.div_mod_to_equations; lia).
  fold yoe. unfold year_start in doy. fold doy. fold mi. fold m.
  f_equal. f_equal. destruct (m <=? 2); lia.
Qed.

Lemma civil_from_days_valid days y m d :
  0 ≤ days < 2 ^ 64 → civil_from_days days = (y, m, d) →
  date_ok y m d ∧ days_from_civil y m d = days.
Proof.
  intros Hd. rewrite civil_from_days_eq by done. cbv zeta.
  set (shifted := days + 719468). set (doe := shifted mod 146097).
  assert (0 ≤ doe < 146097) as Hdoe by (subst doe; Z.div_mod_to_equations; lia).
  destruct (year_of_era_spec doe _ Hdoe eq_refl) as (Hy & H1 & H2).
  set (yoe := (_ - doe / 146096) / 365) in *. set (doy := doe - year_start yoe).
  assert (0 ≤ doy ≤ 364 + (if is_leap_year (yoe + 1) then 1 else 0)) as Hdoy by (subst doy; lia).
  destruct (month_of_year_spec doy) as [Hmi Hms]; [case_match; lia|].
  set (mi := (5 * doy + 2) / 153) in *. set (era := shifted / 146097).
  assert (shifted = era * 146097 + doe) as Hsh by (subst era doe; Z.div_mod_to_equations; lia).
  intros [= <- <- <-]. split.
  - unfold date_ok. rewrite days_in_month_cases.
    pose proof (is_leap_year_era (yoe + 1) era) as Hleap.
    replace (yoe + 1 + era * 400) with (yoe + era * 400 + 1) in Hleap by lia.
    clearbody mi doy yoe era. unfold month_start in *.
    assert (mi = 0 ∨ mi = 1 ∨ mi = 2 ∨ mi = 3 ∨ mi = 4 ∨ mi = 5 ∨ mi = 6 ∨ mi = 7 ∨ mi = 8 ∨ mi = 9
            ∨ mi = 10 ∨ mi = 11) as Hin by lia.
    repeat destruct Hin as [-> | Hin]; [..|subst mi];
      simpl Z.ltb; cbv iota; simpl Z.leb; cbv iota; simpl; rewrite ?Hleap;
      try case_match; Z.div_mod_to_equations; lia.
  - unfold days_from_civil. unfold_clock.
    set (m := if mi <? 10 then mi + 3 else mi - 9).
    assert ((m <=? 2) = negb (mi <? 10) ∧ (2 <? m) = (mi <? 10)
            ∧ (if mi <? 10 then m - 3 else m + 9) = mi) as (-> & -> & ->).
    { subst m. destruct (Z.ltb_spec mi 10); simpl; lia. }
    replace (if negb (mi <? 10) then yoe + era * 400 + (if negb (mi <? 10) then 1 else 0) - 1
             else yoe + era * 400 + (if negb (mi <? 10) then 1 else 0))
      with (yoe + era * 400) by (destruct (mi <? 10); simpl; lia).
    assert ((yoe + era * 400) / 400 = era) as -> by (Z.div_mod_to_equations; lia).
    replace (yoe + era * 400 - era * 400) with yoe by lia.
    fold (month_start mi). unfold year_start in doy.
    subst shifted doy. lia.
Qed.

Lemma days_in_month_shifted y m d :
  date_ok y m d →
  let mi := if 2 <? m then m - 3 else m + 9 in
  0 ≤ mi ≤ 11 ∧ month_start mi ≤ month_start mi + d - 1 < month_start (mi + 1)
  ∧ month_start mi + d - 1 ≤ 364 + (if is_leap_year y then 1 else 0)
  ∧ (2 < m → month_start mi + d - 1 ≤ 305).
Proof.
  intros [Hm Hd] mi. rewrite days_in_month_cases in Hd. unfold month_start.
  assert (m = 1 ∨ m = 2 ∨ m = 3 ∨ m = 4 ∨ m = 5 ∨ m = 6 ∨ m = 7 ∨ m = 8 ∨ m = 9
          ∨ m = 10 ∨ m = 11 ∨ m = 12) as Hin by lia.
  repeat destruct Hin as [-> | Hin]; [..|subst m]; simpl in *;
    repeat case_match; Z.div_mod_to_equations; lia.
Qed.

Lemma civil_from_days_from_civil y m d :
  1970 ≤ y < 65536 → date_ok y m d →
  civil_from_days (days_from_civil y m d) = (y, m, d) ∧ 0 ≤ days_from_civil y m d < 2 ^ 64.
Proof.
  intros Hy Hok. destruct (days_in_month_shifted y m d Hok) as (Hmi & Hms & Hle & Hle2).
  destruct Hok as [Hm Hd].
  set (mi := if 2 <? m then m - 3 else m + 9) in *.
  set (sy := if m <=? 2 then y - 1 else y). set (era := sy / 400). set (yoe := sy - era * 400).
  assert (0 ≤ yoe < 400) as Hyoe by (subst yoe era; Z.div_mod_to_equations; lia).
  assert (4 ≤ era ≤ 163) as Hera by (subst era sy; destruct (m <=? 2); Z.div_mod_to_equations; lia).
  set (doy := month_start mi + d - 1) in *. set (doe := year_start yoe + doy).
  assert (days_from_civil y m d = era * 146097 + doe - 719468) as Hdays.
  { unfold days_from_civil. unfold_clock. fold sy era mi. fold (month_start mi).
    subst doe doy yoe. unfold year_start. lia. }
  assert (doe ≤ year_start yoe + 364 + (if is_leap_year (yoe + 1) then 1 else 0)) as Hdoe.
  { subst doe. destruct (Z.leb_spec m 2).
    - rewrite <-(is_leap_year_era _ era). replace (yoe + 1 + era * 400) with y by (subst yoe sy; lia). lia.
    - specialize (Hle2 ltac:(lia)). destruct (is_leap_year (yoe + 1)); lia. }
  assert (0 ≤ doy) by (subst doy; unfold month_start in *; Z.div_mod_to_equations; lia).
  destruct (year_of_era_unique doe yoe Hyoe ltac:(subst doe; lia)) as [Hyeq Hrange].
  assert (719468 ≤ era * 146097 + doe) as Hnn.
  { assert (730485 ≤ era * 146097 ∨ era = 4) as [|Hera4] by lia; [lia|].
    assert (369 ≤ yoe) as Hylo by (subst yoe sy; destruct (m <=? 2); lia).
    subst doe. destruct (Z.leb_spec m 2) as [Hm2|Hm2].
    - pose proof (year_start_mono 369 yoe ltac:(lia) Hylo) as Hys.
      change (year_start 369) with 134774 in Hys.
      assert (306 ≤ doy) by (subst doy mi; destruct (Z.ltb_spec 2 m); [lia|];
        unfold month_start; Z.div_mod_to_equations; lia). lia.
    - assert (370 ≤ yoe) as Hylo' by (subst yoe sy; destruct (Z.leb_spec m 2); lia).
      pose proof (year_start_mono 370 yoe ltac:(lia) Hylo') as Hys.
      change (year_start 370) with 135139 in Hys. lia. }
  rewrite Hdays. change (2 ^ 64) with 18446744073709551616.
  split; [|lia]. rewrite civil_from_days_eq by (change (2 ^ 64) with 18446744073709551616; lia).
  cbv zeta.
  replace (era * 146097 + doe - 719468 + 719468) with (doe + era * 146097) by lia.
  rewrite Z.mod_add, Z.div_add by lia. rewrite (Z.mod_small doe 146097), (Z.div_small doe 146097) by lia.
  rewrite Hyeq. replace (doe - year_start yoe) with doy by (subst doe; lia).
  rewrite (month_of_year_unique doy mi) by (done || lia).
  assert ((if mi <? 10 then mi + 3 else mi - 9) = m) as ->
    by (subst mi; destruct (Z.ltb_spec 2 m);
        [destruct (Z.ltb_spec (m - 3) 10)|destruct (Z.ltb_spec (m + 9) 10)]; lia).
  f_equal; [f_equal|subst doy; lia]. subst yoe sy. destruct (m <=? 2); lia.
Qed.

(** The calendar conversion is a bijection: every day count gives a date that
    exists and converts back to that count, and every date from the epoch on that
    exists is the one its own count gives. *)
Theorem civil_calendar_bijective days y m d :
  (0 ≤ days < 2 ^ 64 → civil_from_days days = (y, m, d) →
     date_ok y m d ∧ days_from_civil y m d = days)
  ∧ (UNIX_EPOCH_YEAR ≤ y ≤ u16_max → date_ok y m d →
     civil_from_days (days_from_civil y m d) = (y, m, d)).
Proof.
  split; [apply civil_from_days_valid|]. intros Hy Hok.
  apply civil_from_days_from_civil; [unfold u16_max, UNIX_EPOCH_YEAR in *; lia|done].
Qed.

(** ** Instants and civil times *)

(** Every [u64] nanosecond count falls in a four-digit year. *)
Lemma civil_year_bound days y m d :
  0 ≤ days ≤ 213503 → civil_from_days days = (y, m, d) → 1970 ≤ y ≤ 2554.
Proof.
  intros Hd. rewrite civil_from_days_eq by (change (2 ^ 64) with 18446744073709551616; lia).
  cbv zeta. set (shifted := days + 719468). set (doe := shifted mod 146097).
  assert (0 ≤ doe < 146097) as Hdoe by (subst doe; Z.div_mod_to_equations; lia).
  destruct (year_of_era_spec doe _ Hdoe eq_refl) as (Hy & H1 & H2).
  set (yoe := (_ - doe / 146096) / 365) in *. set (doy := doe - year_start yoe).
  destruct (month_of_year_spec doy) as [Hmi Hms]; [subst doy; case_match; lia|].
  set (mi := (5 * doy + 2) / 153) in *. set (era := shifted / 146097).
  assert (shifted = era * 146097 + doe) as Hsh by (subst era doe; Z.div_mod_to_equations; lia).
  intros [= <- <- <-]. assert (era = 4 ∨ era = 5 ∨ era = 6) as He by lia.
  clearbody mi era. unfold month_start, year_start in *. subst shifted doy.
  repeat destruct He as [->|He]; [..|subst era]; repeat case_match; Z.div_mod_to_equations; lia.
Qed.

Lemma from_utc_fields t :
  is_u64 t →
  ∃ y m d, civil_from_days (t / NANOS_PER_DAY) = (y, m, d) ∧ date_ok y m d
  ∧ days_from_civil y m d = t / NANOS_PER_DAY ∧ 1970 ≤ y ≤ 2554
  ∧ CivilTime_from_utc t =
      {| year := y; month := m; day := d;
         hour := t mod NANOS_PER_DAY / NANOS_PER_SECOND / 3600;
         minute := t mod NANOS_PER_DAY / NANOS_PER_SECOND / 60 mod 60;
         second := t mod NANOS_PER_DAY / NANOS_PER_SECOND mod 60;
         nanosecond := t mod NANOS_PER_DAY mod NANOS_PER_SECOND |}.
Proof.
  intros Ht. unfold CivilTime_from_utc.
  assert (0 ≤ t / NANOS_PER_DAY ≤ 213503) as Hd by (unfold_clock; ints).
  destruct (civil_from_days (t / NANOS_PER_DAY)) as [[y m] d] eqn:E.
  exists y, m, d. split; [done|].
  destruct (civil_from_days_valid (t / NANOS_PER_DAY) y m d ltac:(unfold_ints; lia) E) as [Hok Hback].
  pose proof (civil_year_bound _ _ _ _ Hd E) as Hy. split_all; try done; [lia..|].
  destruct Hok as [Hm Hdd]. rewrite days_in_month_cases in Hdd.
  assert (d ≤ 31) by (repeat case_match; lia).
  unfold wrap. f_equal; apply Z.mod_small; unfold_clock; unfold_ints; try lia;
    Z.div_mod_to_equations; lia.
Qed.

(** The inverse accepts what [CivilTime_from_utc] produces. *)
Lemma from_utc_accepted t :
  is_u64 t →
  CivilTime_to_unix_seconds (CivilTime_from_utc t) = Ok (UtcNanos_unix_seconds t)
  ∧ UtcNanos_unix_seconds t * NANOS_PER_SECOND + nanosecond (CivilTime_from_utc t) = t.
Proof.
  intros Ht. destruct (from_utc_fields t Ht) as (y & m & d & _ & [Hm Hd] & Hback & Hy & ->).
  unfold CivilTime_to_unix_seconds, UtcNanos_unix_seconds. simpl. rewrite Hback. unfold_clock.
  rewrite (proj2 (Z.ltb_ge y 1970)) by lia.
  assert ((m =? 0) || (12 <? m) = false) as -> by lia.
  assert ((d =? 0) || (days_in_month y m <? d) = false) as -> by lia.
  rewrite !(proj2 (Z.ltb_ge _ _)) by (unfold_ints; Z.div_mod_to_equations; lia).
  rewrite (proj2 (Z.leb_gt _ _)) by (Z.div_mod_to_equations; lia).
  split; [f_equal|]; Z.div_mod_to_equations; lia.
Qed.

Lemma accepted_fields c s :
  0 ≤ year c → 0 ≤ month c → 0 ≤ day c →
  CivilTime_to_unix_seconds c = Ok s →
  1970 ≤ year c ∧ date_ok (year c) (month c) (day c)
  ∧ hour c ≤ 23 ∧ minute c ≤ 59 ∧ second c ≤ 59 ∧ nanosecond c < NANOS_PER_SECOND
  ∧ s = days_from_civil (year c) (month c) (day c) * 86400
        + hour c * 3600 + minute c * 60 + second c.
Proof.
  intros Hy Hm Hd. unfold CivilTime_to_unix_seconds, date_ok, UNIX_EPOCH_YEAR.
  repeat (case_match; [done|]). intros [= <-].
  unfold SECONDS_PER_DAY, SECONDS_PER_HOUR, SECONDS_PER_MINUTE. split_all; lia.
Qed.

(** Instants and civil times convert exactly into one another. The civil time of
    every [u64] instant is accepted by the inverse, which gives back the instant's
    whole seconds; and a civil time the inverse accepts, whose instant a [u64] can
    count in nanoseconds, is the civil time of that instant. *)
Theorem civil_time_round_trip t c s :
  (is_u64 t →
     CivilTime_to_unix_seconds (CivilTime_from_utc t) = Ok (UtcNanos_unix_seconds t)
     ∧ UtcNanos_unix_seconds t * NANOS_PER_SECOND + nanosecond (CivilTime_from_utc t) = t)
  ∧ (is_u16 (year c) → is_u8 (month c) → is_u8 (day c) → is_u8 (hour c) → is_u8 (minute c) →
     is_u8 (second c) → is_u32 (nanosecond c) →
     CivilTime_to_unix_seconds c = Ok s → is_u64 (s * NANOS_PER_SECOND + nanosecond c) →
     CivilTime_from_utc (s * NANOS_PER_SECOND + nanosecond c) = c).
Proof.
  split; [apply from_utc_accepted|]. intros Hy Hmo Hd Hh Hmi Hse Hn Hs Ht.
  destruct (accepted_fields c s) as (Hy' & Hok & Hh' & Hmi' & Hse' & Hn' & Heq);
    [unfold_ints; lia..|done|].
  destruct (civil_from_days_from_civil (year c) (month c) (day c)) as [Hcivil Hdays];
    [unfold_ints; lia|done|].
  set (days := days_from_civil (year c) (month c) (day c)) in *.
  set (t' := s * NANOS_PER_SECOND + nanosecond c) in *.
  assert (t' / NANOS_PER_DAY = days ∧ t' mod NANOS_PER_DAY
          = (hour c * 3600 + minute c * 60 + second c) * 1000000000 + nanosecond c) as [Hq Hr].
  { clearbody days. subst t' s. clear Hcivil Hok Hs Ht.
    unfold_clock. unfold_ints. Z.div_mod_to_equations. lia. }
  destruct (from_utc_fields t' Ht) as (y & m & d & Hc & _ & _ & _ & ->).
  rewrite Hq, Hcivil in Hc. injection Hc as <- <- <-. rewrite Hr.
  clear - Hh Hmi Hse Hn Hh' Hmi' Hse' Hn'. destruct c as [y m d h mi se ns]. simpl in *.
  unfold_clock. unfold_ints. f_equal; Z.div_mod_to_equations; lia.
Qed.

(** ** Counter readings *)

(** A frequency [calibrate] answers is the exact truncated quotient, and plausible. *)
Lemma calibrate_ok ticks elapsed hz f :
  is_u64 ticks → is_u64 elapsed → 0 < hz →
  calibrate ticks elapsed hz = Ok f ↔
  ticks ≠ 0 ∧ elapsed ≠ 0 ∧ f = ticks * hz / elapsed
  ∧ MIN_PLAUSIBLE_TSC_HZ ≤ f ≤ MAX_PLAUSIBLE_TSC_HZ.
Proof.
  intros Ht He Hh. unfold calibrate. unfold_clock.
  destruct (Z.eqb_spec ticks 0); [split; [done|tauto]|].
  destruct (Z.eqb_spec elapsed 0); [split; [done|tauto]|].
  assert (0 ≤ ticks * hz / elapsed) by (apply Z.div_pos; unfold_ints; nia).
  destruct (Z.ltb_spec 100000000000 (ticks * hz / elapsed)); [split; [done|lia]|].
  unfold wrap. rewrite Z.mod_small by (change (2 ^ 64) with 18446744073709551616; lia).
  set (q := ticks * hz / elapsed) in *.
  destruct (Z.eqb_spec q 0); [split; [done|lia]|].
  destruct (Z.ltb_spec q 10000000); [split; [done|lia]|].
  split; [intros [= <-]; lia|]. by intros (_ & _ & -> & _).
Qed.

Lemma Calibration_monotonic_eq c now :
  0 < tsc_hz c →
  Calibration_monotonic c now
  = Z.min u64_max (Z.max 0 (now - boot_ticks c) * NANOS_PER_SECOND / tsc_hz c).
Proof.
  intros Hz. unfold Calibration_monotonic, saturating_sub, wrap. unfold_clock.
  set (n := _ / tsc_hz c). assert (0 ≤ n) by (apply Z.div_pos; lia).
  destruct (Z.ltb_spec u64_max n); [lia|]. rewrite Z.mod_small; unfold_ints; lia.
Qed.

(** A calibration [calibrate] yields makes a clock that never runs backwards
    and never wraps: later readings give later-or-equal uptimes and wall-clock
    instants, all within [u64], a reading before boot gives zero, and one second
    of ticks is one second of nanoseconds. *)
Theorem clock_monotone ticks elapsed ref boot epoch hz :
  is_u64 ticks → is_u64 elapsed → 0 < ref → is_u64 epoch →
  calibrate ticks elapsed ref = Ok hz →
  let c := {| tsc_hz := hz; boot_ticks := boot; boot_unix_nanos := epoch |} in
  (∀ t1 t2, t1 ≤ t2 → Calibration_monotonic c t1 ≤ Calibration_monotonic c t2
                      ∧ Calibration_utc c t1 ≤ Calibration_utc c t2)
  ∧ (∀ t, is_u64 (Calibration_monotonic c t) ∧ is_u64 (Calibration_utc c t))
  ∧ (∀ t, t ≤ boot → Calibration_monotonic c t = 0)
  ∧ (∀ n, 0 ≤ n ≤ 18446744073 →
      Calibration_monotonic c (boot + n * hz) = n * NANOS_PER_SECOND).
Proof.
  intros Ht He Hr Hep (_ & _ & _ & Hhz)%calibrate_ok c; [|done..].
  assert (0 < tsc_hz c) as Hpos by (subst c; unfold_clock; simpl; lia).
  assert (∀ t, 0 ≤ Z.max 0 (t - boot) * NANOS_PER_SECOND / hz) as Hnn.
  { intros. apply Z.div_pos; [unfold_clock; lia|done]. }
  unfold Calibration_utc. setoid_rewrite Calibration_monotonic_eq; [|done..].
  subst c. simpl in *. split_all.
  - intros t1 t2 Hle.
    assert (Z.max 0 (t1 - boot) * NANOS_PER_SECOND / hz ≤ Z.max 0 (t2 - boot) * NANOS_PER_SECOND / hz).
    { apply Z.div_le_mono; [lia|]. unfold_clock. lia. }
    unfold saturating_add. lia.
  - intros t. specialize (Hnn t). unfold_ints. lia.
  - intros t Hle. rewrite Z.max_l by lia. rewrite Z.div_0_l by lia. unfold u64_max. lia.
  - intros n Hn. replace (boot + n * hz - boot) with (n * hz) by lia.
    rewrite Z.max_r by nia.
    replace (n * hz * NANOS_PER_SECOND) with (n * NANOS_PER_SECOND * hz) by lia.
    rewrite Z.div_mul by lia. unfold_clock. unfold u64_max. lia.
Qed.

(** ** RFC 3339 *)

(** The number a run of ASCII digits writes. *)
Definition digits_value (ds : list Z) : Z := foldl (λ n b, n * 10 + (b - 48)) 0 ds.

(** Reading an instant back at the fixed offsets of the format. *)
Definition rfc3339_fields (s : list Z) : CivilTime :=
  {| year := digits_value (take 4 s); month := digits_value (take 2 (drop 5 s));
     day := digits_value (take 2 (drop 8 s)); hour := digits_value (take 2 (drop 11 s));
     minute := digits_value (take 2 (drop 14 s)); second := digits_value (take 2 (drop 17 s));
     nanosecond := digits_value (take 9 (drop 20 s)) |}.

Lemma digit_value v p : 48 + wrap 8 (v / p mod 10) - 48 = v / p mod 10.
Proof.
  unfold wrap. rewrite (Z.mod_small (_ mod 10)); [lia|].
  pose proof (Z.mod_pos_bound (v / p) 10). change (2 ^ 8) with 256. lia.
Qed.

Lemma digits_value_two v : 0 ≤ v < 100 → digits_value (two_digits v) = v.
Proof.
  intros. unfold digits_value, two_digits, digit. simpl. rewrite !digit_value.
  Z.div_mod_to_equations. lia.
Qed.

Lemma digits_value_four v : 0 ≤ v < 10000 → digits_value (four_digits v) = v.
Proof.
  intros. unfold digits_value, four_digits, digit. simpl. rewrite !digit_value.
  Z.div_mod_to_equations. lia.
Qed.

Lemma digits_value_nine v : 0 ≤ v < 1000000000 → digits_value (nine_digits v) = v.
Proof.
  intros. unfold digits_value, nine_digits, digit. simpl. rewrite !digit_value.
  Z.div_mod_to_equations. lia.
Qed.

(** An RFC 3339 line identifies its instant: it is thirty characters, every
    field is wide enough for its value, and reading the fields back and converting
    them recovers the instant to the nanosecond. *)
Theorem rfc3339_round_trip t :
  is_u64 t →
  length (render_rfc3339 t) = 30%nat
  ∧ rfc3339_fields (render_rfc3339 t) = CivilTime_from_utc t
  ∧ ∃ s, CivilTime_to_unix_seconds (rfc3339_fields (render_rfc3339 t)) = Ok s
         ∧ s * NANOS_PER_SECOND + nanosecond (rfc3339_fields (render_rfc3339 t)) = t.
Proof.
  intros Ht.
  assert (rfc3339_fields (render_rfc3339 t) = CivilTime_from_utc t) as Heq.
  { destruct (from_utc_fields t Ht) as (y & m & d & _ & [Hm Hd] & _ & Hy & Hc).
    unfold render_rfc3339. rewrite Hc. unfold rfc3339_fields. simpl.
    assert (d ≤ 31) by (rewrite days_in_month_cases in Hd; repeat case_match; lia).
    f_equal; (apply digits_value_two || apply digits_value_four || apply digits_value_nine);
      unfold_clock; Z.div_mod_to_equations; lia. }
  split_all; [done..|]. rewrite Heq. exists (UtcNanos_unix_seconds t).
  by apply from_utc_accepted.
Qed.

