(* ===== verification/SeqNumber.v ===== *)
(** * TCP sequence numbers

    Models [datad/crates/tcp/src/seq.rs]: a point in a 2^32 circle, compared by
    the sign of the wrapping difference. The lemmas state the comparisons over
    distances, which is the form the window checks use them in. *)
From S2P Require Import Prelude.

(** [struct SeqNumber(u32)]. *)
Abbreviation SeqNumber := Z (only parsing).

Definition SeqNumber_add (s : SeqNumber) (count : Z) : SeqNumber := wrapping_add 32 s count.
Definition SeqNumber_sub (s : SeqNumber) (count : Z) : SeqNumber := wrapping_sub 32 s count.

Definition SeqNumber_distance_from (s earlier : SeqNumber) : Z := wrapping_sub 32 s earlier.

Definition SeqNumber_precedes (s other : SeqNumber) : bool := as_i32 (wrapping_sub 32 s other) <? 0.
Definition SeqNumber_follows (s other : SeqNumber) : bool := SeqNumber_precedes other s.
Definition SeqNumber_precedes_or_equals (s other : SeqNumber) : bool :=
  negb (SeqNumber_follows s other).
Definition SeqNumber_follows_or_equals (s other : SeqNumber) : bool :=
  negb (SeqNumber_precedes s other).

Definition SeqNumber_in_window (s start : SeqNumber) (len : Z) : bool :=
  SeqNumber_distance_from s start <? len.

(** ** Comparisons as distances *)

Ltac seqs :=
  unfold SeqNumber_add, SeqNumber_sub, SeqNumber_in_window, SeqNumber_distance_from,
    SeqNumber_follows_or_equals, SeqNumber_precedes_or_equals, SeqNumber_follows,
    SeqNumber_precedes in *.

Lemma SeqNumber_precedes_spec a b :
  SeqNumber_precedes a b = true ↔ 2 ^ 31 ≤ (a - b) mod 2 ^ 32.
Proof.
  unfold SeqNumber_precedes. unfold_ints. case_match; rewrite Z.ltb_lt in *;
    pose proof (Z.mod_pos_bound (a - b) 4294967296); lia.
Qed.

Lemma SeqNumber_follows_spec a b :
  SeqNumber_follows a b = true ↔ 2 ^ 31 ≤ (b - a) mod 2 ^ 32.
Proof. apply SeqNumber_precedes_spec. Qed.

(** Moving a number forward by less than half the space puts it ahead, wrap or not. *)
Lemma SeqNumber_add_follows s n : is_u32 s → 0 < n < 2 ^ 31 → SeqNumber_follows (SeqNumber_add s n) s = true.
Proof. intros. apply SeqNumber_follows_spec. seqs. ints. Qed.

Lemma SeqNumber_add_range s n : is_u32 (SeqNumber_add s n).
Proof. seqs. ints. Qed.

Lemma SeqNumber_sub_range s n : is_u32 (SeqNumber_sub s n).
Proof. seqs. ints. Qed.

#[export] Hint Resolve SeqNumber_add_range SeqNumber_sub_range : lfw.

(** The comparisons are those of RFC 793 over the half-space a window spans:
    numbers [n] apart with [n] below 2^31 compare by their distance wherever the
    circle wraps, exactly one of before, after and equal holds off the antipode,
    and adding a count is undone by measuring the distance back. *)
Theorem seq_order_exact a b n :
  is_u32 a → is_u32 b → is_u32 n →
  SeqNumber_distance_from (SeqNumber_add a n) a = n
  ∧ (0 < n < 2 ^ 31 → SeqNumber_follows (SeqNumber_add a n) a = true
                      ∧ SeqNumber_precedes (SeqNumber_add a n) a = false)
  ∧ (SeqNumber_distance_from a b ≠ 2 ^ 31 →
      (SeqNumber_precedes a b = true ∧ SeqNumber_follows a b = false ∧ a ≠ b)
      ∨ (SeqNumber_precedes a b = false ∧ SeqNumber_follows a b = true ∧ a ≠ b)
      ∨ (SeqNumber_precedes a b = false ∧ SeqNumber_follows a b = false ∧ a = b)).
Proof.
  intros Ha Hb Hn. seqs. unfold_ints. split_all.
  - Z.div_mod_to_equations. lia.
  - intros. split; case_match; Z.div_mod_to_equations; lia.
  - intros. repeat case_match; Z.div_mod_to_equations; lia.
Qed.

