(* ===== verification/FlowKey.v ===== *)
(** * Flow identity

    Models [datad/crates/flow/src/key.rs]: endpoints sorted into a canonical pair,
    so a packet and its reply name one key, and the number a bucket index is taken
    from. *)
From S2P Require Import Prelude NetHeaders.

Record Endpoint := { ep_address : Ipv4Address; ep_port : Z }.
#[export] Instance Endpoint_eq_dec : EqDecision Endpoint.
Proof. solve_decision. Defined.

Definition Endpoint_ordering_key (e : Endpoint) : Z :=
  Z.lor (Z.shiftl (ep_address e) 16) (ep_port e).

Definition Endpoint_precedes_or_equals (a b : Endpoint) : bool :=
  Endpoint_ordering_key a <=? Endpoint_ordering_key b.

Inductive Direction := Original | Reply.
#[export] Instance Direction_eq_dec : EqDecision Direction.
Proof. solve_decision. Defined.

Definition Direction_reversed (d : Direction) : Direction :=
  match d with Original => Reply | Reply => Original end.

Record FlowKey := { key_lower : Endpoint; key_upper : Endpoint; key_protocol : Protocol }.
#[export] Instance FlowKey_eq_dec : EqDecision FlowKey.
Proof. solve_decision. Defined.

Definition FlowKey_of (source destination : Endpoint) (protocol : Protocol) : FlowKey * bool :=
  if Endpoint_precedes_or_equals source destination
  then ({| key_lower := source; key_upper := destination; key_protocol := protocol |}, true)
  else ({| key_lower := destination; key_upper := source; key_protocol := protocol |}, false).

(** Murmur3's [fmix64]. *)
Definition avalanche (value : Z) : Z :=
  let value := Z.lxor value (Z.shiftr value 33) in
  let value := wrapping_mul 64 value 0xff51afd7ed558ccd in
  let value := Z.lxor value (Z.shiftr value 33) in
  let value := wrapping_mul 64 value 0xc4ceb9fe1a85ec53 in
  Z.lxor value (Z.shiftr value 33).

(** The shifts stay inside a [u64]: the operands are at most 32 and 16 bits. *)
Definition FlowKey_hash (k : FlowKey) : Z :=
  let addresses := Z.lor (Z.shiftl (ep_address (key_lower k)) 32) (ep_address (key_upper k)) in
  let ports := Z.lor (Z.lor (Z.shiftl (ep_port (key_lower k)) 48)
                            (Z.shiftl (ep_port (key_upper k)) 32)) (key_protocol k) in
  avalanche (Z.lxor (avalanche addresses) ports).

(** ** Well-formed endpoints and keys *)
Definition Endpoint_ok (e : Endpoint) : Prop := is_u32 (ep_address e) ∧ is_u16 (ep_port e).

(** What every key [FlowKey_of] forms satisfies. *)
Definition FlowKey_ok (k : FlowKey) : Prop :=
  Endpoint_ok (key_lower k) ∧ Endpoint_ok (key_upper k)
  ∧ Endpoint_precedes_or_equals (key_lower k) (key_upper k) = true.

Lemma ordering_key_spec e :
  Endpoint_ok e → Endpoint_ordering_key e = ep_address e * 65536 + ep_port e.
Proof. intros [? ?]. unfold Endpoint_ordering_key. apply lor_shiftl_add; [done|]. ints. Qed.

(** Distinct endpoints never tie. *)
Lemma ordering_key_inj a b :
  Endpoint_ok a → Endpoint_ok b → Endpoint_ordering_key a = Endpoint_ordering_key b → a = b.
Proof.
  intros Ha Hb. rewrite !ordering_key_spec by done.
  destruct a, b, Ha, Hb. simpl in *. intros. f_equal; ints.
Qed.

Lemma FlowKey_of_ok s d p k b :
  Endpoint_ok s → Endpoint_ok d → FlowKey_of s d p = (k, b) → FlowKey_ok k ∧ key_protocol k = p.
Proof.
  unfold FlowKey_of, FlowKey_ok. intros. cases; split_all; try done.
  unfold Endpoint_precedes_or_equals in *. lia.
Qed.

(** Re-forming a canonical pair changes nothing. *)
Lemma FlowKey_of_canonical k :
  FlowKey_ok k → (FlowKey_of (key_lower k) (key_upper k) (key_protocol k)).1 = k.
Proof. intros (? & ? & Hle). unfold FlowKey_of. rewrite Hle. by destruct k. Qed.

#[export] Hint Resolve FlowKey_of_canonical : lfw.

(** A packet and its reply name one flow: swapping the endpoints leaves the
    key, and so its hash, unchanged and flips the orientation, an endpoint
    talking to itself apart; and a key determines the pair it was formed from. *)
Theorem flow_key_orientation_free s d p :
  Endpoint_ok s → Endpoint_ok d →
  (FlowKey_of d s p).1 = (FlowKey_of s d p).1
  ∧ FlowKey_hash (FlowKey_of d s p).1 = FlowKey_hash (FlowKey_of s d p).1
  ∧ (s ≠ d → (FlowKey_of d s p).2 = negb (FlowKey_of s d p).2)
  ∧ ∀ s' d' p', FlowKey_of s' d' p' = FlowKey_of s d p → s' = s ∧ d' = d ∧ p' = p.
Proof.
  intros Hs Hd.
  pose proof (ordering_key_inj s d Hs Hd) as Hinj.
  assert ((FlowKey_of d s p).1 = (FlowKey_of s d p).1) as Hk.
  { unfold FlowKey_of, Endpoint_precedes_or_equals.
    repeat case_match; simpl; try done; [|lia]. rewrite Hinj by lia. done. }
  split_all; [done|by rewrite Hk| |].
  - intros Hne. unfold FlowKey_of, Endpoint_precedes_or_equals.
    repeat case_match; simpl; try done; [|lia]. exfalso. apply Hne, Hinj. lia.
  - intros s' d' p'. unfold FlowKey_of. repeat case_match; intros; by simplify_eq.
Qed.

