(* ===== verification/FlowEntry.v ===== *)
(** * One flow's state

    Models [datad/crates/flow/src/entry.rs] and [timeout.rs]: the states a flow can
    be in and how long each may sit idle, what each direction has sent, and the
    entry a table slot holds. The bit fields are kept as the source keeps them. *)
From S2P Require Import Prelude NetHeaders SeqNumber FlowKey Clock.

Definition NO_SLOT : Z := u32_max.
Definition MAX_ACK_SLACK : Z := 66000.
Definition MAX_WINDOW_SCALE : Z := 14.

Inductive FlowState :=
| Vacant | SynSent | SynReceived | Established | FinWait | CloseWait | Closing | TimeWait | Closed
| UdpUnreplied | UdpAssured | IcmpUnreplied | IcmpReplied.
#[export] Instance FlowState_eq_dec : EqDecision FlowState.
Proof. solve_decision. Defined.

Definition FlowState_ALL : list FlowState :=
  [Vacant; SynSent; SynReceived; Established; FinWait; CloseWait; Closing; TimeWait; Closed;
   UdpUnreplied; UdpAssured; IcmpUnreplied; IcmpReplied].

Definition STATE_COUNT : nat := 13.

(** [self as usize]: the discriminant. *)
Definition FlowState_index (s : FlowState) : nat :=
  match s with
  | Vacant => 0 | SynSent => 1 | SynReceived => 2 | Established => 3 | FinWait => 4
  | CloseWait => 5 | Closing => 6 | TimeWait => 7 | Closed => 8 | UdpUnreplied => 9
  | UdpAssured => 10 | IcmpUnreplied => 11 | IcmpReplied => 12
  end.

Definition FlowState_is_assured (s : FlowState) : bool :=
  match s with
  | Established | FinWait | CloseWait | Closing | UdpAssured | IcmpReplied => true
  | _ => false
  end.

(** ** Timeouts *)
Definition SYN_SENT_TIMEOUT : Duration := Duration_from_millis 30000.
Definition SYN_RECEIVED_TIMEOUT : Duration := Duration_from_millis 30000.
Definition ESTABLISHED_TIMEOUT : Duration := Duration_from_millis 7200000.
Definition FIN_WAIT_TIMEOUT : Duration := Duration_from_millis 60000.
Definition CLOSE_WAIT_TIMEOUT : Duration := Duration_from_millis 60000.
Definition CLOSING_TIMEOUT : Duration := Duration_from_millis 60000.
Definition TIME_WAIT_TIMEOUT : Duration := Duration_from_millis 60000.
Definition CLOSED_TIMEOUT : Duration := Duration_from_millis 10000.
Definition UDP_UNREPLIED_TIMEOUT : Duration := Duration_from_millis 30000.
Definition UDP_ASSURED_TIMEOUT : Duration := Duration_from_millis 120000.
Definition ICMP_TIMEOUT : Duration := Duration_from_millis 30000.

Definition timeout (s : FlowState) : Duration :=
  match s with
  | Vacant => 0
  | SynSent => SYN_SENT_TIMEOUT
  | SynReceived => SYN_RECEIVED_TIMEOUT
  | Established => ESTABLISHED_TIMEOUT
  | FinWait => FIN_WAIT_TIMEOUT
  | CloseWait => CLOSE_WAIT_TIMEOUT
  | Closing => CLOSING_TIMEOUT
  | TimeWait => TIME_WAIT_TIMEOUT
  | Closed => CLOSED_TIMEOUT
  | UdpUnreplied => UDP_UNREPLIED_TIMEOUT
  | UdpAssured => UDP_ASSURED_TIMEOUT
  | IcmpUnreplied | IcmpReplied => ICMP_TIMEOUT
  end.

(** ** One direction *)
Definition DF_SPOKEN : Z := 1.
Definition DF_SYN : Z := 2.
Definition DF_FIN : Z := 4.
Definition DF_FIN_ACKED : Z := 8.
Definition DF_SCALE_OFFERED : Z := 16.

(** [end] is a keyword; the two [reserved] bytes are never read or written. *)
Record DirectionState := {
  end_ : SeqNumber;
  max_end : SeqNumber;
  max_window : Z;
  scale : Z;
  dir_flags : Z
}.
#[export] Instance eta_DirectionState : Eta DirectionState := λ d,
  Build_DirectionState (end_ d) (max_end d) (max_window d) (scale d) (dir_flags d).
#[export] Instance DirectionState_eq_dec : EqDecision DirectionState.
Proof. solve_decision. Defined.

Definition DirectionState_SILENT : DirectionState :=
  {| end_ := 0; max_end := 0; max_window := 0; scale := 0; dir_flags := 0 |}.

Definition has_flag (flags bit : Z) : bool := negb (Z.land flags bit =? 0).

Definition DirectionState_spoken (d : DirectionState) : bool := has_flag (dir_flags d) DF_SPOKEN.
Definition DirectionState_seen_syn (d : DirectionState) : bool := has_flag (dir_flags d) DF_SYN.
Definition DirectionState_seen_fin (d : DirectionState) : bool := has_flag (dir_flags d) DF_FIN.
Definition DirectionState_fin_acknowledged (d : DirectionState) : bool :=
  has_flag (dir_flags d) DF_FIN_ACKED.
Definition DirectionState_scale_offered (d : DirectionState) : bool :=
  has_flag (dir_flags d) DF_SCALE_OFFERED.

(** [self.flags |= bit]. *)
Definition raise_flag (bit : Z) (d : DirectionState) : DirectionState :=
  d <| dir_flags ::= λ f, Z.lor f bit |>.

Definition DirectionState_raise_max_end (d : DirectionState) (edge : SeqNumber) : DirectionState :=
  if SeqNumber_follows edge (max_end d) || negb (DirectionState_spoken d)
  then d <| max_end := edge |> else d.

Definition DirectionState_open (d : DirectionState) (e : SeqNumber) (window : Z) : DirectionState :=
  let d := d <| end_ := e |> in
  let d := d <| max_window := Z.max window 1 |> in
  let d := raise_flag DF_SPOKEN d in
  DirectionState_raise_max_end d e.

Definition DirectionState_extend_end (d : DirectionState) (e : SeqNumber) : DirectionState :=
  if SeqNumber_follows e (end_ d) then d <| end_ := e |> else d.

Definition DirectionState_widen_window (d : DirectionState) (window : Z) : DirectionState :=
  d <| max_window ::= λ w, Z.max (Z.max w window) 1 |>.

Definition DirectionState_note_traffic (d : DirectionState) : DirectionState :=
  raise_flag DF_SPOKEN d.

Definition DirectionState_note_syn (d : DirectionState) (offered_scale : option Z) : DirectionState :=
  let d := raise_flag DF_SYN d in
  match offered_scale with
  | Some shift => (raise_flag DF_SCALE_OFFERED d) <| scale := Z.min shift MAX_WINDOW_SCALE |>
  | None => d
  end.

Definition DirectionState_note_fin (d : DirectionState) : DirectionState := raise_flag DF_FIN d.

Definition DirectionState_note_acknowledged (d : DirectionState) (acknowledgement : SeqNumber)
    : DirectionState :=
  if DirectionState_seen_fin d && SeqNumber_follows_or_equals acknowledgement (end_ d)
  then raise_flag DF_FIN_ACKED d else d.

Definition DirectionState_abandon_scaling (d : DirectionState) : DirectionState :=
  d <| scale := 0 |>.

(** ** The entry *)
Definition EF_ORIGIN_IS_UPPER : Z := 1.

Record FlowOpening := {
  op_ingress : Z;
  op_source : Endpoint;
  op_destination : Endpoint;
  op_protocol : Protocol
}.

Record FlowEntry := {
  lower_address : Z;
  upper_address : Z;
  lower_port : Z;
  upper_port : Z;
  fl_protocol : Z;
  fl_state : FlowState;
  fl_flags : Z;
  fl_ingress : Z;
  generation : Z;
  link : Z;
  last_seen : Z;
  lower : DirectionState;
  upper : DirectionState
}.
#[export] Instance eta_FlowEntry : Eta FlowEntry := λ e,
  Build_FlowEntry (lower_address e) (upper_address e) (lower_port e) (upper_port e) (fl_protocol e)
    (fl_state e) (fl_flags e) (fl_ingress e) (generation e) (link e) (last_seen e) (lower e) (upper e).

Definition FlowEntry_VACANT : FlowEntry :=
  {| lower_address := 0; upper_address := 0; lower_port := 0; upper_port := 0; fl_protocol := 0;
     fl_state := Vacant; fl_flags := 0; fl_ingress := 0; generation := 0; link := NO_SLOT;
     last_seen := 0; lower := DirectionState_SILENT; upper := DirectionState_SILENT |}.

Definition FlowEntry_open (e : FlowEntry) (key : FlowKey) (ingress : Z) (origin_is_lower : bool)
    (state : FlowState) (now : Monotonic) : FlowEntry :=
  {| lower_address := ep_address (key_lower key);
     upper_address := ep_address (key_upper key);
     lower_port := ep_port (key_lower key);
     upper_port := ep_port (key_upper key);
     fl_protocol := key_protocol key;
     fl_state := state;
     fl_flags := if origin_is_lower then 0 else EF_ORIGIN_IS_UPPER;
     fl_ingress := ingress;
     generation := wrapping_add 32 (generation e) 1;
     link := NO_SLOT;
     last_seen := now;
     lower := DirectionState_SILENT;
     upper := DirectionState_SILENT |}.

Definition FlowEntry_close (e : FlowEntry) : FlowEntry :=
  FlowEntry_VACANT <| generation := generation e |>.

Definition FlowEntry_is_occupied (e : FlowEntry) : bool :=
  match fl_state e with Vacant => false | _ => true end.

(** [Ipv4Address::from_octets(x.to_be_bytes())]. *)
Definition stored_endpoint (address port : Z) : Endpoint :=
  {| ep_address := let '(a, b, c, d) := to_be32 address in Ipv4Address_from_octets a b c d;
     ep_port := port |}.

Definition FlowEntry_key (e : FlowEntry) : FlowKey :=
  (FlowKey_of (stored_endpoint (lower_address e) (lower_port e))
              (stored_endpoint (upper_address e) (upper_port e)) (fl_protocol e)).1.

Definition FlowEntry_direction_of_lower (e : FlowEntry) : Direction :=
  if Z.land (fl_flags e) EF_ORIGIN_IS_UPPER =? 0 then Original else Reply.

Definition FlowEntry_direction_of (e : FlowEntry) (from_lower : bool) : Direction :=
  let d := FlowEntry_direction_of_lower e in
  if from_lower then d else Direction_reversed d.

Definition FlowEntry_opening (e : FlowEntry) : FlowOpening :=
  let lower := stored_endpoint (lower_address e) (lower_port e) in
  let upper := stored_endpoint (upper_address e) (upper_port e) in
  let '(source, destination) :=
    match FlowEntry_direction_of_lower e with
    | Original => (lower, upper) | Reply => (upper, lower)
    end in
  {| op_ingress := fl_ingress e; op_source := source; op_destination := destination;
     op_protocol := fl_protocol e |}.

Definition FlowEntry_matches (e : FlowEntry) (key : FlowKey) : bool :=
  (lower_address e =? ep_address (key_lower key))
  && (upper_address e =? ep_address (key_upper key))
  && (lower_port e =? ep_port (key_lower key))
  && (upper_port e =? ep_port (key_upper key))
  && (fl_protocol e =? key_protocol key).

Definition FlowEntry_idle_for (e : FlowEntry) (now : Monotonic) : Duration :=
  saturating_sub now (last_seen e).

Definition FlowEntry_touch (e : FlowEntry) (now : Monotonic) : FlowEntry := e <| last_seen := now |>.
Definition FlowEntry_set_state (e : FlowEntry) (s : FlowState) : FlowEntry := e <| fl_state := s |>.
Definition FlowEntry_set_link (e : FlowEntry) (l : Z) : FlowEntry := e <| link := l |>.

(** The sender's half and the peer's, in that order. *)
Definition FlowEntry_sides (e : FlowEntry) (from_lower : bool) : DirectionState * DirectionState :=
  if from_lower then (lower e, upper e) else (upper e, lower e).

(** [halves] hands out the same two by mutable reference: the edit goes through
    the pair. *)
Definition FlowEntry_with_halves (e : FlowEntry) (from_lower : bool)
    (edit : DirectionState → DirectionState → DirectionState * DirectionState) : FlowEntry :=
  let '(sender, peer) := FlowEntry_sides e from_lower in
  let '(sender, peer) := edit sender peer in
  if from_lower then e <| lower := sender |> <| upper := peer |>
  else e <| upper := sender |> <| lower := peer |>.

Definition FlowEntry_original (e : FlowEntry) : DirectionState :=
  match FlowEntry_direction_of_lower e with Original => lower e | Reply => upper e end.
Definition FlowEntry_reply (e : FlowEntry) : DirectionState :=
  match FlowEntry_direction_of_lower e with Original => upper e | Reply => lower e end.

Definition FlowEntry_closing_facts (e : FlowEntry) : bool * bool * bool * bool :=
  (DirectionState_seen_fin (lower e), DirectionState_fin_acknowledged (lower e),
   DirectionState_seen_fin (upper e), DirectionState_fin_acknowledged (upper e)).

Definition FlowEntry_both_offered_scaling (e : FlowEntry) : bool :=
  DirectionState_scale_offered (lower e) && DirectionState_scale_offered (upper e).

Definition FlowEntry_abandon_scaling (e : FlowEntry) : FlowEntry :=
  e <| lower ::= DirectionState_abandon_scaling |> <| upper ::= DirectionState_abandon_scaling |>.

(** ** Facts *)

Lemma has_flag_lor f b c : has_flag (Z.lor f b) c = has_flag f c || has_flag b c.
Proof.
  unfold has_flag. rewrite Z.land_lor_distr_l.
  destruct (Z.eqb_spec (Z.land f c) 0) as [->|Hf]; [done|].
  destruct (Z.eqb_spec (Z.lor (Z.land f c) (Z.land b c)) 0) as [Hz|]; [|done].
  by apply Z.lor_eq_0_l in Hz.
Qed.

Lemma stored_endpoint_id a p : is_u32 a → stored_endpoint a p = {| ep_address := a; ep_port := p |}.
Proof.
  intros. unfold stored_endpoint, to_be32, Ipv4Address_from_octets. f_equal. ints.
Qed.

(** The tuple of an entry as one canonical key. *)
Definition entry_key (e : FlowEntry) : FlowKey :=
  {| key_lower := {| ep_address := lower_address e; ep_port := lower_port e |};
     key_upper := {| ep_address := upper_address e; ep_port := upper_port e |};
     key_protocol := fl_protocol e |}.

Lemma FlowEntry_matches_key e k : FlowEntry_matches e k = true ↔ entry_key e = k.
Proof.
  unfold FlowEntry_matches, entry_key. rewrite !andb_true_iff, !Z.eqb_eq.
  destruct k as [[la lp] [ua up] pr]. simpl. split; [|by intros [= <- <- <- <- <-]].
  by intros ((((-> & ->) & ->) & ->) & ->).
Qed.

(** An entry filled from a well-formed key holds exactly that key. *)
Lemma FlowEntry_key_canonical e : FlowKey_ok (entry_key e) → FlowEntry_key e = entry_key e.
Proof.
  intros Hok. unfold FlowEntry_key. pose proof Hok as ([? _] & [? _] & _). simpl in *.
  rewrite !stored_endpoint_id by done. by apply (FlowKey_of_canonical (entry_key e)).
Qed.

Lemma FlowEntry_opening_endpoints e :
  FlowKey_ok (entry_key e) →
  FlowKey_of (op_source (FlowEntry_opening e)) (op_destination (FlowEntry_opening e))
    (op_protocol (FlowEntry_opening e))
  = (entry_key e, match FlowEntry_direction_of_lower e with Original => true | Reply =>
      Endpoint_precedes_or_equals (key_upper (entry_key e)) (key_lower (entry_key e)) end).
Proof.
  intros Hok. pose proof Hok as ([Hl Hlp] & [Hu Hup] & Hle). unfold FlowEntry_opening. simpl in *.
  rewrite !stored_endpoint_id by done.
  destruct (FlowEntry_direction_of_lower e); simpl; unfold FlowKey_of; simpl.
  - by rewrite Hle.
  - case_match eqn:E; [|done]. f_equal. unfold entry_key. f_equal;
      (apply ordering_key_inj; [done..|]); unfold Endpoint_precedes_or_equals in *; lia.
Qed.

Lemma FlowState_index_inj s t : FlowState_index s = FlowState_index t → s = t.
Proof. by destruct s, t. Qed.

Lemma FlowState_index_bound s : (FlowState_index s < STATE_COUNT)%nat.
Proof. destruct s; compute; lia. Qed.

Lemma is_occupied_true e : FlowEntry_is_occupied e = true ↔ fl_state e ≠ Vacant.
Proof. unfold FlowEntry_is_occupied. by destruct (fl_state e). Qed.

Lemma is_occupied_false e : FlowEntry_is_occupied e = false ↔ fl_state e = Vacant.
Proof. unfold FlowEntry_is_occupied. by destruct (fl_state e). Qed.
