(* ===== verification/FlowTcp.v ===== *)
(** * TCP as the tracker sees it

    Models [datad/crates/flow/src/tcp.rs]: reading a segment and its window-scale
    option, which flag combinations are events, which events a state admits, the
    window checks, what an accepted segment records and the state it leads to. *)
From S2P Require Import Prelude NetHeaders SeqNumber FlowKey FlowEntry.

Record Segment := {
  sg_flags : TcpFlags;
  sequence : SeqNumber;
  acknowledgement : SeqNumber;
  sg_window : Z;
  sg_length : Z;
  sg_window_scale : option Z
}.

Inductive SegmentError :=
| HeaderLengthInvalid (data_offset : Z)
| SegmentTruncated (needed got : nat).

(** ** Options *)
Definition OPTION_WINDOW_SCALE : Z := 3.
Definition OPTION_END : Z := 0.
Definition OPTION_NOP : Z := 1.
Definition WINDOW_SCALE_LEN : Z := 3.

(** Each turn of the loop drops at least one byte, so the slice's own length is
    fuel enough ([window_scale_loop_fuel]). *)
Fixpoint window_scale_loop (fuel : nat) (rest : list Z) : option Z :=
  match fuel with
  | O => None
  | S fuel =>
      match rest with
      | [] => None
      | kind :: tail =>
          if kind =? OPTION_END then None
          else if kind =? OPTION_NOP then window_scale_loop fuel tail
          else
            match tail with
            | [] => None
            | len :: payload =>
                if len <? 2 then None else
                let body_len := Z.to_nat (len - 2) in
                if (length payload <? body_len)%nat then None else
                let body := take body_len payload in
                if kind =? OPTION_WINDOW_SCALE then
                  if negb (len =? WINDOW_SCALE_LEN) then None
                  else match body with
                       | [] => None
                       | shift :: _ => Some (Z.min shift MAX_WINDOW_SCALE)
                       end
                else window_scale_loop fuel (drop body_len payload)
            end
      end
  end.

Definition window_scale (options : list Z) : option Z :=
  window_scale_loop (S (length options)) options.

(** ** Segments *)
Definition bool_u32 (b : bool) : Z := if b then 1 else 0.

Definition Segment_read (header : TcpHeader) (transport : list Z) : Result Segment SegmentError :=
  if (length transport <? TCP_HEADER_LEN)%nat
  then Err (SegmentTruncated TCP_HEADER_LEN (length transport)) else
  let header_len := Z.to_nat (data_offset header * 4) in
  if (data_offset header <? 5) || (length transport <? header_len)%nat
  then Err (HeaderLengthInvalid (data_offset header)) else
  let options := drop TCP_HEADER_LEN (take header_len transport) in
  let payload_len := Z.of_nat (length transport - header_len) in
  let len := saturating_add 32
               (saturating_add 32 (wrap 32 payload_len) (bool_u32 (TcpFlags_syn (tcp_flags header))))
               (bool_u32 (TcpFlags_fin (tcp_flags header))) in
  Ok {| sg_flags := tcp_flags header;
        sequence := tcp_sequence header;
        acknowledgement := tcp_acknowledgement header;
        sg_window := tcp_window header;
        sg_length := len;
        sg_window_scale :=
          if TcpFlags_syn (tcp_flags header) then window_scale options else None |}.

Definition Segment_end (s : Segment) : SeqNumber := SeqNumber_add (sequence s) (sg_length s).

(** The shift is at most fourteen, so a [u16] window stays inside a [u32]. *)
Definition Segment_scaled_window (s : Segment) (scale : Z) : Z :=
  let shift := if TcpFlags_syn (sg_flags s) then 0 else Z.min scale MAX_WINDOW_SCALE in
  wrap 32 (Z.shiftl (sg_window s) shift).

(** ** Events and admissibility *)
Inductive Event := Syn | SynAck | Ack | Fin | Reset_.
#[export] Instance Event_eq_dec : EqDecision Event.
Proof. solve_decision. Defined.

Definition event (flags : TcpFlags) : option Event :=
  if TcpFlags_rst flags
  then (if negb (TcpFlags_syn flags) && negb (TcpFlags_fin flags) then Some Reset_ else None)
  else match TcpFlags_syn flags, TcpFlags_fin flags, TcpFlags_ack flags with
       | true, false, false => Some Syn
       | true, false, true => Some SynAck
       | false, true, true => Some Fin
       | false, false, true => Some Ack
       | _, _, _ => None
       end.

Definition admits (state : FlowState) (event : Event) (direction : Direction) : bool :=
  match state, event with
  | Closed, _ | Vacant, _ => false
  | UdpUnreplied, _ | UdpAssured, _ | IcmpUnreplied, _ | IcmpReplied, _ => false
  | _, Reset_ => true
  | SynSent, Syn => true
  | SynSent, SynAck => match direction with Reply => true | Original => false end
  | SynSent, (Ack | Fin) => false
  | SynReceived, _ => true
  | (Established | FinWait | CloseWait | Closing | TimeWait), (Syn | SynAck) => false
  | (Established | FinWait | CloseWait | Closing | TimeWait), (Ack | Fin) => true
  end.

(** ** The window *)
Inductive WindowEdge := SequenceAhead | SequenceBehind | AckAhead | AckBehind | AckNotHandshake.
#[export] Instance WindowEdge_eq_dec : EqDecision WindowEdge.
Proof. solve_decision. Defined.

Definition in_window (sender peer : DirectionState) (s : Segment) : Result unit WindowEdge :=
  if negb (DirectionState_spoken sender) then
    if TcpFlags_ack (sg_flags s) && DirectionState_spoken peer
       && negb (acknowledgement s =? end_ peer)
    then Err AckNotHandshake
    else Ok tt
  else if SeqNumber_follows (sequence s) (max_end sender) then Err SequenceAhead
  else if SeqNumber_precedes (Segment_end s) (SeqNumber_sub (end_ sender) (max_window peer))
  then Err SequenceBehind
  else if TcpFlags_ack (sg_flags s) then
    if SeqNumber_follows (acknowledgement s) (end_ peer) then Err AckAhead
    else
      let slack := Z.min (max_window sender) MAX_ACK_SLACK in
      if SeqNumber_precedes (acknowledgement s) (SeqNumber_sub (end_ peer) slack)
      then Err AckBehind else Ok tt
  else Ok tt.

Definition record (sender peer : DirectionState) (s : Segment) : DirectionState * DirectionState :=
  let window := Segment_scaled_window s (scale sender) in
  let sender :=
    if DirectionState_spoken sender
    then DirectionState_widen_window (DirectionState_extend_end sender (Segment_end s)) window
    else DirectionState_open sender (Segment_end s) window in
  let sender :=
    if TcpFlags_syn (sg_flags s) then DirectionState_note_syn sender (sg_window_scale s)
    else sender in
  let peer :=
    if TcpFlags_ack (sg_flags s)
    then DirectionState_note_acknowledged
           (DirectionState_raise_max_end peer (SeqNumber_add (acknowledgement s) (Z.max window 1)))
           (acknowledgement s)
    else peer in
  let sender :=
    if TcpFlags_fin (sg_flags s) then DirectionState_note_fin sender else sender in
  (sender, peer).

(** ** The next state *)
Definition closed_state (closing : bool * bool * bool * bool) : FlowState :=
  let '(lower_fin, lower_acked, upper_fin, upper_acked) := closing in
  match lower_fin, upper_fin with
  | false, false => Established
  | true, true => if lower_acked && upper_acked then TimeWait else Closing
  | true, false => if lower_acked then CloseWait else FinWait
  | false, true => if upper_acked then CloseWait else FinWait
  end.

Definition next_state (state : FlowState) (event : Event) (direction : Direction)
    (closing : bool * bool * bool * bool) : FlowState :=
  match state, event with
  | _, Reset_ => Closed
  | SynSent, Syn => match direction with Original => SynSent | Reply => SynReceived end
  | SynSent, SynAck => SynReceived
  | SynReceived, (Syn | SynAck) => SynReceived
  | _, _ => closed_state closing
  end.

(** ** Options: the walk is total *)

Lemma window_scale_loop_fuel n m rest :
  (length rest < n)%nat → (length rest < m)%nat →
  window_scale_loop n rest = window_scale_loop m rest.
Proof.
  revert m rest. induction n as [|n IH]; intros [|m] [|kind tail] Hn Hm; simpl in *; try lia; try done.
  case_match; [done|]. case_match; [apply IH; lia|].
  destruct tail as [|len payload]; [done|]. simpl in *.
  repeat (case_match; try done). apply IH; rewrite length_drop; lia.
Qed.

(** The next option area after one that is not a window scale is read the same way. *)
Lemma window_scale_step kind len body rest :
  kind ≠ OPTION_END → kind ≠ OPTION_NOP → kind ≠ OPTION_WINDOW_SCALE →
  2 ≤ len → Z.of_nat (length body) = len - 2 →
  window_scale (kind :: len :: body ++ rest) = window_scale rest.
Proof.
  intros Hk1 Hk2 Hk3 Hlen Hbody. unfold window_scale.
  set (answer := window_scale_loop (S (length rest)) rest). cbn [window_scale_loop].
  rewrite (proj2 (Z.eqb_neq _ _) Hk1), (proj2 (Z.eqb_neq _ _) Hk2), (proj2 (Z.eqb_neq _ _) Hk3).
  rewrite (proj2 (Z.ltb_ge _ _)) by done.
  replace (Z.to_nat (len - 2)) with (length body) by lia.
  rewrite (proj2 (Nat.ltb_ge _ _)) by (rewrite length_app; lia).
  rewrite drop_app_length. apply window_scale_loop_fuel; simpl; rewrite ?length_app; lia.
Qed.

Lemma window_scale_loop_bound fuel rest s :
  bytes_ok rest → window_scale_loop fuel rest = Some s → 0 ≤ s ≤ MAX_WINDOW_SCALE.
Proof.
  revert rest. induction fuel as [|fuel IH]; intros [|kind tail] Hok; simpl; try done.
  apply Forall_cons in Hok as [_ Hok].
  case_match; [done|]. case_match; [by apply IH|].
  destruct tail as [|len payload]; [done|]. apply Forall_cons in Hok as [_ Hok].
  case_match; [done|]. case_match; [done|]. case_match; [|by apply IH; apply Forall_drop].
  case_match; [done|]. case_match eqn:E; [done|]. intros [= <-].
  assert (bytes_ok (take (Z.to_nat (len - 2)) payload)) as Ht by by apply Forall_take.
  rewrite E in Ht. apply Forall_cons in Ht as [? _]. unfold MAX_WINDOW_SCALE. ints.
Qed.

(** ** What a segment of the wire is *)
Definition Segment_ok (s : Segment) : Prop :=
  is_u32 (sequence s) ∧ is_u32 (acknowledgement s) ∧ is_u16 (sg_window s) ∧ is_u32 (sg_length s)
  ∧ match sg_window_scale s with Some w => 0 ≤ w ≤ MAX_WINDOW_SCALE | None => True end.

Definition DirectionState_ok (d : DirectionState) : Prop :=
  is_u32 (end_ d) ∧ is_u32 (max_end d) ∧ is_u32 (max_window d) ∧ 0 ≤ scale d ≤ MAX_WINDOW_SCALE.

Lemma Segment_scaled_window_spec s sc :
  is_u16 (sg_window s) → 0 ≤ sc →
  Segment_scaled_window s sc
  = sg_window s * 2 ^ (if TcpFlags_syn (sg_flags s) then 0 else Z.min sc 14)
  ∧ 0 ≤ Segment_scaled_window s sc < 2 ^ 30.
Proof.
  intros Hw Hsc. unfold Segment_scaled_window, MAX_WINDOW_SCALE.
  set (sh := if TcpFlags_syn _ then 0 else _).
  assert (0 ≤ sh ≤ 14) as Hsh by (subst sh; case_match; lia).
  rewrite Z.shiftl_mul_pow2 by lia.
  assert (1 ≤ 2 ^ sh ≤ 2 ^ 14) as Hp.
  { split; [|apply Z.pow_le_mono_r; lia]. change 1 with (2 ^ 0). apply Z.pow_le_mono_r; lia. }
  change (2 ^ 14) with 16384 in Hp. change (2 ^ 30) with 1073741824. unfold_ints.
  rewrite Z.mod_small; nia.
Qed.

Lemma record_ok sender peer s sender' peer' :
  Segment_ok s → DirectionState_ok sender → DirectionState_ok peer →
  record sender peer s = (sender', peer') → DirectionState_ok sender' ∧ DirectionState_ok peer'.
Proof.
  intros (Hseq & Hack & Hw & Hlen & Hsc) Hs Hp.
  pose proof (Segment_scaled_window_spec s (scale sender) Hw ltac:(apply Hs)) as [_ Hwin].
  assert (is_u32 (Segment_end s)) by (unfold Segment_end; auto with lfw).
  pose proof (SeqNumber_add_range (acknowledgement s)
    (Z.max (Segment_scaled_window s (scale sender)) 1)) as Hedge.
  change (2 ^ 30) with 1073741824 in Hwin.
  unfold record, DirectionState_ok in *. intros [= <- <-].
  destruct Hs as (? & ? & ? & ?), Hp as (? & ? & ? & ?).
  unfold DirectionState_note_fin, DirectionState_note_syn, DirectionState_note_acknowledged,
    DirectionState_raise_max_end, DirectionState_open, DirectionState_widen_window,
    DirectionState_extend_end, raise_flag, DirectionState_raise_max_end.
  unfold MAX_WINDOW_SCALE in *.
  split; repeat case_match; simpl; split_all; try done; unfold_ints; lia.
Qed.
