(* ===== verification/FlowIcmp.v ===== *)
(** * ICMP as the tracker sees it

    Models [datad/crates/flow/src/icmp.rs]: which messages are tracked or related,
    and the corroborated reading of the datagram an error quotes. *)
From S2P Require Import Prelude NetHeaders SeqNumber FlowKey.

Definition ECHO_CODE : Z := 0.

Inductive Message :=
| EchoRequest (identifier : Z)
| EchoReplyMsg (identifier : Z)
| ErrorMsg.

Definition message (header : IcmpHeader) : option Message :=
  let identifier := be16 (byte_at (rest_of_header header) 0) (byte_at (rest_of_header header) 1) in
  if (icmp_type header =? IcmpHeader_ECHO_REQUEST) && (icmp_code header =? ECHO_CODE)
  then Some (EchoRequest identifier)
  else if (icmp_type header =? IcmpHeader_ECHO_REPLY) && (icmp_code header =? ECHO_CODE)
  then Some (EchoReplyMsg identifier)
  else if (icmp_type header =? IcmpHeader_DESTINATION_UNREACHABLE)
          || (icmp_type header =? IcmpHeader_TIME_EXCEEDED)
          || (icmp_type header =? IcmpHeader_PARAMETER_PROBLEM)
  then Some ErrorMsg
  else None.

Inductive QuotedError :=
| QuotedTruncated (needed got : nat)
| NotIpv4 (version : Z)
| QuotedHeaderLengthInvalid (header_words : Z)
| Fragmented (fragment_offset : Z)
| ProtocolUnsupported (p : Protocol)
| NotFromTheReporter (quoted_source : Ipv4Address)
| NotAnEcho (message_type : Z).

Record Quoted := {
  q_source : Ipv4Address;
  q_destination : Ipv4Address;
  q_protocol : Protocol;
  q_source_port : Z;
  q_destination_port : Z;
  q_sequence : option SeqNumber
}.

Definition TCP_FIELDS : nat := 8.
Definition UDP_FIELDS : nat := 4.
Definition ICMP_FIELDS : nat := ICMP_HEADER_LEN.

Definition quoted (reporter_target : Ipv4Address) (q : list Z) : Result Quoted QuotedError :=
  match split_first_chunk IPV4_HEADER_LEN q with
  | None => Err (QuotedTruncated IPV4_HEADER_LEN (length q))
  | Some (h, behind) =>
      let version := Z.shiftr (byte_at h 0) 4 in
      if negb (version =? 4) then Err (NotIpv4 version) else
      let header_words := Z.land (byte_at h 0) 0x0f in
      let header_len := Z.to_nat (header_words * 4) in
      if (header_words <? 5) || (length q <? header_len)%nat
      then Err (QuotedHeaderLengthInvalid header_words) else
      let fragment_offset := be16 (Z.land (byte_at h 6) 0x1f) (byte_at h 7) in
      if negb (fragment_offset =? 0) then Err (Fragmented fragment_offset) else
      let source := Ipv4Address_from_octets (byte_at h 12) (byte_at h 13) (byte_at h 14) (byte_at h 15) in
      if negb (source =? reporter_target) then Err (NotFromTheReporter source) else
      let destination :=
        Ipv4Address_from_octets (byte_at h 16) (byte_at h 17) (byte_at h 18) (byte_at h 19) in
      let protocol := byte_at h 9 in
      let transport := drop (header_len - IPV4_HEADER_LEN) behind in
      if protocol =? Protocol_TCP then
        match split_first_chunk TCP_FIELDS transport with
        | None => Err (QuotedTruncated (header_len + TCP_FIELDS)%nat (length q))
        | Some (f, _) =>
            Ok {| q_source := source; q_destination := destination; q_protocol := protocol;
                  q_source_port := be16 (byte_at f 0) (byte_at f 1);
                  q_destination_port := be16 (byte_at f 2) (byte_at f 3);
                  q_sequence := Some (be32 (byte_at f 4) (byte_at f 5) (byte_at f 6) (byte_at f 7)) |}
        end
      else if protocol =? Protocol_UDP then
        match split_first_chunk UDP_FIELDS transport with
        | None => Err (QuotedTruncated (header_len + UDP_FIELDS)%nat (length q))
        | Some (f, _) =>
            Ok {| q_source := source; q_destination := destination; q_protocol := protocol;
                  q_source_port := be16 (byte_at f 0) (byte_at f 1);
                  q_destination_port := be16 (byte_at f 2) (byte_at f 3);
                  q_sequence := None |}
        end
      else if protocol =? Protocol_ICMP then
        match split_first_chunk ICMP_FIELDS transport with
        | None => Err (QuotedTruncated (header_len + ICMP_FIELDS)%nat (length q))
        | Some (f, _) =>
            let message_type := byte_at f 0 in
            let code := byte_at f 1 in
            let identifier := be16 (byte_at f 4) (byte_at f 5) in
            if negb (((message_type =? IcmpHeader_ECHO_REQUEST)
                      || (message_type =? IcmpHeader_ECHO_REPLY)) && (code =? ECHO_CODE))
            then Err (NotAnEcho message_type)
            else Ok {| q_source := source; q_destination := destination; q_protocol := protocol;
                       q_source_port := identifier; q_destination_port := identifier;
                       q_sequence := None |}
        end
      else Err (ProtocolUnsupported protocol)
  end.

Definition quoted_bytes (m : list Z) : list Z := drop ICMP_HEADER_LEN m.

(** ** What a quote that is read at all has established *)
Lemma quoted_sound target q r :
  bytes_ok q → quoted target q = Ok r →
  q_source r = target
  ∧ (q_protocol r = Protocol_TCP ∨ q_protocol r = Protocol_UDP ∨ q_protocol r = Protocol_ICMP)
  ∧ (q_sequence r ≠ None ↔ q_protocol r = Protocol_TCP)
  ∧ Endpoint_ok {| ep_address := q_source r; ep_port := q_source_port r |}
  ∧ Endpoint_ok {| ep_address := q_destination r; ep_port := q_destination_port r |}.
Proof.
  intros Hok. unfold quoted.
  destruct (split_first_chunk IPV4_HEADER_LEN q) as [[h behind]|] eqn:Hsp; [|done].
  apply split_first_chunk_Some in Hsp as [-> _]. apply bytes_ok_app in Hok as [Hh Hb].
  repeat (case_match; [done|]).
  set (tr := drop _ behind). assert (bytes_ok tr) as Htr by by apply Forall_drop.
  clearbody tr. set (source := Ipv4Address_from_octets _ _ _ _) in *.
  set (dst := Ipv4Address_from_octets (byte_at h 16) _ _ _).
  assert (is_u32 source) by (apply be32_range; auto with lfw).
  assert (is_u32 dst) by (apply be32_range; auto with lfw).
  assert (source = target) as -> by lia.
  assert (∀ f rest, tr = f ++ rest → ∀ i j, is_u16 (be16 (byte_at f i) (byte_at f j))) as Hports.
  { intros f rest ->. apply bytes_ok_app in Htr as [? _]. auto with lfw. }
  unfold Endpoint_ok. destruct (Z.eqb_spec (byte_at h 9) Protocol_TCP) as [->|];
    [|destruct (Z.eqb_spec (byte_at h 9) Protocol_UDP) as [->|];
      [|destruct (Z.eqb_spec (byte_at h 9) Protocol_ICMP) as [->|]; [|done]]];
    (destruct (split_first_chunk _ tr) as [[f rest]|] eqn:Hsp; [|done]);
    apply split_first_chunk_Some in Hsp as [Hf _]; specialize (Hports f rest Hf);
    try (case_match; [done|]); intros [= <-]; simpl; split_all; try done; auto.
Qed.
