(* ===== verification/FlowTable.v ===== *)
(** * The connection table

    Models [datad/crates/flow/src/counters.rs] and [lib.rs]: a fixed array of
    entries, a power-of-two array of chain heads linked through the entries, a free
    list through the vacant ones, and every operation on them. [CAPACITY] is the
    const parameter. A slot index is a [nat]; a link, a bucket head and a cursor are
    the [u32] values the source stores, so [NO_SLOT] ends a list as it does there. *)
From S2P Require Import Prelude NetHeaders Clock SeqNumber FlowKey FlowEntry FlowTcp FlowIcmp.

(** ** Counters *)
Record FlowCounters := {
  packets_seen : Z;
  flows_created : Z;
  packets_established : Z;
  packets_related : Z;
  flows_expired : Z;
  flows_evicted : Z;
  flows_closed : Z;
  flows_withdrawn : Z;
  flows_revoked : Z;
  refused_unsupported_protocol : Z;
  refused_fragment : Z;
  refused_malformed : Z;
  refused_invalid_flags : Z;
  refused_mid_stream : Z;
  refused_invalid_state : Z;
  refused_out_of_window : Z;
  refused_no_flow : Z;
  refused_quoted_invalid : Z;
  refused_unsupported_icmp : Z;
  refused_table_full : Z;
  refused_bucket_full : Z;
  probe_tag_collisions : Z;
  internal_slot_desync : Z
}.
#[export] Instance eta_FlowCounters : Eta FlowCounters := λ c,
  Build_FlowCounters (packets_seen c) (flows_created c) (packets_established c) (packets_related c)
    (flows_expired c) (flows_evicted c) (flows_closed c) (flows_withdrawn c) (flows_revoked c)
    (refused_unsupported_protocol c) (refused_fragment c) (refused_malformed c)
    (refused_invalid_flags c) (refused_mid_stream c) (refused_invalid_state c)
    (refused_out_of_window c) (refused_no_flow c) (refused_quoted_invalid c)
    (refused_unsupported_icmp c) (refused_table_full c) (refused_bucket_full c)
    (probe_tag_collisions c) (internal_slot_desync c).

Definition FlowCounters_new : FlowCounters :=
  Build_FlowCounters 0 0 0 0 0 0 0 0 0 0 0 0 0 0 0 0 0 0 0 0 0 0 0.

Definition FlowCounters_refused_total (c : FlowCounters) : Z :=
  foldl (saturating_add 64) (refused_unsupported_protocol c)
    [refused_fragment c; refused_malformed c; refused_invalid_flags c; refused_mid_stream c;
     refused_invalid_state c; refused_out_of_window c; refused_no_flow c;
     refused_quoted_invalid c; refused_unsupported_icmp c; refused_table_full c;
     refused_bucket_full c].

Definition FlowCounters_classified_total (c : FlowCounters) : Z :=
  foldl (saturating_add 64) (flows_created c) [packets_established c; packets_related c].

Inductive Classification := CNew | CEstablished | CRelated.

Inductive RefusalKind :=
| RK_UnsupportedProtocol | RK_Fragment | RK_Malformed | RK_InvalidFlags | RK_MidStream
| RK_InvalidState | RK_OutOfWindow | RK_NoSuchFlow | RK_QuotedInvalid | RK_UnsupportedIcmp
| RK_TableFull | RK_BucketFull.

Definition FlowCounters_classified (c : FlowCounters) (k : Classification) : Z :=
  match k with
  | CNew => flows_created c
  | CEstablished => packets_established c
  | CRelated => packets_related c
  end.

Definition FlowCounters_refused (c : FlowCounters) (k : RefusalKind) : Z :=
  match k with
  | RK_UnsupportedProtocol => refused_unsupported_protocol c
  | RK_Fragment => refused_fragment c
  | RK_Malformed => refused_malformed c
  | RK_InvalidFlags => refused_invalid_flags c
  | RK_MidStream => refused_mid_stream c
  | RK_InvalidState => refused_invalid_state c
  | RK_OutOfWindow => refused_out_of_window c
  | RK_NoSuchFlow => refused_no_flow c
  | RK_QuotedInvalid => refused_quoted_invalid c
  | RK_UnsupportedIcmp => refused_unsupported_icmp c
  | RK_TableFull => refused_table_full c
  | RK_BucketFull => refused_bucket_full c
  end.

(** ** Vocabulary *)
Definition MAX_CHAIN : nat := 32.
Definition SWEEP_STRIDE : nat := 256.
Definition EVICTION_SCAN : nat := 64.
Definition REVISIT_BUCKETS : nat := 4096.
Definition REVISIT_FLOWS : nat := 256.

Record FlowId := { id_slot : Z; id_generation : Z }.

Record Packet := {
  pk_ingress : Z;
  pk_source : Ipv4Address;
  pk_destination : Ipv4Address;
  pk_transport : Transport;
  transport_bytes : list Z
}.

Inductive Refusal :=
| RUnsupportedProtocol (p : Protocol)
| RFragment
| RMalformed (needed got : nat)
| RInvalidFlags
| RMidStream
| RInvalidState (s : FlowState)
| ROutOfWindow (e : WindowEdge)
| RNoSuchFlow
| RQuotedInvalid (e : QuotedError)
| RUnsupportedIcmp (message_type code : Z)
| RTableFull
| RBucketFull.

Definition Refusal_kind (r : Refusal) : RefusalKind :=
  match r with
  | RUnsupportedProtocol _ => RK_UnsupportedProtocol
  | RFragment => RK_Fragment
  | RMalformed _ _ => RK_Malformed
  | RInvalidFlags => RK_InvalidFlags
  | RMidStream => RK_MidStream
  | RInvalidState _ => RK_InvalidState
  | ROutOfWindow _ => RK_OutOfWindow
  | RNoSuchFlow => RK_NoSuchFlow
  | RQuotedInvalid _ => RK_QuotedInvalid
  | RUnsupportedIcmp _ _ => RK_UnsupportedIcmp
  | RTableFull => RK_TableFull
  | RBucketFull => RK_BucketFull
  end.

Inductive Outcome :=
| ONew (flow : FlowId) (state : FlowState)
| OEstablished (flow : FlowId) (direction : Direction) (previous state : FlowState)
| ORelated (flow : FlowId) (quoted : Direction)
| ORefused (r : Refusal).

Definition Outcome_classification (o : Outcome) : option Classification :=
  match o with
  | ONew _ _ => Some CNew
  | OEstablished _ _ _ _ => Some CEstablished
  | ORelated _ _ => Some CRelated
  | ORefused _ => None
  end.

Record Sweep := { sw_examined : nat; sw_expired : nat }.

Inductive Disposition := Keep | Revoke.

Record LiveFlow := { lf_id : FlowId; lf_opening : FlowOpening; lf_state : FlowState }.

Record Revisit := {
  rv_next : nat; rv_buckets : nat; rv_examined : nat; rv_revoked : nat; rv_complete : bool
}.

Record FlowTable := {
  counters : FlowCounters;
  occupancy : list Z;
  free_head : Z;
  sweep_cursor : Z;
  evict_cursor : Z;
  buckets : list Z;
  entries : list FlowEntry
}.
#[export] Instance eta_FlowTable : Eta FlowTable := λ t,
  Build_FlowTable (counters t) (occupancy t) (free_head t) (sweep_cursor t) (evict_cursor t)
    (buckets t) (entries t).

(** [FlowCounters::bump(&mut self.counters.field)]. *)
Definition count (edit : FlowCounters → FlowCounters) : St FlowTable unit :=
  st_edit (λ t, t <| counters ::= edit |>).

(** [if let Some(entry) = self.entries.get_mut(slot) { .. }]. *)
Definition edit_entry (slot : nat) (edit : FlowEntry → FlowEntry) : St FlowTable unit :=
  st_edit (λ t, t <| entries ::= alter edit slot |>).

(** ** Functions of entries and keys *)
Definition has_expired (e : FlowEntry) (now : Monotonic) : bool :=
  FlowEntry_is_occupied e && (timeout (fl_state e) <=? FlowEntry_idle_for e now).

Definition is_over (s : FlowState) : bool :=
  match s with Closed | TimeWait => true | _ => false end.

Definition echo_key (p : Packet) (identifier : Z) : FlowKey * bool :=
  FlowKey_of {| ep_address := pk_source p; ep_port := identifier |}
             {| ep_address := pk_destination p; ep_port := identifier |} Protocol_ICMP.

Definition quoted_sequence_is_authorised (sender peer : DirectionState)
    (seq : option SeqNumber) : Result unit WindowEdge :=
  match seq with
  | None => Ok tt
  | Some s =>
      if SeqNumber_follows s (max_end sender) then Err SequenceAhead
      else if SeqNumber_precedes s (SeqNumber_sub (end_ sender) (max_window peer))
      then Err SequenceBehind
      else Ok tt
  end.

(** [Occupancy::get] and [Occupancy::occupied]. *)
Definition Occupancy_get (o : list Z) (s : FlowState) : Z := default 0 (o !! FlowState_index s).
Definition Occupancy_occupied (o : list Z) : Z :=
  foldl (saturating_add 32) 0 (omap (λ '(i, c), if (i =? FlowState_index Vacant)%nat then None else Some c)
                                 (zip (seq 0 (length o)) o)).

Section table.
Context (CAPACITY : nat).

(** [x & Self::MASK] on a [usize]. *)
Definition masked (x : Z) : nat := Z.to_nat (Z.land x (Z.of_nat CAPACITY - 1)).

Definition FlowTable_bucket_of (key : FlowKey) : nat := masked (FlowKey_hash key).

Definition FlowTable_len (t : FlowTable) : Z := Occupancy_occupied (occupancy t).

Definition FlowTable_id_of (t : FlowTable) (slot : nat) : FlowId :=
  {| id_slot := Z.of_nat slot;
     id_generation := match entries t !! slot with Some e => generation e | None => 0 end |}.

Definition FlowTable_flow (t : FlowTable) (id : FlowId) : option FlowEntry :=
  match entries t !! Z.to_nat (id_slot id) with
  | Some e => if FlowEntry_is_occupied e && (generation e =? id_generation id) then Some e else None
  | None => None
  end.

(** ** Bring-up *)

(** The loop runs from the last slot to the first. *)
Fixpoint initialise_loop (slot : nat) (next : Z) (es : list FlowEntry) : list FlowEntry * Z :=
  match slot with
  | O => (es, next)
  | S slot =>
      initialise_loop slot (Z.of_nat slot)
        (alter (λ _, FlowEntry_set_link FlowEntry_VACANT next) slot es)
  end.

Definition FlowTable_initialise : St FlowTable unit := st_edit (λ t,
  let '(es, head) := initialise_loop CAPACITY NO_SLOT (entries t) in
  {| counters := FlowCounters_new;
     occupancy := <[FlowState_index Vacant := Z.of_nat CAPACITY]> (replicate STATE_COUNT 0);
     free_head := head;
     sweep_cursor := 0;
     evict_cursor := 0;
     buckets := (λ _, NO_SLOT) <$> buckets t;
     entries := es |}).

Definition FlowTable_new : FlowTable :=
  (FlowTable_initialise
    {| counters := FlowCounters_new; occupancy := replicate STATE_COUNT 0; free_head := NO_SLOT;
       sweep_cursor := 0; evict_cursor := 0; buckets := replicate CAPACITY NO_SLOT;
       entries := replicate CAPACITY FlowEntry_VACANT |}).2.

(** ** Bookkeeping *)
Definition FlowTable_record_state_change (from to : FlowState) : St FlowTable unit := st_edit (λ t,
  if bool_decide (from = to) then t
  else t <| occupancy ::= alter (λ c, saturating_sub c 1) (FlowState_index from) |>
         <| occupancy ::= alter (λ c, saturating_add 32 c 1) (FlowState_index to) |>).

Definition FlowTable_transition (slot : nat) (from to : FlowState) : St FlowTable unit :=
  if bool_decide (from = to) then st_ret tt
  else edit_entry slot (λ e, FlowEntry_set_state e to) ;;;
       FlowTable_record_state_change from to ;;;
       (if is_over to && negb (is_over from) then count (λ c, c <| flows_closed ::= bump |>)
        else st_ret tt).

Definition FlowTable_note_traffic (slot : nat) (from_lower : bool) : St FlowTable unit :=
  edit_entry slot (λ e, FlowEntry_with_halves e from_lower
    (λ sender peer, (DirectionState_note_traffic sender, peer))).

Definition FlowTable_refuse (r : Refusal) : St FlowTable Outcome :=
  count (λ c,
    match r with
    | RUnsupportedProtocol _ => c <| refused_unsupported_protocol ::= bump |>
    | RFragment => c <| refused_fragment ::= bump |>
    | RMalformed _ _ => c <| refused_malformed ::= bump |>
    | RInvalidFlags => c <| refused_invalid_flags ::= bump |>
    | RMidStream => c <| refused_mid_stream ::= bump |>
    | RInvalidState _ => c <| refused_invalid_state ::= bump |>
    | ROutOfWindow _ => c <| refused_out_of_window ::= bump |>
    | RNoSuchFlow => c <| refused_no_flow ::= bump |>
    | RQuotedInvalid _ => c <| refused_quoted_invalid ::= bump |>
    | RUnsupportedIcmp _ _ => c <| refused_unsupported_icmp ::= bump |>
    | RTableFull => c <| refused_table_full ::= bump |>
    | RBucketFull => c <| refused_bucket_full ::= bump |>
    end) ;;;
  st_ret (ORefused r).

(** ** Lists through the entries *)
Definition bucket_head (t : FlowTable) (bucket : nat) : Z := default NO_SLOT (buckets t !! bucket).
Definition link_of (t : FlowTable) (slot : nat) : Z :=
  match entries t !! slot with Some e => link e | None => NO_SLOT end.

(** [while walk != NO_SLOT && length < MAX_CHAIN], counting down the bound. *)
Fixpoint chain_length (steps : nat) (t : FlowTable) (walk : Z) : nat :=
  match steps with
  | O => 0
  | S steps =>
      if walk =? NO_SLOT then 0%nat else
      match entries t !! Z.to_nat walk with
      | None => 0
      | Some e => S (chain_length steps t (link e))
      end
  end.

Definition FlowTable_link (key : FlowKey) (slot : nat) : St FlowTable bool := λ t,
  let bucket := FlowTable_bucket_of key in
  let head := bucket_head t bucket in
  let len := chain_length MAX_CHAIN t head in
  if (MAX_CHAIN <=? len)%nat then (false, t)
  else (true, t <| entries ::= alter (λ e, FlowEntry_set_link e head) slot |>
                <| buckets ::= alter (λ _, Z.of_nat slot) bucket |>).

Fixpoint unlink_walk (steps : nat) (t : FlowTable) (previous target after : Z) : FlowTable :=
  match steps with
  | O => t
  | S steps =>
      if previous =? NO_SLOT then t else
      let next := link_of t (Z.to_nat previous) in
      if next =? target
      then t <| entries ::= alter (λ e, FlowEntry_set_link e after) (Z.to_nat previous) |>
      else unlink_walk steps t next target after
  end.

Definition FlowTable_unlink (slot : nat) : St FlowTable unit := st_edit (λ t,
  match entries t !! slot with
  | None => t
  | Some e =>
      if negb (FlowEntry_is_occupied e) then t else
      let bucket := FlowTable_bucket_of (FlowEntry_key e) in
      let target := Z.of_nat slot in
      let head := bucket_head t bucket in
      let after := link_of t slot in
      if head =? target then t <| buckets ::= alter (λ _, after) bucket |>
      else unlink_walk MAX_CHAIN t head target after
  end).

Definition FlowTable_release (slot : nat) : St FlowTable unit :=
  FlowTable_unlink slot ;;;
  let! state := st_read (λ t, match entries t !! slot with Some e => fl_state e | None => Vacant end) in
  FlowTable_record_state_change state Vacant ;;;
  let! free := st_read free_head in
  edit_entry slot (λ e, FlowEntry_set_link (FlowEntry_close e) free) ;;;
  st_edit (λ t, t <| free_head := Z.of_nat slot |>).

Definition FlowTable_pop_free : St FlowTable (option nat) := λ t,
  if free_head t =? NO_SLOT then (None, t) else
  let slot := Z.to_nat (free_head t) in
  let next := link_of t slot in
  (Some slot, t <| free_head := next |>
                <| entries ::= alter (λ e, FlowEntry_set_link e NO_SLOT) slot |>).

(** ** Taking a slot *)

(** The scan from [step] on: the expired slot it stops at with the cursor's advance,
    and the least recently seen evictable slot met before. *)
Fixpoint victim_scan (t : FlowTable) (now : Monotonic) (start : Z) (remaining step : nat)
    (oldest : option (nat * Z)) : option (nat * nat) * option (nat * Z) :=
  match remaining with
  | O => (None, oldest)
  | S remaining =>
      let slot := masked (wrapping_add 64 start (Z.of_nat step)) in
      match entries t !! slot with
      | None => victim_scan t now start remaining (S step) oldest
      | Some e =>
          if negb (FlowEntry_is_occupied e) then victim_scan t now start remaining (S step) oldest
          else if has_expired e now then (Some (slot, S step), oldest)
          else if FlowState_is_assured (fl_state e)
          then victim_scan t now start remaining (S step) oldest
          else
            let oldest :=
              match oldest with
              | None => Some (slot, last_seen e)
              | Some (_, best) => if last_seen e <? best then Some (slot, last_seen e) else oldest
              end in
            victim_scan t now start remaining (S step) oldest
      end
  end.

Definition advance_evict_cursor (by_ : nat) (t : FlowTable) : FlowTable :=
  t <| evict_cursor := Z.of_nat (masked (wrapping_add 64 (evict_cursor t) (Z.of_nat by_))) |>.

Definition FlowTable_victim (now : Monotonic) : St FlowTable (option (nat * bool)) := λ t,
  let scan := Nat.min EVICTION_SCAN CAPACITY in
  match victim_scan t now (evict_cursor t) scan 0 None with
  | (Some (slot, advance), _) => (Some (slot, true), advance_evict_cursor advance t)
  | (None, Some (slot, _)) => (Some (slot, false), advance_evict_cursor scan t)
  | (None, None) => (None, advance_evict_cursor scan t)
  end.

Definition FlowTable_take_slot (now : Monotonic) : St FlowTable (Result nat Refusal) :=
  let! free := FlowTable_pop_free in
  match free with
  | Some slot => st_ret (Ok slot)
  | None =>
      let! found := FlowTable_victim now in
      match found with
      | None =>
          let! len := st_read FlowTable_len in
          (if len <? Z.of_nat CAPACITY then count (λ c, c <| internal_slot_desync ::= bump |>)
           else st_ret tt) ;;;
          st_ret (Err RTableFull)
      | Some (slot, was_expired) =>
          FlowTable_release slot ;;;
          count (λ c, if was_expired : bool then c <| flows_expired ::= bump |>
                      else c <| flows_evicted ::= bump |>) ;;;
          let! freed := FlowTable_pop_free in
          st_ret (match freed with Some slot => Ok slot | None => Err RTableFull end)
      end
  end.

Definition FlowTable_open (now : Monotonic) (ingress : Z) (key : FlowKey) (origin_is_lower : bool)
    (state : FlowState) : St FlowTable (Result nat Refusal) :=
  let! taken := FlowTable_take_slot now in
  match taken with
  | Err r => st_ret (Err r)
  | Ok slot =>
      edit_entry slot (λ e, FlowEntry_open e key ingress origin_is_lower state now) ;;;
      FlowTable_record_state_change Vacant state ;;;
      let! linked := FlowTable_link key slot in
      if linked : bool
      then count (λ c, c <| flows_created ::= bump |>) ;;; st_ret (Ok slot)
      else FlowTable_release slot ;;; st_ret (Err RBucketFull)
  end.

(** ** Lookup *)
Fixpoint find_walk (steps : nat) (t : FlowTable) (key : FlowKey) (slot collisions : Z)
    : option nat * Z :=
  match steps with
  | O => (None, collisions)
  | S steps =>
      if slot =? NO_SLOT then (None, collisions) else
      match entries t !! Z.to_nat slot with
      | None => (None, collisions)
      | Some e =>
          if FlowEntry_is_occupied e && FlowEntry_matches e key
          then (Some (Z.to_nat slot), collisions)
          else find_walk steps t key (link e) (saturating_add 64 collisions 1)
      end
  end.

Definition FlowTable_find (now : Monotonic) (key : FlowKey) : St FlowTable (option nat) :=
  let! (found, collisions) :=
    st_read (λ t, find_walk MAX_CHAIN t key (bucket_head t (FlowTable_bucket_of key)) 0) in
  count (λ c, c <| probe_tag_collisions ::= λ n, saturating_add 64 n collisions |>) ;;;
  match found with
  | None => st_ret None
  | Some slot =>
      let! dead := st_read (λ t,
        match entries t !! slot with Some e => has_expired e now | None => false end) in
      if dead : bool
      then FlowTable_release slot ;;;
           count (λ c, c <| flows_expired ::= bump |>) ;;;
           st_ret None
      else st_ret (Some slot)
  end.

(** ** TCP *)
Definition FlowTable_open_tcp (now : Monotonic) (ingress : Z) (key : FlowKey) (from_lower : bool)
    (segment : Segment) : St FlowTable Outcome :=
  let! opened := FlowTable_open now ingress key from_lower SynSent in
  match opened with
  | Err r => FlowTable_refuse r
  | Ok slot =>
      edit_entry slot (λ e, FlowEntry_with_halves e from_lower
        (λ sender peer, record sender peer segment)) ;;;
      let! flow := st_read (λ t, FlowTable_id_of t slot) in
      st_ret (ONew flow SynSent)
  end.

(** The edit [advance_tcp] makes to the entry, before its state moves. *)
Definition accept_segment (now : Monotonic) (from_lower : bool) (segment : Segment)
    (e : FlowEntry) : FlowEntry :=
  let e := FlowEntry_with_halves e from_lower (λ sender peer, record sender peer segment) in
  let e := if TcpFlags_syn (sg_flags segment) && negb (FlowEntry_both_offered_scaling e)
           then FlowEntry_abandon_scaling e else e in
  FlowEntry_touch e now.

Definition FlowTable_advance_tcp (now : Monotonic) (slot : nat) (from_lower : bool) (ev : Event)
    (segment : Segment) : St FlowTable Outcome :=
  let! read := st_read (λ t, entries t !! slot) in
  match read with
  | None => FlowTable_refuse RNoSuchFlow
  | Some e =>
      let '(sender, peer) := FlowEntry_sides e from_lower in
      let state := fl_state e in
      let direction := FlowEntry_direction_of e from_lower in
      if negb (admits state ev direction) then FlowTable_refuse (RInvalidState state) else
      match in_window sender peer segment with
      | Err edge => FlowTable_refuse (ROutOfWindow edge)
      | Ok _ =>
          edit_entry slot (accept_segment now from_lower segment) ;;;
          let next := next_state state ev direction
                        (FlowEntry_closing_facts (accept_segment now from_lower segment e)) in
          FlowTable_transition slot state next ;;;
          count (λ c, c <| packets_established ::= bump |>) ;;;
          let! flow := st_read (λ t, FlowTable_id_of t slot) in
          st_ret (OEstablished flow direction state next)
      end
  end.

Definition FlowTable_classify_tcp (now : Monotonic) (p : Packet) (header : TcpHeader)
    : St FlowTable Outcome :=
  match Segment_read header (transport_bytes p) with
  | Err (SegmentTruncated needed got) => FlowTable_refuse (RMalformed needed got)
  | Err (HeaderLengthInvalid data_offset) =>
      FlowTable_refuse (RMalformed (Z.to_nat (data_offset * 4)) (length (transport_bytes p)))
  | Ok segment =>
      match event (sg_flags segment) with
      | None => FlowTable_refuse RInvalidFlags
      | Some ev =>
          let '(key, from_lower) :=
            FlowKey_of {| ep_address := pk_source p; ep_port := tcp_source_port header |}
                       {| ep_address := pk_destination p; ep_port := tcp_destination_port header |}
                       Protocol_TCP in
          let! found := FlowTable_find now key in
          match found with
          | Some slot => FlowTable_advance_tcp now slot from_lower ev segment
          | None =>
              if bool_decide (ev = Syn)
              then FlowTable_open_tcp now (pk_ingress p) key from_lower segment
              else FlowTable_refuse RMidStream
          end
      end
  end.

(** ** UDP *)
Definition udp_next (state : FlowState) (direction : Direction) : option FlowState :=
  match state, direction with
  | UdpUnreplied, Original => Some UdpUnreplied
  | UdpUnreplied, Reply | UdpAssured, _ => Some UdpAssured
  | _, _ => None
  end.

(** What [classify_udp] and [advance_echo] do alike once the next state is known. *)
Definition refresh_flow (now : Monotonic) (slot : nat) (from_lower : bool) (direction : Direction)
    (state next : FlowState) : St FlowTable Outcome :=
  FlowTable_note_traffic slot from_lower ;;;
  edit_entry slot (λ e, FlowEntry_touch e now) ;;;
  FlowTable_transition slot state next ;;;
  count (λ c, c <| packets_established ::= bump |>) ;;;
  let! flow := st_read (λ t, FlowTable_id_of t slot) in
  st_ret (OEstablished flow direction state next).

(** Opening a flow for a protocol without a sequence space. *)
Definition open_pseudo_flow (now : Monotonic) (ingress : Z) (key : FlowKey) (from_lower : bool)
    (state : FlowState) : St FlowTable Outcome :=
  let! opened := FlowTable_open now ingress key from_lower state in
  match opened with
  | Ok slot =>
      FlowTable_note_traffic slot from_lower ;;;
      let! flow := st_read (λ t, FlowTable_id_of t slot) in
      st_ret (ONew flow state)
  | Err r => FlowTable_refuse r
  end.

Definition FlowTable_classify_udp (now : Monotonic) (p : Packet) (source_port destination_port : Z)
    : St FlowTable Outcome :=
  let '(key, from_lower) :=
    FlowKey_of {| ep_address := pk_source p; ep_port := source_port |}
               {| ep_address := pk_destination p; ep_port := destination_port |} Protocol_UDP in
  let! found := FlowTable_find now key in
  match found with
  | None => open_pseudo_flow now (pk_ingress p) key from_lower UdpUnreplied
  | Some slot =>
      let! read := st_read (λ t, entries t !! slot) in
      match read with
      | None => FlowTable_refuse RNoSuchFlow
      | Some e =>
          let direction := FlowEntry_direction_of e from_lower in
          match udp_next (fl_state e) direction with
          | None => FlowTable_refuse (RInvalidState (fl_state e))
          | Some next => refresh_flow now slot from_lower direction (fl_state e) next
          end
      end
  end.

(** ** ICMP *)
Definition FlowTable_advance_echo (now : Monotonic) (slot : nat) (from_lower : bool)
    (answered : option FlowState) : St FlowTable Outcome :=
  let! read := st_read (λ t, entries t !! slot) in
  match read with
  | None => FlowTable_refuse RNoSuchFlow
  | Some e =>
      let state := fl_state e in
      let direction := FlowEntry_direction_of e from_lower in
      if negb (bool_decide (state = IcmpUnreplied) || bool_decide (state = IcmpReplied))
      then FlowTable_refuse (RInvalidState state)
      else if bool_decide (answered ≠ None) && bool_decide (direction = Original)
      then FlowTable_refuse (RInvalidState state)
      else refresh_flow now slot from_lower direction state (default state answered)
  end.

Definition FlowTable_echo_request (now : Monotonic) (p : Packet) (identifier : Z)
    : St FlowTable Outcome :=
  let '(key, from_lower) := echo_key p identifier in
  let! found := FlowTable_find now key in
  match found with
  | None => open_pseudo_flow now (pk_ingress p) key from_lower IcmpUnreplied
  | Some slot => FlowTable_advance_echo now slot from_lower None
  end.

Definition FlowTable_echo_reply (now : Monotonic) (p : Packet) (identifier : Z)
    : St FlowTable Outcome :=
  let '(key, from_lower) := echo_key p identifier in
  let! found := FlowTable_find now key in
  match found with
  | None => FlowTable_refuse RNoSuchFlow
  | Some slot => FlowTable_advance_echo now slot from_lower (Some IcmpReplied)
  end.

Definition FlowTable_icmp_error (now : Monotonic) (p : Packet) : St FlowTable Outcome :=
  match quoted (pk_destination p) (quoted_bytes (transport_bytes p)) with
  | Err e => FlowTable_refuse (RQuotedInvalid e)
  | Ok q =>
      let '(key, from_lower) :=
        FlowKey_of {| ep_address := q_source q; ep_port := q_source_port q |}
                   {| ep_address := q_destination q; ep_port := q_destination_port q |}
                   (q_protocol q) in
      let! found := FlowTable_find now key in
      match found with
      | None => FlowTable_refuse RNoSuchFlow
      | Some slot =>
          let! read := st_read (λ t, entries t !! slot) in
          match read with
          | None => FlowTable_refuse RNoSuchFlow
          | Some e =>
              let '(sender, peer) := FlowEntry_sides e from_lower in
              if negb (DirectionState_spoken sender)
              then FlowTable_refuse (RQuotedInvalid (NotFromTheReporter (q_source q)))
              else
                match quoted_sequence_is_authorised sender peer (q_sequence q) with
                | Err edge => FlowTable_refuse (ROutOfWindow edge)
                | Ok _ =>
                    count (λ c, c <| packets_related ::= bump |>) ;;;
                    let! flow := st_read (λ t, FlowTable_id_of t slot) in
                    st_ret (ORelated flow (FlowEntry_direction_of e from_lower))
                end
          end
      end
  end.

Definition FlowTable_classify_icmp (now : Monotonic) (p : Packet) (header : IcmpHeader)
    : St FlowTable Outcome :=
  match message header with
  | None => FlowTable_refuse (RUnsupportedIcmp (icmp_type header) (icmp_code header))
  | Some (EchoRequest identifier) => FlowTable_echo_request now p identifier
  | Some (EchoReplyMsg identifier) => FlowTable_echo_reply now p identifier
  | Some ErrorMsg => FlowTable_icmp_error now p
  end.

(** ** The public operations *)
Definition FlowTable_classify (now : Monotonic) (p : Packet) : St FlowTable Outcome :=
  count (λ c, c <| packets_seen ::= bump |>) ;;;
  match pk_transport p with
  | Tcp header => FlowTable_classify_tcp now p header
  | Udp header => FlowTable_classify_udp now p (udp_source_port header) (udp_destination_port header)
  | Icmp header => FlowTable_classify_icmp now p header
  | TruncatedTcp available => FlowTable_refuse (RMalformed TCP_HEADER_LEN available)
  | TruncatedUdp available => FlowTable_refuse (RMalformed UDP_HEADER_LEN available)
  | TruncatedIcmp available => FlowTable_refuse (RMalformed ICMP_HEADER_LEN available)
  | NonInitialFragment => FlowTable_refuse RFragment
  | Unparsed protocol => FlowTable_refuse (RUnsupportedProtocol protocol)
  end.

Definition FlowTable_withdraw (id : FlowId) : St FlowTable bool :=
  let slot := Z.to_nat (id_slot id) in
  let! names_it := st_read (λ t,
    match entries t !! slot with
    | Some e => FlowEntry_is_occupied e && (generation e =? id_generation id)
    | None => false
    end) in
  if negb names_it then st_ret false
  else FlowTable_release slot ;;;
       count (λ c, c <| flows_withdrawn ::= bump |>) ;;;
       st_ret true.

Fixpoint poll_loop (now : Monotonic) (start : Z) (remaining step expired : nat)
    : St FlowTable nat :=
  match remaining with
  | O => st_ret expired
  | S remaining =>
      let slot := masked (wrapping_add 64 start (Z.of_nat step)) in
      let! dead := st_read (λ t,
        match entries t !! slot with Some e => has_expired e now | None => false end) in
      if dead : bool
      then FlowTable_release slot ;;;
           count (λ c, c <| flows_expired ::= bump |>) ;;;
           poll_loop now start remaining (S step) (S expired)
      else poll_loop now start remaining (S step) expired
  end.

Definition FlowTable_poll (now : Monotonic) : St FlowTable Sweep :=
  let stride := Nat.min SWEEP_STRIDE CAPACITY in
  let! start := st_read sweep_cursor in
  let! expired := poll_loop now start stride 0 0 in
  st_edit (λ t, t <| sweep_cursor := Z.of_nat (masked (wrapping_add 64 start (Z.of_nat stride))) |>) ;;;
  st_ret {| sw_examined := stride; sw_expired := expired |}.

(** *** Revisiting

    The caller's closure is an [FnMut]: it carries its own state [D] from flow to
    flow. *)
Section revisit.
Context {D : Type} (decide_flow : LiveFlow → D → Disposition * D).

Definition live_flow (slot : Z) (e : FlowEntry) : LiveFlow :=
  {| lf_id := {| id_slot := slot; id_generation := generation e |};
     lf_opening := FlowEntry_opening e; lf_state := fl_state e |}.

(** One chain: the count of flows examined and revoked, and the closure's state. *)
Fixpoint revisit_chain (steps : nat) (slot : Z) (acc : nat * nat * D)
    : St FlowTable (nat * nat * D) :=
  match steps with
  | O => st_ret acc
  | S steps =>
      if slot =? NO_SLOT then st_ret acc else
      let index := Z.to_nat slot in
      let! read := st_read (λ t, entries t !! index) in
      match read with
      | None => st_ret acc
      | Some e =>
          if FlowEntry_is_occupied e then
            let '(examined, revoked, d) := acc in
            match decide_flow (live_flow slot e) d with
            | (Revoke, d) =>
                FlowTable_release index ;;;
                count (λ c, c <| flows_revoked ::= bump |>) ;;;
                revisit_chain steps (link e) (S examined, S revoked, d)
            | (Keep, d) => revisit_chain steps (link e) (S examined, revoked, d)
            end
          else revisit_chain steps (link e) acc
      end
  end.

(** [while bucket < CAPACITY]: at most one turn per bucket. *)
Fixpoint revisit_loop (turns : nat) (start bucket : nat) (acc : nat * nat * D)
    : St FlowTable (nat * (nat * nat * D)) :=
  match turns with
  | O => st_ret (bucket, acc)
  | S turns =>
      if (CAPACITY <=? bucket)%nat
         || (REVISIT_BUCKETS <=? bucket - start)%nat || (REVISIT_FLOWS <=? acc.1.1)%nat
      then st_ret (bucket, acc)
      else
        let! head := st_read (λ t, bucket_head t bucket) in
        let! acc := revisit_chain MAX_CHAIN head acc in
        revisit_loop turns start (S bucket) acc
  end.

Definition FlowTable_revisit (from : nat) (d : D) : St FlowTable (Revisit * D) :=
  let start := Nat.min from CAPACITY in
  let! (bucket, (examined, revoked, d)) := revisit_loop CAPACITY start start (0%nat, 0%nat, d) in
  st_ret ({| rv_next := bucket; rv_buckets := bucket - start; rv_examined := examined;
             rv_revoked := revoked; rv_complete := (CAPACITY <=? bucket)%nat |}, d).

End revisit.
End table.
