(* ===== verification/FlowTableInv.v ===== *)
(** * The connection table: representation invariant

    The entries are read as two things at once: the links ([links], what the free
    list and the hash chains are made of) and the flows ([flows], the entries with
    their links erased, what a caller can observe). [wf] says the lists are exactly
    the vacant slots and, per bucket, exactly the flows hashing there; every
    operation preserves it, and every operation's effect on [flows] is a plain
    update of one slot. *)
From S2P Require Import Prelude NetHeaders Clock SeqNumber FlowKey FlowEntry FlowTcp FlowIcmp FlowTable.

(** The two things [LAYOUT] asserts of a capacity when the crate is built. *)
Class Layout (CAPACITY : nat) : Prop := {
  layout_power_of_two : ∃ k, CAPACITY = (2 ^ k)%nat;
  layout_below_no_slot : Z.of_nat CAPACITY < NO_SLOT
}.

(** ** Segments of linked lists *)

(** From head [h], following [lk], through the slots [l], to [h']. *)
Fixpoint seg (lk : list Z) (h : Z) (l : list nat) (h' : Z) : Prop :=
  match l with
  | [] => h = h'
  | s :: l => h = Z.of_nat s ∧ ∃ n, lk !! s = Some n ∧ seg lk n l h'
  end.

Abbreviation chain_at lk h l := (seg lk h l NO_SLOT) (only parsing).

Lemma seg_app lk h l1 l2 h' :
  seg lk h (l1 ++ l2) h' ↔ ∃ m, seg lk h l1 m ∧ seg lk m l2 h'.
Proof.
  revert h. induction l1 as [|s l1 IH]; intros h; simpl.
  - split; [by eauto|by intros (? & -> & ?)].
  - setoid_rewrite IH. split.
    + intros (-> & n & ? & m & ? & ?). eauto 10.
    + intros (m & (-> & n & ? & ?) & ?). eauto 10.
Qed.

Lemma seg_insert lk h l h' s x : s ∉ l → seg (<[s := x]> lk) h l h' ↔ seg lk h l h'.
Proof.
  revert h. induction l as [|y l IH]; intros h Hs; simpl; [done|].
  apply not_elem_of_cons in Hs as [Hne Hs].
  setoid_rewrite list_lookup_insert_ne; [|done]. setoid_rewrite IH; [|done]. done.
Qed.

Lemma seg_lookup lk h l h' s : seg lk h l h' → s ∈ l → is_Some (lk !! s).
Proof.
  revert h. induction l as [|y l IH]; intros h Hseg Hin; [by apply not_elem_of_nil in Hin|].
  destruct Hseg as (-> & n & Hn & Hseg). apply elem_of_cons in Hin as [->|Hin]; eauto.
Qed.

(** The whole of a chain is determined by where it starts. *)
Lemma chain_det lk h l1 l2 :
  Z.of_nat (length lk) < NO_SLOT → chain_at lk h l1 → chain_at lk h l2 → l1 = l2.
Proof.
  intros Hlen. revert h l2. induction l1 as [|s l1 IH]; intros h [|s' l2]; simpl; try done.
  - intros -> (Heq & n & Hn & _). apply lookup_lt_Some in Hn. lia.
  - intros (-> & n & Hn & _) Heq. apply lookup_lt_Some in Hn. lia.
  - intros (-> & n & Hn & H1) (Heq & n' & Hn' & H2). apply Nat2Z.inj in Heq as ->.
    simplify_eq. f_equal. eauto.
Qed.

(** ** The two readings of the entries *)
Definition erase (e : FlowEntry) : FlowEntry := e <| link := 0 |>.
Definition links (t : FlowTable) : list Z := link <$> entries t.
Definition flows (t : FlowTable) : list FlowEntry := erase <$> entries t.

Definition count_state (s : FlowState) (fl : list FlowEntry) : nat :=
  length (filter (λ e, fl_state e = s) fl).

Lemma lookup_links t s : links t !! s = link <$> entries t !! s.
Proof. apply list_lookup_fmap. Qed.

Lemma lookup_flows t s : flows t !! s = erase <$> entries t !! s.
Proof. apply list_lookup_fmap. Qed.

Lemma link_of_links t s n : links t !! s = Some n → link_of t s = n.
Proof. rewrite lookup_links. unfold link_of. by destruct (entries t !! s); intros [= <-]. Qed.

Lemma alter_links_set (f : FlowEntry → FlowEntry) (es : list FlowEntry) s x :
  (∀ e, link (f e) = x) → link <$> alter f s es = <[s := x]> (link <$> es).
Proof.
  intros Hf. rewrite list_insert_alter. apply list_fmap_alter. by apply Forall_true.
Qed.

Lemma alter_flows (f g : FlowEntry → FlowEntry) (es : list FlowEntry) s :
  (∀ e, erase (f e) = g (erase e)) → erase <$> alter f s es = alter g s (erase <$> es).
Proof. intros Hfg. apply list_fmap_alter. by apply Forall_true. Qed.

Lemma alter_flows_id (f : FlowEntry → FlowEntry) (es : list FlowEntry) s :
  (∀ e, erase (f e) = erase e) → erase <$> alter f s es = erase <$> es.
Proof.
  intros Hf. apply list_eq. intros i. rewrite !list_lookup_fmap.
  destruct (decide (i = s)) as [->|Hne].
  - rewrite list_lookup_alter_eq. destruct (es !! s); simpl; [by rewrite Hf|done].
  - by rewrite list_lookup_alter_ne.
Qed.

Lemma alter_links_id (f : FlowEntry → FlowEntry) (es : list FlowEntry) s :
  (∀ e, link (f e) = link e) → link <$> alter f s es = link <$> es.
Proof.
  intros Hf. apply list_eq. intros i. rewrite !list_lookup_fmap.
  destruct (decide (i = s)) as [->|Hne].
  - rewrite list_lookup_alter_eq. destruct (es !! s); simpl; [by rewrite Hf|done].
  - by rewrite list_lookup_alter_ne.
Qed.

(** Replacing one entry moves one unit of the count. *)
Lemma count_state_insert s fl i e e' :
  fl !! i = Some e →
  (count_state s (<[i := e']> fl) + (if decide (fl_state e = s) then 1 else 0)
   = count_state s fl + (if decide (fl_state e' = s) then 1 else 0))%nat.
Proof.
  intros Hi. rewrite <-(take_drop_middle fl i e Hi) at 2.
  rewrite insert_take_drop by (by eapply lookup_lt_Some).
  unfold count_state. rewrite !filter_app, !filter_cons, !length_app.
  repeat case_decide; simpl; lia.
Qed.

Lemma count_state_le s fl : (count_state s fl ≤ length fl)%nat.
Proof. apply length_filter. Qed.

(** ** The invariant *)
Section invariant.
Context (CAPACITY : nat) `{!Layout CAPACITY}.

Lemma masked_spec x : 0 ≤ x → masked CAPACITY x = (Z.to_nat x mod CAPACITY)%nat.
Proof.
  intros Hx. destruct layout_power_of_two as [k ->]. unfold masked.
  assert (Z.of_nat (2 ^ k) = 2 ^ Z.of_nat k) as Hk by (by rewrite Nat2Z.inj_pow).
  rewrite Hk. replace (2 ^ Z.of_nat k - 1) with (Z.ones (Z.of_nat k)) by (rewrite Z.ones_equiv; lia).
  rewrite Z.land_ones by lia. rewrite <-Hk.
  rewrite Z2Nat.inj_mod by lia. by rewrite Nat2Z.id.
Qed.

Lemma capacity_pos : (0 < CAPACITY)%nat.
Proof. destruct layout_power_of_two as [k Hk]. pose proof (Nat.pow_nonzero 2 k). lia. Qed.

Lemma masked_lt x : 0 ≤ x → (masked CAPACITY x < CAPACITY)%nat.
Proof. intros. rewrite masked_spec by done. apply Nat.mod_upper_bound. pose proof capacity_pos. lia. Qed.

(** The slots a list may hold while [p] is off every list. *)
Definition free_slot (fl : list FlowEntry) (p : option nat) (s : nat) : Prop :=
  p ≠ Some s ∧ ∃ e, fl !! s = Some e ∧ fl_state e = Vacant.
Definition chained (fl : list FlowEntry) (p : option nat) (b s : nat) : Prop :=
  p ≠ Some s ∧ ∃ e, fl !! s = Some e ∧ fl_state e ≠ Vacant
                  ∧ FlowTable_bucket_of CAPACITY (entry_key e) = b.

(** A list holding exactly the slots of [P]. *)
Definition holds_exactly (lk : list Z) (h : Z) (bound : nat) (P : nat → Prop) : Prop :=
  ∃ l, chain_at lk h l ∧ NoDup l ∧ (length l ≤ bound)%nat ∧ ∀ s, s ∈ l ↔ P s.

Record wf_lists (p : option nat) (t : FlowTable) : Prop := {
  wf_entries_length : length (entries t) = CAPACITY;
  wf_buckets_length : length (buckets t) = CAPACITY;
  wf_free : holds_exactly (links t) (free_head t) CAPACITY (free_slot (flows t) p);
  wf_chains b : (b < CAPACITY)%nat →
    holds_exactly (links t) (bucket_head t b) MAX_CHAIN (chained (flows t) p b)
}.

Record wf_flows (p : option nat) (fl : list FlowEntry) (occ : list Z) : Prop := {
  wf_keys s e : fl !! s = Some e → fl_state e ≠ Vacant → FlowKey_ok (entry_key e);
  wf_unique s1 s2 e1 e2 :
    p ≠ Some s1 → p ≠ Some s2 → fl !! s1 = Some e1 → fl !! s2 = Some e2 →
    fl_state e1 ≠ Vacant → fl_state e2 ≠ Vacant → entry_key e1 = entry_key e2 → s1 = s2;
  wf_occupancy s : occ !! FlowState_index s = Some (Z.of_nat (count_state s fl));
  wf_occupancy_length : length occ = STATE_COUNT
}.

Record wf_with (p : option nat) (t : FlowTable) : Prop := {
  wf_l : wf_lists p t;
  wf_f : wf_flows p (flows t) (occupancy t);
  wf_sweep : 0 ≤ sweep_cursor t < Z.of_nat CAPACITY;
  wf_evict : 0 ≤ evict_cursor t < Z.of_nat CAPACITY
}.

(** The invariant between operations: no slot is in transit. *)
Definition wf (t : FlowTable) : Prop := wf_with None t.

Lemma length_links t : length (links t) = length (entries t).
Proof. apply length_fmap. Qed.
Lemma length_flows t : length (flows t) = length (entries t).
Proof. apply length_fmap. Qed.

Lemma links_bound p t : wf_lists p t → Z.of_nat (length (links t)) < NO_SLOT.
Proof. intros [Hl _ _ _]. rewrite length_links, Hl. apply layout_below_no_slot. Qed.

(** Relinking one slot of a list's own, or one on no list. *)
Lemma holds_exactly_insert lk h n P s x :
  ¬ P s → holds_exactly lk h n P → holds_exactly (<[s := x]> lk) h n P.
Proof.
  intros Hs (l & Hc & Hnd & Hlen & Hin). exists l. split_all; try done.
  apply seg_insert; [|done]. by rewrite Hin.
Qed.

Lemma holds_exactly_ext lk h n (P Q : nat → Prop) :
  (∀ s, P s ↔ Q s) → holds_exactly lk h n P → holds_exactly lk h n Q.
Proof.
  intros HPQ (l & Hc & Hnd & Hlen & Hin). exists l. split_all; try done.
  intros s. by rewrite Hin.
Qed.

(** Pushing a slot that is on no list. *)
Lemma holds_exactly_push lk h n (P Q : nat → Prop) s :
  (s < length lk)%nat → ¬ P s → (∀ s', Q s' ↔ s' = s ∨ P s') →
  (∀ l, chain_at lk h l → (∀ s, s ∈ l ↔ P s) → (length l < n)%nat) →
  (∃ m, holds_exactly lk h m P) → holds_exactly (<[s := h]> lk) (Z.of_nat s) n Q.
Proof.
  intros Hs HP HQ Hlen (m & l & Hc & Hnd & _ & Hin). exists (s :: l). split_all.
  - simpl. split; [done|]. exists h. rewrite list_lookup_insert_eq by done. split; [done|].
    apply seg_insert; [|done]. by rewrite Hin.
  - apply NoDup_cons. split; [by rewrite Hin|done].
  - simpl. specialize (Hlen l Hc Hin). lia.
  - intros s'. rewrite elem_of_cons, Hin. by rewrite HQ.
Qed.

(** A list without repetition of slots of the table is no longer than the table. *)
Lemma NoDup_bound (l : list nat) n : NoDup l → (∀ s, s ∈ l → (s < n)%nat) → (length l ≤ n)%nat.
Proof.
  intros Hnd Hin. rewrite <-(length_seq n 0). apply submseteq_length, NoDup_submseteq; [done|].
  intros s Hs. apply elem_of_seq. specialize (Hin s Hs). lia.
Qed.

(** ** The occupancy counters *)
Lemma occupancy_counts p fl occ :
  wf_flows p fl occ → occ = (λ s, Z.of_nat (count_state s fl)) <$> FlowState_ALL.
Proof.
  intros Hf. apply list_eq_same_length with (n := STATE_COUNT); [done|apply (wf_occupancy_length _ _ _ Hf)|].
  intros i x y Hi Hx Hy. rewrite list_lookup_fmap in Hy.
  destruct (FlowState_ALL !! i) as [s|] eqn:Hs; [|done]. simpl in Hy.
  assert (i = FlowState_index s) as -> by (do 13 (destruct i as [|i]; [by simplify_eq/=|]); done).
  rewrite (wf_occupancy _ _ _ Hf) in Hx. congruence.
Qed.

Lemma count_state_cons s e fl :
  count_state s (e :: fl) = (Nat.b2n (FlowState_index (fl_state e) =? FlowState_index s) + count_state s fl)%nat.
Proof.
  unfold count_state. rewrite filter_cons. case_decide as He.
  - by rewrite He, Nat.eqb_refl.
  - destruct (Nat.eqb_spec (FlowState_index (fl_state e)) (FlowState_index s)) as [Heq|]; [|done].
    by apply FlowState_index_inj in Heq.
Qed.

Lemma count_state_partition fl :
  (count_state SynSent fl + count_state SynReceived fl + count_state Established fl + count_state FinWait fl
   + count_state CloseWait fl + count_state Closing fl + count_state TimeWait fl + count_state Closed fl
   + count_state UdpUnreplied fl + count_state UdpAssured fl + count_state IcmpUnreplied fl
   + count_state IcmpReplied fl + count_state Vacant fl = length fl)%nat.
Proof.
  induction fl as [|e fl IH]; [done|]. rewrite !count_state_cons. cbn [length]. rewrite <-IH.
  destruct (fl_state e); cbn [FlowState_index Nat.eqb Nat.b2n]; lia.
Qed.

(** What [len] folds up, without saturating, is the number of slots not vacant. *)
Lemma len_exact p t :
  wf_with p t → FlowTable_len t = Z.of_nat CAPACITY - Z.of_nat (count_state Vacant (flows t)).
Proof.
  intros [Hl Hf _ _]. unfold FlowTable_len. rewrite (occupancy_counts _ _ _ Hf).
  pose proof (count_state_partition (flows t)) as Hsum. rewrite length_flows, (wf_entries_length _ _ Hl) in Hsum.
  pose proof layout_below_no_slot. unfold NO_SLOT, u32_max in *.
  unfold Occupancy_occupied, saturating_add. simpl. change (2 ^ 32) with 4294967296. lia.
Qed.

End invariant.
