(* ===== verification/FlowTableOps.v ===== *)
(** * The connection table: the list operations

    Each primitive that moves a slot between the free list, a hash chain and the
    hands of the caller preserves the invariant of [FlowTableInv.v], and acts on the
    observable flows as one update. *)
From S2P Require Import Prelude NetHeaders Clock SeqNumber FlowKey FlowEntry FlowTcp FlowIcmp FlowTable FlowTableInv.

(** What a released slot holds: nothing but its generation. *)
Definition closed (e : FlowEntry) : FlowEntry := erase (FlowEntry_close e).

Lemma erase_erase e : erase (erase e) = erase e.
Proof. done. Qed.
Lemma erase_set_link e x : erase (FlowEntry_set_link e x) = erase e.
Proof. done. Qed.
Lemma closed_erase e : closed (erase e) = closed e.
Proof. done. Qed.

(** The chain bound is only ever compared, never run down. *)
#[local] Opaque MAX_CHAIN.
#[local] Arguments FlowTable_bucket_of : simpl never.
#[local] Arguments FlowTable_unlink : simpl never.
#[local] Arguments FlowTable_record_state_change : simpl never.

Section ops.
Context (CAPACITY : nat) `{!Layout CAPACITY}.
Implicit Types (t : FlowTable) (slot s : nat).

Local Abbreviation wf_with := (wf_with CAPACITY).
Local Abbreviation wf := (wf CAPACITY).
Local Abbreviation bucket_of := (FlowTable_bucket_of CAPACITY).

(** ** Effects on the flows *)

Lemma flows_unlink_walk steps t prev target after :
  flows (unlink_walk steps t prev target after) = flows t
  ∧ occupancy (unlink_walk steps t prev target after) = occupancy t
  ∧ counters (unlink_walk steps t prev target after) = counters t.
Proof.
  revert prev. induction steps as [|steps IH]; intros prev; simpl; [done|].
  case_match; [done|]. case_match; [|done]. simpl. split; [|done].
  by apply alter_flows_id.
Qed.

Lemma flows_unlink slot t :
  flows (FlowTable_unlink CAPACITY slot t).2 = flows t
  ∧ occupancy (FlowTable_unlink CAPACITY slot t).2 = occupancy t
  ∧ counters (FlowTable_unlink CAPACITY slot t).2 = counters t.
Proof.
  unfold FlowTable_unlink, st_edit. cbn [snd].
  destruct (entries t !! slot) as [e|]; [|done]. destruct (negb _); [done|].
  destruct (_ =? _); [done|]. apply flows_unlink_walk.
Qed.

(** The second half of a release: out of the occupancy, onto the free list. *)
Definition push_free (slot : nat) (t : FlowTable) : FlowTable :=
  let state := match entries t !! slot with Some e => fl_state e | None => Vacant end in
  let t := (FlowTable_record_state_change state Vacant t).2 in
  t <| entries ::= alter (λ e, FlowEntry_set_link (FlowEntry_close e) (free_head t)) slot |>
    <| free_head := Z.of_nat slot |>.

Lemma release_eq slot t :
  (FlowTable_release CAPACITY slot t).2 = push_free slot (FlowTable_unlink CAPACITY slot t).2.
Proof. reflexivity. Qed.

Lemma record_state_change_frame from to t :
  let t' := (FlowTable_record_state_change from to t).2 in
  entries t' = entries t ∧ free_head t' = free_head t ∧ buckets t' = buckets t
  ∧ counters t' = counters t ∧ sweep_cursor t' = sweep_cursor t ∧ evict_cursor t' = evict_cursor t.
Proof. unfold FlowTable_record_state_change, st_edit. simpl. by case_bool_decide. Qed.

Lemma flows_release slot t : flows (FlowTable_release CAPACITY slot t).2 = alter closed slot (flows t).
Proof.
  rewrite release_eq. destruct (flows_unlink slot t) as [<- _].
  set (u := (FlowTable_unlink _ _ _).2). clearbody u. unfold push_free, flows. simpl.
  case_bool_decide; by apply alter_flows.
Qed.

Lemma counters_release slot t : counters (FlowTable_release CAPACITY slot t).2 = counters t.
Proof.
  rewrite release_eq. destruct (flows_unlink slot t) as (_ & _ & <-).
  set (u := (FlowTable_unlink _ _ _).2). clearbody u. unfold push_free. simpl. by case_bool_decide.
Qed.

Lemma flows_pop_free t : flows (FlowTable_pop_free t).2 = flows t.
Proof. unfold FlowTable_pop_free. case_match; [done|]. by apply alter_flows_id. Qed.

Lemma flows_link key slot t : flows (FlowTable_link CAPACITY key slot t).2 = flows t.
Proof. unfold FlowTable_link. case_match; [done|]. by apply alter_flows_id. Qed.

(** ** Unlinking *)

Lemma unlink_walk_absent steps t h l slot after :
  chain_at (links t) h l → slot ∉ l → (Z.of_nat slot < NO_SLOT) →
  Z.of_nat (length (links t)) < NO_SLOT →
  unlink_walk steps t h (Z.of_nat slot) after = t.
Proof.
  intros Hc Hs Hslot Hlen. revert h l Hc Hs. induction steps as [|steps IH]; intros h l Hc Hs; simpl; [done|].
  case_match; [done|]. destruct l as [|s l]; simpl in Hc; [lia|].
  destruct Hc as (-> & n & Hn & Hc). rewrite Nat2Z.id, (link_of_links _ _ _ Hn).
  apply not_elem_of_cons in Hs as [Hne Hs].
  destruct (Z.eqb_spec n (Z.of_nat slot)) as [->|]; [|by eapply IH].
  exfalso. destruct l as [|s' l]; simpl in Hc; [lia|]. destruct Hc as [Heq _].
  apply Nat2Z.inj in Heq as ->. apply Hs. by left.
Qed.

Lemma unlink_walk_present steps t h l prev slot after :
  seg (links t) h (l ++ [prev]) (Z.of_nat slot) → slot ∉ (l ++ [prev]) →
  (length l < steps)%nat → Z.of_nat (length (links t)) < NO_SLOT →
  unlink_walk steps t h (Z.of_nat slot) after
  = t <| entries ::= alter (λ e, FlowEntry_set_link e after) prev |>.
Proof.
  intros Hc Hs Hsteps Hlen. revert h l Hc Hs Hsteps.
  induction steps as [|steps IH]; intros h l Hc Hs Hsteps; [lia|]. simpl.
  destruct l as [|s l]; simpl in Hc; destruct Hc as (-> & n & Hn & Hc);
    pose proof (lookup_lt_Some _ _ _ Hn); rewrite (proj2 (Z.eqb_neq _ _)) by lia;
    rewrite Nat2Z.id, (link_of_links _ _ _ Hn).
  - subst n. by rewrite Z.eqb_refl.
  - simpl in Hs. apply not_elem_of_cons in Hs as [Hne Hs].
    destruct (Z.eqb_spec n (Z.of_nat slot)) as [->|]; [|apply (IH _ l); [done..|simpl in *; lia]].
    exfalso. apply Hs. destruct l as [|s' l]; simpl in Hc; destruct Hc as [Heq _];
      apply Nat2Z.inj in Heq as ->; by left.
Qed.

Lemma bucket_of_lt key : (bucket_of key < CAPACITY)%nat.
Proof.
  apply masked_lt; [done|]. unfold FlowKey_hash, avalanche, wrapping_mul, wrap.
  apply Z.lxor_nonneg. rewrite Z.shiftr_nonneg. split; intros; apply Z.mod_pos_bound; lia.
Qed.

#[local] Opaque FlowTable_bucket_of.

(** An entry of the table as a flow of it. *)
Lemma flows_lookup_Some t s e : flows t !! s = Some e → ∃ e', entries t !! s = Some e' ∧ erase e' = e.
Proof. rewrite lookup_flows. destruct (entries t !! s); intros [= <-]; eauto. Qed.

Lemma slot_lt p t s e : wf_with p t → flows t !! s = Some e → (s < CAPACITY)%nat.
Proof.
  intros Hwf Hs. apply lookup_lt_Some in Hs. rewrite length_flows in Hs.
  by rewrite (wf_entries_length _ _ _ (wf_l _ _ _ Hwf)) in Hs.
Qed.

Lemma unlink_off_chain slot t : wf_with (Some slot) t → (FlowTable_unlink CAPACITY slot t).2 = t.
Proof.
  intros Hwf. pose proof (links_bound _ _ _ (wf_l _ _ _ Hwf)) as Hlen.
  unfold FlowTable_unlink, st_edit. cbn [snd].
  destruct (entries t !! slot) as [e|] eqn:He; [|done].
  pose proof (lookup_lt_Some _ _ _ He) as Hlt. rewrite length_links in Hlen.
  destruct (FlowEntry_is_occupied e); simpl negb; cbv iota; [|done].
  set (b := bucket_of _).
  destruct (wf_chains _ _ _ (wf_l _ _ _ Hwf) b (bucket_of_lt _)) as (l & Hc & _ & _ & Hin).
  assert (slot ∉ l) as Hnot by (rewrite Hin; by intros [? _]).
  destruct (Z.eqb_spec (bucket_head t b) (Z.of_nat slot)) as [Heq|].
  - exfalso. destruct l as [|s l]; simpl in Hc; [lia|]. destruct Hc as [Hc _].
    rewrite Hc in Heq. apply Nat2Z.inj in Heq as ->. apply Hnot. by left.
  - eapply unlink_walk_absent; [done..|lia|by rewrite length_links].
Qed.

(** Dropping one slot from a list, by whichever of the two edits reaches it. *)
Lemma chain_split lk h l slot :
  chain_at lk h l → slot ∈ l →
  ∃ l1 l2 n, l = l1 ++ slot :: l2 ∧ seg lk h l1 (Z.of_nat slot) ∧ lk !! slot = Some n ∧ chain_at lk n l2.
Proof.
  intros Hc (l1 & l2 & ->)%list_elem_of_split. apply seg_app in Hc as (m & H1 & -> & n & Hn & H2).
  exists l1, l2, n. done.
Qed.

Lemma bucket_head_alter t b b' x :
  (b < length (buckets t))%nat →
  bucket_head (t <| buckets ::= alter (λ _, x) b |>) b' = if decide (b' = b) then x else bucket_head t b'.
Proof.
  intros Hb. unfold bucket_head. simpl. case_decide as Heq.
  - subst. rewrite list_lookup_alter_eq.
    destruct (lookup_lt_is_Some_2 _ _ Hb) as [y Hy]. by rewrite Hy.
  - by rewrite list_lookup_alter_ne.
Qed.

(** Taking a slot in hand, or back: the predicates of the lists shift by that slot. *)
Lemma chained_hand fl slot b s : chained CAPACITY fl (Some slot) b s ↔ chained CAPACITY fl None b s ∧ s ≠ slot.
Proof. unfold chained. split; [intros [? ?]|intros [[? ?] ?]]; split_all; auto; congruence. Qed.

Lemma free_slot_hand fl slot s : free_slot fl (Some slot) s ↔ free_slot fl None s ∧ s ≠ slot.
Proof. unfold free_slot. split; [intros [? ?]|intros [[? ?] ?]]; split_all; auto; congruence. Qed.

(** An occupied slot in hand changes no other list. *)
Lemma free_slot_occupied fl slot e s :
  fl !! slot = Some e → fl_state e ≠ Vacant → free_slot fl None s ↔ free_slot fl (Some slot) s.
Proof.
  intros He Hocc. rewrite free_slot_hand. split; [|tauto]. intros Hfr. split; [done|].
  intros ->. destruct Hfr as (_ & e' & He' & Hv). congruence.
Qed.

Lemma chained_other fl slot b b' s :
  chained CAPACITY fl None b slot → b' ≠ b →
  chained CAPACITY fl None b' s ↔ chained CAPACITY fl (Some slot) b' s.
Proof.
  intros (_ & e1 & He1 & _ & Hb) Hne. rewrite chained_hand. split; [|tauto].
  intros Hc. split; [done|]. intros ->. destruct Hc as (_ & e2 & He2 & _ & Hb2). congruence.
Qed.

Lemma wf_flows_hand slot fl occ : wf_flows None fl occ → wf_flows (Some slot) fl occ.
Proof. intros [Hk Hu Ho Hl]. split; auto. intros. by eapply Hu. Qed.

(** A list loses the slot in hand. *)
Lemma holds_exactly_drop lk h n P slot :
  Z.of_nat (length lk) < NO_SLOT → P slot → holds_exactly lk h n P →
  (∃ x l, h = Z.of_nat slot ∧ lk !! slot = Some x ∧ chain_at lk x l
          ∧ holds_exactly lk x n (λ s, P s ∧ s ≠ slot))
  ∨ (∃ l prev l2 x, h ≠ Z.of_nat slot ∧ lk !! slot = Some x ∧ P prev ∧ prev ≠ slot
       ∧ seg lk h (l ++ [prev]) (Z.of_nat slot) ∧ (slot ∉ l ++ [prev]) ∧ (length l < n)%nat
       ∧ chain_at lk x l2 ∧ holds_exactly (<[prev := x]> lk) h n (λ s, P s ∧ s ≠ slot)).
Proof.
  intros Hlen HP (l & Hc & Hnd & Hln & Hin).
  destruct (chain_split lk h l slot Hc) as (l1 & l2 & x & -> & H1 & Hx & H2); [by apply Hin|].
  apply NoDup_app in Hnd as (Hnd1 & Hdisj & [Hnot Hnd2]%NoDup_cons).
  assert (∀ s, s ∈ l1 ++ l2 ↔ P s ∧ s ≠ slot) as Hin'.
  { intros s. rewrite <-Hin, !elem_of_app, elem_of_cons.
    split; [intros [Hs|Hs]|intros [[?|[?|?]] ?]; tauto].
    - split; [by left|]. intros ->. apply (Hdisj slot Hs). by left.
    - split; [by right; right|]. by intros ->. }
  rewrite length_app in Hln. simpl in Hln.
  destruct l1 as [|prev l1 _] using rev_ind.
  - left. exists x, l2. simpl in H1. split_all; try done. exists l2.
    split_all; try done. simpl in Hln. lia.
  - right. exists l1, prev, l2, x. rewrite length_app in Hln. simpl in Hln.
    assert (P prev ∧ prev ≠ slot) as [Hprev Hne] by (apply Hin'; rewrite !elem_of_app; left; right; by left).
    assert (slot ∉ (l1 ++ [prev])) as Hslot.
    { intros Hs. apply (Hdisj slot Hs). by left. }
    apply NoDup_app in Hnd1 as Hnd1'. destruct Hnd1' as (Hnl1 & Hd1 & _).
    assert (prev ∉ l1) as Hpl1 by (intros Hs; apply (Hd1 prev Hs); by left).
    assert (prev ∉ l2) as Hpl2 by (intros Hs; apply (Hdisj prev); [apply elem_of_app; right; by left|by right]).
    assert (h ≠ Z.of_nat slot) as Hhead.
    { intros ->. destruct l1 as [|s l1]; simpl in H1; destruct H1 as [Heq _];
        apply Nat2Z.inj in Heq as ->; apply Hslot; by left. }
    split_all; try done; [lia|].
    exists ((l1 ++ [prev]) ++ l2). split_all.
    + apply seg_app in H1 as (m & Hl1 & -> & n' & Hn' & ->).
      rewrite <-app_assoc. apply seg_app. exists (Z.of_nat prev).
      split; [by apply seg_insert|]. simpl. split; [done|]. exists x.
      rewrite list_lookup_insert_eq by (by eapply lookup_lt_Some). split; [done|]. by apply seg_insert.
    + apply NoDup_app. split_all; [done| |done]. intros s Hs Hs2. apply (Hdisj s Hs). by right.
    + rewrite !length_app. simpl. lia.
    + done.
Qed.

(** Taking a flow off its chain puts its slot in hand. *)
Lemma unlink_wf slot t e :
  wf t → flows t !! slot = Some e → fl_state e ≠ Vacant →
  wf_with (Some slot) (FlowTable_unlink CAPACITY slot t).2.
Proof.
  intros Hwf Hs Hocc. pose proof (slot_lt _ _ _ _ Hwf Hs) as Hlt.
  destruct Hwf as [Hl Hf Hsw Hev]. pose proof (links_bound _ _ _ Hl) as Hlen.
  pose proof (wf_keys _ _ _ Hf _ _ Hs Hocc) as Hkey.
  destruct (flows_lookup_Some _ _ _ Hs) as (e0 & He0 & <-).
  unfold FlowTable_unlink, st_edit. cbn [snd]. rewrite He0.
  rewrite (proj2 (is_occupied_true e0) Hocc). simpl negb. cbv iota.
  rewrite (FlowEntry_key_canonical e0) by done. change (entry_key e0) with (entry_key (erase e0)).
  set (b := bucket_of (entry_key (erase e0))).
  pose proof (bucket_of_lt (entry_key (erase e0))) as Hb. fold b in Hb.
  assert (chained CAPACITY (flows t) None b slot) as Hch by (split; [done|]; by exists (erase e0)).
  pose proof (wf_buckets_length _ _ _ Hl) as Hbl.
  destruct (holds_exactly_drop _ _ _ _ slot Hlen Hch (wf_chains _ _ _ Hl b Hb))
    as [(x & l & Hhead & Hx & Hcx & Hnew)|(l & prev & l2 & x & Hhead & Hx & Hprev & Hne & Hseg & Hnot & Hll & Hcx & Hnew)].
  - rewrite Hhead, Z.eqb_refl, (link_of_links _ _ _ Hx).
    split; [|by apply wf_flows_hand|done|done]. split; try apply Hl.
    + simpl. by rewrite length_alter.
    + eapply holds_exactly_ext; [|apply Hl]. intros s. by eapply free_slot_occupied.
    + intros b' Hb'. rewrite bucket_head_alter by lia. case_decide as Heq; [subst b'|].
      * eapply holds_exactly_ext; [|exact Hnew]. intros s. by rewrite chained_hand.
      * eapply holds_exactly_ext; [|by apply (wf_chains _ _ _ Hl)]. intros s. by eapply chained_other.
  - rewrite (proj2 (Z.eqb_neq _ _)) by done. rewrite (link_of_links _ _ _ Hx).
    rewrite (unlink_walk_present _ _ _ l prev) by done.
    assert (flows (t <| entries ::= alter (λ e, FlowEntry_set_link e x) prev |>) = flows t) as Hfl
      by by apply alter_flows_id.
    assert (links (t <| entries ::= alter (λ e, FlowEntry_set_link e x) prev |>) = <[prev := x]> (links t))
      as Hlk by by apply alter_links_set.
    split; [|rewrite Hfl; by apply wf_flows_hand|done|done].
    split; [simpl; rewrite length_alter; apply Hl|apply Hl| |].
    + rewrite Hfl, Hlk. apply holds_exactly_insert.
      * intros [_ (e' & He' & Hv)]. destruct Hprev as (_ & e1 & He1 & Hocc1 & _). congruence.
      * eapply holds_exactly_ext; [|apply Hl]. intros s. by eapply free_slot_occupied.
    + intros b' Hb'. change (bucket_head _ b') with (bucket_head t b'). rewrite Hfl, Hlk.
      destruct (decide (b' = b)) as [->|Heq].
      * eapply holds_exactly_ext; [|exact Hnew]. intros s. by rewrite chained_hand.
      * apply holds_exactly_insert.
        { intros (_ & e' & He' & _ & Hb2). destruct Hprev as (_ & e1 & He1 & _ & Hb1). congruence. }
        eapply holds_exactly_ext; [|by apply (wf_chains _ _ _ Hl)]. intros s. by eapply chained_other.
Qed.

(** ** The occupancy follows the states *)
Lemma occupancy_move t slot e e' to :
  (length (flows t) = CAPACITY)%nat →
  (∀ st, occupancy t !! FlowState_index st = Some (Z.of_nat (count_state st (flows t)))) →
  flows t !! slot = Some e → fl_state e' = to →
  ∀ st, occupancy (FlowTable_record_state_change (fl_state e) to t).2 !! FlowState_index st
        = Some (Z.of_nat (count_state st (<[slot := e']> (flows t)))).
Proof.
  intros Hlen Hocc He Hto s. pose proof (count_state_insert s (flows t) slot e e' He) as Hcount.
  pose proof (count_state_le s (<[slot := e']> (flows t))) as Hle.
  rewrite length_insert, Hlen in Hle. pose proof layout_below_no_slot as Hno.
  unfold FlowTable_record_state_change, st_edit. simpl. rewrite Hto in Hcount.
  case_bool_decide as Heq; simpl.
  - rewrite Hocc. do 2 f_equal. rewrite <-Heq in Hcount. case_decide; lia.
  - assert (∀ a b, a ≠ b → FlowState_index a ≠ FlowState_index b) as Hidx
      by (intros a b Hab Hi; by apply Hab, FlowState_index_inj).
    unfold NO_SLOT in *. destruct (decide (s = to)) as [->|Hs1].
    + rewrite list_lookup_alter_eq, list_lookup_alter_ne, Hocc by auto. simpl. f_equal.
      rewrite decide_False, decide_True in Hcount by auto. unfold_ints. lia.
    + rewrite list_lookup_alter_ne by auto. rewrite (decide_False (P := to = s)) in Hcount by auto.
      destruct (decide (s = fl_state e)) as [->|Hs2].
      * rewrite list_lookup_alter_eq, Hocc. simpl. f_equal.
        rewrite decide_True in Hcount by done. unfold_ints. lia.
      * rewrite list_lookup_alter_ne, Hocc by auto. do 2 f_equal.
        rewrite decide_False in Hcount by auto. lia.
Qed.

Lemma record_state_change_length from to t :
  length (occupancy (FlowTable_record_state_change from to t).2) = length (occupancy t).
Proof.
  unfold FlowTable_record_state_change, st_edit. simpl. case_bool_decide; [done|].
  simpl. by rewrite !length_alter.
Qed.

(** Emptying the slot in hand: what each list must hold afterwards, and the rest. *)
Lemma vacate_lists fl slot e :
  (slot < length fl)%nat → fl_state e = Vacant →
  (∀ s, free_slot (<[slot := e]> fl) None s ↔ s = slot ∨ free_slot fl (Some slot) s)
  ∧ (∀ b s, chained CAPACITY (<[slot := e]> fl) None b s ↔ chained CAPACITY fl (Some slot) b s).
Proof.
  intros Hlt Hv. split; [intros s|intros b s].
  - unfold free_slot. destruct (decide (s = slot)) as [->|Hne].
    + rewrite list_lookup_insert_eq by done. split; [by left|]. intros _. split; [done|]. by exists e.
    + rewrite list_lookup_insert_ne by done. split; [intros [_ ?]; right; split; [congruence|done]|].
      by intros [->|[_ ?]].
  - unfold chained. destruct (decide (s = slot)) as [->|Hne].
    + rewrite list_lookup_insert_eq by done.
      split; [by intros (_ & ? & [= <-] & ? & _)|by intros [? _]].
    + rewrite list_lookup_insert_ne by done. split; intros [_ ?]; (split; [congruence|done]).
Qed.

Lemma vacate_flows fl occ occ' slot e :
  wf_flows (Some slot) fl occ → (slot < length fl)%nat → fl_state e = Vacant →
  (∀ st, occ' !! FlowState_index st = Some (Z.of_nat (count_state st (<[slot := e]> fl)))) →
  length occ' = STATE_COUNT →
  wf_flows None (<[slot := e]> fl) occ'.
Proof.
  intros Hf Hlt Hv Hocc Hlen.
  assert (∀ s e', <[slot := e]> fl !! s = Some e' → fl_state e' ≠ Vacant →
    s ≠ slot ∧ fl !! s = Some e') as Hback.
  { intros s e' Hs Hv'. destruct (decide (s = slot)) as [->|Hne].
    - rewrite list_lookup_insert_eq in Hs by done. congruence.
    - by rewrite list_lookup_insert_ne in Hs. }
  split; [|..|done|done].
  - intros s e' Hs Hv'. destruct (Hback _ _ Hs Hv'). by eapply (wf_keys _ _ _ Hf).
  - intros s1 s2 e1 e2 _ _ H1 H2 Hv1 Hv2 Hk. destruct (Hback _ _ H1 Hv1), (Hback _ _ H2 Hv2).
    eapply (wf_unique _ _ _ Hf); [| | | |exact Hv1|exact Hv2|exact Hk]; congruence.
Qed.

(** Giving a slot in hand back to the free list. *)
Lemma push_free_wf slot t : wf_with (Some slot) t → (slot < CAPACITY)%nat → wf (push_free slot t).
Proof.
  intros Hwf Hslot. destruct Hwf as [Hl Hf Hsw Hev]. pose proof (wf_entries_length _ _ _ Hl) as Hel.
  destruct (lookup_lt_is_Some_2 (entries t) slot) as [e He]; [lia|].
  unfold push_free. rewrite He.
  destruct (record_state_change_frame (fl_state e) Vacant t) as (He' & Hfh & Hbk & _ & Hsw' & Hev').
  pose proof (record_state_change_length (fl_state e) Vacant t) as Hol.
  assert (flows t !! slot = Some (erase e)) as Hfe by (by rewrite lookup_flows, He).
  pose proof (occupancy_move t slot (erase e) (closed e) Vacant) as Hom.
  rewrite length_flows in Hom.
  specialize (Hom Hel (wf_occupancy _ _ _ Hf) Hfe eq_refl).
  change (fl_state (erase e)) with (fl_state e) in Hom.
  set (t1 := (FlowTable_record_state_change (fl_state e) Vacant t).2) in *. clearbody t1.
  set (t2 := t1 <| entries ::= _ |> <| free_head := _ |>).
  assert (flows t2 = <[slot := closed e]> (flows t)) as Hfl.
  { unfold flows, t2. simpl. rewrite He', Hfh, (alter_flows _ closed) by done.
    rewrite list_insert_alter. apply list_alter_ext; [|done].
    intros x Hx. rewrite list_lookup_fmap, He in Hx. by simplify_eq/=. }
  assert (links t2 = <[slot := free_head t]> (links t)) as Hlk.
  { unfold links, t2. simpl. rewrite He', Hfh. by apply alter_links_set. }
  destruct (vacate_lists (flows t) slot (closed e)) as [Hfree Hch]; [rewrite length_flows; lia|done|].
  rewrite <-Hfl in Hfree, Hch.
  split; [split| |..].
  - unfold t2. simpl. by rewrite length_alter, He'.
  - unfold t2. simpl. rewrite Hbk. apply Hl.
  - rewrite Hlk. change (free_head t2) with (Z.of_nat slot).
    apply (holds_exactly_push _ _ _ (free_slot (flows t) (Some slot))).
    + rewrite length_links. lia.
    + by intros [? _].
    + exact Hfree.
    + intros l Hc Hin. assert (NoDup l ∧ slot ∉ l) as [Hnd Hnot].
      { destruct (wf_free _ _ _ Hl) as (l' & Hc' & Hnd & _ & Hin').
        rewrite (chain_det _ _ l l' (links_bound _ _ _ Hl) Hc Hc'). split; [done|].
        rewrite Hin'. by intros [? _]. }
      apply (Nat.lt_le_trans _ (length (slot :: l))); [simpl; lia|].
      apply NoDup_bound; [by apply NoDup_cons|].
      intros s [->|Hs]%elem_of_cons; [done|].
      destruct (seg_lookup _ _ _ _ _ Hc Hs) as [? Hs']. apply lookup_lt_Some in Hs'.
      rewrite length_links in Hs'. lia.
    + exists CAPACITY. apply Hl.
  - intros b Hb. rewrite Hlk. assert (bucket_head t2 b = bucket_head t b) as ->
      by (unfold bucket_head, t2; simpl; by rewrite Hbk).
    apply holds_exactly_insert; [rewrite Hch; by intros [? _]|].
    eapply holds_exactly_ext; [|by apply (wf_chains _ _ _ Hl)]. intros s. by rewrite Hch.
  - rewrite Hfl. eapply vacate_flows; [done| |done|exact Hom|].
    + rewrite length_flows. lia.
    + unfold t2. simpl. rewrite Hol. apply Hf.
  - unfold t2. simpl. by rewrite Hsw'.
  - unfold t2. simpl. by rewrite Hev'.
Qed.

Lemma release_wf slot t e :
  wf t → flows t !! slot = Some e → fl_state e ≠ Vacant → wf (FlowTable_release CAPACITY slot t).2.
Proof.
  intros Hwf He Hocc. rewrite release_eq.
  apply push_free_wf; [by eapply unlink_wf|by eapply slot_lt].
Qed.

(** Releasing a slot no chain took: the refused half of [open]. *)
Lemma release_wf_hand slot t :
  wf_with (Some slot) t → (slot < CAPACITY)%nat → wf (FlowTable_release CAPACITY slot t).2.
Proof. intros Hwf Hslot. rewrite release_eq, unlink_off_chain by done. by apply push_free_wf. Qed.

(** ** The free list *)
Lemma pop_free_None t : wf t → (FlowTable_pop_free t).1 = None →
  (FlowTable_pop_free t).2 = t ∧ ∀ s e, flows t !! s = Some e → fl_state e ≠ Vacant.
Proof.
  intros Hwf. unfold FlowTable_pop_free. destruct (Z.eqb_spec (free_head t) NO_SLOT) as [Hfh|]; [|done].
  intros _. split; [done|]. intros s e Hs Hv.
  destruct (wf_free _ _ _ (wf_l _ _ _ Hwf)) as (l & Hc & _ & _ & Hin).
  assert (s ∈ l) as Hsl by (apply Hin; split; [done|]; by exists e).
  destruct l as [|x l]; [by apply not_elem_of_nil in Hsl|].
  pose proof (links_bound _ _ _ (wf_l _ _ _ Hwf)). destruct Hc as (Heq & n & Hn & _).
  apply lookup_lt_Some in Hn. lia.
Qed.

Lemma pop_free_Some slot t : wf t → (FlowTable_pop_free t).1 = Some slot →
  wf_with (Some slot) (FlowTable_pop_free t).2
  ∧ ∃ e, flows t !! slot = Some e ∧ fl_state e = Vacant.
Proof.
  intros [Hl Hf Hsw Hev]. unfold FlowTable_pop_free.
  destruct (Z.eqb_spec (free_head t) NO_SLOT) as [|Hfh]; [done|]. cbn [fst snd]. intros [= <-].
  destruct (wf_free _ _ _ Hl) as (l & Hc & Hnd & Hlen & Hin).
  destruct l as [|x l]; simpl in Hc; [done|]. destruct Hc as (Hx & n & Hn & Hc).
  rewrite Hx, Nat2Z.id, (link_of_links _ _ _ Hn). apply NoDup_cons in Hnd as [Hnot Hnd].
  assert (free_slot (flows t) None x) as Hfree by (apply Hin; by left).
  destruct Hfree as (_ & e & He & Hv). split; [|by exists e].
  set (t' := t <| free_head := n |> <| entries ::= _ |>).
  assert (flows t' = flows t) as Hfl by by apply alter_flows_id.
  assert (links t' = <[x := NO_SLOT]> (links t)) as Hlk by by apply alter_links_set.
  split; [|rewrite Hfl; by apply wf_flows_hand|done|done].
  split; [unfold t'; simpl; rewrite length_alter; apply Hl|apply Hl| |].
  - rewrite Hlk, Hfl. exists l. change (free_head t') with n. split_all.
    + by apply seg_insert.
    + done.
    + simpl in Hlen. lia.
    + intros s. rewrite free_slot_hand, <-Hin, elem_of_cons. split; [|tauto].
      intros Hs. split; [by right|]. by intros ->.
  - intros b Hb. change (bucket_head t' b) with (bucket_head t b). rewrite Hlk, Hfl.
    apply holds_exactly_insert; [by intros [? _]|].
    eapply holds_exactly_ext; [|by apply (wf_chains _ _ _ Hl)]. intros s. rewrite chained_hand.
    split; [|tauto]. intros Hs. split; [done|]. intros ->. destruct Hs as (_ & e' & He' & ? & _). congruence.
Qed.

(** ** Replacing one entry *)
Lemma edit_flows slot t (f : FlowEntry → FlowEntry) e :
  entries t !! slot = Some e →
  flows (edit_entry slot f t).2 = <[slot := erase (f e)]> (flows t)
  ∧ links (edit_entry slot f t).2 = <[slot := link (f e)]> (links t).
Proof.
  intros He. pose proof (lookup_lt_Some _ _ _ He) as Hlt.
  split; apply list_eq; intros i; unfold flows, links, edit_entry, st_edit; simpl;
    rewrite list_lookup_fmap; (destruct (decide (i = slot)) as [->|Hne];
    [rewrite list_lookup_alter_eq, He, list_lookup_insert_eq by (rewrite length_fmap; lia)
    |rewrite list_lookup_alter_ne, list_lookup_insert_ne, list_lookup_fmap by done]); done.
Qed.

(** Moving the entry's state along with it in the occupancy. *)
Definition replace_entry (slot : nat) (f : FlowEntry → FlowEntry) (from to : FlowState) (t : FlowTable)
    : FlowTable :=
  (FlowTable_record_state_change from to (edit_entry slot f t).2).2.

Lemma replace_entry_frame slot t f e to :
  entries t !! slot = Some e →
  let t' := replace_entry slot f (fl_state e) to t in
  flows t' = <[slot := erase (f e)]> (flows t) ∧ links t' = <[slot := link (f e)]> (links t)
  ∧ length (entries t') = length (entries t) ∧ buckets t' = buckets t ∧ free_head t' = free_head t
  ∧ counters t' = counters t
  ∧ sweep_cursor t' = sweep_cursor t ∧ evict_cursor t' = evict_cursor t
  ∧ length (occupancy t') = length (occupancy t).
Proof.
  intros He t'. destruct (edit_flows slot t f e He) as [<- <-]. subst t'. unfold replace_entry.
  destruct (record_state_change_frame (fl_state e) to (edit_entry slot f t).2)
    as (He' & Hfh & Hbk & Hct & Hsw & Hev).
  rewrite Hfh, Hbk, Hct, Hsw, Hev, record_state_change_length. unfold flows, links. rewrite He'.
  split_all; try done. simpl. by rewrite length_alter.
Qed.

Lemma replace_entry_occupancy slot t f e to :
  length (entries t) = CAPACITY → entries t !! slot = Some e → fl_state (f e) = to →
  (∀ st, occupancy t !! FlowState_index st = Some (Z.of_nat (count_state st (flows t)))) →
  ∀ st, occupancy (replace_entry slot f (fl_state e) to t) !! FlowState_index st
        = Some (Z.of_nat (count_state st (<[slot := erase (f e)]> (flows t)))).
Proof.
  intros Hel He Hto Hocc st.
  assert (flows t !! slot = Some (erase e)) as Hfe by (by rewrite lookup_flows, He).
  rewrite <-(occupancy_move t slot (erase e) (erase (f e)) to); [|by rewrite length_flows|done..].
  unfold replace_entry, FlowTable_record_state_change, st_edit. simpl. by case_bool_decide.
Qed.

(** ** Filling the slot in hand *)
Lemma hand_fill slot t (f : FlowEntry → FlowEntry) e to :
  wf_with (Some slot) t → entries t !! slot = Some e → fl_state (f e) = to →
  FlowKey_ok (entry_key (f e)) →
  wf_with (Some slot) (replace_entry slot f (fl_state e) to t).
Proof.
  intros [Hl Hf Hsw Hev] He Hto Hkey. pose proof (wf_entries_length _ _ _ Hl) as Hel.
  destruct (replace_entry_frame slot t f e to He)
    as (Hfl & Hlk & Hel' & Hbk & Hfh & _ & Hsw' & Hev' & Hol).
  pose proof (replace_entry_occupancy slot t f e to Hel He Hto (wf_occupancy _ _ _ Hf)) as Hocc.
  set (t' := replace_entry _ _ _ _ _) in *. clearbody t'.
  assert (∀ s, s ≠ slot → flows t' !! s = flows t !! s) as Hoth
    by (intros s Hs; rewrite Hfl; by apply list_lookup_insert_ne).
  split; [split| |..]; rewrite ?Hel', ?Hbk, ?Hsw', ?Hev'; try done; try apply Hl.
  - rewrite Hlk, Hfh. apply holds_exactly_insert; [by intros [? _]|].
    eapply holds_exactly_ext; [|apply Hl]. intros s. unfold free_slot.
    split; intros [? ?]; (split; [done|]); [rewrite Hoth by congruence|rewrite <-Hoth by congruence]; done.
  - intros b Hb. assert (bucket_head t' b = bucket_head t b) as -> by (unfold bucket_head; by rewrite Hbk).
    rewrite Hlk. apply holds_exactly_insert; [by intros [? _]|].
    eapply holds_exactly_ext; [|by apply (wf_chains _ _ _ Hl)]. intros s. unfold chained.
    split; intros [? ?]; (split; [done|]); [rewrite Hoth by congruence|rewrite <-Hoth by congruence]; done.
  - split; [| |by rewrite Hfl|rewrite Hol; apply Hf].
    + intros s e1 Hs Hv. destruct (decide (s = slot)) as [->|Hne].
      * rewrite Hfl, list_lookup_insert_eq in Hs
          by (rewrite length_flows; by eapply lookup_lt_Some). by simplify_eq.
      * rewrite Hoth in Hs by done. by eapply (wf_keys _ _ _ Hf).
    + intros s1 s2 e1 e2 Hp1 Hp2. rewrite !Hoth by congruence. by apply (wf_unique _ _ _ Hf).
Qed.

(** ** Editing a flow in place *)
Lemma edit_in_place slot t (f : FlowEntry → FlowEntry) e to :
  wf t → entries t !! slot = Some e → fl_state e ≠ Vacant → to ≠ Vacant → fl_state (f e) = to →
  link (f e) = link e → entry_key (f e) = entry_key e →
  wf (replace_entry slot f (fl_state e) to t).
Proof.
  intros [Hl Hf Hsw Hev] He Hocc Hto Hst Hlink Hkey. pose proof (wf_entries_length _ _ _ Hl) as Hel.
  destruct (replace_entry_frame slot t f e to He)
    as (Hfl & Hlk & Hel' & Hbk & Hfh & _ & Hsw' & Hev' & Hol).
  pose proof (replace_entry_occupancy slot t f e to Hel He Hst (wf_occupancy _ _ _ Hf)) as Hoc.
  set (t' := replace_entry _ _ _ _ _) in *. clearbody t'.
  assert (links t' = links t) as Hlk'.
  { rewrite Hlk, Hlink. apply list_insert_id. by rewrite lookup_links, He. }
  pose proof (lookup_lt_Some _ _ _ He) as Hlt. rewrite <-length_flows in Hlt.
  assert (∀ s e1, flows t' !! s = Some e1 → ∃ e0, flows t !! s = Some e0
    ∧ entry_key e1 = entry_key e0 ∧ (fl_state e1 = Vacant ↔ fl_state e0 = Vacant)) as Hback.
  { intros s e1 Hs. rewrite Hfl in Hs. destruct (decide (s = slot)) as [->|Hne].
    - rewrite list_lookup_insert_eq in Hs by done. injection Hs as <-. exists (erase e).
      rewrite lookup_flows, He. split_all; [done|exact Hkey|]. simpl. split; congruence.
    - rewrite list_lookup_insert_ne in Hs by done. by exists e1. }
  assert (∀ s e0, flows t !! s = Some e0 → ∃ e1, flows t' !! s = Some e1) as Hfwd.
  { intros s e0 Hs. apply lookup_lt_is_Some_2. rewrite Hfl, length_insert. by eapply lookup_lt_Some. }
  split; [split| |..]; rewrite ?Hel', ?Hbk, ?Hsw', ?Hev'; try done; try apply Hl.
  - rewrite Hlk', Hfh. eapply holds_exactly_ext; [|apply Hl]. intros s. unfold free_slot. split.
    + intros (? & e0 & Hs & Hv). split; [done|]. destruct (Hfwd _ _ Hs) as [e1 Hs1].
      destruct (Hback _ _ Hs1) as (e0' & Hs0 & _ & Hvv). exists e1. split; [done|]. apply Hvv. congruence.
    + intros (? & e1 & Hs & Hv). split; [done|]. destruct (Hback _ _ Hs) as (e0 & Hs0 & _ & Hvv).
      exists e0. tauto.
  - intros b Hb. assert (bucket_head t' b = bucket_head t b) as -> by (unfold bucket_head; by rewrite Hbk).
    rewrite Hlk'. eapply holds_exactly_ext; [|by apply (wf_chains _ _ _ Hl)]. intros s. unfold chained. split.
    + intros (? & e0 & Hs & Hv & Hb0). split; [done|]. destruct (Hfwd _ _ Hs) as [e1 Hs1].
      destruct (Hback _ _ Hs1) as (e0' & Hs0 & Hk & Hvv). rewrite Hs in Hs0. injection Hs0 as <-. exists e1.
      split_all; [done|by rewrite Hvv|by rewrite Hk].
    + intros (? & e1 & Hs & Hv & Hb0). split; [done|]. destruct (Hback _ _ Hs) as (e0 & Hs0 & Hk & Hvv).
      exists e0. split_all; [done|by rewrite <-Hvv|by rewrite <-Hk].
  - split; [| |by rewrite Hfl|rewrite Hol; apply Hf].
    + intros s e1 Hs Hv. destruct (Hback _ _ Hs) as (e0 & Hs0 & Hk & Hvv). rewrite Hk.
      eapply (wf_keys _ _ _ Hf); [done|by rewrite <-Hvv].
    + intros s1 s2 e1 e2 _ _ H1 H2 Hv1 Hv2 Heq.
      destruct (Hback _ _ H1) as (a1 & Ha1 & Hk1 & Hvv1), (Hback _ _ H2) as (a2 & Ha2 & Hk2 & Hvv2).
      eapply (wf_unique _ _ _ Hf); [done|done|exact Ha1|exact Ha2| | |]; [tauto|tauto|congruence].
Qed.

(** ** Linking *)
Lemma chain_length_spec steps t h l :
  chain_at (links t) h l → Z.of_nat (length (links t)) < NO_SLOT →
  chain_length steps t h = Nat.min steps (length l).
Proof.
  intros Hc Hlen. revert h l Hc. induction steps as [|steps IH]; intros h l Hc; [done|]. simpl.
  destruct l as [|s l]; simpl in Hc; [by subst h|]. destruct Hc as (-> & n & Hn & Hc).
  pose proof (lookup_lt_Some _ _ _ Hn). rewrite (proj2 (Z.eqb_neq _ _)) by lia.
  rewrite Nat2Z.id. rewrite lookup_links in Hn. destruct (entries t !! s) as [e|]; [|done].
  simplify_eq/=. f_equal. by apply IH.
Qed.

Lemma link_wf slot t key e :
  wf_with (Some slot) t → flows t !! slot = Some e → fl_state e ≠ Vacant → entry_key e = key →
  (∀ s e', flows t !! s = Some e' → fl_state e' ≠ Vacant → entry_key e' = key → s = slot) →
  if (FlowTable_link CAPACITY key slot t).1 then wf (FlowTable_link CAPACITY key slot t).2
  else (FlowTable_link CAPACITY key slot t).2 = t.
Proof.
  intros [Hl Hf Hsw Hev] He Hocc Hkey Huniq. unfold FlowTable_link.
  set (b := bucket_of key). pose proof (bucket_of_lt key) as Hb. fold b in Hb.
  pose proof (wf_buckets_length _ _ _ Hl) as Hbl. pose proof (links_bound _ _ _ Hl) as Hbound.
  pose proof (wf_chains _ _ _ Hl b Hb) as Hchain.
  destruct (Nat.leb_spec MAX_CHAIN (chain_length MAX_CHAIN t (bucket_head t b))) as [|Hroom]; [done|].
  cbn [fst snd]. set (t' := t <| entries ::= _ |> <| buckets ::= _ |>).
  assert (flows t' = flows t) as Hfl by by apply alter_flows_id.
  assert (links t' = <[slot := bucket_head t b]> (links t)) as Hlk by by apply alter_links_set.
  assert (∀ b', bucket_head t' b' = if decide (b' = b) then Z.of_nat slot else bucket_head t b') as Hbh.
  { intros b'. rewrite <-(bucket_head_alter t b b') by lia. done. }
  assert (∀ b' s, chained CAPACITY (flows t) None b' s ↔
    (s = slot ∧ b' = b) ∨ chained CAPACITY (flows t) (Some slot) b' s) as Hch.
  { intros b' s. rewrite chained_hand. destruct (decide (s = slot)) as [->|]; [|tauto].
    split; [|intros [[_ ->]|[_ ?]]; [|done]].
    - intros (_ & e' & He' & _ & <-). left. split; [done|]. subst b key. congruence.
    - split; [done|]. exists e. split_all; try done. by subst key. }
  split; [split| |..].
  - unfold t'. simpl. rewrite length_alter. apply Hl.
  - unfold t'. simpl. by rewrite length_alter.
  - rewrite Hlk, Hfl. apply holds_exactly_insert.
    { intros (_ & e' & He' & Hv). congruence. }
    eapply holds_exactly_ext; [|apply Hl]. intros s. symmetry. by eapply free_slot_occupied.
  - intros b' Hb'. rewrite Hbh, Hlk, Hfl. case_decide as Heq; [subst b'|].
    + apply (holds_exactly_push _ _ _ (chained CAPACITY (flows t) (Some slot) b)).
      * rewrite length_links. apply lookup_lt_Some in He. by rewrite length_flows in He.
      * by intros [? _].
      * intros s. rewrite Hch. tauto.
      * intros l Hc _. rewrite (chain_length_spec _ _ _ l) in Hroom by done. lia.
      * by exists MAX_CHAIN.
    + apply holds_exactly_insert.
      { intros (_ & e' & He' & _ & Hb2). apply Heq. subst b key. congruence. }
      eapply holds_exactly_ext; [|by apply (wf_chains _ _ _ Hl)]. intros s. rewrite Hch. tauto.
  - rewrite Hfl. destruct Hf as [Hk Hu Ho Hol]. split; try done.
    intros s1 s2 e1 e2 _ _ H1 H2 Hv1 Hv2 Heq.
    destruct (decide (s1 = slot)) as [->|]; [symmetry; eapply Huniq; [done..|congruence]|].
    destruct (decide (s2 = slot)) as [->|]; [eapply Huniq; [done..|congruence]|].
    eapply Hu; [..|exact Hv1|exact Hv2|exact Heq]; congruence.
  - done.
  - done.
Qed.

End ops.
