(* ===== verification/FlowTableSpec.v ===== *)
(** * The connection table: what each operation does

    Over a well-formed table: a lookup answers the one live flow of a key; taking a
    slot, opening and classifying keep the invariant, leave every flow they do not
    name in place unless it was expired or not assured, and move exactly the counter
    their outcome names. *)
From S2P Require Import Prelude NetHeaders Clock SeqNumber FlowKey FlowEntry FlowTcp FlowIcmp FlowTable FlowTableInv FlowTableOps.

#[local] Opaque MAX_CHAIN FlowTable_bucket_of.

(** ** What may happen to a slot nobody named *)

(** It keeps its flow bit for bit, or what it held was reclaimable and is gone. *)
Definition reclaimable (now : Monotonic) (e : FlowEntry) : Prop :=
  fl_state e = Vacant ∨ has_expired e now = true ∨ FlowState_is_assured (fl_state e) = false.

Definition keeps (now : Monotonic) (fl fl' : list FlowEntry) (s : nat) : Prop :=
  fl' !! s = fl !! s
  ∨ ∃ e e', fl !! s = Some e ∧ fl' !! s = Some e' ∧ fl_state e' = Vacant ∧ reclaimable now e.

Lemma keeps_refl now fl s : keeps now fl fl s.
Proof. by left. Qed.

Lemma keeps_trans now fl1 fl2 fl3 s :
  keeps now fl1 fl2 s → keeps now fl2 fl3 s → keeps now fl1 fl3 s.
Proof.
  intros [H1|(e & e' & He & He' & Hv & Hr)] [H2|(d & d' & Hd & Hd' & Hvd & Hrd)].
  - left. congruence.
  - right. exists d, d'. rewrite H1 in Hd. done.
  - right. exists e, e'. rewrite H2. done.
  - right. exists e, d'. done.
Qed.

(** The flow of [key], where the table holds one. *)
Definition held (fl : list FlowEntry) (key : FlowKey) (s : nat) (e : FlowEntry) : Prop :=
  fl !! s = Some e ∧ fl_state e ≠ Vacant ∧ entry_key e = key.

(** The counters no verdict moves. *)
Definition steady (c : FlowCounters) : Z * Z := (packets_seen c, internal_slot_desync c).

(** Which counters a step that decides nothing may move: none of these. *)
Definition same_verdicts (c c' : FlowCounters) : Prop :=
  steady c' = steady c
  ∧ (∀ k, FlowCounters_classified c' k = FlowCounters_classified c k)
  ∧ (∀ k, FlowCounters_refused c' k = FlowCounters_refused c k).

Lemma same_verdicts_refl c : same_verdicts c c.
Proof. done. Qed.
Lemma same_verdicts_trans c1 c2 c3 : same_verdicts c1 c2 → same_verdicts c2 c3 → same_verdicts c1 c3.
Proof. intros (? & H1 & H1') (? & H2 & H2'). red. split_all; [congruence|intros; by rewrite H2, H1|intros; by rewrite H2', H1']. Qed.
Create HintDb verdicts.
#[export] Hint Resolve same_verdicts_refl : verdicts.
#[export] Hint Extern 1 (same_verdicts _ _) => (red; split_all; try intros []; reflexivity) : verdicts.

(** ** One flow's life as a transition system *)

(** What the packet that opens a flow leaves in its slot. *)
Inductive entry_opened (now : Monotonic) (key : FlowKey) (ingress : Z) (from_lower : bool)
    : FlowState → FlowEntry → Prop :=
| opened_tcp e0 segment :
    event (sg_flags segment) = Some Syn →
    entry_opened now key ingress from_lower SynSent
      (FlowEntry_with_halves (FlowEntry_open e0 key ingress from_lower SynSent now) from_lower
         (λ sender peer, record sender peer segment))
| opened_datagram e0 st :
    st = UdpUnreplied ∨ st = IcmpUnreplied →
    entry_opened now key ingress from_lower st
      (FlowEntry_with_halves (FlowEntry_open e0 key ingress from_lower st now) from_lower
         (λ sender peer, (DirectionState_note_traffic sender, peer))).

(** Where a datagram may take a flow: an answer makes it assured, and only that. *)
Definition datagram_next (e : FlowEntry) (from_lower : bool) (next : FlowState) : Prop :=
  let direction := FlowEntry_direction_of e from_lower in
  udp_next (fl_state e) direction = Some next
  ∨ (fl_state e = IcmpUnreplied ∨ fl_state e = IcmpReplied)
    ∧ (next = fl_state e ∨ next = IcmpReplied ∧ direction = Reply).

(** What a packet accepted on a flow does to it: a segment its state admits and its
    windows authorise, or a datagram. *)
Inductive entry_step (now : Monotonic) : FlowEntry → FlowEntry → Prop :=
| step_segment e from_lower ev segment :
    event (sg_flags segment) = Some ev →
    admits (fl_state e) ev (FlowEntry_direction_of e from_lower) = true →
    in_window (FlowEntry_sides e from_lower).1 (FlowEntry_sides e from_lower).2 segment = Ok tt →
    entry_step now e
      (FlowEntry_set_state (accept_segment now from_lower segment e)
         (next_state (fl_state e) ev (FlowEntry_direction_of e from_lower)
            (FlowEntry_closing_facts (accept_segment now from_lower segment e))))
| step_datagram e from_lower next :
    datagram_next e from_lower next →
    entry_step now e
      (FlowEntry_set_state
         (FlowEntry_touch (FlowEntry_with_halves e from_lower
            (λ sender peer, (DirectionState_note_traffic sender, peer))) now) next).

Section spec.
Context (CAPACITY : nat) `{!Layout CAPACITY}.
Implicit Types (t : FlowTable) (slot s : nat).

Local Abbreviation wf_with := (wf_with CAPACITY).
Local Abbreviation wf := (wf CAPACITY).
Local Abbreviation bucket_of := (FlowTable_bucket_of CAPACITY).
Local Abbreviation release := (FlowTable_release CAPACITY).

(** A counter edit is invisible to the invariant. *)
Lemma count_wf p f t : wf_with p t → wf_with p (count f t).2.
Proof. by intros [[]]. Qed.

Lemma counters_count f t : counters (count f t).2 = f (counters t).
Proof. done. Qed.
Lemma flows_count f t : flows (count f t).2 = flows t.
Proof. done. Qed.

Lemma release_keeps now slot t e :
  flows t !! slot = Some e → reclaimable now e →
  ∀ s, keeps now (flows t) (flows (release slot t).2) s.
Proof.
  intros He Hr s. rewrite (flows_release CAPACITY). destruct (decide (s = slot)) as [->|Hne].
  - right. exists e, (closed e). rewrite list_lookup_alter_eq, He. split_all; done.
  - left. by apply list_lookup_alter_ne.
Qed.

Lemma has_expired_erase e now : has_expired (erase e) now = has_expired e now.
Proof. done. Qed.

(** ** Lookup *)
Lemma find_walk_spec steps t key h l c :
  chain_at (links t) h l → (length l ≤ steps)%nat → Z.of_nat (length (links t)) < NO_SLOT →
  match (find_walk steps t key h c).1 with
  | Some s => s ∈ l ∧ ∃ e, held (flows t) key s e
  | None => ∀ s e, s ∈ l → ¬ held (flows t) key s e
  end.
Proof.
  intros Hc Hsteps Hlen. revert h l c Hc Hsteps.
  induction steps as [|steps IH]; intros h l c Hc Hsteps; simpl.
  { destruct l; [|simpl in *; lia]. by intros s e ?%not_elem_of_nil. }
  destruct l as [|x l]; simpl in Hc.
  { subst h. rewrite Z.eqb_refl. by intros s e ?%not_elem_of_nil. }
  destruct Hc as (-> & n & Hn & Hc). pose proof (lookup_lt_Some _ _ _ Hn).
  rewrite (proj2 (Z.eqb_neq _ _)) by lia. rewrite Nat2Z.id.
  rewrite lookup_links in Hn. destruct (entries t !! x) as [e|] eqn:He; [|done]. simplify_eq/=.
  destruct (FlowEntry_is_occupied e && FlowEntry_matches e key) eqn:Hm.
  - apply andb_true_iff in Hm as [Hocc Hm]. simpl. split; [by left|]. exists (erase e).
    unfold held. rewrite lookup_flows, He. split_all; [done|by apply is_occupied_true|].
    by apply FlowEntry_matches_key.
  - specialize (IH _ l (saturating_add 64 c 1) Hc ltac:(simpl in *; lia)).
    destruct (find_walk _ _ _ _ _) as [[s|] c']; simpl in *.
    + destruct IH as [? ?]. split; [by right|done].
    + intros s e' [->|Hs]%elem_of_cons; [|by apply IH]. intros (He' & Hocc & Hk).
      rewrite lookup_flows, He in He'. simplify_eq/=. apply andb_false_iff in Hm as [Hm|Hm].
      * by apply is_occupied_false in Hm.
      * apply not_true_iff_false in Hm. apply Hm. by apply FlowEntry_matches_key.
Qed.

Lemma held_unique t key s1 s2 e1 e2 :
  wf t → held (flows t) key s1 e1 → held (flows t) key s2 e2 → s1 = s2 ∧ e1 = e2.
Proof.
  intros Hwf (H1 & Hv1 & Hk1) (H2 & Hv2 & Hk2).
  assert (s1 = s2) as ->; [|split; [done|congruence]].
  eapply (wf_unique _ _ _ (wf_f _ _ _ Hwf)); [done|done|exact H1|exact H2|done|done|congruence].
Qed.

(** The walk from a bucket's head decides whether the key is held at all. *)
Lemma find_walk_held t key :
  wf t →
  match (find_walk MAX_CHAIN t key (bucket_head t (bucket_of key)) 0).1 with
  | Some s => ∃ e, held (flows t) key s e
  | None => ∀ s e, ¬ held (flows t) key s e
  end.
Proof.
  intros Hwf. pose proof (wf_l _ _ _ Hwf) as Hl.
  destruct (wf_chains _ _ _ Hl (bucket_of key) (bucket_of_lt _ _)) as (l & Hc & _ & Hlen & Hin).
  pose proof (find_walk_spec MAX_CHAIN t key _ l 0 Hc Hlen (links_bound _ _ _ Hl)) as Hw.
  destruct (find_walk _ _ _ _ _) as [[s|] c]; simpl in *; [tauto|].
  intros s e Hh. apply (Hw s e); [|done]. apply Hin. destruct Hh as (He & Hv & Hk).
  split; [done|]. exists e. split_all; [done|done|by rewrite Hk].
Qed.

Record find_post (now : Monotonic) (key : FlowKey) (t : FlowTable) (r : option nat) (t' : FlowTable)
    : Prop := {
  find_wf : wf t';
  find_keeps s : keeps now (flows t) (flows t') s;
  find_verdicts : same_verdicts (counters t) (counters t');
  find_answer :
    match r with
    | Some s => flows t' = flows t ∧ ∃ e, held (flows t) key s e ∧ has_expired e now = false
    | None => (∀ s e, held (flows t) key s e → has_expired e now = true)
              ∧ ∀ s e, ¬ held (flows t') key s e
    end
}.

(** The lookup as one case analysis. *)
Lemma find_eq now key t :
  let walk := find_walk MAX_CHAIN t key (bucket_head t (bucket_of key)) 0 in
  let t1 := t <| counters ::= λ c, c <| probe_tag_collisions ::= λ n, saturating_add 64 n walk.2 |> |> in
  FlowTable_find CAPACITY now key t =
    match walk.1 with
    | None => (None, t1)
    | Some slot =>
        if match entries t !! slot with Some e => has_expired e now | None => false end
        then (None, (count (λ c, c <| flows_expired ::= bump |>) (release slot t1).2).2)
        else (Some slot, t1)
    end.
Proof.
  intros walk t1. unfold FlowTable_find, st_bind at 1, st_read at 1 2. cbn [fst snd].
  fold walk. destruct walk as [[slot|] coll]; [|done].
  unfold st_bind, st_read, st_ret. cbn [fst snd].
  change (entries (count _ t).2) with (entries t). 
  destruct (entries t !! slot) as [e|]; [|done]. by destruct (has_expired e now).
Qed.

Lemma find_spec now key t :
  wf t → find_post now key t (FlowTable_find CAPACITY now key t).1 (FlowTable_find CAPACITY now key t).2.
Proof.
  intros Hwf. pose proof (find_walk_held t key Hwf) as Hw. rewrite find_eq.
  set (t1 := t <| counters ::= _ |>). assert (flows t1 = flows t) as Hf1 by done.
  assert (wf t1) as Hwf1 by by apply (count_wf None (λ c, c <| probe_tag_collisions ::= _ |>)).
  assert (same_verdicts (counters t) (counters t1)) as Hv1 by auto with verdicts.
  change (entries t) with (entries t1). clearbody t1.
  destruct (find_walk _ _ _ _ _).1 as [slot|].
  2:{ split; simpl; [done|intros; rewrite Hf1; apply keeps_refl|done|].
      rewrite Hf1. split; [intros s e Hh; by apply Hw in Hh|done]. }
  destruct Hw as [e Hheld]. pose proof Hheld as (He & Hocc & Hk). rewrite <-Hf1 in He.
  destruct (flows_lookup_Some _ _ _ He) as (e0 & He0 & <-). rewrite He0.
  destruct (has_expired e0 now) eqn:Hexp; cbn [fst snd].
  - assert (wf (release slot t1).2) as Hwf2 by by eapply release_wf.
    split; [by apply count_wf| |..].
    + intros s. rewrite flows_count, <-Hf1.
      eapply release_keeps; [done|by right; left].
    + eapply same_verdicts_trans; [exact Hv1|]. rewrite counters_count, (counters_release CAPACITY). auto with verdicts.
    + split.
      * intros s e' Hh. destruct (held_unique t key s slot e' (erase e0) Hwf Hh Hheld) as [_ ->]. done.
      * intros s e' (Hs & Hv & Hk'). rewrite flows_count in Hs.
        rewrite (flows_release CAPACITY), list_lookup_alter in Hs. case_decide as Heq.
        { subst s. rewrite He in Hs. injection Hs as <-. by apply Hv. }
        rewrite Hf1 in Hs. apply Heq.
        destruct (held_unique t key slot s (erase e0) e') as [-> _]; done.
  - split; [done|intros; rewrite Hf1; apply keeps_refl|done|].
    split; [done|]. by exists (erase e0).
Qed.
(** ** Taking a slot *)

Lemma keeps_absent now fl fl' key :
  (∀ s, keeps now fl fl' s) → (∀ s e, ¬ held fl key s e) → ∀ s e, ¬ held fl' key s e.
Proof.
  intros Hk Ha s e (He & Hv & Hkey). destruct (Hk s) as [Hs|(e1 & e2 & _ & He2 & Hv2 & _)].
  - apply (Ha s e). rewrite Hs in He. done.
  - congruence.
Qed.

(** A vacated or vacant slot was reclaimable before. *)
Lemma keeps_vacant now fl fl' s e' :
  keeps now fl fl' s → fl' !! s = Some e' → fl_state e' = Vacant →
  ∃ e, fl !! s = Some e ∧ reclaimable now e.
Proof.
  intros [Hs|(e1 & e2 & He1 & He2 & Hv2 & Hr)] He Hv.
  - exists e'. rewrite Hs in He. split; [done|by left].
  - by exists e1.
Qed.

Lemma keeps_reclaimable now fl fl' s e' :
  keeps now fl fl' s → fl' !! s = Some e' → reclaimable now e' →
  ∃ e, fl !! s = Some e ∧ reclaimable now e.
Proof.
  intros [Hs|(e1 & e2 & He1 & _ & _ & Hr)] He Hr'; [|by exists e1].
  exists e'. rewrite Hs in He. done.
Qed.

(** Whether a slot is one the eviction scan passes over. *)
Definition unevictable (now : Monotonic) (e : FlowEntry) : Prop :=
  fl_state e = Vacant ∨ (has_expired e now = false ∧ FlowState_is_assured (fl_state e) = true).

Lemma victim_scan_spec t now start remaining step oldest :
  let good o := match o with
    | Some (slot, _) => ∃ e, entries t !! slot = Some e ∧ fl_state e ≠ Vacant
        ∧ FlowState_is_assured (fl_state e) = false
    | None => True end in
  good oldest →
  match victim_scan CAPACITY t now start remaining step oldest with
  | (Some (slot, _), _) => ∃ e, entries t !! slot = Some e ∧ has_expired e now = true
  | (None, Some (slot, stamp)) => good (Some (slot, stamp))
  | (None, None) => oldest = None ∧ ∀ i, (step ≤ i < step + remaining)%nat → ∀ e,
      entries t !! masked CAPACITY (wrapping_add 64 start (Z.of_nat i)) = Some e → unevictable now e
  end.
Proof.
  intros good. revert step oldest. induction remaining as [|remaining IH]; intros step oldest Hgood; simpl.
  { destruct oldest as [[slot stamp]|]; [done|]. split; [done|]. intros i Hi. lia. }
  set (slot := masked _ _).
  assert (∀ P : Prop, (∀ e, entries t !! slot = Some e → unevictable now e) →
    match victim_scan CAPACITY t now start remaining (S step) oldest with
    | (Some (slot, _), _) => ∃ e, entries t !! slot = Some e ∧ has_expired e now = true
    | (None, Some (slot, stamp)) => good (Some (slot, stamp))
    | (None, None) => oldest = None ∧ ∀ i, (step ≤ i < step + S remaining)%nat → ∀ e,
        entries t !! masked CAPACITY (wrapping_add 64 start (Z.of_nat i)) = Some e → unevictable now e
    end) as Hskip.
  { intros _ Hun. specialize (IH (S step) oldest Hgood).
    destruct (victim_scan _ _ _ _ _ _ _) as [[[v a]|] [[o st]|]]; try done.
    destruct IH as [-> Hall]. split; [done|]. intros i Hi e He.
    destruct (decide (i = step)) as [->|]; [by apply Hun|]. apply (Hall i); [lia|done]. }
  destruct (entries t !! slot) as [e|] eqn:He; [|by apply (Hskip True)].
  destruct (FlowEntry_is_occupied e) eqn:Hocc; simpl;
    [|apply (Hskip True); intros ? [= <-]; left; by apply is_occupied_false].
  destruct (has_expired e now) eqn:Hexp; [by exists e|].
  destruct (FlowState_is_assured (fl_state e)) eqn:Has;
    [apply (Hskip True); intros ? [= <-]; by right|].
  apply is_occupied_true in Hocc.
  assert (good (Some (slot, last_seen e))) as Hnew by by exists e.
  destruct oldest as [[o best]|]; [destruct (last_seen e <? best)|].
  all: match goal with |- match victim_scan _ _ _ _ _ ?st ?old with _ => _ end =>
         specialize (IH st old ltac:(done));
         destruct (victim_scan _ _ _ _ _ st old) as [[[v a]|] [[o' st']|]]; try done end;
       by destruct IH.
Qed.

Record take_post (now : Monotonic) (t : FlowTable) (r : Result nat Refusal) (t' : FlowTable) : Prop := {
  take_keeps s : keeps now (flows t) (flows t') s;
  take_verdicts : same_verdicts (counters t) (counters t');
  take_answer :
    match r with
    | Ok slot => wf_with (Some slot) t' ∧ ∃ e, flows t' !! slot = Some e ∧ fl_state e = Vacant
    | Err refusal => wf t' ∧ refusal = RTableFull ∧ flows t' = flows t
        ∧ (∀ s e, flows t !! s = Some e → fl_state e ≠ Vacant)
        ∧ ∀ i, (i < Nat.min EVICTION_SCAN CAPACITY)%nat → ∀ e,
            flows t !! masked CAPACITY (wrapping_add 64 (evict_cursor t) (Z.of_nat i)) = Some e →
            has_expired e now = false ∧ FlowState_is_assured (fl_state e) = true
    end
}.

Lemma pop_free_frame t :
  flows (FlowTable_pop_free t).2 = flows t ∧ counters (FlowTable_pop_free t).2 = counters t.
Proof.
  split; [apply flows_pop_free|]. unfold FlowTable_pop_free. by destruct (_ =? _).
Qed.

Lemma advance_evict_cursor_wf p n t : wf_with p t → wf_with p (advance_evict_cursor CAPACITY n t).
Proof.
  intros [[] Hf Hsw Hev]. split; [done..|]. unfold advance_evict_cursor. simpl.
  assert (0 ≤ wrapping_add 64 (evict_cursor t) (Z.of_nat n)) by (unfold_ints; Z.div_mod_to_equations; lia).
  pose proof (masked_lt CAPACITY (wrapping_add 64 (evict_cursor t) (Z.of_nat n)) ltac:(done)). lia.
Qed.

Lemma victim_spec now t :
  let r := (FlowTable_victim CAPACITY now t).1 in
  (∃ n, (FlowTable_victim CAPACITY now t).2 = advance_evict_cursor CAPACITY n t)
  ∧ match r with
    | Some (slot, _) => ∃ e, entries t !! slot = Some e ∧ fl_state e ≠ Vacant ∧ reclaimable now e
    | None => ∀ i, (i < Nat.min EVICTION_SCAN CAPACITY)%nat → ∀ e,
        entries t !! masked CAPACITY (wrapping_add 64 (evict_cursor t) (Z.of_nat i)) = Some e →
        unevictable now e
    end.
Proof.
  unfold FlowTable_victim.
  pose proof (victim_scan_spec t now (evict_cursor t) (Nat.min EVICTION_SCAN CAPACITY) 0 None I) as Hv.
  destruct (victim_scan _ _ _ _ _ _ _) as [[[slot adv]|] [[o st]|]]; cbn [fst snd].
  1,2: split; [by eexists|]; destruct Hv as (e & He & Hexp); exists e; split_all; [done| |by right; left];
       unfold has_expired in Hexp; apply andb_true_iff in Hexp as [Hocc _]; by apply is_occupied_true.
  - split; [by eexists|]. destruct Hv as (e & He & Hocc & Has). exists e. split_all; [done|done|by right; right].
  - split; [by eexists|]. destruct Hv as [_ Hall]. intros i Hi. apply Hall. lia.
Qed.

Lemma take_slot_eq now t :
  FlowTable_take_slot CAPACITY now t =
    match FlowTable_pop_free t with
    | (Some slot, t1) => (Ok slot, t1)
    | (None, t1) =>
        match FlowTable_victim CAPACITY now t1 with
        | (None, t2) =>
            (Err RTableFull,
             if FlowTable_len t2 <? Z.of_nat CAPACITY
             then (count (λ c, c <| internal_slot_desync ::= bump |>) t2).2 else t2)
        | (Some (slot, was_expired), t2) =>
            let t3 := (count (λ c, if was_expired : bool then c <| flows_expired ::= bump |>
                                   else c <| flows_evicted ::= bump |>) (release slot t2).2).2 in
            (match (FlowTable_pop_free t3).1 with Some slot => Ok slot | None => Err RTableFull end,
             (FlowTable_pop_free t3).2)
        end
    end.
Proof.
  unfold FlowTable_take_slot. unfold st_bind at 1. destruct (FlowTable_pop_free t) as [[slot|] t1]; [done|].
  cbn [fst snd]. unfold st_bind at 1. destruct (FlowTable_victim CAPACITY now t1) as [[[slot e]|] t2].
  - done.
  - cbn [fst snd]. unfold st_bind, st_read, st_ret. cbn [fst snd]. by destruct (_ <? _).
Qed.

Lemma take_slot_spec now t :
  wf t → take_post now t (FlowTable_take_slot CAPACITY now t).1 (FlowTable_take_slot CAPACITY now t).2.
Proof.
  intros Hwf. rewrite take_slot_eq. destruct (pop_free_frame t) as [Hfl Hct].
  destruct (FlowTable_pop_free t) as [[slot|] t1] eqn:Hpop; cbn [fst snd] in *.
  { destruct (pop_free_Some CAPACITY slot t Hwf) as (Hwf1 & e & He & Hv); [by rewrite Hpop|].
    rewrite Hpop in Hwf1. split; [intros s; rewrite Hfl; apply keeps_refl|rewrite Hct; auto with verdicts|].
    split; [done|]. exists e. by rewrite Hfl. }
  destruct (pop_free_None CAPACITY t Hwf) as [Heq Hfull]; [by rewrite Hpop|].
  rewrite Hpop in Heq. cbn [snd] in Heq. subst t1. clear Hfl Hct Hpop.
  destruct (victim_spec now t) as [[n Hn] Hvic].
  destruct (FlowTable_victim CAPACITY now t) as [[[slot was]|] t2]; cbn [fst snd] in *; subst t2;
    pose proof (advance_evict_cursor_wf None n t Hwf) as Hwf2.
  - destruct Hvic as (e & He & Hocc & Hr). set (t2 := advance_evict_cursor _ _ _) in *.
    assert (flows t2 !! slot = Some (erase e)) as He2 by (rewrite lookup_flows; unfold t2; simpl; by rewrite He).
    set (t3 := (count _ _).2).
    assert (wf t3) as Hwf3 by by eapply count_wf, release_wf.
    assert (∀ s, keeps now (flows t) (flows t3) s) as Hk3.
    { intros s. change (flows t) with (flows t2). eapply release_keeps; done. }
    assert (same_verdicts (counters t) (counters t3)) as Hv3.
    { unfold t3. rewrite counters_count, (counters_release CAPACITY). destruct was; auto with verdicts. }
    assert (∃ e', flows t3 !! slot = Some e' ∧ fl_state e' = Vacant) as (e' & He' & Hve').
    { exists (closed (erase e)). unfold t3.
      rewrite flows_count, (flows_release CAPACITY), list_lookup_alter_eq, He2. done. }
    clearbody t3. destruct (pop_free_frame t3) as [Hfl Hct].
    destruct (FlowTable_pop_free t3).1 as [slot'|] eqn:Hpop.
    + destruct (pop_free_Some CAPACITY slot' t3 Hwf3 Hpop) as (Hwf4 & e4 & He4 & Hv4).
      split; [intros s; rewrite Hfl; apply Hk3|by rewrite Hct|]. split; [done|]. exists e4. by rewrite Hfl.
    + destruct (pop_free_None CAPACITY t3 Hwf3 Hpop) as [_ Hnone]. by destruct (Hnone _ _ He').
  - set (t2 := advance_evict_cursor CAPACITY n t) in *.
    assert (count_state Vacant (flows t2) = 0%nat) as Hnone.
    { unfold count_state. apply length_zero_iff_nil, elem_of_nil_inv. intros e [Hv He]%list_elem_of_filter.
      apply list_elem_of_lookup in He as [s He]. by destruct (Hfull s e He). }
    rewrite (len_exact CAPACITY None t2 Hwf2), Hnone, (proj2 (Z.ltb_ge _ _)) by lia.
    assert (flows t2 = flows t) as Hfl by done.
    split; [intros s; rewrite Hfl; apply keeps_refl|apply same_verdicts_refl|].
    split_all; [done..|]. intros i Hi e He. destruct (flows_lookup_Some _ _ _ He) as (e0 & He0 & <-).
    destruct (Hvic i Hi e0 He0) as [Hvac|Hgood]; [|done]. by destruct (Hfull _ _ He).
Qed.

(** ** Opening a flow *)
Record open_post (now : Monotonic) (key : FlowKey) (ingress : Z) (lower_first : bool) (st : FlowState)
    (t : FlowTable) (r : Result nat Refusal) (t' : FlowTable) : Prop := {
  open_wf : wf t';
  open_answer :
    match r with
    | Ok slot =>
        (∃ e, flows t !! slot = Some e ∧ reclaimable now e)
        ∧ (∃ e0, flows t' !! slot = Some (erase (FlowEntry_open e0 key ingress lower_first st now)))
        ∧ (∀ s, s ≠ slot → keeps now (flows t) (flows t') s)
        ∧ steady (counters t') = steady (counters t)
        ∧ (∀ k, FlowCounters_classified (counters t') k =
             match k with CNew => bump | _ => λ n, n end (FlowCounters_classified (counters t) k))
        ∧ (∀ k, FlowCounters_refused (counters t') k = FlowCounters_refused (counters t) k)
    | Err _ => (∀ s, keeps now (flows t) (flows t') s) ∧ same_verdicts (counters t) (counters t')
    end
}.

Lemma open_eq now ingress key lower_first st t :
  FlowTable_open CAPACITY now ingress key lower_first st t =
    match FlowTable_take_slot CAPACITY now t with
    | (Err r, t1) => (Err r, t1)
    | (Ok slot, t1) =>
        let t2 := replace_entry slot (λ e, FlowEntry_open e key ingress lower_first st now) Vacant st t1 in
        match FlowTable_link CAPACITY key slot t2 with
        | (true, t3) => (Ok slot, (count (λ c, c <| flows_created ::= bump |>) t3).2)
        | (false, t3) => (Err RBucketFull, (release slot t3).2)
        end
    end.
Proof.
  unfold FlowTable_open. unfold st_bind at 1. destruct (FlowTable_take_slot CAPACITY now t) as [[slot|r] t1]; [|done].
  cbn [fst snd]. unfold st_bind at 1 2 3.
  change (FlowTable_record_state_change Vacant st _).2 with
    (replace_entry slot (λ e, FlowEntry_open e key ingress lower_first st now) Vacant st t1).
  by destruct (FlowTable_link CAPACITY key slot _) as [[] t3].
Qed.

Lemma open_spec now ingress key lower_first st t :
  wf t → FlowKey_ok key → st ≠ Vacant → (∀ s e, ¬ held (flows t) key s e) →
  open_post now key ingress lower_first st t
    (FlowTable_open CAPACITY now ingress key lower_first st t).1
    (FlowTable_open CAPACITY now ingress key lower_first st t).2.
Proof.
  intros Hwf Hkey Hst Habs. rewrite open_eq. destruct (take_slot_spec now t Hwf) as [Hk Hv Hans].
  destruct (FlowTable_take_slot CAPACITY now t) as [[slot|r] t1]; cbn [fst snd] in *.
  2:{ split; [apply Hans|]. done. }
  destruct Hans as (Hwf1 & e1 & He1 & Hv1). destruct (flows_lookup_Some _ _ _ He1) as (e0 & He0 & <-).
  set (f := λ e, FlowEntry_open e key ingress lower_first st now). change (fl_state e0 = Vacant) in Hv1.
  assert (entry_key (f e0) = key) as Hfk by (by destruct key as [[] [] ?]).
  pose proof (hand_fill CAPACITY slot t1 f e0 st Hwf1 He0 eq_refl ltac:(by rewrite Hfk)) as Hwf2.
  destruct (replace_entry_frame slot t1 f e0 st He0) as (Hfl2 & _ & _ & _ & _ & Hct2 & _).
  rewrite Hv1 in Hwf2, Hfl2, Hct2. set (t2 := replace_entry slot f Vacant st t1) in *. clearbody t2.
  pose proof (lookup_lt_Some _ _ _ He1) as Hlt.
  assert (flows t2 !! slot = Some (erase (f e0))) as He2 by (rewrite Hfl2; by apply list_lookup_insert_eq).
  assert (∀ s, s ≠ slot → flows t2 !! s = flows t1 !! s) as Hoth
    by (intros s Hs; rewrite Hfl2; by apply list_lookup_insert_ne).
  pose proof (keeps_absent now (flows t) (flows t1) key Hk Habs) as Habs1.
  pose proof (link_wf CAPACITY slot t2 key (erase (f e0)) Hwf2 He2 Hst Hfk) as Hlink.
  specialize (Hlink ltac:(intros s e' Hs Hv' Hk'; destruct (decide (s = slot)) as [|Hne];
    [done|exfalso; apply (Habs1 s e'); rewrite Hoth in Hs by done; done])).
  pose proof (flows_link CAPACITY key slot t2) as Hfl3.
  assert (counters (FlowTable_link CAPACITY key slot t2).2 = counters t2) as Hct3
    by (unfold FlowTable_link; by destruct (_ <=? _)%nat).
  destruct (FlowTable_link CAPACITY key slot t2) as [[] t3]; cbn [fst snd] in *.
  - split; [by apply count_wf|]. split_all.
    + by apply (keeps_vacant now (flows t) (flows t1) slot (erase e0)).
    + exists e0. by rewrite flows_count, Hfl3.
    + intros s Hs. unfold keeps. rewrite flows_count, Hfl3, Hoth by done. apply Hk.
    + rewrite counters_count, Hct3, Hct2. apply Hv.
    + intros k. rewrite counters_count, Hct3, Hct2. destruct Hv as (_ & Hv & _).
      destruct k; [apply (f_equal bump (Hv CNew))|apply (Hv CEstablished)|apply (Hv CRelated)].
    + intros k. rewrite counters_count, Hct3, Hct2, <-(proj2 (proj2 Hv) k). by destruct k.
  - subst t3. split; [apply release_wf_hand; [done..|by eapply slot_lt]|]. split.
    + intros s. destruct (decide (s = slot)) as [->|Hne].
      * destruct (keeps_vacant now (flows t) (flows t1) slot (erase e0)) as (e & He & Hr); [done..|].
        right. exists e, (closed (erase (f e0))).
        rewrite (flows_release CAPACITY), list_lookup_alter_eq, He2. split_all; done.
      * unfold keeps. rewrite (flows_release CAPACITY), list_lookup_alter_ne, Hoth by done. apply Hk.
    + rewrite (counters_release CAPACITY), Hct2. done.
Qed.

(** ** Outcomes *)

(** The counters a verdict moves: the one it names, and no other. *)
Definition counts_outcome (o : Outcome) (c c' : FlowCounters) : Prop :=
  steady c' = steady c
  ∧ (∀ k, FlowCounters_classified c' k =
       (match o, k with
        | ONew _ _, CNew | OEstablished _ _ _ _, CEstablished | ORelated _ _, CRelated => bump
        | _, _ => λ n, n
        end) (FlowCounters_classified c k))
  ∧ (∀ k, FlowCounters_refused c' k =
       (match o with
        | ORefused r => λ n, match Refusal_kind r, k with
            | RK_UnsupportedProtocol, RK_UnsupportedProtocol | RK_Fragment, RK_Fragment
            | RK_Malformed, RK_Malformed | RK_InvalidFlags, RK_InvalidFlags
            | RK_MidStream, RK_MidStream | RK_InvalidState, RK_InvalidState
            | RK_OutOfWindow, RK_OutOfWindow | RK_NoSuchFlow, RK_NoSuchFlow
            | RK_QuotedInvalid, RK_QuotedInvalid | RK_UnsupportedIcmp, RK_UnsupportedIcmp
            | RK_TableFull, RK_TableFull | RK_BucketFull, RK_BucketFull => bump n
            | _, _ => n
            end
        | _ => λ n, n
        end) (FlowCounters_refused c k)).

Lemma counts_after_same o c1 c2 c3 :
  same_verdicts c1 c2 → counts_outcome o c2 c3 → counts_outcome o c1 c3.
Proof.
  intros (H0 & H1 & H2) (G0 & G1 & G2). split; [congruence|].
  split; intros k; [rewrite G1, H1|rewrite G2, H2]; done.
Qed.

Lemma refuse_counts r c t :
  same_verdicts c (counters t) →
  (FlowTable_refuse r t).1 = ORefused r ∧ flows (FlowTable_refuse r t).2 = flows t
  ∧ counts_outcome (ORefused r) c (counters (FlowTable_refuse r t).2).
Proof.
  intros Hs. split; [done|]. split; [done|]. eapply counts_after_same; [done|].
  split; [by destruct r|]. split; intros k; destruct r, k; done.
Qed.

Lemma refuse_wf p r t : wf_with p t → wf_with p (FlowTable_refuse r t).2.
Proof. apply (count_wf p). Qed.

(** The slot an outcome hands out to advance. *)
Definition outcome_slot (o : Outcome) : option nat :=
  match o with
  | ONew id _ | OEstablished id _ _ _ => Some (Z.to_nat (id_slot id))
  | _ => None
  end.

(** What a classification of a packet naming [key] establishes. *)
Record classified (now : Monotonic) (key : FlowKey) (ingress : Z) (from_lower : bool) (t : FlowTable) (o : Outcome) (t' : FlowTable)
    : Prop := {
  cl_wf : wf t';
  cl_keeps s : outcome_slot o ≠ Some s → keeps now (flows t) (flows t') s;
  cl_counts : counts_outcome o (counters t) (counters t');
  cl_outcome :
    match o with
    | ONew id st =>
        (∀ s e, held (flows t) key s e → has_expired e now = true)
        ∧ (∃ e, flows t !! Z.to_nat (id_slot id) = Some e ∧ reclaimable now e)
        ∧ ∃ e', held (flows t') key (Z.to_nat (id_slot id)) (erase e') ∧ generation e' = id_generation id
           ∧ fl_state e' = st ∧ last_seen e' = now ∧ entry_opened now key ingress from_lower st e'
    | OEstablished id _ previous st =>
        ∃ e e', held (flows t) key (Z.to_nat (id_slot id)) (erase e) ∧ has_expired e now = false
           ∧ fl_state e = previous
           ∧ held (flows t') key (Z.to_nat (id_slot id)) (erase e') ∧ generation e' = id_generation id
           ∧ fl_state e' = st ∧ last_seen e' = now ∧ generation e' = generation e
           ∧ entry_step now e e'
    | ORelated id _ =>
        ∃ e, held (flows t) key (Z.to_nat (id_slot id)) e ∧ has_expired e now = false
           ∧ generation e = id_generation id ∧ flows t' = flows t
    | ORefused _ => True
    end
}.

Lemma refuse_classified now key t t1 r ingress from_lower :
  wf t1 → (∀ s, keeps now (flows t) (flows t1) s) → same_verdicts (counters t) (counters t1) →
  classified now key ingress from_lower t (FlowTable_refuse r t1).1 (FlowTable_refuse r t1).2.
Proof.
  intros Hwf Hk Hs. destruct (refuse_counts r (counters t) t1 Hs) as (Ho & Hfl & Hc). rewrite Ho.
  split; [by apply refuse_wf|intros s _; rewrite Hfl; apply Hk|done|done].
Qed.

(** ** Advancing a flow *)

(** An edit and a state change on one slot are one replacement of its entry. *)
Lemma transition_replace slot (g : FlowEntry → FlowEntry) st next t e :
  entries t !! slot = Some e → fl_state e = st → fl_state (g e) = st →
  ∃ c', same_verdicts (counters t) c' ∧
    (FlowTable_transition slot st next (edit_entry slot g t).2).2
    = (replace_entry slot (λ x, FlowEntry_set_state (g x) next) st next t) <| counters := c' |>.
Proof.
  intros He Hst Hg. unfold FlowTable_transition, replace_entry, edit_entry, st_edit. simpl.
  case_bool_decide as Heq.
  - subst next. exists (counters t). split; [apply same_verdicts_refl|].
    unfold st_ret, FlowTable_record_state_change, st_edit. simpl.
    destruct t as [ct occ fh sw ev bk es]. simpl in *. f_equal. apply list_alter_ext; [|done].
    intros x Hx. rewrite He in Hx. injection Hx as <-. destruct (g e) eqn:Hge. simpl in *. by subst.
  - unfold st_bind, st_ret, FlowTable_record_state_change, st_edit, count, st_edit. simpl.
    exists (if is_over next && negb (is_over st) then (counters t) <| flows_closed ::= bump |> else counters t).
    split; [destruct (_ && _); auto with verdicts|].
    destruct t as [ct occ fh sw ev bk es]. simpl in *.
    destruct (is_over next && negb (is_over st)); simpl;
      rewrite bool_decide_false, list_alter_alter_eq by done; done.
Qed.

(** An edit of a flow that leaves its identity and its place alone. *)
Record refreshes (now : Monotonic) (g : FlowEntry → FlowEntry) (e : FlowEntry) : Prop := {
  rf_state : fl_state (g e) = fl_state e;
  rf_link : link (g e) = link e;
  rf_key : entry_key (g e) = entry_key e;
  rf_generation : generation (g e) = generation e;
  rf_seen : last_seen (g e) = now
}.

Lemma advance_classified now key t t1 slot e g next direction ingress from_lower :
  find_post now key t (Some slot) t1 → entries t1 !! slot = Some e → refreshes now g e →
  next ≠ Vacant → entry_step now e (FlowEntry_set_state (g e) next) →
  let t2 := (FlowTable_transition slot (fl_state e) next (edit_entry slot g t1).2).2 in
  let t3 := (count (λ c, c <| packets_established ::= bump |>) t2).2 in
  classified now key ingress from_lower t (OEstablished (FlowTable_id_of t3 slot) direction (fl_state e) next) t3.
Proof.
  intros [Hwf1 Hk1 Hv1 [Hfl (e1 & Hheld & Hexp)]] He [Hst Hlink Hkey Hgen Hseen] Hnext Hstep t2 t3.
  pose proof Hheld as (He1 & Hocc & Hkey1). rewrite <-Hfl, lookup_flows, He in He1. injection He1 as <-.
  destruct (transition_replace slot g (fl_state e) next t1 e He eq_refl Hst) as (c' & Hc' & Ht2).
  set (f := λ x, FlowEntry_set_state (g x) next) in *.
  pose proof (edit_in_place CAPACITY slot t1 f e next Hwf1 He Hocc Hnext eq_refl Hlink Hkey) as Hwf2.
  destruct (replace_entry_frame slot t1 f e next He) as (Hfl2 & _).
  set (t2' := replace_entry slot f (fl_state e) next t1) in *. clearbody t2'.
  assert (flows t3 = <[slot := erase (f e)]> (flows t1)) as Hfl3 by (unfold t3, t2; rewrite Ht2; exact Hfl2).
  pose proof (lookup_lt_Some _ _ _ He) as Hlt. rewrite <-length_flows in Hlt.
  assert (flows t3 !! slot = Some (erase (f e))) as He3 by (rewrite Hfl3; by apply list_lookup_insert_eq).
  assert (id_generation (FlowTable_id_of t3 slot) = generation e) as Hid.
  { unfold FlowTable_id_of. cbn [id_generation]. destruct (flows_lookup_Some _ _ _ He3) as (e3 & He3' & Heq).
    rewrite He3', <-Hgen. by apply (f_equal generation) in Heq. }
  assert (Z.to_nat (id_slot (FlowTable_id_of t3 slot)) = slot) as Hslot by apply Nat2Z.id.
  split.
  - unfold t3, t2. rewrite Ht2. by destruct Hwf2 as [[] ? ? ?].
  - unfold outcome_slot. rewrite Hslot. intros s Hs. left. rewrite Hfl3, Hfl.
    apply list_lookup_insert_ne. congruence.
  - eapply counts_after_same; [exact Hv1|]. unfold t3, t2. rewrite counters_count, Ht2.
    cbn [counters assign]. destruct Hc' as (H0 & H1 & H2). split; [apply H0|].
    split; intros k; [specialize (H1 k)|specialize (H2 k)]; destruct k; simpl in *; congruence.
  - rewrite Hslot, Hid. exists e, (f e). split_all; try done. by rewrite <-Hkey1.
Qed.

Lemma halves_refresh now from_lower edit e :
  refreshes now (λ e, FlowEntry_touch (FlowEntry_with_halves e from_lower edit) now) e.
Proof.
  unfold FlowEntry_with_halves, FlowEntry_touch, FlowEntry_sides.
  split; (destruct from_lower;
    [destruct (edit (lower e) (upper e))|destruct (edit (upper e) (lower e))]; done).
Qed.

Lemma refresh_flow_classified now key t t1 slot e from_lower direction next ingress :
  find_post now key t (Some slot) t1 → entries t1 !! slot = Some e →
  datagram_next e from_lower next →
  classified now key ingress from_lower t
    (refresh_flow now slot from_lower direction (fl_state e) next t1).1
    (refresh_flow now slot from_lower direction (fl_state e) next t1).2.
Proof.
  intros Hfind He Hnext.
  set (edit := λ sender peer : DirectionState, (DirectionState_note_traffic sender, peer)).
  set (g := λ e, FlowEntry_touch (FlowEntry_with_halves e from_lower edit) now).
  assert ((edit_entry slot (λ e, FlowEntry_touch e now) (FlowTable_note_traffic slot from_lower t1).2).2
    = (edit_entry slot g t1).2) as Heq.
  { unfold FlowTable_note_traffic, edit_entry, st_edit. destruct t1. simpl. by rewrite list_alter_alter_eq. }
  unfold refresh_flow, st_bind, st_read, st_ret. cbn [fst snd]. rewrite Heq.
  apply advance_classified; [done|done|apply halves_refresh| |by apply step_datagram].
  intros ->. destruct Hnext as [Hn|[[E|E] [Hn|[Hn _]]]]; try congruence.
  unfold udp_next in Hn. by destruct (fl_state e), (FlowEntry_direction_of e from_lower).
Qed.

(** ** Opening a flow, continued *)
Lemma edit_entry_replace slot g st t : (edit_entry slot g t).2 = replace_entry slot g st st t.
Proof. unfold replace_entry, FlowTable_record_state_change, st_edit. cbn [snd]. by rewrite bool_decide_true. Qed.

(** The direction states of a flow just opened are the only thing filled in after. *)
Definition fills (g : FlowEntry → FlowEntry) : Prop := ∀ e,
  fl_state (g e) = fl_state e ∧ link (g e) = link e ∧ entry_key (g e) = entry_key e
  ∧ generation (g e) = generation e ∧ last_seen (g e) = last_seen e.

Lemma halves_fill from_lower edit : fills (λ e, FlowEntry_with_halves e from_lower edit).
Proof.
  intros e. unfold FlowEntry_with_halves, FlowEntry_sides.
  destruct from_lower; [destruct (edit (lower e) (upper e))|destruct (edit (upper e) (lower e))]; done.
Qed.

Lemma opened_classified now key t t1 t2 slot ingress from_lower st g :
  find_post now key t None t1 → st ≠ Vacant →
  open_post now key ingress from_lower st t1 (Ok slot) t2 → fills g →
  (∀ e0, entry_opened now key ingress from_lower st (g (FlowEntry_open e0 key ingress from_lower st now))) →
  (∀ e, erase (g (erase e)) = erase (g e)) →
  let t3 := (edit_entry slot g t2).2 in
  classified now key ingress from_lower t (ONew (FlowTable_id_of t3 slot) st) t3.
Proof.
  intros [_ Hk1 Hv1 [Hexp _]] Hst
    [Hwf2 ((er & Her & Hr) & (e0 & He) & Hk2 & Hseen & Hcl & Hrf)] Hg Hop Herase t3.
  destruct (flows_lookup_Some _ _ _ He) as (e & He' & Heq).
  assert (fl_state e = st ∧ entry_key e = key ∧ last_seen e = now) as (Hse & Hke & Hle).
  { pose proof (f_equal fl_state Heq) as H1. pose proof (f_equal last_seen Heq) as H2.
    pose proof (f_equal entry_key Heq) as H3. simpl in *. split_all; [done| |done].
    change (entry_key e) with (entry_key (erase e)). rewrite H3. by destruct key as [[] [] ?]. }
  destruct (Hg e) as (Hgs & Hgl & Hgk & Hgg & Hgn).
  assert (t3 = replace_entry slot g (fl_state e) (fl_state e) t2) as Ht3 by apply edit_entry_replace.
  pose proof (edit_in_place CAPACITY slot t2 g e (fl_state e) Hwf2 He') as Hwf3.
  destruct (replace_entry_frame slot t2 g e (fl_state e) He') as (Hfl3 & _ & _ & _ & _ & Hct3 & _).
  rewrite <-Ht3 in Hwf3, Hfl3, Hct3. clearbody t3.
  pose proof (lookup_lt_Some _ _ _ He') as Hlt. rewrite <-length_flows in Hlt.
  assert (flows t3 !! slot = Some (erase (g e))) as He3 by (rewrite Hfl3; by apply list_lookup_insert_eq).
  assert (Z.to_nat (id_slot (FlowTable_id_of t3 slot)) = slot) as Hslot by apply Nat2Z.id.
  set (e' := g (FlowEntry_open e0 key ingress from_lower st now)) in *.
  assert (erase (g e) = erase e') as Hge by (by rewrite <-Herase, Heq, Herase).
  split.
  - apply Hwf3; congruence.
  - unfold outcome_slot. rewrite Hslot. intros s Hs.
    apply (keeps_trans now _ (flows t1)); [apply Hk1|].
    apply (keeps_trans now _ (flows t2)); [apply Hk2; congruence|].
    left. rewrite Hfl3. apply list_lookup_insert_ne. congruence.
  - eapply counts_after_same; [exact Hv1|]. rewrite Hct3. split; [done|].
    split; intros k; [rewrite Hcl; by destruct k|by rewrite Hrf].
  - rewrite Hslot. split_all; [done| |].
    + eapply (keeps_reclaimable now); [apply Hk1|done|done].
    + exists e'. rewrite <-Hge. pose proof (f_equal generation Hge) as Hgg'.
      pose proof (f_equal fl_state Hge) as Hgs'. pose proof (f_equal last_seen Hge) as Hgn'. simpl in *.
      rewrite <-Hgs', <-Hgn', <-Hgg'.
      split; [|split; [|split; [congruence|split; [congruence|apply Hop]]]].
      * unfold held. split; [exact He3|]. split; [simpl; congruence|].
        change (entry_key (g e) = key). congruence.
      * unfold FlowTable_id_of. cbn [id_generation].
        destruct (flows_lookup_Some _ _ _ He3) as (e3 & He3' & Heq3). rewrite He3'.
        apply (f_equal generation) in Heq3. by symmetry.
Qed.

Lemma halves_erase from_lower edit e :
  erase (FlowEntry_with_halves (erase e) from_lower edit) = erase (FlowEntry_with_halves e from_lower edit).
Proof.
  unfold FlowEntry_with_halves, FlowEntry_sides.
  destruct from_lower; simpl; [destruct (edit (lower e) (upper e))|destruct (edit (upper e) (lower e))]; done.
Qed.

Lemma open_pseudo_flow_classified now key t t1 ingress from_lower st :
  find_post now key t None t1 → FlowKey_ok key → st = UdpUnreplied ∨ st = IcmpUnreplied →
  classified now key ingress from_lower t
    (open_pseudo_flow CAPACITY now ingress key from_lower st t1).1
    (open_pseudo_flow CAPACITY now ingress key from_lower st t1).2.
Proof.
  intros Hfind Hkey Hst'. assert (st ≠ Vacant) as Hst by by destruct Hst' as [-> | ->].
  pose proof Hfind as [Hwf1 Hk1 Hv1 [Hexp Habs]].
  pose proof (open_spec now ingress key from_lower st t1 Hwf1 Hkey Hst Habs) as Hopen.
  unfold open_pseudo_flow, st_bind, st_read, st_ret.
  destruct (FlowTable_open CAPACITY now ingress key from_lower st t1) as [[slot|r] t2]; cbn [fst snd] in *.
  - eapply opened_classified; [done..|apply halves_fill| |apply halves_erase]. intros e0. by constructor.
  - destruct Hopen as [Hwf2 [Hk2 Hv2]]. apply refuse_classified; [done| |by eapply same_verdicts_trans].
    intros s. by eapply keeps_trans.
Qed.

Lemma open_tcp_classified now key t t1 ingress from_lower segment :
  find_post now key t None t1 → FlowKey_ok key → event (sg_flags segment) = Some Syn →
  classified now key ingress from_lower t
    (FlowTable_open_tcp CAPACITY now ingress key from_lower segment t1).1
    (FlowTable_open_tcp CAPACITY now ingress key from_lower segment t1).2.
Proof.
  intros Hfind Hkey Hev. pose proof Hfind as [Hwf1 Hk1 Hv1 [Hexp Habs]].
  pose proof (open_spec now ingress key from_lower SynSent t1 Hwf1 Hkey ltac:(done) Habs) as Hopen.
  unfold FlowTable_open_tcp, st_bind, st_read, st_ret.
  destruct (FlowTable_open CAPACITY now ingress key from_lower SynSent t1) as [[slot|r] t2]; cbn [fst snd] in *.
  - eapply opened_classified; [done..|apply halves_fill| |apply halves_erase]. intros e0. by constructor.
  - destruct Hopen as [Hwf2 [Hk2 Hv2]]. apply refuse_classified; [done| |by eapply same_verdicts_trans].
    intros s. by eapply keeps_trans.
Qed.

(** ** Classification *)
Lemma next_state_occupied st ev d closing : next_state st ev d closing ≠ Vacant.
Proof.
  unfold next_state, closed_state. destruct closing as [[[[] []] []] []]; destruct st, ev, d; done.
Qed.

Lemma accept_segment_refreshes now from_lower segment e :
  refreshes now (accept_segment now from_lower segment) e.
Proof.
  destruct (halves_fill from_lower (λ sender peer, record sender peer segment) e) as (H1 & H2 & H3 & H4 & _).
  unfold accept_segment. split; cbv beta in *; set (e1 := FlowEntry_with_halves _ _ _) in *; clearbody e1;
    (destruct (TcpFlags_syn _ && _); first [exact H1|exact H2|exact H3|exact H4|reflexivity]).
Qed.

Lemma advance_tcp_classified now key t t1 slot from_lower ev segment ingress :
  find_post now key t (Some slot) t1 → event (sg_flags segment) = Some ev →
  classified now key ingress from_lower t
    (FlowTable_advance_tcp now slot from_lower ev segment t1).1
    (FlowTable_advance_tcp now slot from_lower ev segment t1).2.
Proof.
  intros Hfind Hev. pose proof Hfind as [Hwf1 Hk1 Hv1 [Hfl (e1 & (He1 & _) & _)]].
  rewrite <-Hfl in He1. destruct (flows_lookup_Some _ _ _ He1) as (e & He & _).
  assert (∀ r, classified now key ingress from_lower t (FlowTable_refuse r t1).1 (FlowTable_refuse r t1).2) as Href
    by (intros r; by apply refuse_classified).
  unfold FlowTable_advance_tcp. rewrite !st_bind_read, He.
  destruct (FlowEntry_sides e from_lower) as [sender peer] eqn:Hsides.
  destruct (negb (admits _ _ _)) eqn:Hadm; [apply Href|]. apply negb_false_iff in Hadm.
  destruct (in_window sender peer segment) as [[]|edge] eqn:Hwin; [|apply Href].
  apply (advance_classified now key t t1 slot e (accept_segment now from_lower segment));
    [done|done|apply accept_segment_refreshes|apply next_state_occupied|].
  apply (step_segment now e from_lower ev segment); [done|done|by rewrite Hsides].
Qed.

Lemma advance_echo_classified now key t t1 slot from_lower answered ingress :
  find_post now key t (Some slot) t1 → answered = Some IcmpReplied ∨ answered = None →
  classified now key ingress from_lower t
    (FlowTable_advance_echo now slot from_lower answered t1).1
    (FlowTable_advance_echo now slot from_lower answered t1).2.
Proof.
  intros Hfind Hans. pose proof Hfind as [Hwf1 Hk1 Hv1 [Hfl (e1 & (He1 & _) & _)]].
  rewrite <-Hfl in He1. destruct (flows_lookup_Some _ _ _ He1) as (e & He & _).
  assert (∀ r, classified now key ingress from_lower t (FlowTable_refuse r t1).1 (FlowTable_refuse r t1).2) as Href
    by (intros r; by apply refuse_classified).
  unfold FlowTable_advance_echo. rewrite !st_bind_read, He.
  destruct (negb _) eqn:Hst; [apply Href|]. destruct (_ && _) eqn:Hdir; [apply Href|].
  apply refresh_flow_classified; [done|done|]. right.
  apply negb_false_iff, orb_true_iff in Hst. rewrite !bool_decide_eq_true in Hst. split; [done|].
  destruct Hans as [-> | ->]; [right|by left]. split; [done|].
  by destruct (FlowEntry_direction_of e from_lower).
Qed.

(** A packet as the frame parser hands it over. *)
Definition Packet_ok (p : Packet) : Prop :=
  is_u32 (pk_source p) ∧ is_u32 (pk_destination p) ∧ bytes_ok (transport_bytes p)
  ∧ match pk_transport p with
    | Tcp h => is_u16 (tcp_source_port h) ∧ is_u16 (tcp_destination_port h)
    | Udp h => is_u16 (udp_source_port h) ∧ is_u16 (udp_destination_port h)
    | Icmp h => bytes_ok (rest_of_header h)
    | _ => True
    end.

(** The flow a packet names: its own tuple, or the one it quotes. *)
Definition packet_key (p : Packet) : option (FlowKey * bool) :=
  match pk_transport p with
  | Tcp h => Some (FlowKey_of {| ep_address := pk_source p; ep_port := tcp_source_port h |}
                     {| ep_address := pk_destination p; ep_port := tcp_destination_port h |} Protocol_TCP)
  | Udp h => Some (FlowKey_of {| ep_address := pk_source p; ep_port := udp_source_port h |}
                     {| ep_address := pk_destination p; ep_port := udp_destination_port h |} Protocol_UDP)
  | Icmp h =>
      match message h with
      | Some (EchoRequest identifier) | Some (EchoReplyMsg identifier) => Some (echo_key p identifier)
      | Some ErrorMsg =>
          match quoted (pk_destination p) (quoted_bytes (transport_bytes p)) with
          | Ok q => Some (FlowKey_of {| ep_address := q_source q; ep_port := q_source_port q |}
                            {| ep_address := q_destination q; ep_port := q_destination_port q |}
                            (q_protocol q))
          | Err _ => None
          end
      | None => None
      end
  | _ => None
  end.

(** What a whole classification establishes: [classified], with [packets_seen]
    counted first; a packet that names no flow is refused. *)
Definition classify_post (now : Monotonic) (p : Packet) (t : FlowTable) (o : Outcome) (t' : FlowTable) : Prop :=
  let t0 := t <| counters ::= λ c, c <| packets_seen ::= bump |> |> in
  match packet_key p with
  | Some (key, from_lower) => classified now key (pk_ingress p) from_lower t0 o t'
  | None => (∃ r, o = ORefused r) ∧ wf t' ∧ flows t' = flows t ∧ counts_outcome o (counters t0) (counters t')
  end.

Lemma refuse_unnamed t r :
  wf t → (∃ r', (FlowTable_refuse r t).1 = ORefused r') ∧ wf (FlowTable_refuse r t).2
    ∧ flows (FlowTable_refuse r t).2 = flows t
    ∧ counts_outcome (FlowTable_refuse r t).1 (counters t) (counters (FlowTable_refuse r t).2).
Proof.
  intros Hwf. destruct (refuse_counts r (counters t) t (same_verdicts_refl _)) as (Ho & Hfl & Hc).
  rewrite Ho. split_all; [by eexists|by apply refuse_wf|done|done].
Qed.

Lemma classify_tcp_spec now p h t key from_lower :
  wf t → FlowKey_ok key →
  FlowKey_of {| ep_address := pk_source p; ep_port := tcp_source_port h |}
    {| ep_address := pk_destination p; ep_port := tcp_destination_port h |} Protocol_TCP = (key, from_lower) →
  classified now key (pk_ingress p) from_lower t (FlowTable_classify_tcp CAPACITY now p h t).1 (FlowTable_classify_tcp CAPACITY now p h t).2.
Proof.
  intros Hwf Hkey Hof.
  assert (∀ r, classified now key (pk_ingress p) from_lower t (FlowTable_refuse r t).1 (FlowTable_refuse r t).2) as Href
    by (intros r; apply refuse_classified; [done|intros; apply keeps_refl|auto with verdicts]).
  unfold FlowTable_classify_tcp.
  destruct (Segment_read h (transport_bytes p)) as [segment|[off|need got]]; [|apply Href..].
  destruct (event (sg_flags segment)) as [ev|] eqn:Hev; [|apply Href]. rewrite Hof.
  pose proof (find_spec now key t Hwf) as Hfind. 
  destruct (FlowTable_find CAPACITY now key t) as [[slot|] t1] eqn:Hrun;
    rewrite !(st_bind_run _ _ _ _ _ Hrun); cbn [fst snd] in *.
  - by apply advance_tcp_classified.
  - destruct (bool_decide _) eqn:Hsyn; [apply bool_decide_eq_true in Hsyn; subst; by apply open_tcp_classified|].
    destruct Hfind. by apply refuse_classified.
Qed.

Lemma classify_udp_spec now p sp dp t key from_lower :
  wf t → FlowKey_ok key →
  FlowKey_of {| ep_address := pk_source p; ep_port := sp |}
    {| ep_address := pk_destination p; ep_port := dp |} Protocol_UDP = (key, from_lower) →
  classified now key (pk_ingress p) from_lower t (FlowTable_classify_udp CAPACITY now p sp dp t).1 (FlowTable_classify_udp CAPACITY now p sp dp t).2.
Proof.
  intros Hwf Hkey Hof. unfold FlowTable_classify_udp. rewrite Hof.
  pose proof (find_spec now key t Hwf) as Hfind. 
  destruct (FlowTable_find CAPACITY now key t) as [[slot|] t1] eqn:Hrun;
    rewrite !(st_bind_run _ _ _ _ _ Hrun); cbn [fst snd] in *;
    [|apply open_pseudo_flow_classified; auto].
  pose proof Hfind as [Hwf1 Hk1 Hv1 [Hfl (e1 & (He1 & _) & _)]].
  rewrite <-Hfl in He1. destruct (flows_lookup_Some _ _ _ He1) as (e & He & _).
  rewrite !st_bind_read, He.
  destruct (udp_next _ _) as [next|] eqn:Hnext; [|by apply refuse_classified].
  apply refresh_flow_classified; [done|done|].
  by left.
Qed.

Lemma icmp_error_spec now p q t key from_lower :
  wf t → quoted (pk_destination p) (quoted_bytes (transport_bytes p)) = Ok q →
  FlowKey_of {| ep_address := q_source q; ep_port := q_source_port q |}
    {| ep_address := q_destination q; ep_port := q_destination_port q |} (q_protocol q) = (key, from_lower) →
  classified now key (pk_ingress p) from_lower t (FlowTable_icmp_error CAPACITY now p t).1 (FlowTable_icmp_error CAPACITY now p t).2.
Proof.
  intros Hwf Hq Hof. unfold FlowTable_icmp_error. rewrite Hq, Hof.
  pose proof (find_spec now key t Hwf) as Hfind. 
  destruct (FlowTable_find CAPACITY now key t) as [[slot|] t1] eqn:Hrun;
    rewrite !(st_bind_run _ _ _ _ _ Hrun); cbn [fst snd] in *.
  2:{ destruct Hfind. by apply refuse_classified. }
  pose proof Hfind as [Hwf1 Hk1 Hv1 [Hfl (e1 & Hheld & Hexp)]]. pose proof Hheld as (He1 & _).
  rewrite <-Hfl in He1. destruct (flows_lookup_Some _ _ _ He1) as (e & He & <-).
  assert (∀ r, classified now key (pk_ingress p) from_lower t (FlowTable_refuse r t1).1 (FlowTable_refuse r t1).2) as Href
    by (intros r; by apply refuse_classified).
  rewrite !st_bind_read, He.
  destruct (FlowEntry_sides e from_lower) as [sender peer].
  destruct (negb _); [apply Href|].
  destruct (quoted_sequence_is_authorised _ _ _) as [u|edge]; [|apply Href].
  unfold st_bind, st_read, st_ret. cbn [fst snd].
  assert (Z.to_nat (id_slot (FlowTable_id_of (count (λ c, c <| packets_related ::= bump |>) t1).2 slot)) = slot)
    as Hslot by apply Nat2Z.id.
  split; [by apply count_wf|intros s _; apply Hk1| |].
  - eapply counts_after_same; [exact Hv1|]. rewrite counters_count.
    split; [done|]. by split; intros [].
  - rewrite Hslot. exists (erase e). split_all; [done|done| |done].
    unfold FlowTable_id_of. simpl. by rewrite He.
Qed.

Lemma classify_spec now p t :
  wf t → Packet_ok p →
  classify_post now p t (FlowTable_classify CAPACITY now p t).1 (FlowTable_classify CAPACITY now p t).2.
Proof.
  intros Hwf (Hsrc & Hdst & Hbytes & Htr). unfold classify_post, packet_key, FlowTable_classify.
  rewrite !(st_bind_run (count (λ c, c <| packets_seen ::= bump |>)) _ t tt
    (t <| counters ::= λ c, c <| packets_seen ::= bump |> |>) eq_refl). cbv zeta.
  assert (wf (t <| counters ::= λ c, c <| packets_seen ::= bump |> |>)) as Hwf0
    by by apply (count_wf None (λ c, c <| packets_seen ::= bump |>)).
  change (flows t) with (flows (t <| counters ::= λ c, c <| packets_seen ::= bump |> |>)).
  set (t0 := t <| counters ::= _ |>) in *. clearbody t0.
  destruct (pk_transport p) as [h|n|h|n|h|n| |pr]; try by apply refuse_unnamed.
  - destruct (FlowKey_of _ _ _) as [key fl] eqn:Hof. eapply classify_udp_spec; [done| |done].
    eapply FlowKey_of_ok; [..|done]; split; simpl; tauto.
  - destruct (FlowKey_of _ _ _) as [key fl] eqn:Hof. eapply classify_tcp_spec; [done| |done].
    eapply FlowKey_of_ok; [..|done]; split; simpl; tauto.
  - unfold FlowTable_classify_icmp. destruct (message h) as [m|] eqn:Hm; [|by apply refuse_unnamed].
    assert (∀ id, (m = EchoRequest id ∨ m = EchoReplyMsg id) → is_u16 id) as Hid.
    { intros id Hid. assert (id = be16 (byte_at (rest_of_header h) 0) (byte_at (rest_of_header h) 1)) as ->.
      { unfold message in Hm. repeat case_match; simplify_eq; destruct Hid; by simplify_eq. }
      auto with lfw. }
    assert (∀ id key fl, (m = EchoRequest id ∨ m = EchoReplyMsg id) → echo_key p id = (key, fl) → FlowKey_ok key) as Hek.
    { intros id key fl Hi Hk. eapply FlowKey_of_ok; [..|exact Hk]; split; simpl; auto. }
    destruct m as [id|id|].
    + destruct (echo_key p id) as [key fl] eqn:Hk. unfold FlowTable_echo_request. rewrite Hk.
      pose proof (find_spec now key t0 Hwf0) as Hfind. 
      destruct (FlowTable_find CAPACITY now key t0) as [[slot|] t1] eqn:Hrun;
        rewrite !(st_bind_run _ _ _ _ _ Hrun); cbn [fst snd] in *.
      * apply advance_echo_classified; auto.
      * apply open_pseudo_flow_classified; [done|by eapply Hek; [left|]|by right].
    + destruct (echo_key p id) as [key fl] eqn:Hk. unfold FlowTable_echo_reply. rewrite Hk.
      pose proof (find_spec now key t0 Hwf0) as Hfind. 
      destruct (FlowTable_find CAPACITY now key t0) as [[slot|] t1] eqn:Hrun;
        rewrite !(st_bind_run _ _ _ _ _ Hrun); cbn [fst snd] in *.
      * apply advance_echo_classified; auto.
      * destruct Hfind. by apply refuse_classified.
    + destruct (quoted _ _) as [q|err] eqn:Hq.
      * destruct (FlowKey_of _ _ _) as [key fl] eqn:Hof. by eapply icmp_error_spec.
      * unfold FlowTable_icmp_error. rewrite Hq. by apply refuse_unnamed.
Qed.

End spec.
