(* ===== verification/FlowLife.v ===== *)
(** * One flow's life

    What holds of every flow from the packet that opens it on, whatever its peers
    send: an invariant of [entry_opened] that [entry_step] preserves. A flow is
    assured, and so exempt from eviction, only when both its endpoints have spoken;
    a TCP flow is past the handshake only when both sent a SYN; the synchronised
    state a flow shows is the one its FINs and their acknowledgements say. *)
From S2P Require Import Prelude NetHeaders Clock SeqNumber FlowKey FlowEntry FlowTcp FlowTable FlowTableInv FlowTableOps FlowTableSpec.

(** What the recorded flags say of one another. *)
Definition half_inv (d : DirectionState) : Prop :=
  (DirectionState_seen_syn d = true → DirectionState_spoken d = true)
  ∧ (DirectionState_seen_fin d = true → DirectionState_spoken d = true)
  ∧ (DirectionState_fin_acknowledged d = true → DirectionState_seen_fin d = true).

Definition no_fin (e : FlowEntry) : Prop :=
  DirectionState_seen_fin (lower e) = false ∧ DirectionState_seen_fin (upper e) = false.

Definition both (P : DirectionState → bool) (e : FlowEntry) : Prop :=
  P (lower e) = true ∧ P (upper e) = true.

(** The states after the handshake. *)
Definition synchronised (s : FlowState) : bool :=
  match s with Established | FinWait | CloseWait | Closing | TimeWait => true | _ => false end.

Record life (e : FlowEntry) : Prop := {
  life_lower : half_inv (lower e);
  life_upper : half_inv (upper e);
  life_origin : fl_state e ≠ Vacant → DirectionState_spoken (FlowEntry_original e) = true;
  life_state :
    match fl_state e with
    | SynSent => DirectionState_seen_syn (FlowEntry_original e) = true ∧ no_fin e
    | SynReceived => both DirectionState_seen_syn e ∧ no_fin e
    | Established | FinWait | CloseWait | Closing | TimeWait =>
        both DirectionState_seen_syn e ∧ fl_state e = closed_state (FlowEntry_closing_facts e)
    | UdpAssured | IcmpReplied => both DirectionState_spoken e
    | Vacant | Closed | UdpUnreplied | IcmpUnreplied => True
    end
}.

(** ** What one segment does to the two halves' flags *)
Definition flag_bits (d : DirectionState) : bool * bool * bool * bool :=
  (DirectionState_spoken d, DirectionState_seen_syn d, DirectionState_seen_fin d,
   DirectionState_fin_acknowledged d).

Lemma raise_flag_bits bit d :
  flag_bits (raise_flag bit d) =
    (DirectionState_spoken d || has_flag bit DF_SPOKEN, DirectionState_seen_syn d || has_flag bit DF_SYN,
     DirectionState_seen_fin d || has_flag bit DF_FIN,
     DirectionState_fin_acknowledged d || has_flag bit DF_FIN_ACKED).
Proof.
  unfold flag_bits, DirectionState_spoken, DirectionState_seen_syn, DirectionState_seen_fin,
    DirectionState_fin_acknowledged, raise_flag. cbn [dir_flags assign]. by rewrite !has_flag_lor.
Qed.

(** The edits of anything but the flags leave the bits alone. *)
Lemma raise_max_end_bits d edge : flag_bits (DirectionState_raise_max_end d edge) = flag_bits d.
Proof. unfold DirectionState_raise_max_end. by destruct (_ || _). Qed.

Lemma note_acknowledged_bits d a :
  ∃ acked, flag_bits (DirectionState_note_acknowledged d a) =
    (DirectionState_spoken d, DirectionState_seen_syn d, DirectionState_seen_fin d,
     DirectionState_fin_acknowledged d || acked) ∧ (acked = true → DirectionState_seen_fin d = true).
Proof.
  unfold DirectionState_note_acknowledged. destruct (DirectionState_seen_fin d) eqn:Hf; simpl.
  - destruct (SeqNumber_follows_or_equals _ _).
    + exists true. rewrite raise_flag_bits, Hf. by rewrite !orb_false_r.
    + exists false. unfold flag_bits. by rewrite Hf, orb_false_r.
  - exists false. unfold flag_bits. by rewrite Hf, orb_false_r.
Qed.

Lemma note_syn_bits d offered :
  flag_bits (DirectionState_note_syn d offered) =
    (DirectionState_spoken d, true, DirectionState_seen_fin d, DirectionState_fin_acknowledged d).
Proof.
  pose proof (raise_flag_bits DF_SYN d) as H. pose proof (raise_flag_bits DF_SCALE_OFFERED (raise_flag DF_SYN d)) as H'.
  injection H as H1 H2 H3 H4. rewrite H1, H2, H3, H4 in H'.
  unfold DirectionState_note_syn. destruct offered as [shift|].
  - etransitivity; [exact H'|]. simpl. by rewrite !orb_false_r, orb_true_r.
  - unfold flag_bits. rewrite H1, H2, H3, H4. simpl. by rewrite !orb_false_r, orb_true_r.
Qed.

Lemma note_fin_bits (fin : bool) d :
  flag_bits (if fin then DirectionState_note_fin d else d) =
    (DirectionState_spoken d, DirectionState_seen_syn d, DirectionState_seen_fin d || fin,
     DirectionState_fin_acknowledged d).
Proof.
  destruct fin; [|by rewrite orb_false_r]. unfold DirectionState_note_fin. rewrite raise_flag_bits. simpl.
  by rewrite !orb_false_r.
Qed.

(** The flags after a segment, on both sides. *)
Lemma record_bits sender peer s :
  ∃ acked,
    flag_bits (record sender peer s).1 =
      (true, DirectionState_seen_syn sender || TcpFlags_syn (sg_flags s),
       DirectionState_seen_fin sender || TcpFlags_fin (sg_flags s), DirectionState_fin_acknowledged sender)
    ∧ flag_bits (record sender peer s).2 =
      (DirectionState_spoken peer, DirectionState_seen_syn peer, DirectionState_seen_fin peer,
       DirectionState_fin_acknowledged peer || acked)
    ∧ (acked = true → DirectionState_seen_fin peer = true).
Proof.
  unfold record. set (window := Segment_scaled_window _ _).
  set (sender1 := if DirectionState_spoken sender then _ else _).
  assert (flag_bits sender1 = (true, DirectionState_seen_syn sender, DirectionState_seen_fin sender,
    DirectionState_fin_acknowledged sender)) as H1.
  { unfold sender1. destruct (DirectionState_spoken sender) eqn:Hsp.
    - transitivity (flag_bits sender); [unfold DirectionState_widen_window, DirectionState_extend_end;
        by destruct (SeqNumber_follows _ _)|]. unfold flag_bits. by rewrite Hsp.
    - unfold DirectionState_open. rewrite raise_max_end_bits, raise_flag_bits. simpl.
      by rewrite orb_true_r, !orb_false_r. }
  clearbody sender1. set (sender2 := if TcpFlags_syn _ then _ else _).
  assert (flag_bits sender2 = (true, DirectionState_seen_syn sender || TcpFlags_syn (sg_flags s),
    DirectionState_seen_fin sender, DirectionState_fin_acknowledged sender)) as H2.
  { unfold sender2. destruct (TcpFlags_syn _); [|by rewrite orb_false_r].
    rewrite note_syn_bits, orb_true_r. by injection H1 as -> _ -> ->. }
  clearbody sender2. cbn [fst snd]. injection H2 as H21 H22 H23 H24.
  rewrite note_fin_bits, H21, H22, H23, H24.
  destruct (TcpFlags_ack (sg_flags s)); [|by exists false; rewrite orb_false_r].
  set (peer1 := DirectionState_raise_max_end _ _).
  pose proof (raise_max_end_bits peer (SeqNumber_add (acknowledgement s) (Z.max window 1))) as Hp.
  fold peer1 in Hp. injection Hp as Hp1 Hp2 Hp3 Hp4.
  destruct (note_acknowledged_bits peer1 (acknowledgement s)) as (acked & Ha & Hb).
  exists acked. rewrite Ha, Hp1, Hp2, Hp3, Hp4. by rewrite Hp3 in Hb.
Qed.

(** ** The invariant over a flow's steps *)

(** The halves by who is sending, and which of them the opener's is. *)
Lemma original_sides e from_lower :
  FlowEntry_original e = match FlowEntry_direction_of e from_lower with
    | Original => (FlowEntry_sides e from_lower).1 | Reply => (FlowEntry_sides e from_lower).2 end.
Proof.
  unfold FlowEntry_original, FlowEntry_direction_of, FlowEntry_sides.
  by destruct from_lower, (FlowEntry_direction_of_lower e).
Qed.

Lemma closing_sides e from_lower :
  closed_state (FlowEntry_closing_facts e) =
    closed_state (let '(s, p) := FlowEntry_sides e from_lower in
      (DirectionState_seen_fin s, DirectionState_fin_acknowledged s,
       DirectionState_seen_fin p, DirectionState_fin_acknowledged p)).
Proof.
  unfold FlowEntry_closing_facts, FlowEntry_sides. destruct from_lower; [done|]. simpl.
  destruct (DirectionState_seen_fin (lower e)), (DirectionState_seen_fin (upper e)),
    (DirectionState_fin_acknowledged (lower e)), (DirectionState_fin_acknowledged (upper e)); done.
Qed.

Lemma both_sides P e from_lower :
  both P e ↔ P (FlowEntry_sides e from_lower).1 = true ∧ P (FlowEntry_sides e from_lower).2 = true.
Proof. unfold both, FlowEntry_sides. destruct from_lower; simpl; tauto. Qed.

Lemma no_fin_sides e from_lower :
  no_fin e ↔ DirectionState_seen_fin (FlowEntry_sides e from_lower).1 = false
             ∧ DirectionState_seen_fin (FlowEntry_sides e from_lower).2 = false.
Proof. unfold no_fin, FlowEntry_sides. destruct from_lower; simpl; tauto. Qed.

(** [life], told by the bits of sender and peer instead of lower and upper. *)
Definition bits_inv (b : bool * bool * bool * bool) : Prop :=
  let '(spoken, syn, fin, acked) := b in
  (syn = true → spoken = true) ∧ (fin = true → spoken = true) ∧ (acked = true → fin = true).

Definition sided (st : FlowState) (d : Direction) (s p : bool * bool * bool * bool) : Prop :=
  let '(s_spoken, s_syn, s_fin, s_acked) := s in
  let '(p_spoken, p_syn, p_fin, p_acked) := p in
  bits_inv s ∧ bits_inv p
  ∧ (st ≠ Vacant → match d with Original => s_spoken | Reply => p_spoken end = true)
  ∧ match st with
    | SynSent => match d with Original => s_syn | Reply => p_syn end = true ∧ s_fin = false ∧ p_fin = false
    | SynReceived => (s_syn = true ∧ p_syn = true) ∧ s_fin = false ∧ p_fin = false
    | Established | FinWait | CloseWait | Closing | TimeWait =>
        (s_syn = true ∧ p_syn = true) ∧ st = closed_state (s_fin, s_acked, p_fin, p_acked)
    | UdpAssured | IcmpReplied => s_spoken = true ∧ p_spoken = true
    | _ => True
    end.

Lemma life_sides e from_lower :
  life e ↔ sided (fl_state e) (FlowEntry_direction_of e from_lower)
             (flag_bits (FlowEntry_sides e from_lower).1) (flag_bits (FlowEntry_sides e from_lower).2).
Proof.
  pose proof (original_sides e from_lower) as Ho. pose proof (closing_sides e from_lower) as Hc.
  pose proof (no_fin_sides e from_lower) as Hn.
  pose proof (both_sides DirectionState_seen_syn e from_lower) as Hs.
  pose proof (both_sides DirectionState_spoken e from_lower) as Hk.
  assert (half_inv (FlowEntry_sides e from_lower).1 ∧ half_inv (FlowEntry_sides e from_lower).2
          ↔ half_inv (lower e) ∧ half_inv (upper e)) as Hh by (destruct from_lower; simpl; tauto).
  destruct (FlowEntry_sides e from_lower) as [s p]. cbn [fst snd] in *.
  unfold sided, flag_bits. change (bits_inv _ ∧ bits_inv _ ∧ ?P) with (half_inv s ∧ half_inv p ∧ P).
  split.
  - intros [H1 H2 H3 H4]. rewrite Hc in H4. rewrite Ho in H3, H4.
    split; [tauto|]. split; [tauto|]. split; [by destruct (FlowEntry_direction_of _ _)|].
    destruct (FlowEntry_direction_of _ _), (fl_state e); tauto.
  - intros (H1 & H2 & H3 & H4). destruct (proj1 Hh (conj H1 H2)).
    split; [done|done|rewrite Ho; by destruct (FlowEntry_direction_of _ _)|].
    rewrite Ho, Hc. destruct (FlowEntry_direction_of _ _), (fl_state e); tauto.
Qed.

(** *** Segments *)

Lemma accept_segment_sides now from_lower segment e :
  let e' := accept_segment now from_lower segment e in
  let r := record (FlowEntry_sides e from_lower).1 (FlowEntry_sides e from_lower).2 segment in
  flag_bits (FlowEntry_sides e' from_lower).1 = flag_bits r.1
  ∧ flag_bits (FlowEntry_sides e' from_lower).2 = flag_bits r.2
  ∧ FlowEntry_direction_of e' from_lower = FlowEntry_direction_of e from_lower.
Proof.
  unfold accept_segment, FlowEntry_with_halves, FlowEntry_sides.
  destruct from_lower; cbn [fst snd]; destruct (record _ _ segment) as [s p]; cbv beta zeta;
    destruct (_ && _); done.
Qed.

Definition syn_event (ev : Event) : bool := match ev with Syn | SynAck => true | _ => false end.
Definition fin_event (ev : Event) : bool := match ev with Fin => true | _ => false end.

Lemma event_flags flags ev :
  event flags = Some ev → TcpFlags_syn flags = syn_event ev ∧ TcpFlags_fin flags = fin_event ev.
Proof.
  unfold event. destruct (TcpFlags_rst flags), (TcpFlags_syn flags), (TcpFlags_fin flags), (TcpFlags_ack flags);
    intros [= <-]; done.
Qed.

Lemma bits_inv_sender sp sy fi ak sy' fi' :
  bits_inv (sp, sy, fi, ak) → bits_inv (true, sy || sy', fi || fi', ak).
Proof. intros (_ & _ & H). split; [done|]. split; [done|]. intros Ha. by rewrite (H Ha). Qed.

Lemma bits_inv_peer sp sy fi ak a :
  bits_inv (sp, sy, fi, ak) → (a = true → fi = true) → bits_inv (sp, sy, fi, ak || a).
Proof. intros (H1 & H2 & H3) Ha. split; [done|]. split; [done|]. intros [?|?]%orb_true_iff; auto. Qed.

Lemma closed_state_synchronised closing :
  let c := closed_state closing in
  c = Established ∨ c = FinWait ∨ c = CloseWait ∨ c = Closing ∨ c = TimeWait.
Proof. destruct closing as [[[[] []] []] []]; simpl; tauto. Qed.

(** An event the state admits leads to a state the invariant describes. *)
Lemma sided_segment st ev d s_sp s_sy s_fi s_ak p_sp p_sy p_fi p_ak a closing :
  admits st ev d = true →
  sided st d (s_sp, s_sy, s_fi, s_ak) (p_sp, p_sy, p_fi, p_ak) → (a = true → p_fi = true) →
  let s_fi' := s_fi || fin_event ev in
  closed_state closing = closed_state (s_fi', s_ak, p_fi, p_ak || a) →
  sided (next_state st ev d closing) d (true, s_sy || syn_event ev, s_fi', s_ak) (p_sp, p_sy, p_fi, p_ak || a).
Proof.
  intros Hadm (Hs & Hp & Ho & Hst) Ha s_fi' Hclosing. split; [by eapply bits_inv_sender|].
  split; [by apply bits_inv_peer|]. split.
  { intros _. destruct d; [done|]. apply Ho. by destruct st. }
  assert (let c := closed_state closing in s_sy || syn_event ev = true → p_sy = true →
    match c with
    | SynSent => match d with Original => s_sy || syn_event ev | Reply => p_sy end = true
        ∧ s_fi' = false ∧ p_fi = false
    | SynReceived => (s_sy || syn_event ev = true ∧ p_sy = true) ∧ s_fi' = false ∧ p_fi = false
    | Established | FinWait | CloseWait | Closing | TimeWait =>
        (s_sy || syn_event ev = true ∧ p_sy = true) ∧ c = closed_state (s_fi', s_ak, p_fi, p_ak || a)
    | UdpAssured | IcmpReplied => true = true ∧ p_sp = true
    | _ => True
    end) as Hsync.
  { rewrite Hclosing. intros c ??. destruct (closed_state_synchronised (s_fi', s_ak, p_fi, p_ak || a))
      as [E|[E|[E|[E|E]]]]; unfold c; by rewrite E. }
  clear Hclosing. destruct st, ev; try done; try (destruct d; done); cbn [next_state];
    try (apply Hsync; [apply orb_true_iff; left|]; apply Hst); subst s_fi'; simpl in Hst |- *;
    destruct d; simplify_eq/=; rewrite ?orb_true_r, ?orb_false_r; try tauto; try done.
Qed.

Lemma life_segment now e from_lower ev segment :
  event (sg_flags segment) = Some ev →
  admits (fl_state e) ev (FlowEntry_direction_of e from_lower) = true → life e →
  life (FlowEntry_set_state (accept_segment now from_lower segment e)
         (next_state (fl_state e) ev (FlowEntry_direction_of e from_lower)
            (FlowEntry_closing_facts (accept_segment now from_lower segment e)))).
Proof.
  intros Hev Hadm Hlife. destruct (accept_segment_sides now from_lower segment e) as (Hs & Hp & Hd).
  pose proof (closing_sides (accept_segment now from_lower segment e) from_lower) as Hc.
  set (e1 := accept_segment now from_lower segment e) in *. clearbody e1.
  rewrite (life_sides _ from_lower). rewrite (life_sides _ from_lower) in Hlife. set (next := next_state _ _ _ _).
  change (sided next (FlowEntry_direction_of e1 from_lower)
    (flag_bits (FlowEntry_sides e1 from_lower).1) (flag_bits (FlowEntry_sides e1 from_lower).2)).
  rewrite Hd. destruct (record_bits (FlowEntry_sides e from_lower).1 (FlowEntry_sides e from_lower).2 segment)
    as (acked & Hrs & Hrp & Hak).
  destruct (event_flags _ _ Hev) as [Hsyn Hfin]. rewrite Hrs, Hsyn, Hfin in Hs. rewrite Hrp in Hp.
  rewrite Hs, Hp. eapply sided_segment; [done|exact Hlife|done|].
  rewrite Hc. destruct (FlowEntry_sides e1 from_lower) as [s' p']. simpl in Hs, Hp.
  injection Hs as _ _ -> ->. by injection Hp as _ _ -> ->.
Qed.

(** *** Datagrams and openings *)
Lemma with_halves_sides e from_lower edit :
  let e' := FlowEntry_with_halves e from_lower edit in
  FlowEntry_sides e' from_lower = edit (FlowEntry_sides e from_lower).1 (FlowEntry_sides e from_lower).2
  ∧ FlowEntry_direction_of e' from_lower = FlowEntry_direction_of e from_lower ∧ fl_state e' = fl_state e.
Proof.
  unfold FlowEntry_with_halves, FlowEntry_sides.
  destruct from_lower; cbn [fst snd]; destruct (edit _ _); done.
Qed.

Lemma note_traffic_bits d :
  flag_bits (DirectionState_note_traffic d) =
    (true, DirectionState_seen_syn d, DirectionState_seen_fin d, DirectionState_fin_acknowledged d).
Proof. unfold DirectionState_note_traffic. rewrite raise_flag_bits. simpl. by rewrite orb_true_r, !orb_false_r. Qed.

(** The flow a packet opens satisfies the invariant. *)
Lemma life_opened now key ingress from_lower st e : entry_opened now key ingress from_lower st e → life e.
Proof.
  intros [e0 segment Hev|e0 st' Hst]; rewrite (life_sides _ from_lower);
    set (e1 := FlowEntry_open _ _ _ _ _ _);
    assert (FlowEntry_sides e1 from_lower = (DirectionState_SILENT, DirectionState_SILENT)
      ∧ FlowEntry_direction_of e1 from_lower = Original) as [Hsides Hd] by (by destruct from_lower);
    destruct (with_halves_sides e1 from_lower (λ sender peer, record sender peer segment)) as (Hs' & Hd' & Hst')
      || destruct (with_halves_sides e1 from_lower
           (λ sender peer, (DirectionState_note_traffic sender, peer))) as (Hs' & Hd' & Hst');
    rewrite Hs', Hd', Hst', Hsides, Hd; clear Hs' Hd' Hst' Hsides Hd.
  - destruct (event_flags _ _ Hev) as [Hsyn Hfin].
    destruct (record_bits DirectionState_SILENT DirectionState_SILENT segment) as (acked & Hs & Hp & Hak).
    rewrite Hsyn, Hfin in Hs. cbn [fst snd]. rewrite Hs, Hp.
    destruct acked; [by discriminate Hak|]. done.
  - change (fl_state e1) with st'. by destruct Hst as [-> | ->].
Qed.

(** Everything an accepted packet does keeps it. *)
Lemma life_step now e e' : entry_step now e e' → life e → life e'.
Proof.
  intros [e1 from_lower ev segment Hev Hadm _|e1 from_lower next Hst]; [by apply life_segment|].
  rewrite !(life_sides _ from_lower).
  destruct (with_halves_sides e1 from_lower (λ sender peer, (DirectionState_note_traffic sender, peer)))
    as (Hs & Hd & _).
  set (e2 := FlowEntry_with_halves _ _ _) in *. clearbody e2.
  change (FlowEntry_sides (FlowEntry_set_state _ _) from_lower) with (FlowEntry_sides e2 from_lower).
  change (FlowEntry_direction_of (FlowEntry_set_state _ _) from_lower) with (FlowEntry_direction_of e2 from_lower).
  change (fl_state (FlowEntry_set_state _ next)) with next. rewrite Hs, Hd. cbn [fst snd].
  rewrite note_traffic_bits. unfold flag_bits. intros (Hinv & Hp & Ho & H).
  split; [apply (bits_inv_sender _ _ _ _ false false) in Hinv; by rewrite !orb_false_r in Hinv|].
  split; [done|]. unfold datagram_next, udp_next in Hst.
  destruct Hst as [Hnext|[[E|E] Hnext]]; [|rewrite E in *..].
  - destruct (FlowEntry_direction_of e1 from_lower), (fl_state e1); simplify_eq; specialize (Ho ltac:(done)); tauto.
  - destruct (FlowEntry_direction_of e1 from_lower), Hnext as [-> |[-> Hd']]; simplify_eq;
      specialize (Ho ltac:(done)); tauto.
  - destruct (FlowEntry_direction_of e1 from_lower), Hnext as [-> |[-> Hd']]; simplify_eq;
      specialize (Ho ltac:(done)); tauto.
Qed.

(** ** The right edge of a direction that opens high *)

(** [open] marks the direction as having spoken before it raises the edge, so the
    edge is compared against the zero of a silent half instead of being set. *)
Lemma open_right_edge e window :
  is_u32 e →
  max_end (DirectionState_open DirectionState_SILENT e window) = if (0 <? e) && (e <=? 2 ^ 31) then e else 0.
Proof.
  intros He. unfold DirectionState_open, DirectionState_raise_max_end.
  set (d := raise_flag DF_SPOKEN _). change (DirectionState_spoken d) with true. change (max_end d) with 0.
  rewrite orb_false_r. pose proof (SeqNumber_follows_spec e 0) as Hf. unfold_ints.
  destruct (SeqNumber_follows e 0); change (max_end d) with 0; cbn [max_end assign].
  - assert (2147483648 ≤ (0 - e) mod 4294967296) as H by by apply Hf. clear Hf.
    rewrite (proj2 (Z.ltb_lt _ _)), (proj2 (Z.leb_le _ _)); Z.div_mod_to_equations; try done; lia.
  - destruct ((0 <? e) && (e <=? 2147483648)) eqn:E; [|done]. exfalso.
    assert (false = true) by (apply Hf; Z.div_mod_to_equations; lia). done.
Qed.

(** Where a direction's first segment ends above half the sequence space, its
    right edge is lost: the edge stays zero, acknowledgements that authorise
    numbers in the upper half do not raise it, and no segment in the upper half is
    refused as ahead of what its peer authorised, however far ahead it is. *)
Theorem high_opening_loses_right_edge e window edge peer s :
  2 ^ 31 < e < 2 ^ 32 → 2 ^ 31 < edge < 2 ^ 32 → 2 ^ 31 < sequence s < 2 ^ 32 →
  let d := DirectionState_raise_max_end (DirectionState_open DirectionState_SILENT e window) edge in
  max_end d = 0 ∧ in_window d peer s ≠ Err SequenceAhead.
Proof.
  intros He Hedge Hs. set (o := DirectionState_open _ _ _).
  assert (∀ x, 2 ^ 31 < x < 2 ^ 32 → SeqNumber_follows x 0 = false) as Hlow.
  { intros x Hx. apply not_true_iff_false. rewrite SeqNumber_follows_spec. unfold_ints. Z.div_mod_to_equations. lia. }
  assert (max_end o = 0) as Ho.
  { unfold o. rewrite open_right_edge by (unfold_ints; lia). rewrite (proj2 (Z.leb_gt _ _)) by lia. by rewrite andb_false_r. }
  assert (DirectionState_spoken o = true) as Hsp
    by (unfold o, DirectionState_open; pose proof (raise_max_end_bits (raise_flag DF_SPOKEN
          (DirectionState_SILENT <| end_ := e |> <| max_window := Z.max window 1 |>)) e) as H; by injection H).
  assert (DirectionState_raise_max_end o edge = o) as ->
    by (unfold DirectionState_raise_max_end; by rewrite Ho, Hlow, Hsp).
  clearbody o. cbv zeta. split; [done|]. unfold in_window. rewrite Hsp, Ho, Hlow by done. simpl.
  repeat case_match; done.
Qed.

