(* ===== verification/FlowTableRun.v ===== *)
(** * The connection table: whole operations and whole runs

    Bring-up, withdrawal, the timeout sweep and the revisiting pass, each with its
    exact effect on the flows; then the table as a transition system
    ([table_step]), in which the representation invariant holds of every reachable
    state. *)
From S2P Require Import Prelude NetHeaders Clock SeqNumber FlowKey FlowEntry FlowTcp FlowIcmp FlowTable FlowTableInv FlowTableOps FlowTableSpec.

#[local] Opaque MAX_CHAIN FlowTable_bucket_of.

Section run.
Context (CAPACITY : nat) `{!Layout CAPACITY}.
Implicit Types (t : FlowTable) (slot s : nat).

Local Abbreviation wf_with := (wf_with CAPACITY).
Local Abbreviation wf := (wf CAPACITY).
Local Abbreviation bucket_of := (FlowTable_bucket_of CAPACITY).
Local Abbreviation release := (FlowTable_release CAPACITY).

(** ** Bring-up *)
Lemma initialise_loop_spec n next es :
  (n ≤ length es)%nat →
  (initialise_loop n next es).2 = (if decide (n = 0%nat) then next else 0)
  ∧ length (initialise_loop n next es).1 = length es
  ∧ ∀ i, (initialise_loop n next es).1 !! i =
      if decide (i < n)%nat
      then Some (FlowEntry_set_link FlowEntry_VACANT (if decide (S i = n) then next else Z.of_nat (S i)))
      else es !! i.
Proof.
  revert next es. induction n as [|n IH]; intros next es Hn; cbn [initialise_loop fst snd].
  { split_all; [done|done|]. intros i. by rewrite decide_False by lia. }
  destruct (IH (Z.of_nat n) (alter (λ _, FlowEntry_set_link FlowEntry_VACANT next) n es)) as (H1 & H2 & H3).
  { rewrite length_alter. lia. }
  rewrite H1, H2, length_alter. split_all; [|done|].
  - case_decide; [by subst|done].
  - intros i. rewrite H3. destruct (decide (i = n)) as [->|Hne].
    + rewrite decide_False, decide_True, decide_True by lia. rewrite list_lookup_alter_eq.
      destruct (lookup_lt_is_Some_2 es n) as [x Hx]; [lia|]. by rewrite Hx.
    + destruct (decide (i < n)%nat).
      * rewrite (decide_True (P := (i < S n)%nat)), (decide_False (P := S i = S n)) by lia.
        destruct (decide (S i = n)) as [<-|]; done.
      * rewrite decide_False by lia. by apply list_lookup_alter_ne.
Qed.

Lemma chain_from lk n k :
  (∀ i, (i < n)%nat → lk !! i = Some (if decide (S i = n) then NO_SLOT else Z.of_nat (S i))) →
  (k < n)%nat → chain_at lk (Z.of_nat k) (seq k (n - k)).
Proof.
  intros Hlk Hk. remember (n - k)%nat as m eqn:Hm. revert k Hk Hm.
  induction m as [|m IH]; intros k Hk Hm; [lia|]. simpl. split; [done|].
  eexists. split; [by apply Hlk|]. case_decide.
  - assert (m = 0%nat) as -> by lia. done.
  - apply IH; lia.
Qed.

Lemma count_state_replicate st n e :
  count_state st (replicate n e) = if decide (fl_state e = st) then n else 0%nat.
Proof.
  unfold count_state. induction n as [|n IH]; simpl; [by case_decide|].
  rewrite filter_cons. case_decide; simpl; [by rewrite IH|done].
Qed.

Lemma initialise_wf t :
  length (entries t) = CAPACITY → length (buckets t) = CAPACITY →
  wf (FlowTable_initialise CAPACITY t).2 ∧ counters (FlowTable_initialise CAPACITY t).2 = FlowCounters_new
  ∧ ∀ s e, flows (FlowTable_initialise CAPACITY t).2 !! s = Some e → fl_state e = Vacant.
Proof.
  intros Hel Hbl. pose proof (capacity_pos CAPACITY) as Hpos.
  destruct (initialise_loop_spec CAPACITY NO_SLOT (entries t)) as (Hh & Hl & Hi); [lia|].
  rewrite decide_False in Hh by lia. unfold FlowTable_initialise, st_edit. cbn [snd].
  destruct (initialise_loop CAPACITY NO_SLOT (entries t)) as [es head]. cbn [fst snd] in *. subst head.
  set (t' := {| entries := es |}).
  assert (∀ s, (s < CAPACITY)%nat → flows t' !! s = Some (erase FlowEntry_VACANT)) as Hfl.
  { intros s Hs. rewrite lookup_flows. unfold t'. simpl. rewrite Hi, decide_True by done. done. }
  assert (∀ s e, flows t' !! s = Some e → (s < CAPACITY)%nat ∧ e = erase FlowEntry_VACANT) as Hfl'.
  { intros s e He. pose proof (lookup_lt_Some _ _ _ He) as Hs. rewrite length_flows in Hs.
    unfold t' in Hs. simpl in Hs. rewrite Hl, Hel in Hs. rewrite Hfl in He by done. by simplify_eq. }
  split_all; [|done|intros s e He; destruct (Hfl' _ _ He) as [_ ->]; done].
  split; [split| |unfold t'; simpl; lia..].
  - unfold t'. simpl. lia.
  - unfold t'. simpl. by rewrite length_fmap.
  - exists (seq 0 CAPACITY). split_all.
    + change (free_head t') with (Z.of_nat 0). replace (seq 0 CAPACITY) with (seq 0 (CAPACITY - 0)) by (f_equal; lia).
      apply chain_from; [|done]. intros i Hlt. rewrite lookup_links. unfold t'. simpl.
      rewrite Hi, decide_True by done. done.
    + apply NoDup_seq.
    + by rewrite length_seq.
    + intros s. rewrite elem_of_seq. split.
      * intros Hs. split; [done|]. eexists. split; [apply Hfl; lia|done].
      * intros (_ & e & He & _). destruct (Hfl' _ _ He). lia.
  - intros b Hb. exists []. split_all; [|constructor|simpl; lia|].
    + unfold bucket_head, t'. simpl. rewrite list_lookup_fmap. by destruct (buckets t !! b).
    + intros s. split; [by intros ?%not_elem_of_nil|]. intros (_ & e & He & Hv & _).
      destruct (Hfl' _ _ He) as [_ ->]. done.
  - split.
    + intros s e He Hv. destruct (Hfl' _ _ He) as [_ ->]. done.
    + intros s1 s2 e1 e2 _ _ He1 _ Hv1. destruct (Hfl' _ _ He1) as [_ ->]. done.
    + intros st. assert (flows t' = replicate CAPACITY (erase FlowEntry_VACANT)) as ->.
      { apply list_eq. intros i. destruct (decide (i < CAPACITY)%nat).
        - by rewrite Hfl, lookup_replicate_2 by done.
        - rewrite !(proj2 (lookup_ge_None _ _)); [done|rewrite length_replicate; lia|].
          rewrite length_flows. unfold t'. simpl. lia. }
      rewrite count_state_replicate. by destruct st.
    + done.
Qed.
(** ** Withdrawal *)
Lemma withdraw_eq id t :
  FlowTable_withdraw CAPACITY id t =
    match FlowTable_flow t id with
    | Some _ => (true, (count (λ c, c <| flows_withdrawn ::= bump |>) (release (Z.to_nat (id_slot id)) t).2).2)
    | None => (false, t)
    end.
Proof.
  unfold FlowTable_withdraw, FlowTable_flow. rewrite st_bind_read.
  destruct (entries t !! Z.to_nat (id_slot id)) as [e|]; [|done]. by destruct (_ && _).
Qed.

Lemma flow_held t id e :
  FlowTable_flow t id = Some e ↔
  entries t !! Z.to_nat (id_slot id) = Some e ∧ fl_state e ≠ Vacant ∧ generation e = id_generation id.
Proof.
  unfold FlowTable_flow. destruct (entries t !! Z.to_nat (id_slot id)) as [e'|]; [|by split; [|intros [? _]]].
  destruct (FlowEntry_is_occupied e' && (generation e' =? id_generation id)) eqn:Hb.
  - apply andb_true_iff in Hb as [H1 H2]. apply is_occupied_true in H1.
    apply Z.eqb_eq in H2. split; [by intros [= <-]|by intros ([= <-] & _)].
  - split; [done|]. intros ([= ->] & H1 & H2). apply is_occupied_true in H1.
    rewrite H1, H2, Z.eqb_refl in Hb. done.
Qed.

Lemma withdraw_spec id t :
  wf t →
  let t' := (FlowTable_withdraw CAPACITY id t).2 in
  wf t' ∧ flows t' = (if (FlowTable_withdraw CAPACITY id t).1
                      then alter closed (Z.to_nat (id_slot id)) (flows t) else flows t).
Proof.
  intros Hwf. rewrite withdraw_eq. destruct (FlowTable_flow t id) as [e|] eqn:Hf; [|done].
  apply flow_held in Hf as (He & Hocc & _). cbn [fst snd]. split.
  - apply (count_wf CAPACITY). eapply (release_wf CAPACITY); [done|by rewrite lookup_flows, He|done].
  - rewrite flows_count. apply (flows_release CAPACITY).
Qed.

(** ** The timeout sweep *)

(** The slots the steps from [i] on reach. *)
Definition sweep_slots (start : Z) (i remaining : nat) : list nat :=
  (λ n, masked CAPACITY (wrapping_add 64 start (Z.of_nat n))) <$> seq i remaining.

Definition reap (now : Monotonic) (e : FlowEntry) : FlowEntry := if has_expired e now then closed e else e.

Lemma reap_idemp now e : reap now (reap now e) = reap now e.
Proof. unfold reap. destruct (has_expired e now) eqn:E; [done|]. by rewrite E. Qed.

Lemma release_frame slot t :
  sweep_cursor (release slot t).2 = sweep_cursor t ∧ length (entries (release slot t).2) = length (entries t).
Proof.
  split.
  - rewrite (release_eq CAPACITY). unfold push_free.
    destruct (record_state_change_frame (match entries (FlowTable_unlink CAPACITY slot t).2 !! slot with
      Some e => fl_state e | None => Vacant end) Vacant (FlowTable_unlink CAPACITY slot t).2)
      as (_ & _ & _ & _ & Hs & _).
    cbn [sweep_cursor assign]. etransitivity; [exact Hs|]. clear.
    unfold FlowTable_unlink, st_edit. cbn [snd]. destruct (entries t !! slot) as [e|]; [|done].
    destruct (negb _); [done|]. destruct (_ =? _); [done|]. generalize (bucket_head t (bucket_of (FlowEntry_key e))).
    generalize MAX_CHAIN. intros n. induction n as [|n IH]; intros h; [done|]. simpl.
    destruct (_ =? _); [done|]. destruct (_ =? _); [done|]. apply IH.
  - pose proof (flows_release CAPACITY slot t) as H. apply (f_equal length) in H.
    by rewrite length_alter, !length_flows in H.
Qed.

Lemma poll_loop_spec now start remaining step n t :
  wf t →
  let t' := (poll_loop CAPACITY now start remaining step n t).2 in
  wf t' ∧ sweep_cursor t' = sweep_cursor t
  ∧ ∀ s, flows t' !! s = if decide (s ∈ sweep_slots start step remaining)
                         then reap now <$> flows t !! s else flows t !! s.
Proof.
  revert step n t. induction remaining as [|remaining IH]; intros step n t Hwf; cbn [poll_loop].
  { split_all; [done|done|]. intros s. by rewrite decide_False by apply not_elem_of_nil. }
  set (slot := masked CAPACITY (wrapping_add 64 start (Z.of_nat step))). rewrite st_bind_read.
  change (sweep_slots start step (S remaining)) with (slot :: sweep_slots start (S step) remaining).
  assert (∀ t1 n1, wf t1 → sweep_cursor t1 = sweep_cursor t →
    (∀ s, flows t1 !! s = if decide (s = slot) then reap now <$> flows t !! s else flows t !! s) →
    let t' := (poll_loop CAPACITY now start remaining (S step) n1 t1).2 in
    wf t' ∧ sweep_cursor t' = sweep_cursor t
    ∧ ∀ s, flows t' !! s = if decide (s ∈ slot :: sweep_slots start (S step) remaining)
                           then reap now <$> flows t !! s else flows t !! s) as Hstep.
  { intros t1 n1 Hwf1 Hc1 Hfl1 t'. destruct (IH (S step) n1 t1 Hwf1) as (Hwf2 & Hc2 & Hfl2). fold t' in Hwf2, Hc2, Hfl2.
    split_all; [done|by rewrite Hc2|]. intros s. rewrite Hfl2, Hfl1.
    destruct (decide (s = slot)) as [->|Hne].
    - rewrite (decide_True (P := slot ∈ slot :: _)) by by left.
      destruct (decide _); [|done]. destruct (flows t !! slot); simpl; [by rewrite reap_idemp|done].
    - destruct (decide (s ∈ sweep_slots start (S step) remaining)) as [Hin|Hin].
      + by rewrite decide_True by by right.
      + rewrite decide_False; [done|]. by intros [?|?]%elem_of_cons. }
  destruct (match entries t !! slot with Some e => has_expired e now | None => false end) eqn:Hdead.
  - destruct (entries t !! slot) as [e|] eqn:He; [|done].
    assert (flows t !! slot = Some (erase e)) as Hfe by (by rewrite lookup_flows, He).
    assert (fl_state (erase e) ≠ Vacant) as Hocc.
    { unfold has_expired in Hdead. apply andb_true_iff in Hdead as [Ho _]. by apply is_occupied_true. }
    apply (Hstep (count (λ c, c <| flows_expired ::= bump |>) (release slot t).2).2).
    + by eapply (count_wf CAPACITY), (release_wf CAPACITY).
    + apply release_frame.
    + intros s. rewrite flows_count, (flows_release CAPACITY), list_lookup_alter.
      destruct (decide (s = slot)) as [->|Hne]; [|by rewrite decide_False].
      rewrite decide_True, Hfe by done. simpl. unfold reap. by rewrite has_expired_erase, Hdead.
  - apply Hstep; [done|done|]. intros s. destruct (decide (s = slot)) as [->|]; [|done].
    rewrite lookup_flows. destruct (entries t !! slot) as [e|]; simpl; [|done].
    unfold reap. by rewrite has_expired_erase, Hdead.
Qed.

Definition stride : nat := Nat.min SWEEP_STRIDE CAPACITY.

Lemma poll_spec now t :
  wf t →
  let t' := (FlowTable_poll CAPACITY now t).2 in
  wf t'
  ∧ sweep_cursor t' = Z.of_nat (masked CAPACITY (wrapping_add 64 (sweep_cursor t) (Z.of_nat stride)))
  ∧ ∀ s, flows t' !! s = if decide (s ∈ sweep_slots (sweep_cursor t) 0 stride)
                         then reap now <$> flows t !! s else flows t !! s.
Proof.
  intros Hwf t'. subst t'. unfold FlowTable_poll. rewrite st_bind_read. fold stride.
  destruct (poll_loop_spec now (sweep_cursor t) stride 0 0 t Hwf) as (Hwf1 & Hc1 & Hfl1).
  destruct (poll_loop CAPACITY now (sweep_cursor t) stride 0 0 t) as [n t1] eqn:Hrun.
  rewrite (st_bind_run _ _ _ _ _ Hrun). cbn [snd] in *. unfold st_bind, st_edit, st_ret. cbn [fst snd].
  split_all; [|done|done].
  destruct Hwf1 as [[] Hf Hsw Hev]. split; [done|done| |done]. simpl.
  assert (0 ≤ wrapping_add 64 (sweep_cursor t) (Z.of_nat stride)) by (unfold_ints; Z.div_mod_to_equations; lia).
  pose proof (masked_lt CAPACITY (wrapping_add 64 (sweep_cursor t) (Z.of_nat stride)) ltac:(done)). lia.
Qed.

(** Where a cursor stands after [k] steps. *)
Lemma masked_step (c k : nat) :
  (c < CAPACITY)%nat → (k ≤ SWEEP_STRIDE)%nat →
  masked CAPACITY (wrapping_add 64 (Z.of_nat c) (Z.of_nat k)) = ((c + k) mod CAPACITY)%nat.
Proof.
  intros Hc Hk. pose proof (layout_below_no_slot (CAPACITY := CAPACITY)) as Hno.
  unfold NO_SLOT, SWEEP_STRIDE in *. unfold wrapping_add, wrap.
  rewrite Z.mod_small by (unfold_ints; lia). rewrite (masked_spec CAPACITY) by lia. f_equal. lia.
Qed.

Lemma stride_bounds : (0 < stride ≤ CAPACITY ∧ stride ≤ SWEEP_STRIDE)%nat.
Proof. pose proof (capacity_pos CAPACITY). unfold stride, SWEEP_STRIDE. lia. Qed.

(** [n] sweeps in a row. *)
Fixpoint polls (now : Monotonic) (n : nat) (t : FlowTable) : FlowTable :=
  match n with
  | O => t
  | S n => (FlowTable_poll CAPACITY now (polls now n t)).2
  end.

Lemma polls_spec now n t :
  wf t →
  let t' := polls now n t in
  wf t'
  ∧ sweep_cursor t' = Z.of_nat ((Z.to_nat (sweep_cursor t) + n * stride) mod CAPACITY)
  ∧ (∀ s, flows t' !! s = flows t !! s ∨ flows t' !! s = reap now <$> flows t !! s)
  ∧ ∀ i, (i < n * stride)%nat →
      let s := ((Z.to_nat (sweep_cursor t) + i) mod CAPACITY)%nat in
      flows t' !! s = reap now <$> flows t !! s.
Proof.
  intros Hwf. pose proof stride_bounds as Hst. pose proof (capacity_pos CAPACITY) as Hpos.
  pose proof (wf_sweep _ _ _ Hwf) as Hsw0.
  induction n as [|n IH]; cbn [polls].
  { cbv zeta. split_all; [done| |by left|intros i Hi; lia].
    rewrite Nat.mul_0_l, Nat.add_0_r, Nat.mod_small; lia. }
  set (tn := polls now n t) in *. destruct IH as (Hwfn & Hcn & Hfln & Hdone).
  set (c := ((Z.to_nat (sweep_cursor t) + n * stride) mod CAPACITY)%nat) in *.
  assert (c < CAPACITY)%nat as Hc by (apply Nat.mod_upper_bound; lia).
  destruct (poll_spec now tn Hwfn) as (Hwf1 & Hc1 & Hfl1). rewrite Hcn in Hc1, Hfl1.
  cbv beta zeta. split_all; [done| |..].
  - rewrite Hc1, masked_step by (done || lia). f_equal. unfold c.
    rewrite Nat.Div0.add_mod_idemp_l. f_equal. lia.
  - intros s. rewrite Hfl1. destruct (Hfln s) as [->| ->]; case_decide; try tauto.
    destruct (flows t !! s); simpl; [rewrite reap_idemp|]; tauto.
  - intros i Hi. set (s := ((Z.to_nat (sweep_cursor t) + i) mod CAPACITY)%nat). rewrite Hfl1.
    destruct (decide (i < n * stride)%nat) as [Hlt|Hge].
    + specialize (Hdone i Hlt). cbv zeta in Hdone. fold s in Hdone. rewrite Hdone.
      case_decide; [|done]. destruct (flows t !! s); simpl; [by rewrite reap_idemp|done].
    + assert (s ∈ sweep_slots (Z.of_nat c) 0 stride) as Hin.
      { apply list_elem_of_fmap. exists (i - n * stride)%nat. split; [|apply elem_of_seq; lia].
        rewrite masked_step by lia. unfold s, c. rewrite Nat.Div0.add_mod_idemp_l. f_equal. lia. }
      rewrite decide_True by done. destruct (Hfln s) as [->| ->]; [done|].
      destruct (flows t !! s); simpl; [by rewrite reap_idemp|done].
Qed.

(** ** Revisiting *)
Lemma links_push_free slot t : links (push_free slot t) = <[slot := free_head t]> (links t).
Proof.
  unfold push_free, links. set (st := match _ with Some e => fl_state e | None => Vacant end).
  destruct (record_state_change_frame st Vacant t) as (He & Hf & _).
  cbn [entries assign]. rewrite (alter_links_set _ _ _ (free_head t)); [|intros; exact Hf].
  exact (f_equal (λ es, <[slot := free_head t]> (link <$> es)) He).
Qed.

(** The rest of a chain survives the release of a slot ahead of it. *)
Lemma release_tail slot t e n l2 :
  wf t → flows t !! slot = Some e → fl_state e ≠ Vacant →
  links t !! slot = Some n → chain_at (links t) n l2 →
  chain_at (links (release slot t).2) n l2.
Proof.
  intros Hwf He Hocc Hn Hc2. pose proof (wf_l _ _ _ Hwf) as Hl.
  pose proof (links_bound CAPACITY None t Hl) as Hlen.
  pose proof (wf_keys _ _ _ (wf_f _ _ _ Hwf) _ _ He Hocc) as Hkey.
  destruct (flows_lookup_Some _ _ _ He) as (e0 & He0 & <-).
  set (b := bucket_of (entry_key (erase e0))).
  destruct (wf_chains _ _ _ Hl b (bucket_of_lt CAPACITY _)) as (l & Hc & Hnd & Hmax & Hin).
  assert (slot ∈ l) as Hsl by (apply Hin; split; [done|]; by exists (erase e0)).
  destruct (chain_split _ _ _ _ Hc Hsl) as (l1 & l2' & n' & -> & H1 & Hn' & Hc2').
  assert (l2' = l2) as -> by (simplify_eq; by eapply chain_det).
  apply NoDup_app in Hnd as (Hnd1 & Hdisj & [Hnot Hnd2]%NoDup_cons).
  rewrite (release_eq CAPACITY), links_push_free. apply seg_insert; [done|].
  unfold FlowTable_unlink, st_edit. cbn [snd]. rewrite He0.
  rewrite (proj2 (is_occupied_true e0) Hocc). simpl negb. cbv iota.
  rewrite (FlowEntry_key_canonical e0) by done. change (entry_key e0) with (entry_key (erase e0)). fold b.
  destruct (Z.eqb_spec (bucket_head t b) (Z.of_nat slot)) as [|Hhead]; [done|].
  destruct l1 as [|prev l1 _] using rev_ind; [by simpl in H1|].
  assert (slot ∉ l1 ++ [prev]) as Hslot by (intros Hs; apply (Hdisj slot Hs); by left).
  assert (length l1 < MAX_CHAIN)%nat by (rewrite !length_app in Hmax; simpl in Hmax; lia).
  rewrite (unlink_walk_present MAX_CHAIN t (bucket_head t b) l1 prev) by done.
  unfold links. cbn [entries assign]. rewrite (alter_links_set _ _ _ (link_of t slot)) by done. apply seg_insert; [|done].
  intros Hs. apply (Hdisj prev); [apply elem_of_app; right; by left|by right].
Qed.

Section revisit.
Context {D : Type} (decide_flow : LiveFlow → D → Disposition * D) (verdict : LiveFlow → Disposition).

(** What a pass does to the flow in slot [s]. *)
Definition revise (s : nat) (e : FlowEntry) : FlowEntry :=
  match verdict (live_flow (Z.of_nat s) e) with Revoke => closed e | Keep => e end.

Hypothesis decide_verdict : ∀ f d, (decide_flow f d).1 = verdict f.

Lemma revisit_chain_spec steps h l acc b t :
  wf t → chain_at (links t) h l → NoDup l → (length l ≤ steps)%nat →
  (∀ s, s ∈ l → chained CAPACITY (flows t) None b s) →
  let r := revisit_chain CAPACITY decide_flow steps h acc t in
  wf r.2 ∧ r.1.1.1 = (acc.1.1 + length l)%nat
  ∧ ∀ s, flows r.2 !! s = if decide (s ∈ l) then revise s <$> flows t !! s else flows t !! s.
Proof.
  revert h l acc t. induction steps as [|steps IH]; intros h l acc t Hwf Hc Hnd Hlen Hch; cbn [revisit_chain].
  { destruct l; [|simpl in *; lia]. split_all; [done|simpl; lia|]. intros s. by rewrite decide_False by apply not_elem_of_nil. }
  pose proof (links_bound CAPACITY None t (wf_l _ _ _ Hwf)) as Hbound.
  destruct l as [|x l].
  { simpl in Hc. subst h. rewrite Z.eqb_refl. split_all; [done|simpl; lia|].
    intros s. by rewrite decide_False by apply not_elem_of_nil. }
  destruct Hc as (-> & n & Hn & Hc). apply NoDup_cons in Hnd as [Hnot Hnd].
  pose proof (lookup_lt_Some _ _ _ Hn) as Hlt.
  rewrite (proj2 (Z.eqb_neq _ _)) by lia. rewrite Nat2Z.id, st_bind_read.
  destruct (Hch x) as (_ & ex & Hex & Hocc & Hbx); [by left|].
  destruct (flows_lookup_Some _ _ _ Hex) as (e & He & <-).
  rewrite lookup_links, He in Hn. injection Hn as <-. rewrite He.
  rewrite (proj2 (is_occupied_true e) Hocc). destruct acc as [[examined revoked] d].
  pose proof (decide_verdict (live_flow (Z.of_nat x) e) d) as Hdec.
  assert (∀ t1 acc1, wf t1 → acc1.1.1 = S examined → chain_at (links t1) (link e) l →
    (∀ s, flows t1 !! s = if decide (s = x) then revise s <$> flows t !! s else flows t !! s) →
    let r := revisit_chain CAPACITY decide_flow steps (link e) acc1 t1 in
    wf r.2 ∧ r.1.1.1 = (examined + length (x :: l))%nat
    ∧ ∀ s, flows r.2 !! s = if decide (s ∈ x :: l) then revise s <$> flows t !! s else flows t !! s) as Hstep.
  { intros t1 acc1 Hwf1 Hacc Hc1 Hfl1. destruct (IH (link e) l acc1 t1 Hwf1 Hc1 Hnd) as (Hwf2 & Hex2 & Hfl2).
    - simpl in Hlen. lia.
    - intros s Hs. assert (s ≠ x) as Hne by (by intros ->). destruct (Hch s) as (_ & e' & He' & ?); [by right|].
      split; [done|]. exists e'. by rewrite Hfl1, decide_False.
    - cbv zeta. split_all; [done|rewrite Hex2, Hacc; simpl; lia|]. intros s. rewrite Hfl2, Hfl1.
      destruct (decide (s = x)) as [->|Hne].
      + rewrite (decide_True (P := x ∈ x :: l)) by by left. by rewrite decide_False.
      + destruct (decide (s ∈ l)); [by rewrite decide_True by by right|].
        rewrite decide_False; [done|]. by intros [?|?]%elem_of_cons. }
  destruct (decide_flow (live_flow (Z.of_nat x) e) d) as [[] d']; cbn [fst] in Hdec.
  - apply Hstep; [done|done|done|]. intros s. destruct (decide (s = x)) as [->|]; [|done].
    rewrite lookup_flows, He. simpl. unfold revise.
    change (live_flow (Z.of_nat x) (erase e)) with (live_flow (Z.of_nat x) e). by rewrite <-Hdec.
  - apply (Hstep (count (λ c, c <| flows_revoked ::= bump |>) (release x t).2).2).
    + by eapply (count_wf CAPACITY), (release_wf CAPACITY).
    + done.
    + change (links (count _ _).2) with (links (release x t).2).
      eapply release_tail; [done|done|done|by rewrite lookup_links, He|done].
    + intros s. rewrite flows_count, (flows_release CAPACITY), list_lookup_alter.
      destruct (decide (s = x)) as [->|Hne]; [|by rewrite decide_False].
      rewrite decide_True, lookup_flows, He by done. simpl. unfold revise.
      change (live_flow (Z.of_nat x) (erase e)) with (live_flow (Z.of_nat x) e). by rewrite <-Hdec.
Qed.

(** The flows of the buckets from [lo] up to [hi], revised. *)
Definition revised (lo hi : nat) (s : nat) (e : FlowEntry) : FlowEntry :=
  if FlowEntry_is_occupied e && (lo <=? bucket_of (entry_key e))%nat && (bucket_of (entry_key e) <? hi)%nat
  then revise s e else e.

Lemma revised_split lo mid hi s e :
  (lo ≤ mid ≤ hi)%nat → revised mid hi s (revised lo mid s e) = revised lo hi s e.
Proof.
  intros Hm. unfold revised at 2 3. destruct (FlowEntry_is_occupied e) eqn:Ho; simpl.
  2:{ unfold revised. by rewrite Ho. }
  destruct (lo <=? bucket_of (entry_key e))%nat eqn:H1; simpl.
  - destruct (bucket_of (entry_key e) <? mid)%nat eqn:H2; simpl.
    + apply Nat.ltb_lt in H2. rewrite (proj2 (Nat.ltb_lt _ _)) by lia. unfold revised, revise.
      destruct (verdict _); [|done]. rewrite (proj2 (Nat.leb_gt mid _)) by lia.
      by rewrite andb_false_r.
    + apply Nat.ltb_ge in H2. unfold revised. rewrite Ho, (proj2 (Nat.leb_le mid _)) by lia. done.
  - apply Nat.leb_gt in H1. unfold revised. rewrite Ho, (proj2 (Nat.leb_gt mid _)) by lia. done.
Qed.

Lemma revised_empty lo s e : revised lo lo s e = e.
Proof.
  unfold revised. destruct (_ && _ && _) eqn:E; [|done].
  apply andb_true_iff in E as [[_ H1]%andb_true_iff H2].
  apply Nat.leb_le in H1. apply Nat.ltb_lt in H2. lia.
Qed.

Lemma revisit_loop_spec turns start bucket acc t :
  wf t → (CAPACITY - bucket ≤ turns)%nat → (start ≤ bucket)%nat →
  let r := revisit_loop CAPACITY decide_flow turns start bucket acc t in
  wf r.2 ∧ (bucket ≤ r.1.1 ≤ Nat.max bucket CAPACITY)%nat
  ∧ (r.1.1 = bucket ∨ (acc.1.1 < REVISIT_FLOWS ∧ r.1.2.1.1 < REVISIT_FLOWS + MAX_CHAIN
                       ∧ r.1.1 - start ≤ Nat.max REVISIT_BUCKETS (bucket - start)))%nat
  ∧ (r.1.1 = bucket → r.1.2 = acc ∧
      (CAPACITY ≤ bucket ∨ REVISIT_BUCKETS ≤ bucket - start ∨ REVISIT_FLOWS ≤ acc.1.1)%nat)
  ∧ ∀ s, flows r.2 !! s = revised bucket r.1.1 s <$> flows t !! s.
Proof.
  revert bucket acc t. induction turns as [|turns IH]; intros bucket acc t Hwf Hturns Hstart; cbn [revisit_loop].
  { cbn [fst snd st_ret]. split_all; [done|lia|lia|by left| |].
    - intros _. split; [done|]. left. lia.
    - intros s. destruct (flows t !! s); simpl; [by rewrite revised_empty|done]. }
  destruct ((CAPACITY <=? bucket)%nat || _ || _) eqn:Hstop.
  { cbn [fst snd st_ret]. split_all; [done|lia|lia|by left| |].
    - intros _. split; [done|]. rewrite !orb_true_iff, !Nat.leb_le in Hstop. tauto.
    - intros s. destruct (flows t !! s); simpl; [by rewrite revised_empty|done]. }
  rewrite !orb_false_iff, !Nat.leb_gt in Hstop. destruct Hstop as [[Hb Hbk] Hex].
  rewrite st_bind_read.
  destruct (wf_chains _ _ _ (wf_l _ _ _ Hwf) bucket Hb) as (l & Hc & Hnd & Hlen & Hin).
  destruct (revisit_chain_spec MAX_CHAIN (bucket_head t bucket) l acc bucket t Hwf Hc Hnd Hlen) as (Hwf1 & Hacc1 & Hfl1).
  { intros s. apply Hin. }
  destruct (revisit_chain CAPACITY decide_flow MAX_CHAIN (bucket_head t bucket) acc t) as [acc1 t1] eqn:Hrun.
  rewrite (st_bind_run _ _ _ _ _ Hrun). cbn [fst snd] in *.
  destruct (IH (S bucket) acc1 t1 Hwf1) as (Hwf2 & Hnext & Hbounds & Hsame & Hfl2); [lia|lia|].
  set (r := revisit_loop _ _ _ _ _ _ _) in *. cbv zeta. clearbody r.
  split_all; [done|lia|lia| | |].
  - right. destruct Hbounds as [Heq|(? & ? & ?)]; [|split_all; lia].
    destruct (Hsame Heq) as [-> _]. split_all; lia.
  - lia.
  - intros s. rewrite Hfl2, Hfl1.
    assert ((if decide (s ∈ l) then revise s <$> flows t !! s else flows t !! s)
            = revised bucket (S bucket) s <$> flows t !! s) as ->.
    { destruct (flows t !! s) as [e|] eqn:He; [|by case_decide]. unfold revised.
      case_decide as Hs; simpl.
      - apply Hin in Hs as (_ & e' & He' & Hocc & Hbk'). rewrite He in He'. injection He' as <-.
        rewrite (proj2 (is_occupied_true e) Hocc), Hbk', (proj2 (Nat.leb_le _ _)), (proj2 (Nat.ltb_lt _ _)) by lia. done.
      - destruct (_ && _ && _) eqn:E; [|done]. exfalso. apply Hs, Hin.
        rewrite !andb_true_iff, Nat.leb_le, Nat.ltb_lt in E. destruct E as [[Ho ?] ?].
        split; [done|]. exists e. split_all; [done|by apply is_occupied_true|lia]. }
    destruct (flows t !! s); simpl; [|done]. f_equal. apply revised_split. lia.
Qed.

Lemma revisit_spec from d t :
  wf t →
  let r := FlowTable_revisit CAPACITY decide_flow from d t in
  wf r.2 ∧ (Nat.min from CAPACITY ≤ rv_next r.1.1 ≤ CAPACITY)%nat
  ∧ (from < CAPACITY → from < rv_next r.1.1)%nat
  ∧ (rv_buckets r.1.1 ≤ REVISIT_BUCKETS ∧ rv_examined r.1.1 < REVISIT_FLOWS + MAX_CHAIN)%nat
  ∧ (rv_complete r.1.1 = true ↔ rv_next r.1.1 = CAPACITY)
  ∧ ∀ s, flows r.2 !! s = revised (Nat.min from CAPACITY) (rv_next r.1.1) s <$> flows t !! s.
Proof.
  intros Hwf. unfold FlowTable_revisit.
  destruct (revisit_loop_spec CAPACITY (Nat.min from CAPACITY) (Nat.min from CAPACITY) (0%nat, 0%nat, d) t Hwf)
    as (Hwf1 & Hnext & Hbounds & Hsame & Hfl); [lia|lia|].
  destruct (revisit_loop _ _ _ _ _ _ _) as [[bucket [[examined revoked] d']] t1] eqn:Hrun.
  rewrite (st_bind_run _ _ _ _ _ Hrun). cbn [fst snd st_ret rv_next rv_buckets rv_examined rv_complete] in *.
  unfold REVISIT_BUCKETS, REVISIT_FLOWS in *. split_all; [done|lia|lia|..].
  - intros Hlt. destruct (decide (bucket = Nat.min from CAPACITY)) as [Heq|]; [|lia].
    destruct (Hsame Heq) as [_ [?|[?|?]]]; lia.
  - destruct Hbounds as [->|(? & ? & ?)]; lia.
  - destruct Hbounds as [Heq|(? & ? & ?)]; [|lia]. destruct (Hsame Heq) as [[= -> _ _] _]. lia.
  - rewrite Nat.leb_le. lia.
  - done.
Qed.

End revisit.

End run.
