(* ===== verification/FlowTableTheorems.v ===== *)
(** * The connection table: what a caller can rely on

    The table as a transition system ([table_step], [reachable]) and the theorems
    over every state it can reach: the representation and every flow's own invariant
    hold, no packet displaces a live assured flow, lookups agree with a scan of the
    whole array, every packet is counted exactly once, the sweep and the revisiting
    pass do exactly what they say. *)
From S2P Require Import Prelude NetHeaders Clock SeqNumber FlowKey FlowEntry FlowTcp FlowIcmp FlowTable FlowTableInv FlowTableOps FlowTableSpec FlowLife FlowTableRun.

#[local] Opaque MAX_CHAIN FlowTable_bucket_of.

Section theorems.
Context (CAPACITY : nat) `{!Layout CAPACITY}.
Implicit Types (t : FlowTable) (slot s : nat).

Local Abbreviation wf := (wf CAPACITY).
Local Abbreviation release := (FlowTable_release CAPACITY).

(** ** The transition system *)

(** What the appliance does to its table: it classifies the packets the parser
    hands over, withdraws a flow the policy refused, sweeps, and revisits with a
    closure whose answer depends on the flow alone. *)
Inductive table_step : FlowTable → FlowTable → Prop :=
| do_classify now p t : Packet_ok p → table_step t (FlowTable_classify CAPACITY now p t).2
| do_withdraw id t : table_step t (FlowTable_withdraw CAPACITY id t).2
| do_poll now t : table_step t (FlowTable_poll CAPACITY now t).2
| do_revisit (D : Type) (decide_flow : LiveFlow → D → Disposition * D) verdict from d t :
    (∀ f d, (decide_flow f d).1 = verdict f) →
    table_step t (FlowTable_revisit CAPACITY decide_flow from d t).2.

Definition reachable (t : FlowTable) : Prop := rtc table_step (FlowTable_new CAPACITY) t.

(** ** The invariant of a run *)
Definition lives (fl : list FlowEntry) : Prop := ∀ s e, fl !! s = Some e → fl_state e ≠ Vacant → life e.

Lemma life_erase e : life (erase e) ↔ life e.
Proof. split; intros []; by split. Qed.

(** ** Counters over a run *)
Lemma release_verdicts f slot t :
  (∀ c, same_verdicts c (f c)) → same_verdicts (counters t) (counters (count f (release slot t).2).2).
Proof. intros Hf. rewrite counters_count, (counters_release CAPACITY). apply Hf. Qed.

Lemma withdraw_verdicts id t : same_verdicts (counters t) (counters (FlowTable_withdraw CAPACITY id t).2).
Proof.
  rewrite (withdraw_eq CAPACITY). destruct (FlowTable_flow t id); [|apply same_verdicts_refl].
  apply release_verdicts. auto with verdicts.
Qed.

Lemma poll_loop_verdicts now start remaining step n t :
  same_verdicts (counters t) (counters (poll_loop CAPACITY now start remaining step n t).2).
Proof.
  revert step n t. induction remaining as [|remaining IH]; intros step n t; cbn [poll_loop];
    [apply same_verdicts_refl|].
  rewrite st_bind_read. destruct (match _ with Some _ => _ | None => _ end); [|apply IH].
  eapply same_verdicts_trans; [|apply IH]. apply release_verdicts. auto with verdicts.
Qed.

Lemma poll_verdicts now t : same_verdicts (counters t) (counters (FlowTable_poll CAPACITY now t).2).
Proof.
  pose proof (poll_loop_verdicts now (sweep_cursor t) (Nat.min SWEEP_STRIDE CAPACITY) 0 0 t) as H.
  unfold FlowTable_poll. rewrite st_bind_read.
  destruct (poll_loop _ _ _ _ _ _ _) as [n t1] eqn:Hrun. by rewrite (st_bind_run _ _ _ _ _ Hrun).
Qed.

Lemma revisit_chain_verdicts {D} (f : LiveFlow → D → Disposition * D) steps (slot : Z) acc t :
  same_verdicts (counters t) (counters (revisit_chain CAPACITY f steps slot acc t).2).
Proof.
  revert slot acc t. induction steps as [|steps IH]; intros slot acc t; cbn [revisit_chain];
    [apply same_verdicts_refl|].
  destruct (slot =? NO_SLOT); [apply same_verdicts_refl|]. rewrite st_bind_read.
  destruct (entries t !! Z.to_nat slot) as [e|]; [|apply same_verdicts_refl].
  destruct (FlowEntry_is_occupied e); [|apply IH]. destruct acc as [[ex rv] d].
  destruct (f _ d) as [[] d']; [apply IH|].
  eapply same_verdicts_trans; [|apply IH]. apply release_verdicts. auto with verdicts.
Qed.

Lemma revisit_loop_verdicts {D} (f : LiveFlow → D → Disposition * D) turns start bucket acc t :
  same_verdicts (counters t) (counters (revisit_loop CAPACITY f turns start bucket acc t).2).
Proof.
  revert bucket acc t. induction turns as [|turns IH]; intros bucket acc t; cbn [revisit_loop];
    [apply same_verdicts_refl|].
  destruct (_ || _ || _); [apply same_verdicts_refl|]. rewrite st_bind_read.
  pose proof (revisit_chain_verdicts f MAX_CHAIN (bucket_head t bucket) acc t) as H.
  destruct (revisit_chain _ _ _ _ _ _) as [acc1 t1] eqn:Hrun. rewrite (st_bind_run _ _ _ _ _ Hrun).
  eapply same_verdicts_trans; [exact H|apply IH].
Qed.

Lemma revisit_verdicts {D} (f : LiveFlow → D → Disposition * D) from d t :
  same_verdicts (counters t) (counters (FlowTable_revisit CAPACITY f from d t).2).
Proof.
  pose proof (revisit_loop_verdicts f CAPACITY (Nat.min from CAPACITY) (Nat.min from CAPACITY) (0%nat, 0%nat, d) t) as H.
  unfold FlowTable_revisit.
  destruct (revisit_loop _ _ _ _ _ _ _) as [[b [[ex rv] d']] t1] eqn:Hrun. by rewrite (st_bind_run _ _ _ _ _ Hrun).
Qed.

(** *** One step *)
(** Every packet the counters know of, one counter after another. *)
Definition verdict_counts (c : FlowCounters) : list Z :=
  (FlowCounters_classified c <$> [CNew; CEstablished; CRelated])
  ++ (FlowCounters_refused c <$> [RK_UnsupportedProtocol; RK_Fragment; RK_Malformed; RK_InvalidFlags;
        RK_MidStream; RK_InvalidState; RK_OutOfWindow; RK_NoSuchFlow; RK_QuotedInvalid; RK_UnsupportedIcmp;
        RK_TableFull; RK_BucketFull]).

Definition total (l : list Z) : Z := foldr Z.add 0 l.

Record conserved (c : FlowCounters) : Prop := {
  con_desync : internal_slot_desync c = 0;
  con_seen : 0 ≤ packets_seen c ≤ u64_max;
  con_counts : Forall (λ n, 0 ≤ n) (verdict_counts c);
  con_total : packets_seen c < u64_max → total (verdict_counts c) = packets_seen c
}.

Lemma total_app l k : total (l ++ k) = total l + total k.
Proof. induction l as [|x l IH]; simpl; [done|]. unfold total in *. lia. Qed.

Lemma total_nonneg l : Forall (λ n, 0 ≤ n) l → 0 ≤ total l.
Proof. induction 1; simpl; [done|]. unfold total in *. simpl. lia. Qed.

Lemma total_bounds l x : Forall (λ n, 0 ≤ n) l → x ∈ l → x ≤ total l.
Proof.
  intros Hl Hx. apply list_elem_of_split in Hx as (l1 & l2 & ->). rewrite total_app. cbn [total foldr].
  apply Forall_app in Hl as [H1%total_nonneg [_ H2%total_nonneg]%Forall_cons]. unfold total in *. lia.
Qed.

(** Folding counts whose true sum fits does not saturate. *)
Lemma foldl_saturating a l :
  0 ≤ a → Forall (λ n, 0 ≤ n) l → a + total l ≤ u64_max → foldl (saturating_add 64) a l = a + total l.
Proof.
  intros Ha Hl. revert a Ha. induction Hl as [|x l Hx Hl IH]; intros a Ha Hsum; simpl in *; [lia|].
  pose proof (total_nonneg l Hl). unfold total in *. rewrite IH; unfold_ints; lia.
Qed.

Lemma conserved_totals c :
  conserved c → packets_seen c < u64_max →
  FlowCounters_classified_total c + FlowCounters_refused_total c = packets_seen c.
Proof.
  intros [_ [_ Hseen] Hpos Htot] Hlt. specialize (Htot Hlt).
  unfold verdict_counts in *. rewrite total_app in Htot. apply Forall_app in Hpos as [H1 H2].
  pose proof (total_nonneg _ H1) as Hn1. pose proof (total_nonneg _ H2) as Hn2.
  unfold FlowCounters_classified_total, FlowCounters_refused_total. simpl in Htot, H1, H2, Hn1, Hn2.
  apply Forall_cons in H1 as [? H1]. apply Forall_cons in H2 as [? H2].
  rewrite !foldl_saturating; try done; simpl; lia.
Qed.

Lemma bump_small n : 0 ≤ n < u64_max → bump n = n + 1.
Proof. ints. Qed.

Lemma same_verdicts_conserved c c' : same_verdicts c c' → conserved c → conserved c'.
Proof.
  intros ([= Hs Hd] & Hc & Hr) [H1 H2 H3 H4].
  assert (verdict_counts c' = verdict_counts c) as Heq
    by (unfold verdict_counts; cbn [fmap list_fmap app]; by rewrite !Hc, !Hr).
  split; [congruence..| |]; rewrite Heq, ?Hs; done.
Qed.

(** A verdict adds one to the counts, where the packet was counted first. *)
Lemma outcome_conserved o c c' :
  conserved c → counts_outcome o (c <| packets_seen ::= bump |>) c' → conserved c'.
Proof.
  intros [Hd Hseen Hpos Htot] ([= Hs Hd'] & Hc & Hr).
  assert (Forall (λ n, 0 ≤ n) (verdict_counts c')) as Hpos'.
  { unfold verdict_counts in *. cbn [fmap list_fmap app] in *. rewrite !Hc, !Hr. clear Hc Hr.
    destruct o as [| | |r]; [..|destruct (Refusal_kind r)]; simpl in *;
      decompose_Forall; unfold_ints; lia. }
  split; [by rewrite Hd'|rewrite Hs; unfold_ints; lia|done|].
  rewrite Hs. intros Hlt. assert (packets_seen c < u64_max) as Hlt0 by (unfold_ints; lia).
  rewrite bump_small by lia. specialize (Htot Hlt0).
  assert (∀ n, n ∈ verdict_counts c → 0 ≤ n < u64_max) as Hb.
  { intros n Hn. split; [by eapply Forall_forall in Hpos|]. pose proof (total_bounds _ n Hpos Hn). lia. }
  rewrite <-Htot. unfold verdict_counts, total in *. cbn [fmap list_fmap app foldr] in *. rewrite !Hc, !Hr. clear Hc Hr Hpos Hpos' Htot.
  destruct o as [| | |r]; [..|destruct (Refusal_kind r)]; simpl;
    (rewrite bump_small; [lia|apply Hb; rewrite !elem_of_cons; tauto]).
Qed.

Record run_inv (t : FlowTable) : Prop := {
  run_wf : wf t;
  run_lives : lives (flows t);
  run_conserved : conserved (counters t)
}.

Lemma lives_keeps now fl fl' named :
  lives fl → (∀ s, named ≠ Some s → keeps now fl fl' s) →
  (∀ s e, named = Some s → fl' !! s = Some e → life e) → lives fl'.
Proof.
  intros Hl Hk Hn s e He Hv. destruct (decide (named = Some s)) as [Hs|Hs]; [by eapply Hn|].
  destruct (Hk s Hs) as [Heq|(e1 & e2 & _ & He2 & Hv2 & _)]; [|congruence].
  rewrite Heq in He. by eapply Hl.
Qed.

Lemma classified_lives now key ingress from_lower t o t' :
  classified CAPACITY now key ingress from_lower t o t' → lives (flows t) → lives (flows t').
Proof.
  intros [_ Hk _ Ho] Hl. eapply lives_keeps; [done|exact Hk|].
  intros s e Hs He. destruct o as [id st|id d prev st|id d|r]; simpl in Hs; try done; injection Hs as <-.
  - destruct Ho as (_ & _ & e' & (He' & _) & _ & _ & _ & Hop). rewrite He in He'. injection He' as ->.
    by apply life_erase, (life_opened now key ingress from_lower st).
  - destruct Ho as (e0 & e' & (He0 & Hv & _) & _ & _ & (He' & _) & _ & _ & _ & _ & Hstep).
    rewrite He in He'. injection He' as ->. apply life_erase. eapply life_step; [done|].
    apply life_erase. by eapply Hl.
Qed.

Lemma lives_pointwise fl fl' :
  lives fl → (∀ s e, fl' !! s = Some e → fl_state e = Vacant ∨ fl !! s = Some e) → lives fl'.
Proof. intros Hl H s e He Hv. destruct (H s e He) as [?|?]; [done|by eapply Hl]. Qed.

Lemma classify_inv now p t :
  Packet_ok p → run_inv t → run_inv (FlowTable_classify CAPACITY now p t).2.
Proof.
  intros Hp [Hwf Hl Hc]. pose proof (classify_spec CAPACITY now p t Hwf Hp) as Hpost. unfold classify_post in Hpost.
  destruct (packet_key p) as [[key fl]|].
  - split; [apply Hpost|by eapply classified_lives|]. eapply outcome_conserved; [done|apply Hpost].
  - destruct Hpost as (_ & Hwf' & Hfl & Hcount). split; [done|by rewrite Hfl|by eapply outcome_conserved].
Qed.

Lemma step_inv t t' : table_step t t' → run_inv t → run_inv t'.
Proof.
  intros [now p t0 Hp|id t0|now t0|D f verdict from d t0 Hf] Hinv; [by apply classify_inv|..];
    destruct Hinv as [Hwf Hl Hc].
  - destruct (withdraw_spec CAPACITY id t0 Hwf) as [Hwf' Hfl].
    split; [done| |eapply same_verdicts_conserved; [apply withdraw_verdicts|done]].
    rewrite Hfl. destruct (FlowTable_withdraw _ _ _).1; [|done]. apply (lives_pointwise _ _ Hl).
    intros s e. rewrite list_lookup_alter. case_decide as Heq; [subst s|intros; by right].
    destruct (flows t0 !! Z.to_nat (id_slot id)); [|done]. intros [= <-]. by left.
  - destruct (poll_spec CAPACITY now t0 Hwf) as (Hwf' & _ & Hfl).
    split; [done| |eapply same_verdicts_conserved; [apply poll_verdicts|done]].
    apply (lives_pointwise _ _ Hl). intros s e. rewrite Hfl. case_decide; [|intros; by right].
    destruct (flows t0 !! s) as [e0|]; intros [= <-]. unfold reap. destruct (has_expired e0 now); [by left|by right].
  - destruct (revisit_spec CAPACITY f verdict Hf from d t0 Hwf) as (Hwf' & _ & _ & _ & _ & Hfl).
    split; [done| |eapply same_verdicts_conserved; [apply revisit_verdicts|done]].
    apply (lives_pointwise _ _ Hl). intros s e. rewrite Hfl.
    destruct (flows t0 !! s) as [e0|]; intros [= <-]. unfold revised, revise.
    destruct (_ && _); [|by right]. destruct (verdict _); [by right|by left].
Qed.

Lemma new_inv : run_inv (FlowTable_new CAPACITY).
Proof.
  unfold FlowTable_new. set (blank := {| entries := replicate CAPACITY FlowEntry_VACANT |}).
  destruct (initialise_wf CAPACITY blank) as (Hwf & Hct & Hvac); [apply length_replicate..|].
  split; [exact Hwf| |rewrite Hct].
  - intros s e He Hv. by destruct Hv; eapply Hvac.
  - split; [done|done| |done]. repeat constructor; done.
Qed.

Lemma reachable_inv t : reachable t → run_inv t.
Proof.
  intros Hr. unfold reachable in Hr. remember (FlowTable_new CAPACITY) as t0 eqn:Ht0.
  assert (run_inv t0) as Hinv by (subst; apply new_inv). clear Ht0.
  induction Hr as [|x y z Hstep _ IH]; [done|]. apply IH. by eapply step_inv.
Qed.

(** ** Reading the entries back from the flows *)
Lemma entry_flow t s e : entries t !! s = Some e → flows t !! s = Some (erase e).
Proof. rewrite lookup_flows. by intros ->. Qed.

Lemma live_life t s e : run_inv t → entries t !! s = Some e → fl_state e ≠ Vacant → life e.
Proof. intros [_ Hl _] He Hv. apply life_erase. eapply Hl; [by apply entry_flow|done]. Qed.

Lemma assured_occupied st : FlowState_is_assured st = true → st ≠ Vacant.
Proof. by destruct st. Qed.

Lemma live_not_reclaimable now e :
  has_expired e now = false → FlowState_is_assured (fl_state e) = true → ¬ reclaimable now e.
Proof. intros Hx Ha [Hv|[Hr|Hr]]; [by rewrite Hv in Ha|congruence..]. Qed.

Lemma keeps_live now fl fl' s e :
  keeps now fl fl' s → fl !! s = Some e → has_expired e now = false →
  FlowState_is_assured (fl_state e) = true → fl' !! s = Some e.
Proof.
  intros [->|(e1 & e2 & He1 & _ & _ & Hr)] He Hx Ha; [done|].
  rewrite He in He1. injection He1 as <-. by apply live_not_reclaimable in Hr.
Qed.

(** The packet's outcome in the table's own terms, whether or not it names a flow. *)
Lemma classify_cases now p t :
  Packet_ok p → wf t →
  let o := (FlowTable_classify CAPACITY now p t).1 in
  let t' := (FlowTable_classify CAPACITY now p t).2 in
  (∃ key from_lower, packet_key p = Some (key, from_lower)
     ∧ classified CAPACITY now key (pk_ingress p) from_lower (t <| counters ::= λ c, c <| packets_seen ::= bump |> |>) o t')
  ∨ ((∃ r, o = ORefused r) ∧ flows t' = flows t ∧ packet_key p = None).
Proof.
  intros Hp Hwf o t'. pose proof (classify_spec CAPACITY now p t Hwf Hp) as Hpost. unfold classify_post in Hpost.
  destruct (packet_key p) as [[key fl]|]; [left; by exists key, fl|]. right. by destruct Hpost as (? & _ & ? & _).
Qed.

(** ** The theorems *)

(** C4. Whatever packets, withdrawals, sweeps and revisits a table has been through,
    its representation is intact: the free list is exactly the vacant slots, each
    bucket's chain is exactly the flows hashing there and no longer than the bound
    every walk is cut at, no two flows share a key, each per-state count is the
    number of flows in that state, and both cursors stay inside the array. *)
Theorem reachable_wf t : reachable t → wf t.
Proof. intros Hr. apply (reachable_inv t Hr). Qed.

(** A flow is exempt from eviction only once its answerer has spoken: in every
    reachable table both directions of an assured flow have carried a packet, and
    both directions of an assured TCP flow have sent a SYN, so a flood of unanswered
    openings can never hold a slot against a new flow. *)
Theorem assured_flow_answered t s e :
  reachable t → entries t !! s = Some e → FlowState_is_assured (fl_state e) = true →
  both DirectionState_spoken e ∧ (synchronised (fl_state e) = true → both DirectionState_seen_syn e).
Proof.
  intros Hr He Ha. pose proof (live_life t s e (reachable_inv t Hr) He (assured_occupied _ Ha)) as [Hl Hu _ Hst].
  destruct Hl as (Hl & _), Hu as (Hu & _). unfold both in *.
  destruct (fl_state e); try done; split; try tauto; done.
Qed.

(** A tracked TCP flow past the handshake is in the state its FINs say: both
    SYNs were seen, and it is Established, FinWait, CloseWait, Closing or TimeWait
    according to which directions have sent a FIN and which FINs are acknowledged. *)
Theorem tcp_state_is_closing_facts t s e :
  reachable t → entries t !! s = Some e → synchronised (fl_state e) = true →
  both DirectionState_seen_syn e ∧ fl_state e = closed_state (FlowEntry_closing_facts e)
  ∧ (DirectionState_fin_acknowledged (lower e) = true → DirectionState_seen_fin (lower e) = true)
  ∧ (DirectionState_fin_acknowledged (upper e) = true → DirectionState_seen_fin (upper e) = true).
Proof.
  intros Hr He Hs.
  pose proof (live_life t s e (reachable_inv t Hr) He ltac:(by intros E; rewrite E in Hs)) as [Hl Hu _ Hst].
  destruct Hl as (_ & _ & Hl), Hu as (_ & _ & Hu). destruct (fl_state e); try done; tauto.
Qed.

(** C5. No packet displaces a live assured flow: after any classification its slot
    holds it untouched, or holds the same flow (same key, same generation) advanced
    by the very packet that was classified onto it. *)
Theorem assured_flow_never_displaced now p t s e :
  reachable t → Packet_ok p → entries t !! s = Some e →
  FlowState_is_assured (fl_state e) = true → has_expired e now = false →
  ∃ e', entries (FlowTable_classify CAPACITY now p t).2 !! s = Some e'
    ∧ (erase e' = erase e
       ∨ entry_key e' = entry_key e ∧ generation e' = generation e ∧ last_seen e' = now
         ∧ ∃ id d st, (FlowTable_classify CAPACITY now p t).1 = OEstablished id d (fl_state e) st
                      ∧ Z.to_nat (id_slot id) = s ∧ fl_state e' = st).
Proof.
  intros Hr Hp He Ha Hx. pose proof (reachable_inv t Hr) as [Hwf _ _].
  set (t' := (FlowTable_classify CAPACITY now p t).2).
  assert (∀ e1, flows t' !! s = Some e1 → ∃ e', entries t' !! s = Some e' ∧ erase e' = e1) as Hback
    by (intros e1 He1; destruct (flows_lookup_Some _ _ _ He1) as (e' & ? & ?); by exists e').
  pose proof (entry_flow t s e He) as Hfe.
  destruct (classify_cases now p t Hp Hwf) as [(key & fl & _ & [_ Hk _ Ho])|(_ & Hfl & _)].
  2:{ destruct (Hback (erase e)) as (e' & ? & ?); [unfold t'; by rewrite Hfl|]. exists e'. by eauto. }
  fold t' in Hk, Ho. destruct (decide (outcome_slot (FlowTable_classify CAPACITY now p t).1 = Some s)) as [Hs|Hs].
  2:{ pose proof (keeps_live now _ _ s (erase e) (Hk s Hs) Hfe Hx Ha) as He'.
      destruct (Hback _ He') as (e' & ? & ?). exists e'. by eauto. }
  destruct (FlowTable_classify CAPACITY now p t).1 as [id st|id d prev st|id d|r]; try done;
    simpl in Hs; injection Hs as Hs; rewrite Hs in Ho.
  - destruct Ho as (_ & (e0 & He0 & Hrec) & _). change (flows t !! s = Some e0) in He0.
    rewrite Hfe in He0. injection He0 as <-. by apply live_not_reclaimable in Hrec.
  - destruct Ho as (e0 & e1 & (He0 & _ & Hk0) & _ & Hprev & (He1 & _ & Hk1) & _ & Hst & Hseen & Hgen & _).
    change (flows t !! s = Some (erase e0)) in He0. rewrite Hfe in He0. apply (inj Some) in He0.
    destruct (Hback _ He1) as (e' & He' & Heq). exists e'. split; [done|]. right.
    pose proof (f_equal generation He0) as Hg0. pose proof (f_equal entry_key He0) as Hkk0.
    pose proof (f_equal fl_state He0) as Hs0.
    pose proof (f_equal generation Heq) as Hg1. pose proof (f_equal entry_key Heq) as Hkk1.
    pose proof (f_equal last_seen Heq) as Hl1. pose proof (f_equal fl_state Heq) as Hs1. simpl in *.
    change (entry_key (erase e)) with (entry_key e) in *. change (entry_key (erase e')) with (entry_key e') in *.
    split_all; [congruence..|]. exists id, d, st. split_all; congruence.
Qed.

(** A flow of [key] that has not expired. *)
Definition live (now : Monotonic) (t : FlowTable) (key : FlowKey) (id : FlowId) (e : FlowEntry) : Prop :=
  FlowTable_flow t id = Some e ∧ entry_key e = key ∧ has_expired e now = false.

Lemma held_flow t key id e0 :
  held (flows t) key (Z.to_nat (id_slot id)) (erase e0) → generation e0 = id_generation id →
  ∃ e, FlowTable_flow t id = Some e ∧ erase e = erase e0 ∧ entry_key e = key.
Proof.
  intros (He & Hv & Hk) Hg. destruct (flows_lookup_Some _ _ _ He) as (e & He' & Heq).
  exists e. split; [|split; [done|by rewrite <-Hk, <-Heq]]. apply flow_held. split; [done|].
  pose proof (f_equal fl_state Heq) as H1. pose proof (f_equal generation Heq) as H2. simpl in *.
  split; [by rewrite H1|by rewrite H2].
Qed.

Lemma flow_of_held t key id e :
  FlowTable_flow t id = Some e → entry_key e = key →
  held (flows t) key (Z.to_nat (id_slot id)) (erase e).
Proof. intros (He & Hv & _)%flow_held Hk. split; [by apply entry_flow|]. by split. Qed.

(** C6. A verdict says what the table holds. A packet is New only when no live flow
    had its key, and the handle then names a flow with that key in the state
    reported; Established only when a live flow with its key was there, which the
    same handle still names, moved from the state reported to the state reported; an
    ICMP error is Related only to a live flow with the key it quotes. *)
Theorem classification_sound now p t :
  reachable t → Packet_ok p →
  let t' := (FlowTable_classify CAPACITY now p t).2 in
  match (FlowTable_classify CAPACITY now p t).1 with
  | ONew id st => ∃ key d, packet_key p = Some (key, d)
      ∧ (∀ id0 e0, ¬ live now t key id0 e0)
      ∧ ∃ e', FlowTable_flow t' id = Some e' ∧ entry_key e' = key ∧ fl_state e' = st ∧ last_seen e' = now
  | OEstablished id _ previous st => ∃ key d e e', packet_key p = Some (key, d)
      ∧ live now t key id e ∧ fl_state e = previous
      ∧ FlowTable_flow t' id = Some e' ∧ entry_key e' = key ∧ fl_state e' = st ∧ last_seen e' = now
  | ORelated id _ => ∃ key d e, packet_key p = Some (key, d) ∧ live now t key id e ∧ flows t' = flows t
  | ORefused _ => ∀ key id e, live now t' key id e → ∃ e0, live now t key id e0 ∧ erase e0 = erase e
  end.
Proof.
  intros Hr Hp t'. pose proof (reachable_inv t Hr) as [Hwf _ _].
  destruct (classify_cases now p t Hp Hwf) as [(key & d & Hkey & [Hwf' Hk _ Ho])|([r ->] & Hfl & _)].
  2:{ intros key id e (Hf & Hke & Hx). pose proof (flow_of_held _ _ _ _ Hf Hke) as Hh. unfold t' in Hh.
      rewrite Hfl in Hh. apply flow_held in Hf as (_ & _ & Hg).
      destruct (held_flow t key id e Hh Hg) as (e0 & Hf0 & Heq & Hke0). exists e0. split; [|done].
      split; [done|]. split; [done|]. by rewrite <-has_expired_erase, Heq. }
  fold t' in Hwf', Hk, Ho. destruct (FlowTable_classify CAPACITY now p t).1 as [id st|id dd prev st|id dd|r].
  - destruct Ho as (Hexp & _ & e1 & Hh & Hg & Hst & Hseen & _). exists key, d. split; [done|]. split.
    + intros id0 e0 (Hf & Hke & Hx). apply (flow_of_held _ key) in Hf; [|done]. apply Hexp in Hf.
      by rewrite has_expired_erase, Hx in Hf.
    + destruct (held_flow t' key id e1 Hh Hg) as (e' & Hf & Heq & Hke). exists e'.
      pose proof (f_equal fl_state Heq). pose proof (f_equal last_seen Heq). simpl in *. split_all; congruence.
  - destruct Ho as (e0 & e1 & Hh0 & Hx & Hprev & Hh1 & Hg & Hst & Hseen & Hgen & _).
    destruct (held_flow t key id e0 Hh0 ltac:(congruence)) as (e & Hf & Heq & Hke).
    destruct (held_flow t' key id e1 Hh1 Hg) as (e' & Hf' & Heq' & Hke').
    exists key, d, e, e'. pose proof (f_equal fl_state Heq). pose proof (f_equal fl_state Heq').
    pose proof (f_equal last_seen Heq'). simpl in *. split_all; try congruence.
    split; [done|]. split; [done|]. by rewrite <-has_expired_erase, Heq.
  - destruct Ho as (e0 & Hh0 & Hx & Hg & Hfl). change (held (flows t) key (Z.to_nat (id_slot id)) e0) in Hh0.
    assert (held (flows t) key (Z.to_nat (id_slot id)) (erase e0)) as Hh1.
    { destruct Hh0 as (He & Hv & Hke). destruct (flows_lookup_Some _ _ _ He) as (e2 & _ & <-). done. }
    destruct (held_flow t key id e0 Hh1 Hg) as (e & Hf & Heq & Hke). exists key, d, e. split_all; [done| |done].
    split; [done|]. split; [done|]. by rewrite <-has_expired_erase, Heq.
  - intros key' id e (Hf & Hke & Hx). pose proof (flow_of_held _ _ _ _ Hf Hke) as (Hs & Hv & _).
    apply flow_held in Hf as (_ & _ & Hg).
    destruct (Hk (Z.to_nat (id_slot id)) ltac:(done)) as [Heq|(e1 & e2 & _ & He2 & Hv2 & _)]; [|congruence].
    change (flows t' !! Z.to_nat (id_slot id) = flows t !! Z.to_nat (id_slot id)) in Heq. rewrite Heq in Hs.
    destruct (held_flow t key' id e) as (e0 & Hf0 & He0 & Hke0); [by split_all|done|].
    exists e0. split; [|done]. split; [done|]. split; [done|]. by rewrite <-has_expired_erase, He0.
Qed.

(** Every packet is counted once: until the packet counter saturates, the
    packets classified and the packets refused add up to the packets seen, and the
    counter of the table disagreeing with itself has never moved. *)
Theorem counters_conserved t :
  reachable t →
  internal_slot_desync (counters t) = 0
  ∧ (packets_seen (counters t) < u64_max →
     FlowCounters_classified_total (counters t) + FlowCounters_refused_total (counters t)
     = packets_seen (counters t)).
Proof.
  intros Hr. pose proof (reachable_inv t Hr) as [_ _ Hc]. split; [apply Hc|by apply conserved_totals].
Qed.

(** The occupancy reading is exact: per state it is the number of entries in
    that state, and [len] is the number of entries not vacant. *)
Theorem occupancy_exact t :
  reachable t →
  (∀ st, Occupancy_get (occupancy t) st = Z.of_nat (length (filter (λ e, fl_state e = st) (entries t))))
  ∧ FlowTable_len t = Z.of_nat (length (filter (λ e, fl_state e ≠ Vacant) (entries t))).
Proof.
  intros Hr. pose proof (reachable_inv t Hr) as [Hwf _ _].
  assert (∀ st, count_state st (flows t) = length (filter (λ e, fl_state e = st) (entries t))) as Hcs.
  { intros st. unfold count_state, flows. induction (entries t) as [|e es IH]; [done|].
    rewrite fmap_cons, !filter_cons. change (fl_state (erase e)) with (fl_state e).
    case_decide; simpl; by rewrite IH. }
  split.
  - intros st. unfold Occupancy_get. by rewrite (wf_occupancy _ _ _ (wf_f _ _ _ Hwf)), <-Hcs.
  - rewrite (len_exact CAPACITY None t Hwf), Hcs, <-(wf_entries_length _ _ _ (wf_l _ _ _ Hwf)).
    pose proof (Permutation_length (filter_app_complement (λ e, fl_state e = Vacant) (entries t))) as Hsum.
    rewrite length_app in Hsum. lia.
Qed.

(** *** Lookup against a scan of the whole array *)
Definition answers (now : Monotonic) (key : FlowKey) (e : FlowEntry) : Prop :=
  fl_state e ≠ Vacant ∧ entry_key e = key ∧ has_expired e now = false.
#[global] Instance answers_dec now key e : Decision (answers now key e).
Proof. unfold answers. apply _. Defined.

Definition scan (now : Monotonic) (key : FlowKey) (es : list FlowEntry) : option nat :=
  fst <$> list_find (answers now key) es.

(** The bucket walk, cut at its bound and dropping an expired flow on the way,
    finds what a scan of every entry for a live flow with the key would find. *)
Theorem find_is_scan now key t :
  reachable t → (FlowTable_find CAPACITY now key t).1 = scan now key (entries t).
Proof.
  intros Hr. pose proof (reachable_inv t Hr) as [Hwf _ _].
  destruct (find_spec CAPACITY now key t Hwf) as [_ _ _ Ha]. unfold scan.
  destruct (FlowTable_find CAPACITY now key t).1 as [s|].
  - destruct Ha as (_ & e & Hh & Hx). pose proof Hh as (He & Hv & Hk).
    destruct (flows_lookup_Some _ _ _ He) as (e0 & He0 & <-).
    rewrite (proj2 (list_find_Some (answers now key) (entries t) s e0)); [done|].
    split_all; [done|done|]. intros j y Hj Hlt (Hvy & Hky & _).
    destruct (held_unique CAPACITY t key j s (erase y) (erase e0)) as [-> _]; [done| |done|lia].
    split; [by apply entry_flow|done].
  - destruct Ha as [Ha _]. rewrite (proj2 (list_find_None (answers now key) (entries t))); [done|].
    apply Forall_forall. intros e (s & He)%list_elem_of_lookup (Hv & Hk & Hx).
    assert (has_expired (erase e) now = true) as Hx' by (apply (Ha s); split; [by apply entry_flow|done]).
    by rewrite has_expired_erase, Hx in Hx'.
Qed.

(** *** Running out of room *)
Lemma masked_cursor (c : Z) (i : nat) :
  0 ≤ c < Z.of_nat CAPACITY → (i ≤ SWEEP_STRIDE)%nat →
  masked CAPACITY (wrapping_add 64 c (Z.of_nat i)) = ((Z.to_nat c + i) mod CAPACITY)%nat.
Proof.
  intros Hc Hi. rewrite <-(Z2Nat.id c) at 1 by lia. apply masked_step; [done|lia|done].
Qed.

(** A slot is taken only from a flow that may go: what a new flow displaces was
    vacant, expired or unassured. A new flow is refused for want of room only when
    no slot is vacant and each of the entries the bounded scan visits, from the
    eviction cursor on, is a live assured flow. *)
Theorem take_slot_policy now t :
  reachable t →
  match (FlowTable_take_slot CAPACITY now t).1 with
  | Ok slot => ∃ e, entries t !! slot = Some e ∧ reclaimable now e
  | Err r => r = RTableFull
      ∧ (∀ s e, entries t !! s = Some e → fl_state e ≠ Vacant)
      ∧ ∀ i e, (i < Nat.min EVICTION_SCAN CAPACITY)%nat →
          entries t !! ((Z.to_nat (evict_cursor t) + i) mod CAPACITY)%nat = Some e →
          has_expired e now = false ∧ FlowState_is_assured (fl_state e) = true
  end.
Proof.
  intros Hr. pose proof (reachable_inv t Hr) as [Hwf _ _].
  destruct (take_slot_spec CAPACITY now t Hwf) as [Hk _ Ha].
  destruct (FlowTable_take_slot CAPACITY now t).1 as [slot|r].
  - destruct Ha as (_ & e & He & Hv). destruct (keeps_vacant now _ _ slot e (Hk slot) He Hv) as (e1 & He1 & Hrec).
    destruct (flows_lookup_Some _ _ _ He1) as (e0 & He0 & <-). by exists e0.
  - destruct Ha as (_ & -> & _ & Hfull & Hscan). split; [done|]. split.
    + intros s e He. apply (Hfull s (erase e)). by apply entry_flow.
    + intros i e Hi He. apply (Hscan i Hi (erase e)).
      rewrite masked_cursor; [by apply entry_flow|apply (wf_evict _ _ _ Hwf)|].
      unfold EVICTION_SCAN, SWEEP_STRIDE in *. lia.
Qed.

(** *** Taking an opening back *)

Lemma withdraw_opening now p t id st t1 :
  wf t → Packet_ok p → FlowTable_classify CAPACITY now p t = (ONew id st, t1) →
  let t2 := (FlowTable_withdraw CAPACITY id t1).2 in
  (FlowTable_withdraw CAPACITY id t1).1 = true
  ∧ FlowTable_flow t2 id = None
  ∧ (∀ key d, packet_key p = Some (key, d) → ∀ id0 e0, ¬ live now t2 key id0 e0)
  ∧ ∀ s, keeps now (flows t) (flows t2) s.
Proof.
  intros Hwf Hp Hrun t2.
  pose proof (classify_cases now p t Hp Hwf) as Hcl. rewrite Hrun in Hcl. cbn [fst snd] in Hcl.
  destruct Hcl as [(key & d & Hkey & [Hwf1 Hk _ (_ & (e0 & He0 & Hrec) & e1 & Hh & Hg & _)])|([r ?] & _)]; [|done].
  change (flows (t <| counters ::= _ |>)) with (flows t) in *. cbn [outcome_slot] in Hk.
  destruct (held_flow t1 key id e1 Hh Hg) as (e & Hf & Heq & Hke).
  assert ((FlowTable_withdraw CAPACITY id t1).1 = true) as Htrue by (rewrite (withdraw_eq CAPACITY), Hf; done).
  destruct (withdraw_spec CAPACITY id t1 Hwf1) as [Hwf2 Hfl]. fold t2 in Hwf2, Hfl. rewrite Htrue in Hfl.
  set (slot := Z.to_nat (id_slot id)) in *.
  assert (flows t2 !! slot = Some (closed (erase e1))) as Hslot
    by (rewrite Hfl, list_lookup_alter_eq; destruct Hh as (-> & _); done).
  split_all; [done| |..].
  - destruct (FlowTable_flow t2 id) as [e'|] eqn:Hf2; [|done].
    apply flow_held in Hf2 as (He' & Hv' & _). fold slot in He'. apply entry_flow in He'.
    rewrite Hslot in He'. apply (inj Some), (f_equal fl_state) in He'. by destruct Hv'.
  - intros key' d' Hkey' id0 e' (Hf' & Hke' & _). rewrite Hkey in Hkey'. injection Hkey' as <- <-.
    apply (flow_of_held _ _ _ _ Hf') in Hke' as (He' & Hv' & Hk'). rewrite Hfl, list_lookup_alter in He'.
    case_decide as Hs.
    + destruct Hh as (Hh & _). rewrite Hh in He'. apply (inj Some), (f_equal fl_state) in He'. by destruct Hv'.
    + destruct Hs. by destruct (held_unique CAPACITY t1 key slot (Z.to_nat (id_slot id0)) (erase e1) (erase e')) as [? _].
  - intros s. destruct (decide (s = slot)) as [->|Hne].
    + right. exists e0, (closed (erase e1)). done.
    + unfold keeps. rewrite Hfl, list_lookup_alter_ne by done. apply Hk. congruence.
Qed.

(** Withdrawing the flow a packet opened leaves nothing of it: the handle is
    accepted and then dead, no live flow has the packet's key, and every slot holds
    what it held before the packet came, or lost a flow that was reclaimable. *)
Theorem withdraw_undoes_opening now p t id st t1 :
  reachable t → Packet_ok p → FlowTable_classify CAPACITY now p t = (ONew id st, t1) →
  let t2 := (FlowTable_withdraw CAPACITY id t1).2 in
  (FlowTable_withdraw CAPACITY id t1).1 = true
  ∧ FlowTable_flow t2 id = None
  ∧ (∀ key d, packet_key p = Some (key, d) → ∀ id0 e0, ¬ live now t2 key id0 e0)
  ∧ ∀ s, keeps now (flows t) (flows t2) s.
Proof. intros Hr. apply withdraw_opening. apply (reachable_inv t Hr). Qed.

(** *** The sweep and the revisiting pass *)

(** A full turn of sweeps at one instant reclaims exactly the expired flows: as
    many calls as cover the array leave no expired flow, and leave every unexpired
    one untouched. *)
Theorem sweep_cycle_reaps now n t :
  reachable t → (CAPACITY ≤ n * Nat.min SWEEP_STRIDE CAPACITY)%nat →
  (∀ s e', entries (polls CAPACITY now n t) !! s = Some e' → has_expired e' now = false)
  ∧ (∀ s e, entries t !! s = Some e → has_expired e now = false →
      ∃ e', entries (polls CAPACITY now n t) !! s = Some e' ∧ erase e' = erase e).
Proof.
  intros Hr Hn. pose proof (reachable_inv t Hr) as [Hwf _ _]. pose proof (capacity_pos CAPACITY) as Hpos.
  destruct (polls_spec CAPACITY now n t Hwf) as (Hwf' & _ & Hfl & Hreap).
  set (t' := polls CAPACITY now n t) in *. split.
  - intros s e' He'. pose proof (lookup_lt_Some _ _ _ He') as Hlt.
    rewrite (wf_entries_length _ _ _ (wf_l _ _ _ Hwf')) in Hlt.
    pose proof (wf_sweep _ _ _ Hwf) as Hsw. set (c := Z.to_nat (sweep_cursor t)) in *.
    assert (∃ i, (i < CAPACITY)%nat ∧ ((c + i) mod CAPACITY)%nat = s) as (i & Hi & Hs).
    { destruct (decide (c ≤ s)%nat).
      - exists (s - c)%nat. split; [lia|]. replace (c + (s - c))%nat with s by lia. by apply Nat.mod_small.
      - exists (CAPACITY + s - c)%nat. split; [lia|].
        replace (c + (CAPACITY + s - c))%nat with (s + 1 * CAPACITY)%nat by lia.
        rewrite Nat.Div0.mod_add. by apply Nat.mod_small. }
    specialize (Hreap i ltac:(unfold stride; lia)). cbv zeta in Hreap. rewrite Hs in Hreap.
    apply entry_flow in He'. rewrite He' in Hreap. destruct (flows t !! s) as [e|]; [|done].
    apply (inj Some) in Hreap. rewrite <-has_expired_erase, Hreap. unfold reap.
    by destruct (has_expired e now) eqn:Hx.
  - intros s e He Hx. apply entry_flow in He.
    assert (flows t' !! s = Some (erase e)) as He'.
    { destruct (Hfl s) as [-> | ->]; [done|]. rewrite He. simpl. unfold reap. by rewrite has_expired_erase, Hx. }
    destruct (flows_lookup_Some _ _ _ He') as (e' & ? & ?). by exists e'.
Qed.

(** The caller's loop: revisit from where the last call stopped, until complete. *)
Fixpoint revisit_all {D} (decide_flow : LiveFlow → D → Disposition * D) (calls : nat) (from : nat) (d : D)
    (t : FlowTable) : bool * FlowTable :=
  match calls with
  | O => (false, t)
  | S calls =>
      let '(r, d', t') := FlowTable_revisit CAPACITY decide_flow from d t in
      if rv_complete r then (true, t') else revisit_all decide_flow calls (rv_next r) d' t'
  end.

Lemma revisit_all_spec {D} (decide_flow : LiveFlow → D → Disposition * D) verdict calls from d t :
  (∀ f d, (decide_flow f d).1 = verdict f) → wf t → (from < CAPACITY)%nat → (CAPACITY - from ≤ calls)%nat →
  (revisit_all decide_flow calls from d t).1 = true
  ∧ ∀ s, flows (revisit_all decide_flow calls from d t).2 !! s
         = revised CAPACITY verdict from CAPACITY s <$> flows t !! s.
Proof.
  intros Hf. revert from d t. induction calls as [|calls IH]; intros from d t Hwf Hfrom Hcalls; [lia|].
  cbn [revisit_all]. destruct (revisit_spec CAPACITY decide_flow verdict Hf from d t Hwf)
    as (Hwf1 & Hnext & Hprogress & _ & Hcomplete & Hfl).
  destruct (FlowTable_revisit CAPACITY decide_flow from d t) as [[r d'] t']. cbn [fst snd] in *.
  rewrite Nat.min_l in * by lia. specialize (Hprogress Hfrom).
  destruct (rv_complete r) eqn:Hc.
  - destruct Hcomplete as [Heq _]. rewrite (Heq eq_refl) in Hfl. done.
  - assert (rv_next r ≠ CAPACITY) by (intros E; apply Hcomplete in E; done).
    destruct (IH (rv_next r) d' t' Hwf1) as [Hdone Hfl2]; [lia|lia|]. split; [done|].
    intros s. rewrite Hfl2, Hfl. destruct (flows t !! s) as [e|]; [|done]. simpl. f_equal.
    apply (revised_split CAPACITY decide_flow verdict Hf). lia.
Qed.

(** Revisiting to the end puts every flow to the caller exactly by its verdict:
    at most one call per bucket completes the pass, every flow the verdict revokes
    is gone and every other entry is untouched, whatever the closure accumulates. *)
Theorem revisit_pass_revokes {D} (decide_flow : LiveFlow → D → Disposition * D) verdict d t :
  reachable t → (∀ f d, (decide_flow f d).1 = verdict f) →
  (revisit_all decide_flow CAPACITY 0 d t).1 = true
  ∧ ∀ s e, entries t !! s = Some e →
      ∃ e', entries (revisit_all decide_flow CAPACITY 0 d t).2 !! s = Some e'
        ∧ match FlowEntry_is_occupied e, verdict (live_flow (Z.of_nat s) e) with
          | true, Revoke => fl_state e' = Vacant
          | _, _ => erase e' = erase e
          end.
Proof.
  intros Hr Hf. pose proof (reachable_inv t Hr) as [Hwf _ _]. pose proof (capacity_pos CAPACITY) as Hpos.
  destruct (revisit_all_spec decide_flow verdict CAPACITY 0 d t Hf Hwf Hpos) as [Hdone Hfl]; [lia|].
  split; [done|]. intros s e He. specialize (Hfl s). rewrite (entry_flow _ _ _ He) in Hfl.
  destruct (flows_lookup_Some _ _ _ Hfl) as (e' & He' & Heq). exists e'. split; [done|].
  unfold revised in Heq. change (FlowEntry_is_occupied (erase e)) with (FlowEntry_is_occupied e) in Heq.
  destruct (FlowEntry_is_occupied e); [|done]. simpl in *.
  rewrite (proj2 (Nat.ltb_lt _ _) (bucket_of_lt CAPACITY _)) in Heq. unfold revise in Heq.
  change (live_flow (Z.of_nat s) (erase e)) with (live_flow (Z.of_nat s) e) in Heq.
  destruct (verdict (live_flow (Z.of_nat s) e)); simpl; [done|]. by apply (f_equal fl_state) in Heq.
Qed.

End theorems.
