(* ===== verification/FlowTableExamples.v ===== *)
(** * The connection table: concrete runs

    A four-slot table that has seen a question and its answer over UDP and a TCP
    handshake, and each theorem of [FlowTableTheorems] applied to it. *)
From S2P Require Import Prelude NetHeaders Clock SeqNumber FlowKey FlowEntry FlowTcp FlowIcmp FlowTable FlowTableInv FlowTableOps FlowTableSpec FlowLife FlowTableRun FlowTableTheorems.

#[export] Instance layout_4 : Layout 4.
Proof. split; [by exists 2%nat|done]. Qed.

Definition udp_packet (source source_port destination destination_port : Z) : Packet :=
  {| pk_ingress := 0; pk_source := source; pk_destination := destination;
     pk_transport := Udp {| udp_source_port := source_port; udp_destination_port := destination_port;
                            udp_length := 8; udp_checksum := 0 |};
     transport_bytes := replicate 8 0 |}.

(** A bare header of twenty bytes; the table reads ports, flags and numbers from the
    parsed form. *)
Definition tcp_packet (source source_port destination destination_port seq ack flags window : Z) : Packet :=
  {| pk_ingress := 0; pk_source := source; pk_destination := destination;
     pk_transport := Tcp {| tcp_source_port := source_port; tcp_destination_port := destination_port;
                            tcp_sequence := seq; tcp_acknowledgement := ack; data_offset := 5;
                            tcp_flags := flags; tcp_window := window; tcp_checksum := 0;
                            urgent_pointer := 0 |};
     transport_bytes := replicate 20 0 |}.

Definition question : Packet := udp_packet 10 5000 20 53.
Definition answer : Packet := udp_packet 20 53 10 5000.
Definition syn : Packet := tcp_packet 10 4000 20 80 100 0 2 1000.
Definition syn_ack : Packet := tcp_packet 20 80 10 4000 500 101 18 1000.
Definition ack : Packet := tcp_packet 10 4000 20 80 101 501 16 1000.

Definition receive (p : Packet) (t : FlowTable) : FlowTable := (FlowTable_classify 4 0 p t).2.
Definition after_answer : FlowTable := receive answer (receive question (FlowTable_new 4)).
Definition after_handshake : FlowTable := receive ack (receive syn_ack (receive syn after_answer)).

Lemma question_ok : Packet_ok question.
Proof. repeat split; try done. repeat constructor; done. Qed.
Lemma answer_ok : Packet_ok answer.
Proof. repeat split; try done. repeat constructor; done. Qed.
Lemma syn_ok : Packet_ok syn.
Proof. repeat split; try done. repeat constructor; done. Qed.
Lemma syn_ack_ok : Packet_ok syn_ack.
Proof. repeat split; try done. repeat constructor; done. Qed.
Lemma ack_ok : Packet_ok ack.
Proof. repeat split; try done. repeat constructor; done. Qed.

Lemma receive_reachable p t : Packet_ok p → reachable 4 t → reachable 4 (receive p t).
Proof. intros Hp Ht. eapply rtc_r; [exact Ht|]. by apply do_classify. Qed.

Lemma after_answer_reachable : reachable 4 after_answer.
Proof. apply receive_reachable; [apply answer_ok|]. apply receive_reachable; [apply question_ok|constructor]. Qed.

Lemma after_handshake_reachable : reachable 4 after_handshake.
Proof.
  apply receive_reachable; [apply ack_ok|]. apply receive_reachable; [apply syn_ack_ok|].
  apply receive_reachable; [apply syn_ok|]. apply after_answer_reachable.
Qed.

(** The run ends with one assured UDP flow and one established TCP flow. *)
Example handshake_states : fl_state <$> entries after_handshake = [UdpAssured; Established; Vacant; Vacant].
Proof. vm_compute. reflexivity. Qed.

(** The entry of a slot, read out of a computed table. *)
Definition slot_of (t : FlowTable) (s : nat) : FlowEntry := default FlowEntry_VACANT (entries t !! s).

Lemma slot_0 : entries after_handshake !! 0%nat = Some (slot_of after_handshake 0).
Proof. vm_compute. reflexivity. Qed.
Lemma slot_1 : entries after_handshake !! 1%nat = Some (slot_of after_handshake 1).
Proof. vm_compute. reflexivity. Qed.

Lemma reachable_wf_witness : wf 4 after_handshake.
Proof. apply (reachable_wf 4). exact after_handshake_reachable. Defined.

(** A stranger's opening beside the assured flow of slot 0. *)
Lemma assured_flow_never_displaced_witness :
  ∃ e', entries (FlowTable_classify 4 0 (udp_packet 30 1 40 2) after_handshake).2 !! 0%nat = Some e'
    ∧ (erase e' = erase (slot_of after_handshake 0)
       ∨ entry_key e' = entry_key (slot_of after_handshake 0)
         ∧ generation e' = generation (slot_of after_handshake 0) ∧ last_seen e' = 0
         ∧ ∃ id d st, (FlowTable_classify 4 0 (udp_packet 30 1 40 2) after_handshake).1
             = OEstablished id d (fl_state (slot_of after_handshake 0)) st
             ∧ Z.to_nat (id_slot id) = 0%nat ∧ fl_state e' = st).
Proof.
  refine (assured_flow_never_displaced 4 0 (udp_packet 30 1 40 2) after_handshake 0 _
    after_handshake_reachable _ slot_0 _ _).
  - repeat split; try done. repeat constructor; done.
  - vm_compute. reflexivity.
  - vm_compute. reflexivity.
Defined.

(** The second question on the same five-tuple finds the flow the first opened. *)
Lemma classification_sound_witness :
  ∃ e, live 0 after_handshake (FlowKey_of {| ep_address := 10; ep_port := 5000 |}
         {| ep_address := 20; ep_port := 53 |} Protocol_UDP).1 {| id_slot := 0; id_generation := 1 |} e.
Proof.
  pose proof (classification_sound 4 0 question after_handshake after_handshake_reachable question_ok) as H.
  assert ((FlowTable_classify 4 0 question after_handshake).1
    = OEstablished {| id_slot := 0; id_generation := 1 |} Original UdpAssured UdpAssured) as E by (vm_compute; reflexivity).
  cbv zeta in H. rewrite E in H. destruct H as (key & d & e & e' & Hk & Hl & _).
  exists e. vm_compute in Hk. injection Hk as <- <-. exact Hl.
Defined.

(** Three hours on, both flows have expired and one sweep takes them both. *)
Definition udp_only (f : LiveFlow) (seen : nat) : Disposition * nat :=
  (if op_protocol (lf_opening f) =? Protocol_UDP then Keep else Revoke, S seen).

(** ** The right edge, end to end *)

(** A handshake from initial sequence number [isn] with a window of 1000, then a
    segment [ahead] bytes past what was ever authorised. *)
Definition far_segment (isn ahead : Z) : Outcome :=
  let t := receive (tcp_packet 10 4000 20 80 isn 0 2 1000) (FlowTable_new 4) in
  let t := receive (tcp_packet 20 80 10 4000 500 (isn + 1) 18 1000) t in
  (FlowTable_classify 4 0 (tcp_packet 10 4000 20 80 (isn + 1 + 1000 + ahead) 501 16 1000) t).1.

