(* ===== verification/Pipeline.v ===== *)
(** * The decision pipeline

    Models [datad/crates/pipeline/src/lib.rs]: the stages a frame goes through, in
    order (ownership, admission, routing, connection tracking, policy, and the
    tracker's second half), the ruleset and its one matcher, the counters, and the
    re-decision of the connection table after a commit. The chain reaches the
    connection table only through [Tracker], the calls it makes of it. *)
From S2P Require Import Prelude NetHeaders Routing Clock FlowKey FlowEntry FlowTable.

(** [Option::is_some_and]. *)
Definition is_some_and {A} (o : option A) (p : A → bool) : bool :=
  match o with Some x => p x | None => false end.

(** ** Reasons and counters *)
Inductive DropReason :=
| DR_Unowned | DR_UnconfiguredIngressPort | DR_InterfaceDisabled | DR_NotAddressedToUs | DR_VlanTagged
| DR_MartianSource | DR_UnroutableDestination | DR_AddressedToThisRouter | DR_TtlExpired | DR_NoRoute
| DR_EgressIsIngress | DR_NoNeighbour | DR_FlowUnsupportedProtocol | DR_FlowFragment | DR_FlowMalformed
| DR_FlowInvalidFlags | DR_FlowMidStream | DR_FlowInvalidState | DR_FlowOutOfWindow | DR_FlowNoSuchFlow
| DR_FlowQuotedInvalid | DR_FlowUnsupportedIcmp | DR_FlowTableFull | DR_FlowBucketFull
| DR_PolicyDenied | DR_NoPolicyMatch.
#[export] Instance DropReason_eq_dec : EqDecision DropReason.
Proof. solve_decision. Defined.

Definition DropReason_ALL : list DropReason :=
  [DR_Unowned; DR_UnconfiguredIngressPort; DR_InterfaceDisabled; DR_NotAddressedToUs; DR_VlanTagged;
   DR_MartianSource; DR_UnroutableDestination; DR_AddressedToThisRouter; DR_TtlExpired; DR_NoRoute;
   DR_EgressIsIngress; DR_NoNeighbour; DR_FlowUnsupportedProtocol; DR_FlowFragment; DR_FlowMalformed;
   DR_FlowInvalidFlags; DR_FlowMidStream; DR_FlowInvalidState; DR_FlowOutOfWindow; DR_FlowNoSuchFlow;
   DR_FlowQuotedInvalid; DR_FlowUnsupportedIcmp; DR_FlowTableFull; DR_FlowBucketFull;
   DR_PolicyDenied; DR_NoPolicyMatch].

Definition DropReason_of_refusal (kind : RefusalKind) : DropReason :=
  match kind with
  | RK_UnsupportedProtocol => DR_FlowUnsupportedProtocol
  | RK_Fragment => DR_FlowFragment
  | RK_Malformed => DR_FlowMalformed
  | RK_InvalidFlags => DR_FlowInvalidFlags
  | RK_MidStream => DR_FlowMidStream
  | RK_InvalidState => DR_FlowInvalidState
  | RK_OutOfWindow => DR_FlowOutOfWindow
  | RK_NoSuchFlow => DR_FlowNoSuchFlow
  | RK_QuotedInvalid => DR_FlowQuotedInvalid
  | RK_UnsupportedIcmp => DR_FlowUnsupportedIcmp
  | RK_TableFull => DR_FlowTableFull
  | RK_BucketFull => DR_FlowBucketFull
  end.

(** [self as usize]: the discriminant. *)
Definition DropReason_slot (r : DropReason) : nat :=
  match r with
  | DR_Unowned => 0 | DR_UnconfiguredIngressPort => 1 | DR_InterfaceDisabled => 2
  | DR_NotAddressedToUs => 3 | DR_VlanTagged => 4 | DR_MartianSource => 5
  | DR_UnroutableDestination => 6 | DR_AddressedToThisRouter => 7 | DR_TtlExpired => 8
  | DR_NoRoute => 9 | DR_EgressIsIngress => 10 | DR_NoNeighbour => 11
  | DR_FlowUnsupportedProtocol => 12 | DR_FlowFragment => 13 | DR_FlowMalformed => 14
  | DR_FlowInvalidFlags => 15 | DR_FlowMidStream => 16 | DR_FlowInvalidState => 17
  | DR_FlowOutOfWindow => 18 | DR_FlowNoSuchFlow => 19 | DR_FlowQuotedInvalid => 20
  | DR_FlowUnsupportedIcmp => 21 | DR_FlowTableFull => 22 | DR_FlowBucketFull => 23
  | DR_PolicyDenied => 24 | DR_NoPolicyMatch => 25
  end.

(** [struct DropCounters { counts }]: one [u64] per reason. *)
Abbreviation DropCounters := (list Z) (only parsing).
Definition DropCounters_new : DropCounters := replicate (length DropReason_ALL) 0.
Definition DropCounters_record (c : DropCounters) (reason : DropReason) : DropCounters :=
  alter bump (DropReason_slot reason) c.
Definition DropCounters_get (c : DropCounters) (reason : DropReason) : Z :=
  default 0 (c !! DropReason_slot reason).
Definition DropCounters_total (c : DropCounters) : Z := foldl (saturating_add 64) 0 c.

(** ** What the chain concludes and carries *)
Inductive Verdict :=
| Forward (egress : PortId) (source destination : MacAddress)
| Drop (reason : DropReason).

Inductive Step := Continue | Settled (v : Verdict).

Inductive FlowTransition := Opened | Advanced | Held.

Record FlowObservation := {
  ob_id : FlowId;
  ob_classification : Classification;
  ob_state : FlowState;
  ob_transition : FlowTransition
}.

Record Forwarding := { fw_egress : PortId; fw_source : MacAddress; fw_destination : MacAddress }.

Record Inspection := {
  in_ingress : PortId;
  in_frame : Frame;
  in_forwarding : option Forwarding;
  in_flow : option FlowObservation;
  in_refusal : option RefusalKind;
  in_matched : option nat
}.
#[export] Instance eta_Inspection : Eta Inspection := λ i,
  Build_Inspection (in_ingress i) (in_frame i) (in_forwarding i) (in_flow i) (in_refusal i) (in_matched i).

Definition Inspection_new (ingress : PortId) (frame : Frame) : Inspection :=
  {| in_ingress := ingress; in_frame := frame; in_forwarding := None; in_flow := None;
     in_refusal := None; in_matched := None |}.

Definition Inspection_attach_forwarding (i : Inspection) (f : Forwarding) : Inspection :=
  i <| in_forwarding := Some f |>.
Definition Inspection_attach_flow (i : Inspection) (f : FlowObservation) : Inspection :=
  i <| in_flow := Some f |>.
Definition Inspection_attach_refusal (i : Inspection) (r : RefusalKind) : Inspection :=
  i <| in_refusal := Some r |>.
Definition Inspection_attach_match (i : Inspection) (position : nat) : Inspection :=
  i <| in_matched := Some position |>.

(** ** Rules *)
Record Prefix := { network : Ipv4Address; mask : Z }.

Definition Prefix_new (network : Ipv4Address) (prefix_length : Z) : Prefix :=
  let mask := prefix_mask prefix_length in
  {| network := (let '(a, b, c, d) := to_be32 (Z.land network mask) in Ipv4Address_from_octets a b c d);
     mask := mask |}.

Definition Prefix_covers (p : Prefix) (address : Ipv4Address) : bool :=
  Z.land address (mask p) =? network p.

Record PortRange := { low : Z; high : Z }.
Definition PortRange_covers (r : PortRange) (port : Z) : bool := (low r <=? port) && (port <=? high r).

Inductive RuleAction := Accept | ActDrop.
Inductive Tracked := TrOpening | TrRelated.
#[export] Instance Tracked_eq_dec : EqDecision Tracked.
Proof. solve_decision. Defined.

Record Rule := {
  r_ingress : option PortId;
  r_egress : option PortId;
  r_source : option Prefix;
  r_destination : option Prefix;
  r_protocol : option Protocol;
  r_source_port : option PortRange;
  r_destination_port : option PortRange;
  r_icmp_type : option Z;
  r_tracking : option Tracked;
  r_action : RuleAction
}.

Record FlowSelector := {
  sel_ingress : PortId;
  sel_egress : PortId;
  sel_source : Ipv4Address;
  sel_destination : Ipv4Address;
  sel_protocol : Protocol;
  sel_ports : option (Z * Z);
  sel_icmp_type : option Z;
  sel_tracking : Tracked
}.

Definition Rule_admits (r : Rule) (s : FlowSelector) : bool :=
  if is_some_and (r_ingress r) (λ port, negb (port =? sel_ingress s))
     || is_some_and (r_egress r) (λ port, negb (port =? sel_egress s))
  then false
  else if is_some_and (r_source r) (λ block, negb (Prefix_covers block (sel_source s)))
          || is_some_and (r_destination r) (λ block, negb (Prefix_covers block (sel_destination s)))
  then false
  else if is_some_and (r_protocol r) (λ protocol, negb (protocol =? sel_protocol s))
  then false
  else if (if bool_decide (is_Some (r_source_port r)) || bool_decide (is_Some (r_destination_port r)) then
             match sel_ports s with
             | None => true
             | Some (source, destination) =>
                 is_some_and (r_source_port r) (λ range, negb (PortRange_covers range source))
                 || is_some_and (r_destination_port r) (λ range, negb (PortRange_covers range destination))
             end
           else false)
  then false
  else if match r_icmp_type r with
          | Some wanted => negb (bool_decide (sel_icmp_type s = Some wanted))
          | None => false
          end
  then false
  else if is_some_and (r_tracking r) (λ wanted, negb (bool_decide (wanted = sel_tracking s)))
  then false
  else true.

Definition transport_ports (t : Transport) : option (Z * Z) :=
  match t with
  | Udp udp => Some (udp_source_port udp, udp_destination_port udp)
  | Tcp tcp => Some (tcp_source_port tcp, tcp_destination_port tcp)
  | Icmp _ | TruncatedUdp _ | TruncatedTcp _ | TruncatedIcmp _ | NonInitialFragment | Unparsed _ => None
  end.

Definition FlowSelector_of_frame (ingress egress : PortId) (frame : Frame) (tracking : Tracked)
    : FlowSelector :=
  let header := Frame_ipv4 frame in
  {| sel_ingress := ingress; sel_egress := egress;
     sel_source := ip_source header; sel_destination := ip_destination header;
     sel_protocol := ip_protocol header;
     sel_ports := transport_ports (transport frame);
     sel_icmp_type := match transport frame with Icmp icmp => Some (icmp_type icmp) | _ => None end;
     sel_tracking := tracking |}.

(** ** The ruleset *)
Definition MAX_RULES : nat := 256.

Record Ruleset := { rs_rules : list (option Rule); rs_len : nat }.
#[export] Instance eta_Ruleset : Eta Ruleset := λ r, Build_Ruleset (rs_rules r) (rs_len r).

Record RulesetFull := { requested : nat; capacity : nat }.

Definition Ruleset_EMPTY : Ruleset := {| rs_rules := replicate MAX_RULES None; rs_len := 0 |}.

(** The loop of [build]; a [usize] count of at most 257 does not saturate. *)
Fixpoint build_loop (built : Ruleset) (rules : list Rule) : Result Ruleset RulesetFull :=
  match rules with
  | [] => Ok built
  | rule :: rest =>
      match rs_rules built !! rs_len built with
      | None => Err {| requested := rs_len built + 1; capacity := MAX_RULES |}
      | Some _ =>
          build_loop (built <| rs_rules ::= <[rs_len built := Some rule]> |> <| rs_len ::= λ n, (n + 1)%nat |>) rest
      end
  end.

Definition Ruleset_build (rules : list Rule) : Result Ruleset RulesetFull := build_loop Ruleset_EMPTY rules.

Definition Ruleset_is_empty (r : Ruleset) : bool := (rs_len r =? 0)%nat.

Definition Ruleset_first_match (r : Ruleset) (selector : FlowSelector) : option (nat * Rule) :=
  find_first (λ pr, Rule_admits pr.2 selector) (imap pair (omap id (take (rs_len r) (rs_rules r)))).

(** ** Policy counters *)
Record PolicyCounters := {
  hits : list Z;
  accepted_packets : Z;
  accepted_bytes : Z;
  denied_packets : Z;
  denied_bytes : Z
}.
#[export] Instance eta_PolicyCounters : Eta PolicyCounters := λ c,
  Build_PolicyCounters (hits c) (accepted_packets c) (accepted_bytes c) (denied_packets c) (denied_bytes c).

Definition PolicyCounters_new : PolicyCounters :=
  {| hits := replicate MAX_RULES 0; accepted_packets := 0; accepted_bytes := 0;
     denied_packets := 0; denied_bytes := 0 |}.

Definition PolicyCounters_hits (c : PolicyCounters) (position : nat) : Z := default 0 (hits c !! position).

Definition PolicyCounters_record (c : PolicyCounters) (position : option nat) (action : RuleAction) (bytes : Z)
    : PolicyCounters :=
  let c := match position with Some position => c <| hits ::= alter bump position |> | None => c end in
  match action with
  | Accept => c <| accepted_packets ::= bump |> <| accepted_bytes ::= λ n, saturating_add 64 n bytes |>
  | ActDrop => c <| denied_packets ::= bump |> <| denied_bytes ::= λ n, saturating_add 64 n bytes |>
  end.

(** ** The configuration *)
Record Configuration := { cf_generation : Z; cf_table : Router; cf_rules : Ruleset }.
Definition Configuration_new (generation : Z) (table : Router) (rules : Ruleset) : Configuration :=
  {| cf_generation := generation; cf_table := table; cf_rules := rules |}.

Inductive Ownership := Os_Unowned | Os_Owned.
Definition Ownership_of (owned : bool) : Ownership := if owned then Os_Owned else Os_Unowned.

(** ** The tracker the chain is lent

    The calls the chain makes of [FlowTable<FLOWS>]. *)
Class Tracker (T : Type) := {
  trk_capacity : nat;
  trk_classify : Monotonic → Packet → St T Outcome;
  trk_flow : T → FlowId → option FlowEntry;
  trk_withdraw : FlowId → St T bool;
  trk_occupied : T → Z;
  trk_revisit {D : Type} : (LiveFlow → D → Disposition * D) → nat → D → St T (Revisit * D)
}.

Definition flow_tracker (CAPACITY : nat) : Tracker FlowTable := {|
  trk_capacity := CAPACITY;
  trk_classify := FlowTable_classify CAPACITY;
  trk_flow := FlowTable_flow;
  trk_withdraw := FlowTable_withdraw CAPACITY;
  trk_occupied t := Occupancy_occupied (occupancy t);
  trk_revisit D := @FlowTable_revisit CAPACITY D
|}.

(** ** The stages *)
Definition OwnershipStage_evaluate (ownership : Ownership) : Step :=
  match ownership with Os_Unowned => Settled (Drop DR_Unowned) | Os_Owned => Continue end.

Definition AdmissionStage_evaluate (i : Inspection) (c : Configuration) : Step :=
  match Router_interface (cf_table c) (in_ingress i) with
  | None => Settled (Drop DR_UnconfiguredIngressPort)
  | Some interface =>
      if negb (enabled interface) then Settled (Drop DR_InterfaceDisabled)
      else if bool_decide (is_Some (vlan (in_frame i))) then Settled (Drop DR_VlanTagged)
      else if negb (bool_decide (Frame_destination_mac (in_frame i) = if_mac interface))
      then Settled (Drop DR_NotAddressedToUs)
      else Continue
  end.

Definition RoutingStage_evaluate (c : Configuration) : St Inspection Step := λ i,
  let settle reason := (Settled (Drop reason), i) in
  let table := cf_table c in
  let ingress := in_ingress i in
  let header := Frame_ipv4 (in_frame i) in
  let source := ip_source header in
  if negb (Ipv4Address_is_unicast source) || Router_is_local_address table source
  then settle DR_MartianSource else
  let destination := ip_destination header in
  if negb (Ipv4Address_is_unicast destination) then settle DR_UnroutableDestination else
  if Router_is_local_address table destination then settle DR_AddressedToThisRouter else
  if ip_ttl header <=? 1 then settle DR_TtlExpired else
  match Router_route table destination with
  | None => settle DR_NoRoute
  | Some egress =>
      if if_port egress =? ingress then settle DR_EgressIsIngress else
      match Router_neighbour table (if_port egress) destination with
      | None => settle DR_NoNeighbour
      | Some neighbour =>
          (Continue, Inspection_attach_forwarding i
             {| fw_egress := if_port egress; fw_source := if_mac egress; fw_destination := nb_mac neighbour |})
      end
  end.

(** The packet the tracker is shown. *)
Definition packet_of (i : Inspection) : Packet :=
  let header := Frame_ipv4 (in_frame i) in
  {| pk_ingress := in_ingress i; pk_source := ip_source header; pk_destination := ip_destination header;
     pk_transport := transport (in_frame i); transport_bytes := payload (in_frame i) |}.

Definition ConnectionStage_forward (i : Inspection) : Step :=
  match in_forwarding i with
  | Some f => Settled (Forward (fw_egress f) (fw_source f) (fw_destination f))
  | None => Continue
  end.

Section chain.
Context {T : Type} `{!Tracker T}.

Definition ConnectionStage_classify (now : Monotonic) : St (Inspection * T) Step := λ '(i, t),
  let '(outcome, t) := trk_classify now (packet_of i) t in
  match outcome with
  | ONew flow state =>
      (Continue, (Inspection_attach_flow i {| ob_id := flow; ob_classification := CNew; ob_state := state;
                                              ob_transition := Opened |}, t))
  | OEstablished flow _ previous state =>
      let i := Inspection_attach_flow i
        {| ob_id := flow; ob_classification := CEstablished; ob_state := state;
           ob_transition := if bool_decide (previous = state) then Held else Advanced |} in
      (ConnectionStage_forward i, (i, t))
  | ORelated flow _ =>
      let i := match fl_state <$> trk_flow t flow with
               | Some state =>
                   Inspection_attach_flow i {| ob_id := flow; ob_classification := CRelated; ob_state := state;
                                               ob_transition := Held |}
               | None => i
               end in
      (Continue, (i, t))
  | ORefused refusal =>
      (Settled (Drop (DropReason_of_refusal (Refusal_kind refusal))),
       (Inspection_attach_refusal i (Refusal_kind refusal), t))
  end.

Definition ConnectionStage_settle (i : Inspection) (verdict : Verdict) : St T unit := λ t,
  match verdict, in_flow i with
  | Drop _, Some flow =>
      match ob_transition flow with
      | Opened => (tt, (trk_withdraw (ob_id flow) t).2)
      | Advanced | Held => (tt, t)
      end
  | _, _ => (tt, t)
  end.

Definition PolicyStage_evaluate (c : Configuration) : St (PolicyCounters * Inspection) Verdict := λ '(counters, i),
  match in_forwarding i with
  | None => (Drop DR_NoPolicyMatch, (counters, i))
  | Some forwarding =>
      let bytes := ip_total_length (Frame_ipv4 (in_frame i)) in
      let tracking :=
        match ob_classification <$> in_flow i with
        | Some CRelated => TrRelated
        | Some (CNew | CEstablished) | None => TrOpening
        end in
      match Ruleset_first_match (cf_rules c)
              (FlowSelector_of_frame (in_ingress i) (fw_egress forwarding) (in_frame i) tracking) with
      | Some (position, rule) =>
          let counters := PolicyCounters_record counters (Some position) (r_action rule) bytes in
          let i := Inspection_attach_match i position in
          (match r_action rule with
           | Accept => Forward (fw_egress forwarding) (fw_source forwarding) (fw_destination forwarding)
           | ActDrop => Drop DR_PolicyDenied
           end, (counters, i))
      | None => (Drop DR_NoPolicyMatch, (PolicyCounters_record counters None ActDrop bytes, i))
      end
  end.

(** What one evaluation reads and leaves: the chain's own state (the policy stage's
    counters; the other stages are unit structs), the inspection, the tracker. *)
Record Chain := { ch_policy : PolicyCounters; ch_inspection : Inspection; ch_table : T }.

Definition Pipeline_evaluate (c : Configuration) (now : Monotonic) (ownership : Ownership)
    : St Chain Verdict := λ s,
  match OwnershipStage_evaluate ownership with
  | Settled verdict => (verdict, s)
  | Continue =>
  match AdmissionStage_evaluate (ch_inspection s) c with
  | Settled verdict => (verdict, s)
  | Continue =>
  match RoutingStage_evaluate c (ch_inspection s) with
  | (Settled verdict, i) =>
      (verdict, {| ch_policy := ch_policy s; ch_inspection := i; ch_table := ch_table s |})
  | (Continue, i) =>
  match ConnectionStage_classify now (i, ch_table s) with
  | (Settled verdict, (i, t)) =>
      (verdict, {| ch_policy := ch_policy s; ch_inspection := i; ch_table := t |})
  | (Continue, (i, t)) =>
      let '(verdict, (counters, i)) := PolicyStage_evaluate c (ch_policy s, i) in
      let '(_, t) := ConnectionStage_settle i verdict t in
      (verdict, {| ch_policy := counters; ch_inspection := i; ch_table := t |})
  end
  end
  end
  end.

(** ** Re-deciding the table *)
Definition admits_opening (c : Configuration) (opening : FlowOpening) : option nat :=
  let table := cf_table c in
  let ingress := op_ingress opening in
  match Router_interface table ingress with
  | None => None
  | Some interface =>
      if negb (enabled interface) then None else
      let source := ep_address (op_source opening) in
      let destination := ep_address (op_destination opening) in
      if negb (Ipv4Address_is_unicast source) || Router_is_local_address table source then None else
      if negb (Ipv4Address_is_unicast destination) || Router_is_local_address table destination then None else
      match Router_route table destination with
      | None => None
      | Some egress =>
          if if_port egress =? ingress then None else
          match Router_neighbour table (if_port egress) destination with
          | None => None
          | Some _ =>
              let protocol := op_protocol opening in
              let selector :=
                {| sel_ingress := ingress; sel_egress := if_port egress; sel_source := source;
                   sel_destination := destination; sel_protocol := protocol;
                   sel_ports := if negb (protocol =? Protocol_ICMP)
                                then Some (ep_port (op_source opening), ep_port (op_destination opening)) else None;
                   sel_icmp_type := if protocol =? Protocol_ICMP then Some IcmpHeader_ECHO_REQUEST else None;
                   sel_tracking := TrOpening |} in
              match Ruleset_first_match (cf_rules c) selector with
              | Some (position, rule) =>
                  match r_action rule with Accept => Some position | ActDrop => None end
              | None => None
              end
          end
      end
  end.

Definition WAKEUP_FRAME_BUDGET : nat := 128.
Definition FRAMES_PER_WINDOW : nat := 40.
Definition OCCUPANCY_SCALE : nat := REVISIT_BUCKETS / REVISIT_FLOWS.

(** [scaled] saturates at the largest [usize], which is 64 bits wide. *)
Definition windows_for_occupancy (occupied capacity : Z) : Z :=
  if capacity =? 0 then 1
  else
    let scaled := saturating_mul 64 occupied (Z.of_nat OCCUPANCY_SCALE) in
    let windows := (scaled + capacity - 1) / capacity in
    if 1 <? windows then windows else 1.

Definition windows_for (forwarded occupied capacity : Z) : Z :=
  let budget := Z.of_nat WAKEUP_FRAME_BUDGET in
  let spent := if budget <? forwarded then budget else forwarded in
  let slack := 1 + (budget - spent) / Z.of_nat FRAMES_PER_WINDOW in
  let occupancy := windows_for_occupancy occupied capacity in
  if slack <? occupancy then occupancy else slack.

Record PolicySweepCounters := {
  psc_completed : Z; psc_deferred : Z; psc_buckets : Z; psc_examined : Z
}.
#[export] Instance eta_PolicySweepCounters : Eta PolicySweepCounters := λ c,
  Build_PolicySweepCounters (psc_completed c) (psc_deferred c) (psc_buckets c) (psc_examined c).

Record Swept := {
  swp_generation : Z; swp_buckets : nat; swp_examined : nat; swp_revoked : nat; swp_complete : bool
}.

Record PolicySweep := {
  ps_cursor : option nat;
  ps_generation : Z;
  ps_deferred : bool;
  ps_counters : PolicySweepCounters
}.
#[export] Instance eta_PolicySweep : Eta PolicySweep := λ s,
  Build_PolicySweep (ps_cursor s) (ps_generation s) (ps_deferred s) (ps_counters s).

Definition PolicySweep_new : PolicySweep :=
  {| ps_cursor := None; ps_generation := 0; ps_deferred := false;
     ps_counters := {| psc_completed := 0; psc_deferred := 0; psc_buckets := 0; psc_examined := 0 |} |}.

Definition PolicySweep_running (s : PolicySweep) : bool := bool_decide (is_Some (ps_cursor s)).

Definition PolicySweep_arm (generation : Z) : St PolicySweep unit := st_edit (λ s,
  let s := s <| ps_generation := generation |> in
  match ps_cursor s with
  | Some _ => s <| ps_counters ::= λ c, c <| psc_deferred ::= bump |> |> <| ps_deferred := true |>
  | None => s <| ps_cursor := Some 0%nat |>
  end).

(** The closure [advance] hands [revisit]; [observe] is the caller's [FnMut], with
    its own state [O]. *)
Definition sweep_decision {O : Type} (c : Configuration) (observe : LiveFlow → O → O)
    (flow : LiveFlow) (o : O) : Disposition * O :=
  match admits_opening c (lf_opening flow) with
  | Some _ => (Keep, o)
  | None => (Revoke, observe flow o)
  end.

(** [for _ in 0..windows]: the windows worked off, with what [Swept] adds up. The
    [usize] sums are of counts the table bounds. *)
Fixpoint advance_loop {O : Type} (c : Configuration) (observe : LiveFlow → O → O) (windows cursor : nat)
    (swept : Swept) (o : O) (t : T) : nat * Swept * O * T :=
  match windows with
  | 0%nat => (cursor, swept, o, t)
  | S windows =>
      let '(revisited, o, t) := trk_revisit (sweep_decision c observe) cursor o t in
      let swept := {| swp_generation := swp_generation swept;
                      swp_buckets := swp_buckets swept + rv_buckets revisited;
                      swp_examined := swp_examined swept + rv_examined revisited;
                      swp_revoked := swp_revoked swept + rv_revoked revisited;
                      swp_complete := swp_complete swept |} in
      if rv_complete revisited
      then (rv_next revisited,
            {| swp_generation := swp_generation swept; swp_buckets := swp_buckets swept;
               swp_examined := swp_examined swept; swp_revoked := swp_revoked swept;
               swp_complete := true |}, o, t)
      else advance_loop c observe windows (rv_next revisited) swept o t
  end.

Definition PolicySweep_advance {O : Type} (c : Configuration) (forwarded : Z) (observe : LiveFlow → O → O)
    : St (PolicySweep * O * T) (option Swept) := λ '(s, o, t),
  match ps_cursor s with
  | None => (None, (s, o, t))
  | Some cursor =>
      let windows := windows_for forwarded (trk_occupied t) (Z.of_nat trk_capacity) in
      let '(cursor, swept, o, t) :=
        advance_loop c observe (Z.to_nat windows) cursor
          {| swp_generation := ps_generation s; swp_buckets := 0; swp_examined := 0; swp_revoked := 0;
             swp_complete := false |} o t in
      let s := s <| ps_counters ::= λ k, k <| psc_buckets ::= λ n, saturating_add 64 n (Z.of_nat (swp_buckets swept)) |> |> in
      let s := s <| ps_counters ::= λ k, k <| psc_examined ::= λ n, saturating_add 64 n (Z.of_nat (swp_examined swept)) |> |> in
      let s :=
        if swp_complete swept
        then (s <| ps_counters ::= λ k, k <| psc_completed ::= bump |> |>)
               <| ps_cursor := if ps_deferred s then Some 0%nat else None |> <| ps_deferred := false |>
        else s <| ps_cursor := Some cursor |> in
      (Some swept, (s, o, t))
  end.

End chain.
