(* ===== verification/PipelineFacts.v ===== *)
(** * The decision pipeline: the ruleset and the verdict

    First match wins over the rules in document order; the chain forwards a frame
    exactly when every stage ahead of the filter passes it and the tracker or the
    first matching rule admits it. *)
From S2P Require Import Prelude NetHeaders NetHeadersFacts Routing Clock FlowKey FlowEntry FlowIcmp FlowTable FlowTableInv FlowTableOps FlowTableSpec Pipeline.

(** ** The ruleset *)

(** A ruleset in use: the rules of a document, in order, and nothing behind them. *)
Definition Ruleset_holds (r : Ruleset) (rules : list Rule) : Prop :=
  rs_len r = length rules ∧ rs_rules r = (Some <$> rules) ++ replicate (MAX_RULES - length rules) None
  ∧ (length rules ≤ MAX_RULES)%nat.

Lemma build_loop_spec rules built done_ :
  Ruleset_holds built done_ →
  build_loop built rules =
    if decide (length done_ + length rules ≤ MAX_RULES)%nat
    then Ok {| rs_rules := (Some <$> done_ ++ rules) ++ replicate (MAX_RULES - length (done_ ++ rules)) None;
               rs_len := length (done_ ++ rules) |}
    else Err {| requested := MAX_RULES + 1; capacity := MAX_RULES |}.
Proof.
  revert built done_. induction rules as [|rule rest IH]; intros built done_ (Hlen & Hrs & Hmax); cbn [build_loop].
  { rewrite app_nil_r, decide_True by (simpl; lia). destruct built. simpl in *. by subst. }
  rewrite Hrs, Hlen. destruct (decide (length done_ < MAX_RULES)%nat) as [Hlt|Hge].
  - rewrite lookup_app_r by (rewrite length_fmap; lia). rewrite length_fmap, Nat.sub_diag.
    rewrite lookup_replicate_2 by lia.
    rewrite (IH _ (done_ ++ [rule])).
    + rewrite <-app_assoc, !length_app. cbn [length app].
      destruct (decide (length done_ + 1 + length rest ≤ MAX_RULES)%nat), (decide (length done_ + S (length rest) ≤ MAX_RULES)%nat);
        [done|lia|lia|done].
    + unfold Ruleset_holds. cbn [rs_rules rs_len assign]. rewrite length_app. simpl. split_all; [lia| |lia].
      rewrite Hrs, fmap_app, insert_app_r_alt, length_fmap, Nat.sub_diag by (rewrite length_fmap; lia).
      replace (MAX_RULES - length done_)%nat with (S (MAX_RULES - (length done_ + 1)))%nat by lia.
      simpl. by rewrite <-app_assoc.
  - rewrite lookup_ge_None_2.
    + rewrite decide_False by (simpl; lia). f_equal. f_equal. lia.
    + rewrite length_app, length_fmap, length_replicate. lia.
Qed.

Lemma EMPTY_holds : Ruleset_holds Ruleset_EMPTY [].
Proof. split; [done|]. split; [done|]. simpl. lia. Qed.

Lemma build_spec rules :
  (length rules ≤ MAX_RULES)%nat →
  ∃ r, Ruleset_build rules = Ok r ∧ Ruleset_holds r rules.
Proof.
  intros Hlen. eexists. unfold Ruleset_build. rewrite (build_loop_spec rules Ruleset_EMPTY []).
  - rewrite decide_True by done. split; [done|]. split; [done|]. by split.
  - apply EMPTY_holds.
Qed.

Lemma omap_id_fmap {A} (l : list A) : omap id (Some <$> l) = l.
Proof. induction l as [|x l IH]; [done|]. simpl. f_equal. exact IH. Qed.

(** C39. First match wins: over a ruleset built from a document, the match is the
    rule with the least position whose criteria the packet meets, and there is none
    exactly when no rule's criteria do. A document of more rules than a build holds
    is refused, never truncated. *)
Theorem first_match_spec rules selector :
  if decide (length rules ≤ MAX_RULES)%nat
  then ∃ r, Ruleset_build rules = Ok r
    ∧ (∀ position rule, Ruleset_first_match r selector = Some (position, rule) ↔
         rules !! position = Some rule ∧ Rule_admits rule selector = true
         ∧ ∀ j rule', (j < position)%nat → rules !! j = Some rule' → Rule_admits rule' selector = false)
    ∧ (Ruleset_first_match r selector = None ↔
         ∀ j rule', rules !! j = Some rule' → Rule_admits rule' selector = false)
  else Ruleset_build rules = Err {| requested := MAX_RULES + 1; capacity := MAX_RULES |}.
Proof.
  case_decide as Hlen.
  2:{ unfold Ruleset_build. rewrite (build_loop_spec rules Ruleset_EMPTY [] EMPTY_holds).
      by rewrite decide_False. }
  destruct (build_spec rules Hlen) as (r & Hr & Hn & Hrs & _). exists r. split; [done|].
  unfold Ruleset_first_match. rewrite Hrs, Hn, take_app_length' by (by rewrite length_fmap). rewrite omap_id_fmap.
  clear Hr Hrs Hn Hlen. split.
  - intros position rule. rewrite find_first_Some. split.
    + intros (before & after & Heq & Hadm & Hb). assert (position = length before) as Hpos.
      { pose proof (f_equal (.!! length before) Heq) as Hl. cbv beta in Hl.
        rewrite list_lookup_imap, list_lookup_middle in Hl by done.
        destruct (rules !! length before); simpl in Hl; by simplify_eq. }
      assert (∀ j, (imap pair rules !! j) = pair j <$> rules !! j) as Hj by (intros; apply list_lookup_imap).
      split_all; [|done|].
      * specialize (Hj position). rewrite Heq, Hpos, list_lookup_middle in Hj by done. rewrite Hpos.
        destruct (rules !! length before); simpl in Hj; by simplify_eq.
      * intros j rule' Hlt Hl. specialize (Hj j). rewrite Hl, Heq, lookup_app_l in Hj by lia.
        exact (Forall_lookup_1 _ _ _ _ Hb Hj).
    + intros (Hl & Hadm & Hb). exists (take position (imap pair rules)), (drop (S position) (imap pair rules)).
      assert (imap pair rules !! position = Some (position, rule)) as Hi by (by rewrite list_lookup_imap, Hl).
      split_all; [by rewrite take_drop_middle|done|]. apply Forall_lookup. intros j [k rule'] Hk.
      apply lookup_take_Some in Hk as [Hk Hlt]. rewrite list_lookup_imap in Hk.
      destruct (rules !! j) eqn:Hj; simplify_eq/=. by eapply Hb.
  - rewrite find_first_None. split.
    + intros H j rule' Hj. apply (H (j, rule')). apply list_elem_of_lookup. exists j.
      by rewrite list_lookup_imap, Hj.
    + intros H [j rule'] (k & Hk)%list_elem_of_lookup. rewrite list_lookup_imap in Hk.
      destruct (rules !! k) eqn:Hr; simplify_eq/=. by eapply H.
Qed.

(** ** Criteria *)
Lemma to_be32_octets x : is_u32 x → (let '(a, b, c, d) := to_be32 x in Ipv4Address_from_octets a b c d) = x.
Proof. intros. unfold to_be32, Ipv4Address_from_octets. ints. Qed.

(** A block covers the addresses that agree with it on its leading bits, host bits
    in the block it was written with notwithstanding. *)
Lemma prefix_covers_spec n p a :
  is_u32 n → is_u32 a → 0 ≤ p ≤ 32 →
  Prefix_covers (Prefix_new n p) a = true ↔ a / 2 ^ (32 - p) = n / 2 ^ (32 - p).
Proof.
  intros Hn Ha Hp. unfold Prefix_covers, Prefix_new. cbn [network mask].
  rewrite !land_prefix_mask by done. assert (0 < 2 ^ (32 - p)) as Hpos by lia.
  rewrite to_be32_octets.
  - rewrite Z.eqb_eq, Z.mul_cancel_r by lia. done.
  - unfold_ints. pose proof (Z.mul_div_le n (2 ^ (32 - p)) Hpos). pose proof (Z.div_pos n (2 ^ (32 - p))). nia.
Qed.

(** A stated criterion on a value that was read; absent means anything. *)
Definition meets {A B} (criterion : option A) (test : A → B → Prop) (value : B) : Prop :=
  match criterion with Some x => test x value | None => True end.

Lemma is_some_and_false {A} (o : option A) p : is_some_and o p = false ↔ meets o (λ x _, p x = false) tt.
Proof. by destruct o. Qed.

Lemma guard_true (b k : bool) : (if b then false else k) = true ↔ b = false ∧ k = true.
Proof. destruct b; split; (done || by intros [] || tauto). Qed.

(** A rule is about a packet exactly when every criterion it states is met: the
    ports it arrived on and would leave by, both addresses inside the stated blocks,
    the protocol, the ports inside the stated ranges (never met where no port was
    read), the ICMP type (never met where none was read), and whether it opens a
    conversation or is related to one. *)
Theorem rule_admits_spec r s :
  Rule_admits r s = true ↔
    meets (r_ingress r) eq (sel_ingress s) ∧ meets (r_egress r) eq (sel_egress s)
    ∧ meets (r_source r) (λ block a, Prefix_covers block a = true) (sel_source s)
    ∧ meets (r_destination r) (λ block a, Prefix_covers block a = true) (sel_destination s)
    ∧ meets (r_protocol r) eq (sel_protocol s)
    ∧ meets (r_source_port r) (λ range ports, ∃ p q, ports = Some (p, q) ∧ low range ≤ p ≤ high range) (sel_ports s)
    ∧ meets (r_destination_port r) (λ range ports, ∃ p q, ports = Some (p, q) ∧ low range ≤ q ≤ high range) (sel_ports s)
    ∧ meets (r_icmp_type r) (λ wanted read, read = Some wanted) (sel_icmp_type s)
    ∧ meets (r_tracking r) eq (sel_tracking s).
Proof.
  assert (∀ range p, negb (PortRange_covers range p) = false ↔ low range ≤ p ≤ high range) as Hrange.
  { intros range p. unfold PortRange_covers. rewrite negb_false_iff, andb_true_iff, !Z.leb_le. done. }
  assert (∀ (lo hi p q : Z), (∃ p' q', Some (p, q) = Some (p', q') ∧ lo ≤ p' ≤ hi) ↔ lo ≤ p ≤ hi) as Hfst
    by (intros; split; [by intros (? & ? & [= <- <-] & ?)|by eauto]).
  assert (∀ (lo hi p q : Z), (∃ p' q', Some (p, q) = Some (p', q') ∧ lo ≤ q' ≤ hi) ↔ lo ≤ q ≤ hi) as Hsnd
    by (intros; split; [by intros (? & ? & [= <- <-] & ?)|by eauto]).
  assert (∀ (o : option Z) v, is_some_and o (λ x, negb (x =? v)) = false ↔ meets o eq v) as Heq
    by (intros [x|] v; simpl; [by rewrite negb_false_iff, Z.eqb_eq|done]).
  assert (∀ o v, is_some_and o (λ b, negb (Prefix_covers b v)) = false
    ↔ meets o (λ b a, Prefix_covers b a = true) v) as Hblock
    by (intros [b|] v; simpl; [by rewrite negb_false_iff|done]).
  unfold Rule_admits. rewrite !guard_true, !orb_false_iff, !Heq, !Hblock.
  assert (((if bool_decide (is_Some (r_source_port r)) || bool_decide (is_Some (r_destination_port r)) then
             match sel_ports s with
             | None => true
             | Some (source, destination) =>
                 is_some_and (r_source_port r) (λ range, negb (PortRange_covers range source))
                 || is_some_and (r_destination_port r) (λ range, negb (PortRange_covers range destination))
             end
           else false) = false) ↔
    meets (r_source_port r) (λ range ports, ∃ p q, ports = Some (p, q) ∧ low range ≤ p ≤ high range) (sel_ports s)
    ∧ meets (r_destination_port r) (λ range ports, ∃ p q, ports = Some (p, q) ∧ low range ≤ q ≤ high range) (sel_ports s))
    as ->.
  { destruct (r_source_port r) as [sp|], (r_destination_port r) as [dp|]; simpl; [..|by split];
      (destruct (sel_ports s) as [[p q]|];
        [rewrite ?orb_false_iff, ?orb_false_l, ?orb_false_r, !Hrange, ?Hfst, ?Hsnd; tauto
        |split; [done|]; (intros [(? & ? & ? & _) ?] || intros [? (? & ? & ? & _)]); done]). }
  assert (match r_icmp_type r with
          | Some wanted => negb (bool_decide (sel_icmp_type s = Some wanted)) | None => false end = false
    ↔ meets (r_icmp_type r) (λ wanted read, read = Some wanted) (sel_icmp_type s)) as ->
    by (destruct (r_icmp_type r); simpl; [by rewrite negb_false_iff, bool_decide_eq_true|done]).
  assert (is_some_and (r_tracking r) (λ wanted, negb (bool_decide (wanted = sel_tracking s))) = false
    ↔ meets (r_tracking r) eq (sel_tracking s)) as ->
    by (destruct (r_tracking r); simpl; [by rewrite negb_false_iff, bool_decide_eq_true|done]).
  tauto.
Qed.

(** ** What a tracker promises the chain

    The chain's view of a tracker is the opening each occupied slot holds. The laws
    say what each call may do to that view. *)

(** The opening of the conversation a packet would open. *)
Definition packet_opening (p : Packet) : option FlowOpening :=
  let opening source_port destination_port protocol :=
    {| op_ingress := pk_ingress p;
       op_source := {| ep_address := pk_source p; ep_port := source_port |};
       op_destination := {| ep_address := pk_destination p; ep_port := destination_port |};
       op_protocol := protocol |} in
  match pk_transport p with
  | Tcp h => Some (opening (tcp_source_port h) (tcp_destination_port h) Protocol_TCP)
  | Udp h => Some (opening (udp_source_port h) (udp_destination_port h) Protocol_UDP)
  | Icmp h =>
      match message h with
      | Some (EchoRequest identifier) => Some (opening identifier identifier Protocol_ICMP)
      | _ => None
      end
  | _ => None
  end.

Class TrackerLaws (T : Type) `{!Tracker T} := {
  trk_ok : T → Prop;
  trk_view : T → nat → option FlowOpening;
  (** Where in the index a conversation sits, below the capacity. *)
  trk_position : FlowOpening → nat;
  law_capacity : Z.of_nat trk_capacity < 2 ^ 32;
  law_position o : (trk_position o < trk_capacity)%nat;
  law_occupied t : trk_ok t → 0 ≤ trk_occupied t ≤ Z.of_nat trk_capacity;
  law_classify_ok now p t : trk_ok t → Packet_ok p → trk_ok (trk_classify now p t).2;
  law_withdraw_ok id t : trk_ok t → trk_ok (trk_withdraw id t).2;
  (** Nothing appears but the flow the packet opened. *)
  law_classify_view now p t s o :
    trk_ok t → Packet_ok p → trk_view (trk_classify now p t).2 s = Some o →
    trk_view t s = Some o
    ∨ ∃ id st, (trk_classify now p t).1 = ONew id st ∧ s = Z.to_nat (id_slot id) ∧ packet_opening p = Some o;
  (** A flow a packet is classified onto was there before it. *)
  law_established now p t id d previous st :
    trk_ok t → Packet_ok p → (trk_classify now p t).1 = OEstablished id d previous st →
    is_Some (trk_view t (Z.to_nat (id_slot id)));
  law_related now p t id d :
    trk_ok t → Packet_ok p → (trk_classify now p t).1 = ORelated id d →
    is_Some (trk_flow (trk_classify now p t).2 id) ∧ is_Some (trk_view t (Z.to_nat (id_slot id)));
  (** A flow a packet opened or advanced is in a state of a flow. *)
  law_state now p t :
    trk_ok t → Packet_ok p →
    match (trk_classify now p t).1 with
    | ONew _ st | OEstablished _ _ _ st => st ≠ Vacant
    | _ => True
    end;
  (** A flow just opened can be taken back. *)
  law_withdraw_opening now p t id st :
    trk_ok t → Packet_ok p → (trk_classify now p t).1 = ONew id st →
    trk_view (trk_withdraw id (trk_classify now p t).2).2 (Z.to_nat (id_slot id)) = None;
  law_withdraw_view id t s o :
    trk_ok t → trk_view (trk_withdraw id t).2 s = Some o → trk_view t s = Some o;
  (** A revisit asks about everything between where it starts and where it stops. *)
  law_revisit {D} (f : LiveFlow → D → Disposition * D) (verdict : FlowOpening → Disposition) from d t :
    trk_ok t → (∀ flow d, (f flow d).1 = verdict (lf_opening flow)) → (from < trk_capacity)%nat →
    let r := trk_revisit f from d t in
    trk_ok r.2
    ∧ (from < rv_next r.1.1 ≤ trk_capacity)%nat ∧ (rv_complete r.1.1 = true ↔ rv_next r.1.1 = trk_capacity)
    ∧ ∀ s o, trk_view r.2 s = Some o ↔
        trk_view t s = Some o ∧ ((from ≤ trk_position o < rv_next r.1.1)%nat → verdict o = Keep)
}.

(** ** What the chain asks before the tracker *)

(** A frame the link and the routing table would carry, and how. *)
Definition deliverable (c : Configuration) (i : Inspection) (f : Forwarding) : Prop :=
  let table := cf_table c in
  let header := Frame_ipv4 (in_frame i) in
  (∃ interface, Router_interface table (in_ingress i) = Some interface ∧ enabled interface = true
     ∧ Frame_destination_mac (in_frame i) = if_mac interface)
  ∧ vlan (in_frame i) = None
  ∧ Ipv4Address_is_unicast (ip_source header) = true ∧ Router_is_local_address table (ip_source header) = false
  ∧ Ipv4Address_is_unicast (ip_destination header) = true
  ∧ Router_is_local_address table (ip_destination header) = false
  ∧ 1 < ip_ttl header
  ∧ ∃ egress neighbour,
      Router_route table (ip_destination header) = Some egress ∧ if_port egress ≠ in_ingress i
      ∧ Router_neighbour table (if_port egress) (ip_destination header) = Some neighbour
      ∧ f = {| fw_egress := if_port egress; fw_source := if_mac egress; fw_destination := nb_mac neighbour |}.

Lemma admission_continues i c :
  AdmissionStage_evaluate i c = Continue ↔
  (∃ interface, Router_interface (cf_table c) (in_ingress i) = Some interface ∧ enabled interface = true
     ∧ Frame_destination_mac (in_frame i) = if_mac interface) ∧ vlan (in_frame i) = None.
Proof.
  unfold AdmissionStage_evaluate. destruct (Router_interface _ _) as [interface|].
  2:{ split; [done|]. by intros [(? & ? & _) _]. }
  split.
  - destruct (enabled interface) eqn:He; [|done]. simpl.
    destruct (vlan (in_frame i)) eqn:Hv; [done|]. simpl.
    case_bool_decide as Hm; [|done]. intros _. split; [|done]. by exists interface.
  - intros [(? & [= <-] & -> & Hm) ->]. simpl. by rewrite bool_decide_true.
Qed.

(** A stage that does not pass a frame drops it, and drops it only. *)
Lemma admission_settles i c v : AdmissionStage_evaluate i c = Settled v → ∃ r, v = Drop r.
Proof. unfold AdmissionStage_evaluate. cases; intros [= <-]; by eexists. Qed.

Lemma routing_continues c i i' :
  RoutingStage_evaluate c i = (Continue, i') ↔
  ∃ f, i' = Inspection_attach_forwarding i f
    ∧ (let table := cf_table c in
       let header := Frame_ipv4 (in_frame i) in
       Ipv4Address_is_unicast (ip_source header) = true ∧ Router_is_local_address table (ip_source header) = false
       ∧ Ipv4Address_is_unicast (ip_destination header) = true
       ∧ Router_is_local_address table (ip_destination header) = false
       ∧ 1 < ip_ttl header
       ∧ ∃ egress neighbour,
           Router_route table (ip_destination header) = Some egress ∧ if_port egress ≠ in_ingress i
           ∧ Router_neighbour table (if_port egress) (ip_destination header) = Some neighbour
           ∧ f = {| fw_egress := if_port egress; fw_source := if_mac egress; fw_destination := nb_mac neighbour |}).
Proof.
  unfold RoutingStage_evaluate. cbv zeta. split.
  - destruct (Ipv4Address_is_unicast (ip_source _)); [|done].
    destruct (Router_is_local_address _ (ip_source _)) eqn:Hls; [done|]. cbn [negb orb].
    destruct (Ipv4Address_is_unicast (ip_destination _)); [|done]. cbn [negb].
    destruct (Router_is_local_address _ (ip_destination _)) eqn:Hld; [done|].
    destruct (Z.leb_spec (ip_ttl (Frame_ipv4 (in_frame i))) 1) as [|Httl]; [done|].
    destruct (Router_route _ _) as [egress|] eqn:Hr; [|done].
    destruct (Z.eqb_spec (if_port egress) (in_ingress i)) as [|Hne]; [done|].
    destruct (Router_neighbour _ _ _) as [nb|] eqn:Hn; [|done].
    intros [= <-]. eexists. split; [done|]. split_all; try done. by exists egress, nb.
  - intros (f & -> & Hs & Hls & Hd & Hld & Httl & egress & nb & Hr & Hne & Hn & ->).
    rewrite Hs, Hls, Hd, Hld. cbn [negb orb]. rewrite (proj2 (Z.leb_gt _ _)) by done.
    rewrite Hr, (proj2 (Z.eqb_neq _ _)), Hn by done. done.
Qed.

Lemma routing_settles c i v i' : RoutingStage_evaluate c i = (Settled v, i') → i' = i ∧ ∃ r, v = Drop r.
Proof. unfold RoutingStage_evaluate. cbv zeta. cases; intros [= <- <-]; (split; [done|by eexists]). Qed.

Lemma deliverable_cases c i : (∃ f, deliverable c i f) ∨ (∀ f, ¬ deliverable c i f).
Proof.
  destruct (AdmissionStage_evaluate i c) as [|v] eqn:Ha.
  2:{ right. intros f (Hi & Hv & _). by rewrite (proj2 (admission_continues _ _) (conj Hi Hv)) in Ha. }
  destruct (RoutingStage_evaluate c i) as [[|v] i'] eqn:Hr.
  - left. apply admission_continues in Ha as [Hi Hv]. apply routing_continues in Hr as (f & _ & Hrest).
    exists f. by split_all.
  - right. intros f (_ & _ & Hrest).
    assert (RoutingStage_evaluate c i = (Continue, Inspection_attach_forwarding i f)) as Hr'
      by (apply routing_continues; by exists f). by rewrite Hr' in Hr.
Qed.

Arguments Chain T : clear implicits.
Arguments Build_Chain {T} _ _ _.

Section verdict.
Context {T : Type} `{!Tracker T}.

(** A frame as it arrives. *)
Definition arriving (policy : PolicyCounters) (ingress : PortId) (frame : Frame) (t : T) : Chain T :=
  {| ch_policy := policy; ch_inspection := Inspection_new ingress frame; ch_table := t |}.

(** The packet the tracker is shown. *)
Definition arriving_packet (ingress : PortId) (frame : Frame) : Packet := packet_of (Inspection_new ingress frame).

(** The first rule about the frame, and what it says. *)
Definition filtered (c : Configuration) (ingress egress : PortId) (frame : Frame) (tracking : Tracked)
    : option (nat * Rule) :=
  Ruleset_first_match (cf_rules c) (FlowSelector_of_frame ingress egress frame tracking).

Definition accepted (c : Configuration) (ingress egress : PortId) (frame : Frame) (tracking : Tracked) : Prop :=
  ∃ position rule, filtered c ingress egress frame tracking = Some (position, rule) ∧ r_action rule = Accept.

(** *** Frames the link or the routing table refuses *)
Lemma evaluate_undeliverable c now own policy ingress frame t :
  (own = Os_Unowned ∨ ∀ f, ¬ deliverable c (Inspection_new ingress frame) f) →
  let r := Pipeline_evaluate c now own (arriving policy ingress frame t) in
  (∃ reason, r.1 = Drop reason) ∧ r.2 = arriving policy ingress frame t.
Proof.
  intros Hnot. unfold Pipeline_evaluate. cbn [ch_inspection ch_table ch_policy arriving].
  destruct own; simpl OwnershipStage_evaluate; cbv iota; [split; [by eexists|done]|].
  destruct Hnot as [|Hnot]; [done|].
  destruct (AdmissionStage_evaluate _ c) as [|v] eqn:Ha.
  2:{ destruct (admission_settles _ _ _ Ha) as [r ->]. split; [by eexists|done]. }
  destruct (RoutingStage_evaluate c _) as [[|v] i'] eqn:Hr.
  - exfalso. apply admission_continues in Ha as [Hi Hv]. apply routing_continues in Hr as (f & _ & Hr).
    apply (Hnot f). by split_all.
  - apply routing_settles in Hr as [-> [r ->]]. split; [by eexists|done].
Qed.

(** *** Frames that could leave *)

(** The verdict on one, from the tracker's outcome. *)
Definition tracked_verdict (c : Configuration) (ingress : PortId) (frame : Frame) (f : Forwarding)
    (o : Outcome) (related_known : bool) : Verdict :=
  let forward := Forward (fw_egress f) (fw_source f) (fw_destination f) in
  let policy tracking :=
    match filtered c ingress (fw_egress f) frame tracking with
    | Some (_, rule) => match r_action rule with Accept => forward | ActDrop => Drop DR_PolicyDenied end
    | None => Drop DR_NoPolicyMatch
    end in
  match o with
  | OEstablished _ _ _ _ => forward
  | ONew _ _ => policy TrOpening
  | ORelated _ _ => policy (if related_known then TrRelated else TrOpening)
  | ORefused r => Drop (DropReason_of_refusal (Refusal_kind r))
  end.

(** The tracker after the chain: a refused opening is withdrawn. *)
Definition tracked_table (o : Outcome) (v : Verdict) (t : T) : T :=
  match o, v with
  | ONew id _, Drop _ => (trk_withdraw id t).2
  | _, _ => t
  end.

Lemma evaluate_deliverable c now policy ingress frame t f :
  deliverable c (Inspection_new ingress frame) f →
  let o := (trk_classify now (arriving_packet ingress frame) t).1 in
  let t1 := (trk_classify now (arriving_packet ingress frame) t).2 in
  let v := tracked_verdict c ingress frame f o
             match o with ORelated id _ => bool_decide (is_Some (trk_flow t1 id)) | _ => false end in
  let r := Pipeline_evaluate c now Os_Owned (arriving policy ingress frame t) in
  r.1 = v ∧ ch_table r.2 = tracked_table o v t1
  ∧ (match o with OEstablished _ _ _ _ | ORefused _ => ch_policy r.2 = policy | _ => True end).
Proof.
  intros (Hi & Hv & Hrest) o t1 v r.
  assert (AdmissionStage_evaluate (Inspection_new ingress frame) c = Continue) as Ha
    by by apply admission_continues.
  assert (RoutingStage_evaluate c (Inspection_new ingress frame)
    = (Continue, Inspection_attach_forwarding (Inspection_new ingress frame) f)) as Hr
    by (apply routing_continues; by exists f).
  subst r v. unfold Pipeline_evaluate. cbn [OwnershipStage_evaluate ch_inspection ch_table ch_policy arriving].
  rewrite Ha, Hr. unfold ConnectionStage_classify.
  change (packet_of (Inspection_attach_forwarding _ f)) with (arriving_packet ingress frame).
  subst o t1. destruct (trk_classify now (arriving_packet ingress frame) t) as [o t1]. cbn [fst snd].
  destruct o as [id st|id d previous st|id d|refusal]; [| |destruct (trk_flow t1 id) as [e|]|]; simpl; try done;
    unfold PolicyStage_evaluate, filtered; simpl;
    (destruct (Ruleset_first_match (cf_rules c) _) as [[position rule]|]; [destruct (r_action rule)|]); simpl;
    try done; by destruct (trk_withdraw id t1).
Qed.

(** An unowned appliance forwards nothing, and the frame leaves no trace. *)
Lemma unowned_forwards_nothing c now policy ingress frame t :
  Pipeline_evaluate c now Os_Unowned (arriving policy ingress frame t)
  = (Drop DR_Unowned, arriving policy ingress frame t).
Proof. done. Qed.

Context `{!TrackerLaws T}.

(** C1. The chain forwards a frame exactly when it may: the appliance is owned, the
    frame is addressed to an enabled interface of the ingress port and untagged, both
    its addresses are unicast and neither is the appliance's own, it has a hop left,
    the longest matching prefix leads out of another port to a configured neighbour,
    and the tracker accounts for it as part of a conversation it holds, or the first
    rule about it accepts it as opening one or as related to one. The port and both
    MAC addresses of the verdict are the routing table's. *)
Theorem forward_iff c now own policy ingress frame t egress source destination :
  trk_ok t → Packet_ok (arriving_packet ingress frame) →
  (Pipeline_evaluate c now own (arriving policy ingress frame t)).1 = Forward egress source destination ↔
  own = Os_Owned
  ∧ deliverable c (Inspection_new ingress frame)
      {| fw_egress := egress; fw_source := source; fw_destination := destination |}
  ∧ match (trk_classify now (arriving_packet ingress frame) t).1 with
    | OEstablished _ _ _ _ => True
    | ONew _ _ => accepted c ingress egress frame TrOpening
    | ORelated _ _ => accepted c ingress egress frame TrRelated
    | ORefused _ => False
    end.
Proof.
  intros Hok Hp. split.
  - intros Hf.
    destruct own; [by rewrite unowned_forwards_nothing in Hf|]. split; [done|].
    destruct (deliverable_cases c (Inspection_new ingress frame)) as [[f Hdel]|Hnone].
    2:{ destruct (evaluate_undeliverable c now Os_Owned policy ingress frame t) as [[r Hr] _];
          [by right|]. congruence. }
    destruct (evaluate_deliverable c now policy ingress frame t f Hdel) as (He & _). rewrite Hf in He.
    pose proof (λ id d, law_related now (arriving_packet ingress frame) t id d Hok Hp) as Hrel.
    unfold tracked_verdict in He. destruct (trk_classify now (arriving_packet ingress frame) t) as [o t1].
    cbn [fst snd] in *. unfold accepted.
    destruct o as [id st|id d previous st|id d|refusal]; [| |rewrite bool_decide_true in He by (by apply (Hrel id d))|done];
      try (destruct (filtered _ _ _ _ _) as [[position rule]|] eqn:Hfil; [destruct (r_action rule) eqn:Hact|]);
      try done; injection He as -> -> ->; destruct f; eauto 10.
  - intros (-> & Hdel & Ho).
    destruct (evaluate_deliverable c now policy ingress frame t _ Hdel) as (-> & _).
    pose proof (λ id d, law_related now (arriving_packet ingress frame) t id d Hok Hp) as Hrel.
    unfold tracked_verdict. destruct (trk_classify now (arriving_packet ingress frame) t) as [o t1].
    cbn [fst snd fw_egress fw_source fw_destination] in *.
    destruct o as [id st|id d previous st|id d|refusal]; [| |rewrite bool_decide_true by (by apply (Hrel id d))|done];
      try done; destruct Ho as (position & rule & -> & ->); done.
Qed.

(** The tracker after any evaluation, whatever the verdict. *)
Lemma evaluate_table c now own policy ingress frame t :
  trk_ok t → Packet_ok (arriving_packet ingress frame) →
  let r := Pipeline_evaluate c now own (arriving policy ingress frame t) in
  trk_ok (ch_table r.2)
  ∧ ∀ s o, trk_view (ch_table r.2) s = Some o →
      trk_view t s = Some o
      ∨ ∃ id st f, (trk_classify now (arriving_packet ingress frame) t).1 = ONew id st
          ∧ deliverable c (Inspection_new ingress frame) f
          ∧ accepted c ingress (fw_egress f) frame TrOpening
          ∧ packet_opening (arriving_packet ingress frame) = Some o
          ∧ r.1 = Forward (fw_egress f) (fw_source f) (fw_destination f).
Proof.
  intros Hok Hp r. destruct own.
  { subst r. rewrite unowned_forwards_nothing. split; [done|]. intros s o Hs. by left. }
  destruct (deliverable_cases c (Inspection_new ingress frame)) as [[f Hdel]|Hnone].
  2:{ destruct (evaluate_undeliverable c now Os_Owned policy ingress frame t) as [_ Hr]; [by right|].
      subst r. rewrite Hr. split; [done|]. intros s o Hs. by left. }
  destruct (evaluate_deliverable c now policy ingress frame t f Hdel) as (Hv & Ht & _). fold r in Hv, Ht.
  rewrite Ht, Hv. set (p := arriving_packet ingress frame) in *. set (v := tracked_verdict _ _ _ _ _ _).
  pose proof (law_classify_ok now p t Hok Hp) as Hok1. unfold tracked_table. split.
  { destruct (trk_classify now p t).1, v; try done. by apply law_withdraw_ok. }
  intros s o Hs.
  assert (trk_view (trk_classify now p t).2 s = Some o) as Hs1
    by (destruct (trk_classify now p t).1, v; try done; by eapply law_withdraw_view).
  destruct (law_classify_view now p t s o Hok Hp Hs1) as [?|(id & st & Ho & -> & Hopen)]; [by left|]. right.
  pose proof (law_withdraw_opening now p t id st Hok Hp Ho) as Hgone.
  subst v. rewrite Ho in Hs |- *. cbn [tracked_verdict] in *.
  destruct (filtered c ingress (fw_egress f) frame TrOpening) as [[position rule]|] eqn:Hfil; [|congruence].
  destruct (r_action rule) eqn:Hact; [|congruence].
  exists id, st, f. unfold accepted. eauto 10.
Qed.

(** C3. A frame the chain drops adds nothing to the connection table: whichever
    stage dropped it, and though classifying it may have opened a flow, every flow
    in the table afterwards was in it before. *)
Theorem dropped_frame_opens_nothing c now own policy ingress frame t reason :
  trk_ok t → Packet_ok (arriving_packet ingress frame) →
  let r := Pipeline_evaluate c now own (arriving policy ingress frame t) in
  r.1 = Drop reason →
  ∀ s o, trk_view (ch_table r.2) s = Some o → trk_view t s = Some o.
Proof.
  intros Hok Hp r Hdrop s o Hs. destruct (evaluate_table c now own policy ingress frame t Hok Hp) as [_ Hview].
  destruct (Hview s o Hs) as [?|(id & st & f & _ & _ & _ & _ & Hf)]; [done|].
  fold r in Hf. congruence.
Qed.

(** Default deny: under a ruleset with no rules, an appliance holding no
    conversation drops every frame and goes on holding none. *)
Theorem empty_ruleset_denies c now own policy ingress frame t :
  trk_ok t → Packet_ok (arriving_packet ingress frame) → rs_len (cf_rules c) = 0%nat →
  (∀ s, trk_view t s = None) →
  let r := Pipeline_evaluate c now own (arriving policy ingress frame t) in
  (∃ reason, r.1 = Drop reason) ∧ ∀ s, trk_view (ch_table r.2) s = None.
Proof.
  intros Hok Hp Hempty Hnone r.
  assert (∀ egress tracking, ¬ accepted c ingress egress frame tracking) as Hdeny.
  { intros egress tracking (position & rule & Hf & _). unfold filtered, Ruleset_first_match in Hf.
    by rewrite Hempty in Hf. }
  split.
  - destruct r.1 as [egress source destination|reason] eqn:Hv; [|by eexists]. exfalso.
    apply forward_iff in Hv as (_ & _ & Ho); [|done|done].
    destruct (trk_classify now (arriving_packet ingress frame) t).1 as [| id d prev st| |] eqn:Hc;
      [by apply Hdeny in Ho| |by apply Hdeny in Ho|done].
    destruct (law_established _ _ _ _ _ _ _ Hok Hp Hc) as [o Ho']. by rewrite Hnone in Ho'.
  - intros s. destruct (trk_view (ch_table r.2) s) as [o|] eqn:Hs; [|done].
    destruct (evaluate_table c now own policy ingress frame t Hok Hp) as [_ Hview].
    destruct (Hview s o Hs) as [Hs'|(id & st & f & _ & _ & Hacc & _)]; [by rewrite Hnone in Hs'|by apply Hdeny in Hacc].
Qed.

(** A packet of a conversation the tracker holds is carried whatever the rules
    say: two configurations with the same routing table and any two rulesets give it
    the same verdict and leave the same table, and the filter counts nothing. *)
Theorem established_ignores_rules c1 c2 now own policy ingress frame t id d previous st :
  cf_table c1 = cf_table c2 →
  (trk_classify now (arriving_packet ingress frame) t).1 = OEstablished id d previous st →
  let r1 := Pipeline_evaluate c1 now own (arriving policy ingress frame t) in
  let r2 := Pipeline_evaluate c2 now own (arriving policy ingress frame t) in
  r1.1 = r2.1 ∧ ch_table r1.2 = ch_table r2.2 ∧ ch_policy r1.2 = policy.
Proof.
  intros Htable Ho. unfold Pipeline_evaluate. destruct own; [done|]. cbn [OwnershipStage_evaluate arriving ch_inspection].
  assert (AdmissionStage_evaluate (Inspection_new ingress frame) c1
    = AdmissionStage_evaluate (Inspection_new ingress frame) c2) as -> by (unfold AdmissionStage_evaluate; by rewrite Htable).
  destruct (AdmissionStage_evaluate _ c2) as [|v]; [|done].
  assert (RoutingStage_evaluate c1 (Inspection_new ingress frame)
    = RoutingStage_evaluate c2 (Inspection_new ingress frame)) as -> by (unfold RoutingStage_evaluate; by rewrite Htable).
  destruct (RoutingStage_evaluate c2 _) as [[|v] i] eqn:Hr; [|done].
  apply routing_continues in Hr as (f & -> & _). unfold ConnectionStage_classify.
  change (ch_table (arriving policy ingress frame t)) with t.
  change (packet_of (Inspection_attach_forwarding _ f)) with (arriving_packet ingress frame).
  destruct (trk_classify now (arriving_packet ingress frame) t) as [o t1]. cbn [fst] in Ho. by subst o.
Qed.

(** ** The filter and the re-decision are one policy *)

(** What the parser says of a transport and the protocol field agree. *)
Definition typed (frame : Frame) : Prop :=
  match transport frame with
  | Tcp _ => ip_protocol (Frame_ipv4 frame) = Protocol_TCP
  | Udp _ => ip_protocol (Frame_ipv4 frame) = Protocol_UDP
  | Icmp _ => ip_protocol (Frame_ipv4 frame) = Protocol_ICMP
  | _ => True
  end.

Lemma bytes_ok_split_first_chunk n l hd tl :
  bytes_ok l → split_first_chunk n l = Some (hd, tl) → bytes_ok hd ∧ bytes_ok tl.
Proof. intros Hl [-> _]%split_first_chunk_Some. by apply bytes_ok_app. Qed.

(** What the parser hands over is what the tracker expects: of any bytes it
    accepts, the addresses, ports and payload are of their widths, and the transport
    it read is of the protocol the header names. *)
Lemma parsed_frame_is_trackable bytes f ingress :
  bytes_ok bytes → Frame_parse bytes = Ok f → Packet_ok (arriving_packet ingress f) ∧ typed f.
Proof.
  intros Hb [Hbuf (_ & _ & _ & Htr)]%Frame_parse_sound. rewrite <-Hbuf in Hb.
  unfold Frame_buffer in Hb. rewrite !bytes_ok_app in Hb. destruct Hb as (_ & _ & Hip & Hpl & _).
  unfold Packet_ok, typed, arriving_packet, packet_of. cbn [pk_source pk_destination transport_bytes pk_transport in_frame Inspection_new].
  assert (match transport f with
    | Tcp h => is_u16 (tcp_source_port h) ∧ is_u16 (tcp_destination_port h)
    | Udp h => is_u16 (udp_source_port h) ∧ is_u16 (udp_destination_port h)
    | Icmp h => bytes_ok (rest_of_header h)
    | _ => True
    end ∧ match transport f with
      | Tcp _ => ip_protocol (Frame_ipv4 f) = Protocol_TCP
      | Udp _ => ip_protocol (Frame_ipv4 f) = Protocol_UDP
      | Icmp _ => ip_protocol (Frame_ipv4 f) = Protocol_ICMP
      | _ => True
      end) as [Hports Htyped].
  { rewrite Htr. unfold parse_transport, read_udp, read_tcp, read_icmp. destruct (negb _); [done|].
    destruct (Z.eqb_spec (ip_protocol (Frame_ipv4 f)) Protocol_UDP); [|
      destruct (Z.eqb_spec (ip_protocol (Frame_ipv4 f)) Protocol_TCP); [|
        destruct (Z.eqb_spec (ip_protocol (Frame_ipv4 f)) Protocol_ICMP); [|done]]];
      (destruct (split_first_chunk _ _) as [[u rest]|] eqn:Hsp; [|done]);
      destruct (bytes_ok_split_first_chunk _ _ _ _ Hpl Hsp) as [Hu _]; (split; [|done]); simpl;
      [auto with lfw|auto with lfw|]. repeat constructor; by apply byte_at_ok. }
  split; [|done]. split_all; [..|done].
  - unfold Frame_ipv4, read_ipv4, Ipv4Address_from_octets. cbn [ip_source]. auto with lfw.
  - unfold Frame_ipv4, read_ipv4, Ipv4Address_from_octets. cbn [ip_destination]. auto with lfw.
  - done.
Qed.

(** C7. Re-deciding a conversation is deciding its opening packet: for a frame that
    could leave and would open a conversation, the pass over the table keeps that
    conversation, under a rule at some position, exactly when the filter accepts the
    frame under the rule at that position. *)
Theorem redecision_agrees_with_filter c ingress frame f o position :
  typed frame → deliverable c (Inspection_new ingress frame) f →
  packet_opening (arriving_packet ingress frame) = Some o →
  admits_opening c o = Some position ↔
  ∃ rule, filtered c ingress (fw_egress f) frame TrOpening = Some (position, rule) ∧ r_action rule = Accept.
Proof.
  intros Htyped ((interface & Hif & Hen & _) & _ & Hs & Hls & Hd & Hld & _ & egress & nb & Hr & Hne & Hn & ->) Ho.
  cbn [in_ingress in_frame Inspection_new fw_egress] in *.
  assert (op_ingress o = ingress ∧ ep_address (op_source o) = ip_source (Frame_ipv4 frame)
    ∧ ep_address (op_destination o) = ip_destination (Frame_ipv4 frame)
    ∧ op_protocol o = ip_protocol (Frame_ipv4 frame)
    ∧ (if negb (op_protocol o =? Protocol_ICMP)
       then Some (ep_port (op_source o), ep_port (op_destination o)) else None) = transport_ports (transport frame)
    ∧ (if op_protocol o =? Protocol_ICMP then Some IcmpHeader_ECHO_REQUEST else None)
      = match transport frame with Icmp icmp => Some (icmp_type icmp) | _ => None end)
    as (Hi & Hsrc & Hdst & Hpr & Hports & Hicmp).
  { unfold packet_opening, arriving_packet, packet_of, typed in *. cbn [pk_transport pk_ingress pk_source pk_destination
      in_frame in_ingress Inspection_new] in Ho.
    destruct (transport frame) as [h| |h| |h| | |]; try done;
      [injection Ho as <-; by rewrite Htyped..|].
    destruct (message h) as [[id| |]|] eqn:Hm; try done. injection Ho as <-. rewrite Htyped. split_all; try done.
    unfold message in Hm.
    destruct ((icmp_type h =? IcmpHeader_ECHO_REQUEST) && (icmp_code h =? ECHO_CODE)) eqn:E.
    - apply andb_true_iff in E as [E%Z.eqb_eq _]. by rewrite E.
    - destruct ((icmp_type h =? IcmpHeader_ECHO_REPLY) && _); [done|]. by destruct (_ || _ || _). }
  unfold admits_opening. rewrite Hi, Hif, Hen, Hsrc, Hs, Hls, Hdst, Hd, Hld, Hr. cbn [negb orb].
  rewrite (proj2 (Z.eqb_neq _ _) Hne), Hn, Hports, Hicmp, Hpr.
  change (Ruleset_first_match (cf_rules c) _) with (filtered c ingress (if_port egress) frame TrOpening).
  destruct (filtered _ _ _ _ _) as [[position' rule]|]; [|by split; [|intros (? & ? & _)]].
  destruct (r_action rule) eqn:Hact.
  - split; [intros [= ->]; by exists rule|by intros (? & [= -> _] & _)].
  - split; [done|]. intros (? & [= _ ->] & ?). congruence.
Qed.

End verdict.
