(* ===== verification/PipelineSweep.v ===== *)
(** * The re-decision after a commit

    The policy sweep run beside the packet path: frames open and advance flows,
    wakeups advance the pass, flows end. From the moment a configuration is
    committed, every bucket behind the pass's cursor holds only flows that
    configuration admits, and the pass ends after a bounded number of wakeups
    whatever the traffic. *)
From S2P Require Import Prelude NetHeaders Routing Clock FlowKey FlowEntry FlowTable FlowTableInv FlowTableOps FlowTableSpec Pipeline PipelineFacts.

(** The windows of one wakeup: at least one, so a pass never stalls; at most
    sixteen, so a wakeup never costs more than the scale of the table's own index;
    and at least the share of sixteen the table's occupancy is of its capacity. *)
Theorem windows_for_bounds forwarded occupied capacity :
  0 ≤ forwarded → 0 ≤ occupied ≤ capacity → 0 < capacity < 2 ^ 32 →
  1 ≤ windows_for forwarded occupied capacity ≤ Z.of_nat OCCUPANCY_SCALE
  ∧ occupied * Z.of_nat OCCUPANCY_SCALE ≤ windows_for forwarded occupied capacity * capacity.
Proof.
  intros Hf Ho Hc. unfold windows_for, windows_for_occupancy. cbv zeta.
  change (Z.of_nat OCCUPANCY_SCALE) with 16. change (Z.of_nat WAKEUP_FRAME_BUDGET) with 128.
  change (Z.of_nat FRAMES_PER_WINDOW) with 40. rewrite (proj2 (Z.eqb_neq capacity 0)) by lia.
  assert (saturating_mul 64 occupied 16 = occupied * 16) as -> by (unfold_ints; lia).
  set (w := (occupied * 16 + capacity - 1) / capacity).
  assert (0 ≤ w ≤ 16 ∧ occupied * 16 ≤ w * capacity) as [Hw Hw'].
  { pose proof (Z.div_mod (occupied * 16 + capacity - 1) capacity ltac:(lia)) as Hd.
    pose proof (Z.mod_pos_bound (occupied * 16 + capacity - 1) capacity ltac:(lia)) as Hm. fold w in Hd.
    assert (w < 17) by (apply Z.div_lt_upper_bound; nia). assert (0 ≤ w) by (apply Z.div_pos; lia). nia. }
  clearbody w. set (spent := if 128 <? forwarded then 128 else forwarded).
  assert (0 ≤ spent ≤ 128) as Hs by (unfold spent; case_match; lia). clearbody spent.
  assert (0 ≤ (128 - spent) / 40 ≤ 3) as Hd by (Z.div_mod_to_equations; lia).
  assert (∀ x, w ≤ x → occupied * 16 ≤ x * capacity) as Hmono by (intros x Hx; nia).
  destruct (Z.ltb_spec 1 w); match goal with |- context [if ?b then _ else _] => destruct b eqn:E end;
    (split; [lia|apply Hmono; lia]).
Qed.

Section sweep.
Context {T : Type} `{!Tracker T, !TrackerLaws T}.

Definition verdict_on (c : Configuration) (o : FlowOpening) : Disposition :=
  match admits_opening c o with Some _ => Keep | None => Revoke end.

Lemma verdict_on_Keep c o : verdict_on c o = Keep ↔ is_Some (admits_opening c o).
Proof. unfold verdict_on. destruct (admits_opening c o); split; (done || by intros []). Qed.

Lemma advance_loop_spec {O} c (observe : LiveFlow → O → O) windows cursor swept o t :
  trk_ok t → (cursor < trk_capacity)%nat → swp_complete swept = false → (0 < windows)%nat →
  let '(cursor', swept', _, t') := advance_loop c observe windows cursor swept o t in
  trk_ok t' ∧ (cursor < cursor' ≤ trk_capacity)%nat ∧ (swp_complete swept' = true ↔ cursor' = trk_capacity)
  ∧ ∀ s op, trk_view t' s = Some op ↔
      trk_view t s = Some op ∧ ((cursor ≤ trk_position op < cursor')%nat → is_Some (admits_opening c op)).
Proof.
  revert cursor swept o t. induction windows as [|windows IH]; intros cursor swept o t Hok Hcur Hinc Hpos; [lia|].
  cbn [advance_loop].
  destruct (law_revisit (sweep_decision c observe) (verdict_on c) cursor o t Hok) as (Hok1 & Hnext & Hdone & Hview);
    [intros flow o'; unfold sweep_decision, verdict_on; by destruct (admits_opening _ _)|done|].
  setoid_rewrite verdict_on_Keep in Hview.
  destruct (trk_revisit (sweep_decision c observe) cursor o t) as [[rv o1] t1]. cbn [fst snd] in *.
  set (swept1 := {| swp_complete := swp_complete swept |}).
  destruct (rv_complete rv) eqn:Hc.
  { split_all; [done|lia|lia| |done]. cbn [swp_complete]. by rewrite <-Hdone. }
  assert (rv_next rv ≠ trk_capacity) as Hne by (intros E; apply Hdone in E; congruence).
  destruct windows as [|windows].
  { cbn [advance_loop]. split_all; [done|lia|lia| |done]. cbn [swp_complete swept1]. by rewrite Hinc. }
  specialize (IH (rv_next rv) swept1 o1 t1 Hok1 ltac:(lia) Hinc ltac:(lia)).
  destruct (advance_loop _ _ _ _ _ _ _) as [[[cursor' swept'] o'] t']. destruct IH as (Hok2 & Hc2 & Hd2 & Hv2).
  split_all; [done|lia|lia|exact Hd2|]. intros s op. rewrite Hv2, Hview.
  split.
  - intros [[HV H1] H2]. split; [done|]. intros Hp.
    destruct (decide (trk_position op < rv_next rv)%nat); [apply H1; lia|apply H2; lia].
  - intros [HV H]. split; [split; [done|]|]; intros Hp; apply H; lia.
Qed.

(** ** The dataplane under one configuration *)

(** The flows before a bucket are flows the configuration admits. *)
Definition admitted_below (c : Configuration) (t : T) (limit : nat) : Prop :=
  ∀ s o, trk_view t s = Some o → (trk_position o < limit)%nat → is_Some (admits_opening c o).

(** What happens between two commits: frames are evaluated, flows end, and wakeups
    work off the pass; the index counts the wakeups. *)
Inductive dataplane (c : Configuration) (start : PolicySweep * T) : nat → PolicySweep * T → Prop :=
| at_start : dataplane c start 0 start
| on_frame n s t now own policy ingress frame :
    dataplane c start n (s, t) → Packet_ok (arriving_packet ingress frame) → typed frame →
    dataplane c start n (s, ch_table (Pipeline_evaluate c now own (arriving policy ingress frame t)).2)
| on_flow_end n s t t' :
    dataplane c start n (s, t) → trk_ok t' → (∀ x o, trk_view t' x = Some o → trk_view t x = Some o) →
    dataplane c start n (s, t')
| on_wakeup n s t (O : Type) (observe : LiveFlow → O → O) (o : O) forwarded :
    dataplane c start n (s, t) → 0 ≤ forwarded →
    dataplane c start (S n)
      ((PolicySweep_advance c forwarded observe (s, o, t)).2.1.1,
       (PolicySweep_advance c forwarded observe (s, o, t)).2.2).

(** The buckets left to judge, counting the pass a commit queued behind. *)
Definition remaining (s : PolicySweep) : nat :=
  match ps_cursor s with
  | None => 0
  | Some k => (trk_capacity - k) + (if ps_deferred s then trk_capacity else 0)
  end.

Definition sweep_inv (c : Configuration) (s : PolicySweep) (t : T) : Prop :=
  trk_ok t
  ∧ match ps_cursor s with
    | Some k => (k < trk_capacity)%nat ∧ (ps_deferred s = false → admitted_below c t k)
    | None => admitted_below c t trk_capacity
    end.

(** A frame adds only flows the configuration admits. *)
Lemma evaluate_admits c now own policy ingress frame t limit :
  trk_ok t → Packet_ok (arriving_packet ingress frame) → typed frame →
  let t' := ch_table (Pipeline_evaluate c now own (arriving policy ingress frame t)).2 in
  trk_ok t' ∧ (admitted_below c t limit → admitted_below c t' limit).
Proof.
  intros Hok Hp Htyped t'. destruct (evaluate_table c now own policy ingress frame t Hok Hp) as [Hok' Hview].
  split; [done|]. intros Hadm s o Hs Hpos.
  destruct (Hview s o Hs) as [Hs'|(id & st & f & _ & Hdel & (position & rule & Hf & Hact) & Hopen & _)];
    [by eapply Hadm|]. exists position.
  apply (redecision_agrees_with_filter c ingress frame f o position Htyped Hdel Hopen). by exists rule.
Qed.

Lemma advance_inv {O} c forwarded (observe : LiveFlow → O → O) s o t :
  sweep_inv c s t → 0 ≤ forwarded →
  let r := PolicySweep_advance c forwarded observe (s, o, t) in
  sweep_inv c r.2.1.1 r.2.2 ∧ (remaining r.2.1.1 ≤ remaining s - 1)%nat.
Proof.
  intros [Hok Hinv] Hfw. unfold PolicySweep_advance. destruct (ps_cursor s) as [k|] eqn:Hk.
  2:{ cbn [fst snd]. split; [split; [done|by rewrite Hk]|]. unfold remaining. rewrite Hk. lia. }
  destruct Hinv as [Hlt Hadm]. pose proof (law_occupied t Hok) as Hocc. pose proof law_capacity as Hcap.
  destruct (windows_for_bounds forwarded (trk_occupied t) (Z.of_nat trk_capacity)) as [Hw _]; [done|lia|lia|].
  set (windows := windows_for _ _ _) in *. set (swept0 := {| swp_complete := false |}).
  pose proof (advance_loop_spec c observe (Z.to_nat windows) k swept0 o t Hok Hlt eq_refl ltac:(lia)) as Hloop.
  destruct (advance_loop _ _ _ _ _ _ _) as [[[k' swept'] o'] t']. destruct Hloop as (Hok' & Hk' & Hdone & Hview).
  cbn [fst snd]. unfold remaining. rewrite Hk. 
  assert (ps_deferred s = false → admitted_below c t' k') as Hadm'.
  { intros Hd x op Hx Hpos. apply Hview in Hx as [Hx Hjudged].
    destruct (decide (trk_position op < k)%nat); [by eapply Hadm|apply Hjudged; lia]. }
  destruct (swp_complete swept') eqn:Hc.
  - assert (k' = trk_capacity) as -> by by apply Hdone. unfold sweep_inv.
    cbn [ps_cursor ps_deferred assign]. change (ps_deferred (s <| ps_counters ::= _ |> <| ps_counters ::= _ |>)) with (ps_deferred s).
    destruct (ps_deferred s) eqn:Hd; cbn [ps_cursor ps_deferred].
    + split; [split; [done|]; split; [lia|]; intros _ x op _ Hpos; lia|lia].
    + split; [by split; [|apply Hadm']|lia].
  - unfold sweep_inv. cbn [ps_cursor ps_deferred assign].
    change (ps_deferred (s <| ps_counters ::= _ |> <| ps_counters ::= _ |>)) with (ps_deferred s).
    assert (k' ≠ trk_capacity) by (intros E; apply Hdone in E; done).
    split; [split; [done|]; split; [lia|done]|lia].
Qed.

Lemma arm_inv c generation s t :
  trk_ok t → (∀ k, ps_cursor s = Some k → (k < trk_capacity)%nat) →
  sweep_inv c (PolicySweep_arm generation s).2 t
  ∧ (remaining (PolicySweep_arm generation s).2 ≤ 2 * trk_capacity)%nat.
Proof.
  intros Hok Hcur. unfold PolicySweep_arm, st_edit, sweep_inv, remaining. cbn [snd].
  change (ps_cursor (s <| ps_generation := generation |>)) with (ps_cursor s).
  destruct (ps_cursor s) as [k|] eqn:Hk; cbn [ps_cursor ps_deferred assign].
  - rewrite Hk. specialize (Hcur k eq_refl). split; [split; [done|]; split; [done|done]|lia].
  - assert (0 < trk_capacity)%nat as Hpos0 by (pose proof (law_position {| op_ingress := 0;
      op_source := {| ep_address := 0; ep_port := 0 |}; op_destination := {| ep_address := 0; ep_port := 0 |};
      op_protocol := 0 |}); lia).
    split; [split; [done|]; split; [lia|]; intros _ x o _ Hpos; lia|]. destruct (ps_deferred _); lia.
Qed.

Lemma dataplane_inv c start n s t :
  dataplane c start n (s, t) → sweep_inv c start.1 start.2 →
  sweep_inv c s t ∧ (remaining s ≤ remaining start.1 - n)%nat.
Proof.
  intros Hrun Hinv. remember (s, t) as st eqn:Hst. revert s t Hst.
  induction Hrun as [|n s0 t0 now own policy ingress frame Hrun IH Hp Htyped|n s0 t0 t1 Hrun IH Hok Hview
    |n s0 t0 O observe o forwarded Hrun IH Hfw]; intros s t [= <- <-] || (intros s t Hst).
  - subst start. cbn [fst snd] in *. split; [done|lia].
  - destruct (IH s0 t0 eq_refl) as [[Hok Hi] Hr]. split; [|done].
    pose proof (evaluate_admits c now own policy ingress frame t0) as Hadm.
    split; [by apply (Hadm 0%nat)|]. destruct (ps_cursor s0) as [k|]; [|by apply Hadm].
    destruct Hi as [? Hi]. split; [done|]. intros Hd. apply Hadm; [done..|by apply Hi].
  - destruct (IH s0 t0 eq_refl) as [[_ Hi] Hr]. split; [|done]. split; [done|].
    assert (∀ limit, admitted_below c t0 limit → admitted_below c t1 limit) as Hadm
      by (intros limit H x op Hx; eapply H; by apply Hview).
    destruct (ps_cursor s0) as [k|]; [|by apply Hadm].
    destruct Hi as [? Hi]. split; [done|]. intros Hd. by apply Hadm, Hi.
  - destruct (IH s0 t0 eq_refl) as [Hi Hr].
    destruct (advance_inv c forwarded observe s0 o t0 Hi Hfw) as [Hi' Hr']. split; [done|]. etransitivity; [exact Hr'|lia].
Qed.

(** C2. A commit reaches every flow: from the moment a configuration is committed,
    whatever frames arrive and flows end in between, once the sweep stops running
    every flow in the table is one the configuration admits. *)
Theorem commit_reaches_every_flow c generation s t n s' t' :
  trk_ok t → (∀ k, ps_cursor s = Some k → (k < trk_capacity)%nat) →
  dataplane c ((PolicySweep_arm generation s).2, t) n (s', t') →
  PolicySweep_running s' = false →
  ∀ slot o, trk_view t' slot = Some o → is_Some (admits_opening c o).
Proof.
  intros Hok Hcur Hrun Hstop slot o Hslot. destruct (arm_inv c generation s t Hok Hcur) as [Hinv _].
  destruct (dataplane_inv c _ n s' t' Hrun Hinv) as [[_ Hi] _].
  unfold PolicySweep_running in Hstop. apply bool_decide_eq_false in Hstop.
  destruct (ps_cursor s'); [by destruct Hstop|]. eapply Hi; [done|apply law_position].
Qed.

(** C38. The pass a commit starts ends: after at most two wakeups per bucket of the
    index it is no longer running, even where the commit found a pass under way and
    queued behind it, and whatever traffic arrives in between. *)
Theorem commit_pass_ends c generation s t n s' t' :
  trk_ok t → (∀ k, ps_cursor s = Some k → (k < trk_capacity)%nat) →
  dataplane c ((PolicySweep_arm generation s).2, t) n (s', t') →
  (2 * trk_capacity ≤ n)%nat → PolicySweep_running s' = false.
Proof.
  intros Hok Hcur Hrun Hn. destruct (arm_inv c generation s t Hok Hcur) as [Hinv Hrem].
  destruct (dataplane_inv c _ n s' t' Hrun Hinv) as [[_ Hi] Hr]. cbn [fst] in Hr.
  unfold PolicySweep_running, remaining in *. apply bool_decide_eq_false. intros [k Hk]. rewrite Hk in *. lia.
Qed.

End sweep.
