(* ===== verification/FlowTracker.v ===== *)
(** * The connection table is a tracker

    Discharges [TrackerLaws] for [FlowTable]: what the pipeline is proved against is
    what the table's own theorems give. *)
From S2P Require Import Prelude NetHeaders NetHeadersFacts Routing Clock SeqNumber FlowKey FlowEntry FlowTcp FlowIcmp FlowTable FlowTableInv FlowTableOps FlowTableSpec FlowLife FlowTableRun FlowTableTheorems Pipeline PipelineFacts.

#[local] Opaque MAX_CHAIN FlowTable_bucket_of.

(** ** A flow's opening does not change over its life *)
Lemma opening_erase e : FlowEntry_opening (erase e) = FlowEntry_opening e.
Proof. done. Qed.

Lemma opening_of_halves e from_lower edit :
  FlowEntry_opening (FlowEntry_with_halves e from_lower edit) = FlowEntry_opening e.
Proof.
  unfold FlowEntry_with_halves, FlowEntry_sides.
  destruct from_lower; [destruct (edit (lower e) (upper e))|destruct (edit (upper e) (lower e))]; done.
Qed.

Lemma opening_of_step now e e' : entry_step now e e' → FlowEntry_opening e' = FlowEntry_opening e.
Proof.
  intros [e1 from_lower ev segment _ _ _|e1 from_lower next _].
  - unfold accept_segment. set (e2 := FlowEntry_with_halves _ _ _).
    transitivity (FlowEntry_opening e2); [by destruct (_ && _)|apply opening_of_halves].
  - set (e2 := FlowEntry_with_halves _ _ _). transitivity (FlowEntry_opening e2); [done|apply opening_of_halves].
Qed.

(** The opening of a flow opened from [a] to [b] says so. *)
Lemma opening_of_open e0 a b pr key from_lower ingress st now :
  FlowKey_of a b pr = (key, from_lower) → FlowKey_ok key →
  FlowEntry_opening (FlowEntry_open e0 key ingress from_lower st now)
  = {| op_ingress := ingress; op_source := a; op_destination := b; op_protocol := pr |}.
Proof.
  intros Hof ([Hl _] & [Hu _] & _). unfold FlowEntry_opening. cbn [FlowEntry_open lower_address upper_address lower_port upper_port
    fl_ingress fl_protocol FlowEntry_direction_of_lower fl_flags].
  rewrite !stored_endpoint_id by done. unfold FlowKey_of in Hof.
  destruct (Endpoint_precedes_or_equals a b); injection Hof as <- <-; by destruct a, b.
Qed.

Lemma opening_of_opened now key ingress from_lower st e a b pr :
  entry_opened now key ingress from_lower st e → FlowKey_of a b pr = (key, from_lower) → FlowKey_ok key →
  FlowEntry_opening e = {| op_ingress := ingress; op_source := a; op_destination := b; op_protocol := pr |}.
Proof.
  intros [e0 segment _|e0 st' _] Hof Hkey; rewrite opening_of_halves; by apply opening_of_open.
Qed.

Section laws.
Context (CAPACITY : nat) `{!Layout CAPACITY}.
Implicit Types (t : FlowTable) (s : nat).
Local Abbreviation wf := (wf CAPACITY).

Definition table_view (t : FlowTable) (s : nat) : option FlowOpening :=
  match entries t !! s with
  | Some e => if FlowEntry_is_occupied e then Some (FlowEntry_opening e) else None
  | None => None
  end.

Definition table_position (o : FlowOpening) : nat :=
  FlowTable_bucket_of CAPACITY (FlowKey_of (op_source o) (op_destination o) (op_protocol o)).1.

(** The view reads the flows. *)
Lemma view_flows t s o :
  table_view t s = Some o ↔ ∃ e, flows t !! s = Some e ∧ fl_state e ≠ Vacant ∧ FlowEntry_opening e = o.
Proof.
  unfold table_view. rewrite lookup_flows. destruct (entries t !! s) as [e|]; simpl.
  2:{ split; [done|]. by intros (? & ? & _). }
  destruct (FlowEntry_is_occupied e) eqn:Ho.
  - split; [intros [= <-]; exists (erase e); by apply is_occupied_true in Ho|].
    by intros (? & [= <-] & _ & <-).
  - split; [done|]. intros (? & [= <-] & Hv & _). by apply is_occupied_false in Ho.
Qed.

Lemma position_of_entry t s e :
  wf t → flows t !! s = Some e → fl_state e ≠ Vacant →
  table_position (FlowEntry_opening e) = FlowTable_bucket_of CAPACITY (entry_key e).
Proof.
  intros Hwf He Hv. unfold table_position. rewrite FlowEntry_opening_endpoints; [done|].
  by eapply (wf_keys _ _ _ (wf_f _ _ _ Hwf)).
Qed.

(** ** Which packets open flows *)
Lemma advance_echo_not_new now slot from_lower answered t id st :
  (FlowTable_advance_echo now slot from_lower answered t).1 ≠ ONew id st.
Proof.
  unfold FlowTable_advance_echo. rewrite st_bind_read. destruct (entries t !! slot) as [e|]; [|done].
  destruct (negb _); [done|]. by destruct (_ && _).
Qed.

Lemma icmp_error_not_new now p t id st : (FlowTable_icmp_error CAPACITY now p t).1 ≠ ONew id st.
Proof.
  unfold FlowTable_icmp_error. destruct (quoted _ _) as [q|err]; [|done].
  destruct (FlowKey_of _ _ _) as [key fl].
  destruct (FlowTable_find CAPACITY now key t) as [[slot|] t1] eqn:Hrun; rewrite (st_bind_run _ _ _ _ _ Hrun); [|done].
  rewrite st_bind_read. destruct (entries t1 !! slot) as [e|]; [|done].
  destruct (FlowEntry_sides e fl) as [sender peer]. destruct (negb _); [done|].
  by destruct (quoted_sequence_is_authorised _ _ _).
Qed.

Lemma echo_reply_not_new now p identifier t id st :
  (FlowTable_echo_reply CAPACITY now p identifier t).1 ≠ ONew id st.
Proof.
  unfold FlowTable_echo_reply. destruct (echo_key p identifier) as [key fl].
  destruct (FlowTable_find CAPACITY now key t) as [[slot|] t1] eqn:Hrun; rewrite (st_bind_run _ _ _ _ _ Hrun);
    [apply advance_echo_not_new|done].
Qed.

(** A packet that opens a flow has an opening, and it is the flow's key. *)
Lemma new_has_opening now p t id st key from_lower :
  Packet_ok p → (FlowTable_classify CAPACITY now p t).1 = ONew id st → packet_key p = Some (key, from_lower) →
  ∃ o, packet_opening p = Some o ∧ op_ingress o = pk_ingress p
    ∧ FlowKey_of (op_source o) (op_destination o) (op_protocol o) = (key, from_lower) ∧ FlowKey_ok key.
Proof.
  intros (Hsrc & Hdst & _ & Htr) Hnew Hkey. unfold FlowTable_classify in Hnew.
  rewrite (st_bind_run (count (λ c, c <| packets_seen ::= bump |>)) _ t tt
    (t <| counters ::= λ c, c <| packets_seen ::= bump |> |>) eq_refl) in Hnew.
  unfold packet_key, packet_opening in *.
  destruct (pk_transport p) as [h| |h| |h| | |]; try done.
  - injection Hkey as Hkey. eexists. split; [done|]. split; [done|]. split; [done|].
    eapply FlowKey_of_ok; [..|exact Hkey]; split; simpl; tauto.
  - injection Hkey as Hkey. eexists. split; [done|]. split; [done|]. split; [done|].
    eapply FlowKey_of_ok; [..|exact Hkey]; split; simpl; tauto.
  - unfold FlowTable_classify_icmp in Hnew. destruct (message h) as [[identifier|identifier|]|] eqn:Hm; try done.
    + injection Hkey as Hkey. eexists. split; [done|]. split; [done|]. split; [done|].
      assert (is_u16 identifier) as Hid.
      { unfold message in Hm. repeat case_match; simplify_eq; auto with lfw. }
      eapply FlowKey_of_ok; [..|exact Hkey]; split; simpl; done.
    + by apply echo_reply_not_new in Hnew.
    + by apply icmp_error_not_new in Hnew.
Qed.

(** ** The laws, one by one *)
Lemma classify_view now p t s o :
  wf t → Packet_ok p → table_view (FlowTable_classify CAPACITY now p t).2 s = Some o →
  table_view t s = Some o
  ∨ ∃ id st, (FlowTable_classify CAPACITY now p t).1 = ONew id st ∧ s = Z.to_nat (id_slot id)
             ∧ packet_opening p = Some o.
Proof.
  intros Hwf Hp (e & He & Hv & Hopen)%view_flows.
  destruct (classify_cases CAPACITY now p t Hp Hwf) as [(key & d & Hkey & [_ Hk _ Ho])|(_ & Hfl & _)].
  2:{ left. apply view_flows. exists e. by rewrite <-Hfl. }
  pose proof (λ id st H, new_has_opening now p t id st key d Hp H Hkey) as Hnew.
  change (flows (t <| counters ::= _ |>)) with (flows t) in *.
  set (oc := (FlowTable_classify CAPACITY now p t).1) in *.
  destruct (decide (outcome_slot oc = Some s)) as [Hs|Hs].
  2:{ left. apply view_flows. destruct (Hk s Hs) as [Heq|(e1 & e2 & _ & He2 & Hv2 & _)]; [|congruence].
      exists e. by rewrite <-Heq. }
  destruct oc as [id st|id dd prev st| |]; try done; cbn [outcome_slot] in Hs; injection Hs as Hs.
  - right. exists id, st. split; [done|]. split; [done|].
    destruct (Hnew id st eq_refl) as (o' & Ho' & Hing & Hof & Hkok).
    destruct Ho as (_ & _ & e' & (He' & _ & _) & _ & _ & _ & Hop). rewrite Hs, He in He'. injection He' as ->.
    rewrite Ho'. rewrite opening_erase, (opening_of_opened _ _ _ _ _ _ _ _ _ Hop Hof Hkok) in Hopen.
    rewrite <-Hopen, <-Hing. by destruct o'.
  - left. destruct Ho as (e0 & e' & (He0 & Hv0 & _) & _ & _ & (He' & _) & _ & _ & _ & _ & Hstep).
    rewrite Hs, He in He'. injection He' as ->. rewrite Hs in He0. apply view_flows. exists (erase e0).
    split; [done|]. split; [done|]. by rewrite <-Hopen, !opening_erase, (opening_of_step _ _ _ Hstep).
Qed.

Lemma held_view t key s e : held (flows t) key s e → is_Some (table_view t s).
Proof. intros (He & Hv & _). exists (FlowEntry_opening e). apply view_flows. by exists e. Qed.

Lemma withdraw_view id t s o :
  wf t → table_view (FlowTable_withdraw CAPACITY id t).2 s = Some o → table_view t s = Some o.
Proof.
  intros Hwf (e & He & Hv & Hopen)%view_flows. destruct (withdraw_spec CAPACITY id t Hwf) as [_ Hfl].
  rewrite Hfl in He. apply view_flows. destruct (FlowTable_withdraw CAPACITY id t).1; [|by exists e].
  rewrite list_lookup_alter in He. case_decide as Hs; [|by exists e].
  destruct (flows t !! _) as [e0|]; [|done]. simplify_eq/=.
Qed.

Lemma revisit_view {D} (f : LiveFlow → D → Disposition * D) verdict from d t :
  wf t → (∀ flow d, (f flow d).1 = verdict (lf_opening flow)) → (from < CAPACITY)%nat →
  let r := FlowTable_revisit CAPACITY f from d t in
  wf r.2 ∧ (from < rv_next r.1.1 ≤ CAPACITY)%nat ∧ (rv_complete r.1.1 = true ↔ rv_next r.1.1 = CAPACITY)
  ∧ ∀ s o, table_view r.2 s = Some o ↔
      table_view t s = Some o ∧ ((from ≤ table_position o < rv_next r.1.1)%nat → verdict o = Keep).
Proof.
  intros Hwf Hf Hfrom r.
  destruct (revisit_spec CAPACITY f (λ flow, verdict (lf_opening flow)) Hf from d t Hwf)
    as (Hwf' & Hnext & Hprog & _ & Hcomp & Hfl). fold r in Hwf', Hnext, Hprog, Hcomp, Hfl.
  rewrite Nat.min_l in * by lia. specialize (Hprog Hfrom).
  split; [done|]. split; [lia|]. split; [done|]. intros s o. rewrite !view_flows.
  split.
  - intros (e & He & Hv & Hopen). rewrite Hfl in He. destruct (flows t !! s) as [e0|] eqn:He0; [|done].
    apply (inj Some) in He. cbn beta in He. unfold revised in He.
    destruct (FlowEntry_is_occupied e0 && (from <=? _)%nat && (_ <? rv_next _)%nat) eqn:Hin.
    + unfold revise in He. destruct (verdict (lf_opening (live_flow (Z.of_nat s) e0))) eqn:Hk; [|by subst e].
      subst e0. split; [by exists e|]. intros _. by rewrite <-Hopen.
    + subst e0. split; [by exists e|]. intros Hpos. exfalso.
      rewrite <-Hopen, (position_of_entry t s e Hwf He0 Hv) in Hpos.
      rewrite (proj2 (is_occupied_true e) Hv), (proj2 (Nat.leb_le _ _)), (proj2 (Nat.ltb_lt _ _)) in Hin by lia. done.
  - intros [(e & He & Hv & Hopen) Hkeep]. exists e. split; [|done]. rewrite Hfl, He. simpl. f_equal. unfold revised.
    destruct (FlowEntry_is_occupied e && (from <=? _)%nat && (_ <? rv_next _)%nat) eqn:Hin; [|done].
    rewrite !andb_true_iff, Nat.leb_le, Nat.ltb_lt in Hin. destruct Hin as [[_ H1] H2].
    unfold revise. change (lf_opening (live_flow (Z.of_nat s) e)) with (FlowEntry_opening e).
    rewrite Hopen, Hkeep; [done|]. rewrite <-Hopen, (position_of_entry t s e Hwf He Hv). done.
Qed.

Lemma occupied_bounds t : wf t → 0 ≤ FlowTable_len t ≤ Z.of_nat CAPACITY.
Proof.
  intros Hwf. rewrite (len_exact CAPACITY None t Hwf).
  pose proof (count_state_le Vacant (flows t)) as H.
  rewrite length_flows, (wf_entries_length _ _ _ (wf_l _ _ _ Hwf)) in H. lia.
Qed.

Lemma classify_wf now p t : wf t → Packet_ok p → wf (FlowTable_classify CAPACITY now p t).2.
Proof.
  intros Hwf Hp. pose proof (classify_spec CAPACITY now p t Hwf Hp) as Hpost. unfold classify_post in Hpost.
  destruct (packet_key p) as [[key d]|]; apply Hpost.
Qed.

Lemma established_view now p t id d previous st :
  wf t → Packet_ok p → (FlowTable_classify CAPACITY now p t).1 = OEstablished id d previous st →
  is_Some (table_view t (Z.to_nat (id_slot id))).
Proof.
  intros Hwf Hp Ho.
  destruct (classify_cases CAPACITY now p t Hp Hwf) as [(key & dd & _ & [_ _ _ Hcl])|([r Hr] & _)]; [|congruence].
  rewrite Ho in Hcl. destruct Hcl as (e & e' & Hh & _). by eapply held_view.
Qed.

Lemma related_view now p t id d :
  wf t → Packet_ok p → (FlowTable_classify CAPACITY now p t).1 = ORelated id d →
  is_Some (FlowTable_flow (FlowTable_classify CAPACITY now p t).2 id)
  ∧ is_Some (table_view t (Z.to_nat (id_slot id))).
Proof.
  intros Hwf Hp Ho.
  destruct (classify_cases CAPACITY now p t Hp Hwf) as [(key & dd & _ & [_ _ _ Hcl])|([r Hr] & _)]; [|congruence].
  rewrite Ho in Hcl. destruct Hcl as (e & Hh & _ & Hg & Hfl). split; [|by eapply held_view].
  assert (held (flows (FlowTable_classify CAPACITY now p t).2) key (Z.to_nat (id_slot id)) (erase e)) as Hh'.
  { rewrite Hfl. destruct Hh as (He & Hv & Hk). destruct (flows_lookup_Some _ _ _ He) as (e2 & _ & <-). done. }
  destruct (held_flow _ key id e Hh' Hg) as (e' & Hf & _). by exists e'.
Qed.

Lemma outcome_state now p t :
  wf t → Packet_ok p →
  match (FlowTable_classify CAPACITY now p t).1 with
  | ONew _ st | OEstablished _ _ _ st => st ≠ Vacant
  | _ => True
  end.
Proof.
  intros Hwf Hp.
  destruct (classify_cases CAPACITY now p t Hp Hwf) as [(key & dd & _ & [_ _ _ Hcl])|([r ->] & _)]; [|done].
  destruct (FlowTable_classify CAPACITY now p t).1 as [id st|id d previous st| |]; [| |done|done].
  - destruct Hcl as (_ & _ & e' & (_ & Hv & _) & _ & <- & _). exact Hv.
  - destruct Hcl as (e & e' & _ & _ & _ & (_ & Hv & _) & _ & <- & _). exact Hv.
Qed.

Lemma withdrawn_view now p t id st :
  wf t → Packet_ok p → (FlowTable_classify CAPACITY now p t).1 = ONew id st →
  table_view (FlowTable_withdraw CAPACITY id (FlowTable_classify CAPACITY now p t).2).2 (Z.to_nat (id_slot id)) = None.
Proof.
  intros Hwf Hp Ho. destruct (FlowTable_classify CAPACITY now p t) as [oc t1] eqn:Hrun. cbn [fst snd] in *. subst oc.
  destruct (classify_cases CAPACITY now p t Hp Hwf) as [(key & dd & _ & [Hwf1 _ _ Hcl])|([r Hr] & _)];
    [|by rewrite Hrun in Hr].
  rewrite Hrun in Hwf1, Hcl. cbn [fst snd] in *. destruct Hcl as (_ & _ & e & Hh & Hg & _).
  destruct (held_flow t1 key id e Hh Hg) as (e' & Hf & _).
  destruct (withdraw_spec CAPACITY id t1 Hwf1) as [_ Hfl].
  assert ((FlowTable_withdraw CAPACITY id t1).1 = true) as Htrue by (rewrite (withdraw_eq CAPACITY), Hf; done).
  rewrite Htrue in Hfl. destruct (table_view _ _) as [o|] eqn:Hview; [|done].
  apply view_flows in Hview as (e2 & He2 & Hv2 & _). rewrite Hfl, list_lookup_alter_eq in He2.
  destruct Hh as (Hh & _). rewrite Hh in He2. apply (inj Some), (f_equal fl_state) in He2. by destruct Hv2.
Qed.

Lemma capacity_word : Z.of_nat CAPACITY < 2 ^ 32.
Proof. pose proof (layout_below_no_slot (CAPACITY := CAPACITY)). unfold NO_SLOT in *. unfold_ints. lia. Qed.

Lemma withdraw_wf id t : wf t → wf (FlowTable_withdraw CAPACITY id t).2.
Proof. intros Hwf. apply (withdraw_spec CAPACITY id t Hwf). Qed.

Definition flow_tracker_laws : @TrackerLaws FlowTable (flow_tracker CAPACITY) :=
  @Build_TrackerLaws FlowTable (flow_tracker CAPACITY) wf table_view table_position
    capacity_word (λ o, bucket_of_lt CAPACITY _) occupied_bounds classify_wf withdraw_wf classify_view
    established_view related_view outcome_state withdrawn_view withdraw_view (@revisit_view).

End laws.
