(* ===== verification/PipelineExamples.v ===== *)
(** * The decision pipeline: a concrete appliance

    Two ports, one neighbour behind each, one rule accepting DNS from port 0 to
    port 1, and a four-slot connection table; the pipeline theorems applied to it. *)
From S2P Require Import Prelude NetHeaders NetHeadersFacts Routing Clock SeqNumber FlowKey FlowEntry FlowTcp FlowIcmp FlowTable FlowTableInv FlowTableOps FlowTableSpec FlowLife FlowTableRun FlowTableTheorems FlowTableExamples Pipeline PipelineFacts PipelineSweep FlowTracker.

#[local] Instance tracker_4 : Tracker FlowTable := flow_tracker 4.
#[local] Instance tracker_4_laws : TrackerLaws FlowTable := flow_tracker_laws 4.

Definition port_mac (n : Z) : MacAddress := [2; 0; 0; 0; 0; n].

Definition appliance_router : Router :=
  {| interfaces := [{| if_port := 0; if_mac := port_mac 1; if_address := 0x0a000001; prefix_length := 24; enabled := true |};
                    {| if_port := 1; if_mac := port_mac 2; if_address := 0x0a000101; prefix_length := 24; enabled := true |}];
     interface_count := 2;
     neighbours := [{| nb_port := 0; nb_address := 0x0a000002; nb_mac := port_mac 3 |};
                    {| nb_port := 1; nb_address := 0x0a000102; nb_mac := port_mac 4 |}];
     neighbour_count := 2 |}.

Definition dns_rule : Rule :=
  {| r_ingress := Some 0; r_egress := Some 1; r_source := None; r_destination := None;
     r_protocol := Some Protocol_UDP; r_source_port := None;
     r_destination_port := Some {| low := 53; high := 53 |}; r_icmp_type := None; r_tracking := None;
     r_action := Accept |}.

Definition dns_rules : Ruleset := match Ruleset_build [dns_rule] with Ok r => r | Err _ => Ruleset_EMPTY end.
Definition open_appliance : Configuration := Configuration_new 1 appliance_router dns_rules.
Definition closed_appliance : Configuration := Configuration_new 2 appliance_router Ruleset_EMPTY.

(** A DNS query from 10.0.0.2 to 10.0.1.2 through port 0, byte by byte. *)
Definition query_bytes : list Z :=
  port_mac 1 ++ port_mac 3 ++ [8; 0]
  ++ [69; 0; 0; 28; 0; 0; 0; 0; 64; 17; 101; 206; 10; 0; 0; 2; 10; 0; 1; 2]
  ++ [19; 136; 0; 53; 0; 8; 0; 0].

Definition query : Frame :=
  Build_Frame (port_mac 1 ++ port_mac 3) [8; 0]
    [69; 0; 0; 28; 0; 0; 0; 0; 64; 17; 101; 206; 10; 0; 0; 2; 10; 0; 1; 2] None
    (Udp {| udp_source_port := 5000; udp_destination_port := 53; udp_length := 8; udp_checksum := 0 |})
    [19; 136; 0; 53; 0; 8; 0; 0] [].

Lemma query_bytes_ok : bytes_ok query_bytes.
Proof. repeat constructor; done. Qed.

Lemma query_ok : Packet_ok (arriving_packet 0 query).
Proof. repeat split; try done. repeat constructor; done. Qed.

Definition empty_table : FlowTable := FlowTable_new 4.
Lemma empty_table_ok : trk_ok empty_table.
Proof. apply (new_inv 4). Qed.

(** The chain's answer to the query on an empty table. *)
Example query_forwarded :
  (Pipeline_evaluate open_appliance 0 Os_Owned (arriving PolicyCounters_new 0 query empty_table)).1
  = Forward 1 (port_mac 2) (port_mac 4).
Proof. vm_compute. reflexivity. Qed.

Lemma query_deliverable :
  deliverable open_appliance (Inspection_new 0 query)
    {| fw_egress := 1; fw_source := port_mac 2; fw_destination := port_mac 4 |}.
Proof.
  split; [|split_all; try (vm_compute; reflexivity)].
  - eexists. split_all; vm_compute; reflexivity.
  - do 2 eexists. split; [vm_compute; reflexivity|]. split; [done|]. split; [vm_compute; reflexivity|done].
Qed.

Lemma forward_iff_witness : accepted open_appliance 0 1 query TrOpening.
Proof.
  destruct (proj1 (forward_iff open_appliance 0 Os_Owned PolicyCounters_new 0 query empty_table
    1 (port_mac 2) (port_mac 4) empty_table_ok query_ok)) as (_ & _ & H).
  - vm_compute. reflexivity.
  - assert ((trk_classify 0 (arriving_packet 0 query) empty_table).1
      = ONew {| id_slot := 0; id_generation := 1 |} UdpUnreplied) as E by (vm_compute; reflexivity).
    rewrite E in H. exact H.
Defined.

(** The same query where no rule admits it: dropped, and its slot given back. *)
Definition dropped_query : Verdict * Chain FlowTable :=
  Pipeline_evaluate closed_appliance 0 Os_Owned (arriving PolicyCounters_new 0 query empty_table).

Lemma dropped_frame_opens_nothing_witness :
  dropped_query.1 = Drop DR_NoPolicyMatch
  ∧ ∀ s o, trk_view (ch_table dropped_query.2) s = Some o → trk_view empty_table s = Some o.
Proof.
  split; [vm_compute; reflexivity|].
  apply (dropped_frame_opens_nothing closed_appliance 0 Os_Owned PolicyCounters_new 0 query empty_table
    DR_NoPolicyMatch empty_table_ok query_ok).
  vm_compute. reflexivity.
Defined.

Lemma empty_table_view s : trk_view empty_table s = None.
Proof. do 4 (destruct s as [|s]; [reflexivity|]). reflexivity. Qed.

(** After the query, a retransmission rides the flow under either configuration. *)
Definition after_query : FlowTable :=
  ch_table (Pipeline_evaluate open_appliance 0 Os_Owned (arriving PolicyCounters_new 0 query empty_table)).2.

Definition query_opening : FlowOpening :=
  {| op_ingress := 0; op_source := {| ep_address := 0x0a000002; ep_port := 5000 |};
     op_destination := {| ep_address := 0x0a000102; ep_port := 53 |}; op_protocol := Protocol_UDP |}.

Lemma redecision_agrees_with_filter_witness : admits_opening open_appliance query_opening = Some 0%nat.
Proof.
  apply (redecision_agrees_with_filter open_appliance 0 query
    {| fw_egress := 1; fw_source := port_mac 2; fw_destination := port_mac 4 |} query_opening 0).
  - reflexivity.
  - exact query_deliverable.
  - vm_compute. reflexivity.
  - exists dns_rule. split; vm_compute; reflexivity.
Defined.

(** The commit of the closed configuration, with the query's flow in the table: one
    wakeup judges the four buckets and takes it back. *)
Definition committed : PolicySweep := (PolicySweep_arm 2 PolicySweep_new).2.
Definition swept : PolicySweep * unit * FlowTable :=
  (PolicySweep_advance closed_appliance 0 (λ _ o, o) (committed, tt, after_query)).2.

Lemma after_query_ok : trk_ok after_query.
Proof.
  apply (evaluate_table open_appliance 0 Os_Owned PolicyCounters_new 0 query empty_table empty_table_ok query_ok).
Qed.

Lemma commit_reaches_every_flow_witness :
  PolicySweep_running swept.1.1 = false
  ∧ ∀ slot o, trk_view swept.2 slot = Some o → is_Some (admits_opening closed_appliance o).
Proof.
  split; [vm_compute; reflexivity|].
  apply (commit_reaches_every_flow closed_appliance 2 PolicySweep_new after_query 1 swept.1.1 swept.2).
  - exact after_query_ok.
  - intros k Hk. discriminate Hk.
  - apply (on_wakeup closed_appliance _ 0 committed after_query unit (λ _ o, o) tt 0); [constructor|lia].
  - vm_compute. reflexivity.
Defined.

(** Eight wakeups in a row. *)
Fixpoint wakeups (n : nat) : PolicySweep * FlowTable :=
  match n with
  | O => (committed, after_query)
  | S n =>
      let r := PolicySweep_advance closed_appliance 0 (λ _ (o : unit), o) ((wakeups n).1, tt, (wakeups n).2) in
      (r.2.1.1, r.2.2)
  end.

Lemma wakeups_run n : dataplane closed_appliance (committed, after_query) n (wakeups n).
Proof.
  induction n as [|n IH]; [constructor|]. cbn [wakeups]. destruct (wakeups n) as [s t].
  apply (on_wakeup closed_appliance _ n s t unit (λ _ o, o) tt 0); [exact IH|lia].
Qed.

Lemma commit_pass_ends_witness : PolicySweep_running (wakeups 8).1 = false.
Proof.
  apply (commit_pass_ends closed_appliance 2 PolicySweep_new after_query 8 (wakeups 8).1 (wakeups 8).2).
  - exact after_query_ok.
  - intros k Hk. discriminate Hk.
  - pose proof (wakeups_run 8) as H. destruct (wakeups 8) as [s t]. exact H.
  - simpl. lia.
Defined.
