(* ===== verification/Shared.v ===== *)
(** * Code over memory another domain maps

    Two protection domains map one region, so between any two accesses of one
    domain the other may have written. A routine over such a region is a [Prog]: a
    tree of single accesses, each a function of the memory as it stands at that
    moment. The same tree is run three ways: alone ([alone]), under any
    interference at every access ([run]), and as a thread interleaved access by
    access with another ([thread_step]). Accesses take effect in program order
    (x86 and the release/acquire pairs the source writes); a slice index out of
    bounds is [Panic]. *)
From S2P Require Import Prelude.

Section Programs.
Context {M : Type}.

Inductive Prog (A : Type) : Type :=
| Done (answer : A)
| Panic
| Access (R : Set) (access : M → R * M) (k : R → Prog A).
Arguments Done {A} answer.
Arguments Panic {A}.
Arguments Access {A} R access k.

Fixpoint prog_bind {A B} (p : Prog A) (f : A → Prog B) : Prog B :=
  match p with
  | Done a => f a
  | Panic => Panic
  | Access R access k => Access R access (λ r, prog_bind (k r) f)
  end.

(** An atomic load, and an atomic store. *)
Definition load {R : Set} (f : M → R) : Prog R := Access R (λ m, (f m, m)) Done.
Definition store (f : M → M) : Prog unit := Access unit (λ m, (tt, f m)) Done.

(** ** Running alone *)
Fixpoint alone {A} (p : Prog A) (m : M) : option A * M :=
  match p with
  | Done a => (Some a, m)
  | Panic => (None, m)
  | Access _ access k => alone (k (access m).1) (access m).2
  end.

(** ** Running under interference

    [env n] is what the other domain does to the memory before this domain's [n]th
    access. *)
Fixpoint run {A} (env : nat → M → M) (p : Prog A) (n : nat) (m : M) : option A * nat * M :=
  match p with
  | Done a => (Some a, n, m)
  | Panic => (None, n, m)
  | Access _ access k => let m := env n m in run env (k (access m).1) (S n) (access m).2
  end.

(** One access of a thread that has not finished. *)
Definition thread_step {A} (p : Prog A) (m : M) : option (Prog A * M) :=
  match p with
  | Access _ access k => Some (k (access m).1, (access m).2)
  | Done _ | Panic => None
  end.

(** ** What a routine does whatever the other domain writes

    [confined I G p Q]: where every memory the routine meets satisfies [I], the
    routine does not panic, its own accesses preserve [I] and change the memory
    only as [G] allows, and its answer satisfies [Q]. *)
Fixpoint confined {A} (I : M → Prop) (G : M → M → Prop) (p : Prog A) (Q : A → Prop) : Prop :=
  match p with
  | Done a => Q a
  | Panic => False
  | Access _ access k =>
      ∀ m, I m → I (access m).2 ∧ G m (access m).2 ∧ confined I G (k (access m).1) Q
  end.

Lemma confined_sound {A} I G (p : Prog A) Q env :
  confined I G p Q → (∀ n m, I m → I (env n m)) →
  ∀ n m, I m → ∃ a n' m', run env p n m = (Some a, n', m') ∧ Q a ∧ I m'.
Proof.
  intros Hp Henv. induction p as [a| |R access k IH]; simpl in *; intros n m Hm; [by eauto 10|done|].
  destruct (Hp _ (Henv n m Hm)) as (HI & _ & Hk). by apply IH.
Qed.

Lemma confined_bind {A B} I G (p : Prog A) (f : A → Prog B) Q R :
  confined I G p Q → (∀ a, Q a → confined I G (f a) R) → confined I G (prog_bind p f) R.
Proof.
  intros Hp Hf. induction p as [a| |T access k IH]; simpl in *; [by apply Hf|done|].
  intros m Hm. destruct (Hp m Hm) as (? & ? & Hk). split_all; auto.
Qed.

Lemma confined_weaken {A} I (G G' : M → M → Prop) (p : Prog A) (Q Q' : A → Prop) :
  confined I G p Q → (∀ m m', G m m' → G' m m') → (∀ a, Q a → Q' a) → confined I G' p Q'.
Proof.
  intros Hp HG HQ. induction p as [a| |T access k IH]; simpl in *; [auto|done|].
  intros m Hm. destruct (Hp m Hm) as (? & ? & Hk). split_all; auto.
Qed.

Lemma confined_load {R : Set} I (G : M → M → Prop) (f : M → R) (Q : R → Prop) :
  (∀ m, I m → G m m) → (∀ m, I m → Q (f m)) → confined I G (load f) Q.
Proof. simpl. auto. Qed.

Lemma confined_store I (G : M → M → Prop) (f : M → M) (Q : unit → Prop) :
  (∀ m, I m → I (f m) ∧ G m (f m)) → Q tt → confined I G (store f) Q.
Proof. simpl. intros H HQ m Hm. destruct (H m Hm). auto. Qed.

(** A routine over in at most [k] accesses, whatever it reads. *)
Fixpoint within {A} (k : nat) (p : Prog A) : Prop :=
  match p, k with
  | Done _, _ | Panic, _ => True
  | Access _ _ _, 0%nat => False
  | Access _ _ next, S k => ∀ r, within k (next r)
  end.

Lemma within_run {A} env k (p : Prog A) n m : within k p → ((run env p n m).1.2 ≤ n + k)%nat.
Proof.
  revert k n m. induction p as [a| |T access next IH]; intros k n m Hp; simpl; [lia|lia|].
  destruct k as [|k]; simpl in Hp; [done|]. specialize (IH (access (env n m)).1 k (S n) (access (env n m)).2 (Hp _)). lia.
Qed.

Lemma alone_bind {A B} (p : Prog A) (f : A → Prog B) m :
  alone (prog_bind p f) m
  = match alone p m with (Some a, m') => alone (f a) m' | (None, m') => (None, m') end.
Proof. revert m. induction p as [a| |T access k IH]; intros m; simpl; auto. Qed.

Lemma run_alone {A} (p : Prog A) n m :
  ∃ n', run (λ _ m, m) p n m = ((alone p m).1, n', (alone p m).2).
Proof. revert n m. induction p as [a| |T access k IH]; intros n m; simpl; eauto. Qed.

End Programs.
Arguments Prog M A : clear implicits.
Arguments Done {M A} answer.
Arguments Panic {M A}.
Arguments Access {M A} R access k.

Notation "'do!' x '<-' p ';' k" := (prog_bind p (λ x, k))
  (at level 20, x pattern, p at level 100, k at level 200, right associativity).

(** ** A component of a larger memory *)
Section Zoom.
Context {M N : Type} (get : M → N) (set : N → M → M).

Fixpoint zoom {A} (p : Prog N A) : Prog M A :=
  match p with
  | Done a => Done a
  | Panic => Panic
  | Access R access k => Access R (λ m, ((access (get m)).1, set (access (get m)).2 m)) (λ r, zoom (k r))
  end.

Hypothesis get_set : ∀ n m, get (set n m) = n.
Hypothesis set_set : ∀ n n' m, set n (set n' m) = set n m.
Hypothesis set_get : ∀ m, set (get m) m = m.

Lemma alone_zoom {A} (p : Prog N A) m :
  alone (zoom p) m = ((alone p (get m)).1, set (alone p (get m)).2 m).
Proof using get_set set_set set_get.
  revert m. induction p as [a| |R access k IH]; intros m; simpl; [by rewrite set_get..|].
  rewrite IH, get_set, set_set. done.
Qed.

Lemma confined_zoom {A} (I : M → Prop) (G : M → M → Prop) (J : N → Prop) (H : N → N → Prop) (p : Prog N A) Q :
  confined J H p Q → (∀ m, I m → J (get m)) →
  (∀ m n, I m → J n → H (get m) n → I (set n m) ∧ G m (set n m)) →
  confined I G (zoom p) Q.
Proof using Type.
  intros Hp HI HG. induction p as [a| |R access k IH]; simpl in *; [done|done|].
  intros m Hm. destruct (Hp _ (HI m Hm)) as (HJ & HH & Hk).
  destruct (HG m (access (get m)).2 Hm HJ HH). auto.
Qed.

End Zoom.
