(* ===== verification/Queue.v ===== *)
(** * The descriptor ring

    Models [datad/crates/queue/src/lib.rs] and the descriptor it carries
    ([datad/crates/wire/src/lib.rs]): the shared image of a single-producer
    single-consumer ring, the two handles with their private positions, and their
    operations access by access. [CAP] is the ring's const generic. *)
From S2P Require Import Prelude Shared.

(** [wire::Verdict]. *)
Inductive wire_Verdict := Transmit | Discard.
#[export] Instance wire_Verdict_eq_dec : EqDecision wire_Verdict.
Proof. solve_decision. Defined.

Definition wire_Verdict_to_bits (v : wire_Verdict) : Z :=
  match v with Transmit => 0 | Discard => 1 end.
Definition wire_Verdict_from_bits (bits : Z) : option wire_Verdict :=
  if bits =? 0 then Some Transmit else if bits =? 1 then Some Discard else None.

Record Descriptor := { d_buffer : Z; d_offset : Z; d_len : Z; d_verdict : Z }.
#[export] Instance Descriptor_eta : Eta Descriptor := λ d,
  {| d_buffer := d_buffer d; d_offset := d_offset d; d_len := d_len d; d_verdict := d_verdict d |}.
#[export] Instance Descriptor_eq_dec : EqDecision Descriptor.
Proof. solve_decision. Defined.

Definition Descriptor_ZERO : Descriptor := {| d_buffer := 0; d_offset := 0; d_len := 0; d_verdict := 0 |}.
Definition Descriptor_new (buffer offset len : Z) (verdict : wire_Verdict) : Descriptor :=
  {| d_buffer := buffer; d_offset := offset; d_len := len; d_verdict := wire_Verdict_to_bits verdict |}.

(** Four [u32] words, whatever a peer wrote. *)
Definition Descriptor_ok (d : Descriptor) : Prop :=
  is_u32 (d_buffer d) ∧ is_u32 (d_offset d) ∧ is_u32 (d_len d) ∧ is_u32 (d_verdict d).

(** ** The image *)
Record Slot := { sl_buffer : Z; sl_offset : Z; sl_len : Z; sl_verdict : Z }.
#[export] Instance Slot_eta : Eta Slot := λ s,
  {| sl_buffer := sl_buffer s; sl_offset := sl_offset s; sl_len := sl_len s; sl_verdict := sl_verdict s |}.

Definition Slot_zero : Slot := {| sl_buffer := 0; sl_offset := 0; sl_len := 0; sl_verdict := 0 |}.

Record SpscRing := { ring_head : Z; ring_tail : Z; slots : list Slot }.
#[export] Instance SpscRing_eta : Eta SpscRing := λ r,
  {| ring_head := ring_head r; ring_tail := ring_tail r; slots := slots r |}.

(** One field of one slot, written and read. *)
Definition edit_slot (i : nat) (f : Slot → Slot) : Prog SpscRing unit :=
  store (λ r, r <| slots ::= alter f i |>).
Definition read_slot (i : nat) (f : Slot → Z) : Prog SpscRing Z :=
  load (λ r, f (default Slot_zero (slots r !! i))).

Definition Slot_store (i : nat) (d : Descriptor) : Prog SpscRing unit :=
  do! _ <- edit_slot i (λ s, s <| sl_buffer := d_buffer d |>);
  do! _ <- edit_slot i (λ s, s <| sl_offset := d_offset d |>);
  do! _ <- edit_slot i (λ s, s <| sl_len := d_len d |>);
  edit_slot i (λ s, s <| sl_verdict := d_verdict d |>).

Definition Slot_load (i : nat) : Prog SpscRing Descriptor :=
  do! buffer <- read_slot i sl_buffer;
  do! offset <- read_slot i sl_offset;
  do! len <- read_slot i sl_len;
  do! verdict <- read_slot i sl_verdict;
  Done {| d_buffer := buffer; d_offset := offset; d_len := len; d_verdict := verdict |}.

(** How a loop's body ends: the next iteration, or [break]. *)
Inductive Flow (S : Type) := Next (s : S) | Break (s : S).
Arguments Next {S} s.
Arguments Break {S} s.

Section Ring.
Context (CAP : nat).

Definition MASK : Z := Z.of_nat CAP - 1.

Definition SpscRing_new : SpscRing :=
  {| ring_head := 0; ring_tail := 0; slots := replicate CAP Slot_zero |}.

Definition SpscRing_capacity : nat := Z.to_nat MASK.

(** ** The producing side *)
Record RingProducer := { rp_tail : Z }.
Definition SpscRing_producer : RingProducer := {| rp_tail := 0 |}.

Definition RingProducer_peer_head : Prog SpscRing Z := load (λ r, Z.land (ring_head r) MASK).

(** The slot at a position: the array has [CAP] elements and an index past them
    panics. *)
Definition at_slot {A} (position : Z) (f : nat → Prog SpscRing A) : Prog SpscRing A :=
  if position <? Z.of_nat CAP then f (Z.to_nat position) else Panic.

Definition RingProducer_try_enqueue (self : RingProducer) (descriptor : Descriptor)
    : Prog SpscRing (Result unit Descriptor * RingProducer) :=
  let next := Z.land (wrapping_add 32 (rp_tail self) 1) MASK in
  do! head <- RingProducer_peer_head;
  if next =? head then Done (Err descriptor, self) else
  do! _ <- at_slot (rp_tail self) (λ i, Slot_store i descriptor);
  do! _ <- store (λ r, r <| ring_tail := next |>);
  Done (Ok tt, {| rp_tail := next |}).

Definition RingProducer_len (self : RingProducer) : Prog SpscRing nat :=
  do! head <- RingProducer_peer_head;
  Done (Z.to_nat (Z.land (wrapping_sub 32 (rp_tail self) head) MASK)).
Definition RingProducer_is_empty (self : RingProducer) : Prog SpscRing bool :=
  do! len <- RingProducer_len self; Done (len =? 0)%nat.

(** ** The consuming side *)
Record RingConsumer := { rc_head : Z }.
Definition SpscRing_consumer : RingConsumer := {| rc_head := 0 |}.

Definition RingConsumer_peer_tail : Prog SpscRing Z := load (λ r, Z.land (ring_tail r) MASK).

Definition RingConsumer_try_dequeue (self : RingConsumer)
    : Prog SpscRing (option Descriptor * RingConsumer) :=
  do! tail <- RingConsumer_peer_tail;
  if rc_head self =? tail then Done (None, self) else
  do! descriptor <- at_slot (rc_head self) Slot_load;
  let head := Z.land (wrapping_add 32 (rc_head self) 1) MASK in
  do! _ <- store (λ r, r <| ring_head := head |>);
  Done (Some descriptor, {| rc_head := head |}).

Definition RingConsumer_len (self : RingConsumer) : Prog SpscRing nat :=
  do! tail <- RingConsumer_peer_tail;
  Done (Z.to_nat (Z.land (wrapping_sub 32 tail (rc_head self)) MASK)).
Definition RingConsumer_is_empty (self : RingConsumer) : Prog SpscRing bool :=
  do! len <- RingConsumer_len self; Done (len =? 0)%nat.

(** The bounded iterator: the consumer it borrows and how many it may still take. *)
Record Drain := { dr_consumer : RingConsumer; dr_remaining : nat }.
Definition RingConsumer_drain (self : RingConsumer) (limit : nat) : Drain :=
  {| dr_consumer := self; dr_remaining := limit |}.

Definition Drain_next (self : Drain) : Prog SpscRing (option Descriptor * Drain) :=
  match dr_remaining self with
  | 0%nat => Done (None, self)
  | S remaining =>
      do! (taken, consumer) <- RingConsumer_try_dequeue (dr_consumer self);
      match taken with
      | None => Done (None, {| dr_consumer := consumer; dr_remaining := S remaining |})
      | Some descriptor => Done (Some descriptor, {| dr_consumer := consumer; dr_remaining := remaining |})
      end
  end.

(** [for descriptor in ring.drain(limit) { body }]: the ring is a component of the
    memory [M] the body works on, [s] is what the body threads through, and a body
    may [break]. The last call of [next] answers nothing, hence one unit of fuel
    more than the iterator may yield. *)
Section Loop.
Context {M W : Type} (get : M → SpscRing) (set : SpscRing → M → M) (body : Descriptor → W → Prog M (Flow W)).

Fixpoint drain_loop (fuel : nat) (drain : Drain) (s : W) : Prog M (Drain * W) :=
  match fuel with
  | 0%nat => Done (drain, s)
  | S fuel =>
      do! (item, drain) <- zoom get set (Drain_next drain);
      match item with
      | None => Done (drain, s)
      | Some descriptor =>
          do! flow <- body descriptor s;
          match flow with
          | Next s => drain_loop fuel drain s
          | Break s => Done (drain, s)
          end
      end
  end.

Definition for_drain (consumer : RingConsumer) (limit : nat) (s : W) : Prog M (RingConsumer * W) :=
  do! (drain, s) <- drain_loop (1 + limit) (RingConsumer_drain consumer limit) s;
  Done (dr_consumer drain, s).
End Loop.

(** What the const assertions on [CAP] leave: a power of two from 2 to 2^32. *)
Class RingCap := ring_cap : ∃ k : nat, (1 ≤ k ≤ 32)%nat ∧ CAP = (2 ^ k)%nat.

(** A position is masked into [0..CAP]. *)
Definition position_ok (p : Z) : Prop := 0 ≤ p < Z.of_nat CAP.

(** The image a mapped region always is: [CAP] slots of words, two cursors. *)
Definition Slot_ok (s : Slot) : Prop :=
  is_u32 (sl_buffer s) ∧ is_u32 (sl_offset s) ∧ is_u32 (sl_len s) ∧ is_u32 (sl_verdict s).
Definition SpscRing_ok (r : SpscRing) : Prop :=
  is_u32 (ring_head r) ∧ is_u32 (ring_tail r) ∧ length (slots r) = CAP ∧ Forall Slot_ok (slots r).

(** ** Arithmetic of positions *)
Section Facts.
Context {HC : RingCap}.

Lemma cap_bounds : 2 ≤ Z.of_nat CAP ≤ 2 ^ 32.
Proof using HC.
  destruct ring_cap as (k & Hk & ->). rewrite Nat2Z.inj_pow.
  change (Z.of_nat 2) with 2. split.
  - change 2 with (2 ^ 1) at 1. apply Z.pow_le_mono_r; lia.
  - apply Z.pow_le_mono_r; lia.
Qed.

Lemma land_mask x : 0 ≤ x → Z.land x MASK = x mod Z.of_nat CAP.
Proof using HC.
  intros Hx. unfold MASK. destruct ring_cap as (k & Hk & ->). rewrite Nat2Z.inj_pow.
  change (Z.of_nat 2) with 2.
  rewrite <- (Z.land_ones x (Z.of_nat k)) by lia. unfold Z.ones. rewrite Z.shiftl_1_l. done.
Qed.

Lemma masked_ok x : 0 ≤ x → position_ok (Z.land x MASK).
Proof using HC.
  intros Hx. rewrite land_mask by done. pose proof cap_bounds. unfold position_ok.
  apply Z.mod_pos_bound. lia.
Qed.

Lemma advance_mask p : position_ok p → Z.land (wrapping_add 32 p 1) MASK = (p + 1) mod Z.of_nat CAP.
Proof using HC.
  intros Hp. pose proof cap_bounds. unfold position_ok, wrapping_add, wrap in *.
  rewrite land_mask by (apply Z.mod_pos_bound; lia).
  destruct ring_cap as (k & Hk & ->). rewrite Nat2Z.inj_pow in *. change (Z.of_nat 2) with 2 in *.
  replace (2 ^ 32) with (2 ^ Z.of_nat k * 2 ^ (32 - Z.of_nat k))
    by (rewrite <- Z.pow_add_r by lia; f_equal; lia).
  rewrite Z.rem_mul_r by lia.
  by rewrite (Z.mul_comm (2 ^ Z.of_nat k)), Z_mod_plus_full, Z.mod_mod by lia.
Qed.

(** ** Confinement: whatever the peer writes

    Each side against a peer that may write anything anywhere in the region, at any
    moment: its own accesses touch only what is its own. *)
Definition producer_writes (p : Z) (r r' : SpscRing) : Prop :=
  ring_head r' = ring_head r ∧ ∀ i, i ≠ Z.to_nat p → slots r' !! i = slots r !! i.
Definition consumer_writes (r r' : SpscRing) : Prop :=
  ring_tail r' = ring_tail r ∧ slots r' = slots r.

Lemma edit_slot_confined p f (Q : unit → Prop) :
  (∀ s, Slot_ok s → Slot_ok (f s)) → Q tt →
  confined SpscRing_ok (producer_writes p) (edit_slot (Z.to_nat p) f) Q.
Proof using HC.
  intros Hf HQ. apply confined_store; [|done]. intros r (Hh & Ht & Hl & Hs). split.
  - unfold SpscRing_ok; simpl. split_all; [done|done|by rewrite length_alter|].
    apply Forall_alter; [done|]. intros s Hs' ?. apply Hf. by eapply Forall_lookup_1.
  - split; [done|]. intros i Hi. simpl. by apply list_lookup_alter_ne.
Qed.

Lemma read_slot_confined i f (Q : Z → Prop) :
  (∀ s, Slot_ok s → Q (f s)) → confined SpscRing_ok consumer_writes (read_slot i f) Q.
Proof using HC.
  intros Hf. apply confined_load; [done|]. intros r (_ & _ & _ & Hs). apply Hf.
  destruct (slots r !! i) as [s|] eqn:E; simpl; [by eapply Forall_lookup_1|].
  unfold Slot_ok, Slot_zero. simpl. ints.
Qed.

Lemma Slot_store_confined p d :
  Descriptor_ok d → confined SpscRing_ok (producer_writes p) (Slot_store (Z.to_nat p) d) (λ _, True).
Proof using HC.
  intros (? & ? & ? & ?). unfold Slot_store.
  do 3 (eapply (confined_bind _ _ _ _ (λ _, True)); [apply edit_slot_confined; [|done]; intros s (? & ? & ? & ?); by split_all|intros _ _]).
  apply edit_slot_confined; [|done]. intros s (? & ? & ? & ?). by split_all.
Qed.

Lemma Slot_load_confined i : confined SpscRing_ok consumer_writes (Slot_load i) Descriptor_ok.
Proof using HC.
  unfold Slot_load.
  do 4 (eapply (confined_bind _ _ _ _ (in_u 32)); [apply read_slot_confined; by intros s (? & ? & ? & ?)|intros ? ?]).
  done.
Qed.

Lemma peer_cursor_confined (f : SpscRing → Z) G (Q : Z → Prop) :
  (∀ r, SpscRing_ok r → is_u32 (f r)) → (∀ r, SpscRing_ok r → G r r) → (∀ x, position_ok x → Q x) →
  confined SpscRing_ok G (load (λ r, Z.land (f r) MASK)) Q.
Proof using HC.
  intros Hf HG HQ. apply confined_load; [done|]. intros r Hr. apply HQ, masked_ok.
  specialize (Hf r Hr). unfold in_u in Hf. lia.
Qed.

Lemma position_u32 p : position_ok p → is_u32 p.
Proof using HC. pose proof cap_bounds. unfold position_ok, in_u. lia. Qed.

Lemma next_ok p : position_ok p → position_ok ((p + 1) mod Z.of_nat CAP).
Proof using HC. intros _. pose proof cap_bounds. unfold position_ok. apply Z.mod_pos_bound. lia. Qed.

Lemma try_enqueue_confined p d :
  position_ok p → Descriptor_ok d →
  confined SpscRing_ok (producer_writes p) (RingProducer_try_enqueue {| rp_tail := p |} d)
    (λ '(r, self), match r with
                   | Ok _ => rp_tail self = (p + 1) mod Z.of_nat CAP
                   | Err back => back = d ∧ rp_tail self = p
                   end).
Proof using HC.
  intros Hp Hd. unfold RingProducer_try_enqueue.
  eapply (confined_bind _ _ _ _ position_ok); [apply peer_cursor_confined; [by intros ? []|done|done]|].
  intros head _. cbn [rp_tail]. rewrite advance_mask by done. case_match; [done|].
  eapply (confined_bind _ _ _ _ (λ _, True)); [|intros _ _].
  { unfold at_slot. rewrite (proj2 (Z.ltb_lt p _)) by apply Hp. by apply Slot_store_confined. }
  eapply (confined_bind _ _ _ _ (λ _, True)); [|done].
  apply confined_store; [|done]. intros r (Hh & Ht & Hl & Hs). split; [|done].
  unfold SpscRing_ok; simpl. split_all; [done|by apply position_u32, next_ok|done|done].
Qed.

Lemma try_dequeue_confined h :
  position_ok h →
  confined SpscRing_ok consumer_writes (RingConsumer_try_dequeue {| rc_head := h |})
    (λ '(o, self), match o with
                   | Some d => Descriptor_ok d ∧ rc_head self = (h + 1) mod Z.of_nat CAP
                   | None => rc_head self = h
                   end).
Proof using HC.
  intros Hh. unfold RingConsumer_try_dequeue.
  eapply (confined_bind _ _ _ _ position_ok); [apply peer_cursor_confined; [by intros ? (_ & ? & _)|done|done]|].
  intros tail _. cbn [rc_head]. case_match; [done|].
  eapply (confined_bind _ _ _ _ Descriptor_ok); [|intros d Hd].
  { unfold at_slot. rewrite (proj2 (Z.ltb_lt h _)) by apply Hh. apply Slot_load_confined. }
  rewrite advance_mask by done.
  eapply (confined_bind _ _ _ _ (λ _, True)); [|done].
  apply confined_store; [|done]. intros r (Hh' & Ht & Hl & Hs). split; [|done].
  unfold SpscRing_ok; simpl. split_all; [by apply position_u32, next_ok|done..].
Qed.

(** A loop over a drain: the ring is the loop's own side of the region, [J n] what
    holds of the threaded state after [n] bodies, [K n] where the last of them broke
    off. *)
Section LoopFacts.
Context {M W : Type} (get : M → SpscRing) (set : SpscRing → M → M) (body : Descriptor → W → Prog M (Flow W)).
Context (I : M → Prop) (G : M → M → Prop) (J K : nat → W → Prop).
Hypothesis ring_of_I : ∀ m, I m → SpscRing_ok (get m).
Hypothesis ring_set_I : ∀ m r, I m → SpscRing_ok r → consumer_writes (get m) r → I (set r m) ∧ G m (set r m).
Hypothesis body_confined : ∀ n d s, Descriptor_ok d → J n s →
  confined I G (body d s) (λ f, match f with Next s' => J (1 + n) s' | Break s' => K (1 + n) s' end).
Hypothesis J_K : ∀ n s, J n s → K n s.

Lemma drain_loop_confined fuel drain s n :
  position_ok (rc_head (dr_consumer drain)) → J n s → (dr_remaining drain < fuel)%nat →
  confined I G (drain_loop get set body fuel drain s)
    (λ '(drain', s'), ∃ k, (k ≤ dr_remaining drain)%nat ∧ K (n + k) s'
       ∧ rc_head (dr_consumer drain') = (rc_head (dr_consumer drain) + Z.of_nat k) mod Z.of_nat CAP).
Proof using HC ring_of_I ring_set_I body_confined J_K.
  revert drain s n. induction fuel as [|fuel IH]; intros [[h] remaining] s n Hh HJ Hf; simpl in Hf; [lia|].
  assert (h = (h + Z.of_nat 0) mod Z.of_nat CAP) as H0.
  { simpl in Hh. unfold position_ok in Hh. simpl. rewrite Z.add_0_r. symmetry. by apply Z.mod_small. }
  cbn [drain_loop]. eapply confined_bind.
  { eapply confined_zoom; [|exact ring_of_I|exact ring_set_I].
    instantiate (1 := λ '(o, drain'), match o with
      | Some d => Descriptor_ok d ∧ S (dr_remaining drain') = remaining
                  ∧ rc_head (dr_consumer drain') = (h + 1) mod Z.of_nat CAP
      | None => rc_head (dr_consumer drain') = h
      end).
    unfold Drain_next. cbn [dr_remaining dr_consumer]. destruct remaining as [|remaining]; [done|].
    eapply confined_bind; [by apply try_dequeue_confined|].
    intros [[d|] self]; simpl; [|by intros ->]. intros [Hd ->]. by split_all. }
  intros [[d|] drain'] Hd; [|simpl; exists 0%nat; rewrite Nat.add_0_r; split_all; [lia|by apply J_K|congruence]].
  destruct Hd as (Hd & Hr & Hh'). eapply confined_bind; [by apply body_confined|].
  intros [s'|s'] HJ'; simpl.
  - eapply confined_weaken; [apply (IH drain' s' (1 + n)%nat)|done|]; [|done|lia|].
    { rewrite Hh'. by apply next_ok. }
    intros [drain2 s2] (k & Hk & HJ2 & Hh2). exists (1 + k)%nat. split_all; [simpl; lia| |].
    + by replace (n + (1 + k))%nat with (1 + n + k)%nat by lia.
    + rewrite Hh2, Hh'. pose proof cap_bounds. rewrite Zplus_mod_idemp_l. f_equal. lia.
  - exists 1%nat. split_all; [lia|by replace (n + 1)%nat with (1 + n)%nat by lia|done].
Qed.

Lemma for_drain_confined self limit s :
  position_ok (rc_head self) → J 0 s →
  confined I G (for_drain get set body self limit s)
    (λ '(self', s'), ∃ k, (k ≤ limit)%nat ∧ K k s' ∧ rc_head self' = (rc_head self + Z.of_nat k) mod Z.of_nat CAP).
Proof using HC ring_of_I ring_set_I body_confined J_K.
  intros Hh HJ. unfold for_drain. eapply confined_bind.
  { apply (drain_loop_confined _ _ _ 0); [done|done|simpl; lia]. }
  intros [drain s'] H. exact H.
Qed.
End LoopFacts.
End Facts.
End Ring.
