(* ===== verification/QueueFifo.v ===== *)
(** * The descriptor ring is a bounded FIFO

    The refinement behind [Queue]: however the accesses of one producer and one
    consumer interleave, what the two sides observe is what a first-in first-out
    queue of capacity [CAP - 1] with atomic operations allows. [Fifo] is that
    queue; [System] is the ring's image with the two sides as threads. Then the
    other half: what each side is sure of when its peer keeps to no protocol. *)
From S2P Require Import Prelude Shared Queue.

(** ** What the two sides are seen to do *)
Inductive Label :=
| CallEnqueue (d : Descriptor)
| EnqueueAnswers (r : Result unit Descriptor)
| CallDequeue
| DequeueAnswers (o : option Descriptor).

(** A labelled transition system, and its runs with the silent steps left out. *)
Inductive runs {S : Type} (step : S → option Label → S → Prop) (s : S) : list Label → S → Prop :=
| runs_nil : runs step s [] s
| runs_silent trace s1 s2 : runs step s trace s1 → step s1 None s2 → runs step s trace s2
| runs_seen trace s1 label s2 :
    runs step s trace s1 → step s1 (Some label) s2 → runs step s (trace ++ [label]) s2.

(** ** The specification: a queue whose operations take effect at one instant
    between call and answer *)
Inductive Putting := PutIdle | PutCalled (d : Descriptor) | PutDecided (r : Result unit Descriptor).
Inductive Taking := TakeIdle | TakeCalled | TakeDecided (o : option Descriptor).
Record Fifo := { queued : list Descriptor; putting : Putting; taking : Taking }.

Definition fifo_new : Fifo := {| queued := []; putting := PutIdle; taking := TakeIdle |}.

Inductive fifo_step (capacity : nat) : Fifo → option Label → Fifo → Prop :=
| fifo_call_put q k d :
    fifo_step capacity {| queued := q; putting := PutIdle; taking := k |} (Some (CallEnqueue d))
                       {| queued := q; putting := PutCalled d; taking := k |}
| fifo_put q k d :
    (length q < capacity)%nat →
    fifo_step capacity {| queued := q; putting := PutCalled d; taking := k |} None
                       {| queued := q ++ [d]; putting := PutDecided (Ok tt); taking := k |}
| fifo_full q k d :
    length q = capacity →
    fifo_step capacity {| queued := q; putting := PutCalled d; taking := k |} None
                       {| queued := q; putting := PutDecided (Err d); taking := k |}
| fifo_answer_put q k r :
    fifo_step capacity {| queued := q; putting := PutDecided r; taking := k |} (Some (EnqueueAnswers r))
                       {| queued := q; putting := PutIdle; taking := k |}
| fifo_call_take q p :
    fifo_step capacity {| queued := q; putting := p; taking := TakeIdle |} (Some CallDequeue)
                       {| queued := q; putting := p; taking := TakeCalled |}
| fifo_take d q p :
    fifo_step capacity {| queued := d :: q; putting := p; taking := TakeCalled |} None
                       {| queued := q; putting := p; taking := TakeDecided (Some d) |}
| fifo_empty p :
    fifo_step capacity {| queued := []; putting := p; taking := TakeCalled |} None
                       {| queued := []; putting := p; taking := TakeDecided None |}
| fifo_answer_take q p o :
    fifo_step capacity {| queued := q; putting := p; taking := TakeDecided o |} (Some (DequeueAnswers o))
                       {| queued := q; putting := p; taking := TakeIdle |}.

Section Refinement.
Context (CAP : nat).

(** ** The implementation: the image and two threads *)
Inductive Thread (H A : Type) := Idle (h : H) | Running (p : Prog SpscRing A).
Arguments Idle {H A} h.
Arguments Running {H A} p.

Record System := {
  image : SpscRing;
  producing : Thread RingProducer (Result unit Descriptor * RingProducer);
  consuming : Thread RingConsumer (option Descriptor * RingConsumer)
}.

Definition system_new : System :=
  {| image := SpscRing_new CAP; producing := Idle SpscRing_producer; consuming := Idle SpscRing_consumer |}.

Inductive system_step : System → option Label → System → Prop :=
| producer_calls m h k d :
    system_step {| image := m; producing := Idle h; consuming := k |} (Some (CallEnqueue d))
      {| image := m; producing := Running (RingProducer_try_enqueue CAP h d); consuming := k |}
| producer_accesses m p k p' m' :
    thread_step p m = Some (p', m') →
    system_step {| image := m; producing := Running p; consuming := k |} None
      {| image := m'; producing := Running p'; consuming := k |}
| producer_answers m r h k :
    system_step {| image := m; producing := Running (Done (r, h)); consuming := k |} (Some (EnqueueAnswers r))
      {| image := m; producing := Idle h; consuming := k |}
| consumer_calls m p h :
    system_step {| image := m; producing := p; consuming := Idle h |} (Some CallDequeue)
      {| image := m; producing := p; consuming := Running (RingConsumer_try_dequeue CAP h) |}
| consumer_accesses m p k k' m' :
    thread_step k m = Some (k', m') →
    system_step {| image := m; producing := p; consuming := Running k |} None
      {| image := m'; producing := p; consuming := Running k' |}
| consumer_answers m p o h :
    system_step {| image := m; producing := p; consuming := Running (Done (o, h)) |} (Some (DequeueAnswers o))
      {| image := m; producing := p; consuming := Idle h |}.

Context {HC : RingCap CAP}.

Definition capacity : nat := (CAP - 1)%nat.
Definition next_position (p : Z) : Z := (p + 1) mod Z.of_nat CAP.

Definition slot_of (d : Descriptor) : Slot :=
  {| sl_buffer := d_buffer d; sl_offset := d_offset d; sl_len := d_len d; sl_verdict := d_verdict d |}.

(** The queue's elements lie in the slots from the published head on. *)
Definition laid_out (m : SpscRing) (q : list Descriptor) : Prop :=
  position_ok CAP (ring_head m) ∧ length (slots m) = CAP ∧ (length q ≤ capacity)%nat
  ∧ ring_tail m = (ring_head m + Z.of_nat (length q)) mod Z.of_nat CAP
  ∧ ∀ k d, q !! k = Some d →
      slots m !! Z.to_nat ((ring_head m + Z.of_nat k) mod Z.of_nat CAP) = Some (slot_of d).

(** The producer after its first access: the field stores left, then the cursor. *)
Definition publish (next : Z) : Prog SpscRing (Result unit Descriptor * RingProducer) :=
  do! _ <- store (λ r, r <| ring_tail := next |>); Done (Ok tt, {| rp_tail := next |}).

Definition storing (j : nat) (t : Z) (d : Descriptor) : Prog SpscRing (Result unit Descriptor * RingProducer) :=
  let i := Z.to_nat t in
  let verdict := do! _ <- edit_slot i (λ s, s <| sl_verdict := d_verdict d |>); publish (next_position t) in
  let len := do! _ <- edit_slot i (λ s, s <| sl_len := d_len d |>); verdict in
  let offset := do! _ <- edit_slot i (λ s, s <| sl_offset := d_offset d |>); len in
  match j with
  | 0%nat => do! _ <- edit_slot i (λ s, s <| sl_buffer := d_buffer d |>); offset
  | 1%nat => offset
  | 2%nat => len
  | 3%nat => verdict
  | _ => publish (next_position t)
  end.

(** The first [j] fields of a slot are the descriptor's. *)
Definition stored (j : nat) (s : Slot) (d : Descriptor) : Prop :=
  ((0 < j)%nat → sl_buffer s = d_buffer d) ∧ ((1 < j)%nat → sl_offset s = d_offset d)
  ∧ ((2 < j)%nat → sl_len s = d_len d) ∧ ((3 < j)%nat → sl_verdict s = d_verdict d).

Inductive putting_as (m : SpscRing) (q : list Descriptor)
    : Thread RingProducer (Result unit Descriptor * RingProducer) → Putting → Prop :=
| as_put_idle : putting_as m q (Idle {| rp_tail := ring_tail m |}) PutIdle
| as_put_called d :
    putting_as m q (Running (RingProducer_try_enqueue CAP {| rp_tail := ring_tail m |} d)) (PutCalled d)
| as_put_storing j s d :
    (j ≤ 4)%nat → (length q < capacity)%nat → slots m !! Z.to_nat (ring_tail m) = Some s → stored j s d →
    putting_as m q (Running (storing j (ring_tail m) d)) (PutCalled d)
| as_put_decided r : putting_as m q (Running (Done (r, {| rp_tail := ring_tail m |}))) (PutDecided r).

(** The consumer after its first access: the field loads left, then the cursor. *)
Definition release (next : Z) (d : Descriptor) : Prog SpscRing (option Descriptor * RingConsumer) :=
  do! _ <- store (λ r, r <| ring_head := next |>); Done (Some d, {| rc_head := next |}).

Definition loading (j : nat) (h : Z) (d : Descriptor) : Prog SpscRing (option Descriptor * RingConsumer) :=
  let i := Z.to_nat h in
  let verdict buffer offset len :=
    do! verdict <- read_slot i sl_verdict;
    release (next_position h) {| d_buffer := buffer; d_offset := offset; d_len := len; d_verdict := verdict |} in
  let len buffer offset := do! len <- read_slot i sl_len; verdict buffer offset len in
  let offset buffer := do! offset <- read_slot i sl_offset; len buffer offset in
  match j with
  | 0%nat => do! buffer <- read_slot i sl_buffer; offset buffer
  | 1%nat => offset (d_buffer d)
  | 2%nat => len (d_buffer d) (d_offset d)
  | 3%nat => verdict (d_buffer d) (d_offset d) (d_len d)
  | _ => release (next_position h) d
  end.

Inductive taking_as (m : SpscRing) (q : list Descriptor)
    : Thread RingConsumer (option Descriptor * RingConsumer) → Taking → Prop :=
| as_take_idle : taking_as m q (Idle {| rc_head := ring_head m |}) TakeIdle
| as_take_called : taking_as m q (Running (RingConsumer_try_dequeue CAP {| rc_head := ring_head m |})) TakeCalled
| as_take_loading j d q' :
    (j ≤ 4)%nat → q = d :: q' → taking_as m q (Running (loading j (ring_head m) d)) TakeCalled
| as_take_decided o : taking_as m q (Running (Done (o, {| rc_head := ring_head m |}))) (TakeDecided o).

Definition simulates (s : System) (f : Fifo) : Prop :=
  laid_out (image s) (queued f)
  ∧ putting_as (image s) (queued f) (producing s) (putting f)
  ∧ taking_as (image s) (queued f) (consuming s) (taking f).

(** ** Positions *)
Lemma tail_ok m q : laid_out m q → position_ok CAP (ring_tail m).
Proof using HC.
  intros (_ & _ & _ & -> & _). pose proof (cap_bounds CAP). unfold position_ok. apply Z.mod_pos_bound. lia.
Qed.

(** Distinct offsets below [CAP] name distinct slots. *)
Lemma offsets_apart h a b :
  0 ≤ h → 0 ≤ a < Z.of_nat CAP → 0 ≤ b < Z.of_nat CAP →
  (h + a) mod Z.of_nat CAP = (h + b) mod Z.of_nat CAP → a = b.
Proof using Type.
  intros Hh Ha Hb E.
  assert ((a - b) mod Z.of_nat CAP = 0) as E0.
  { replace (a - b) with ((h + a) - (h + b)) by lia. rewrite Zminus_mod, E, Z.sub_diag. apply Z.mod_0_l. lia. }
  apply Z.mod_divide in E0 as [c Hc]; [|lia]. clear E.
  assert (-1 < c < 1) by nia. assert (c = 0) as -> by lia. lia.
Qed.

Lemma tail_slot_free m q k :
  laid_out m q → (length q < capacity)%nat → (k < length q)%nat →
  Z.to_nat ((ring_head m + Z.of_nat k) mod Z.of_nat CAP) ≠ Z.to_nat (ring_tail m).
Proof using HC.
  intros (Hh & _ & _ & Ht & _) Hq Hk E. pose proof (cap_bounds CAP). unfold capacity, position_ok in *.
  assert (Z.of_nat k = Z.of_nat (length q)); [|lia].
  apply (offsets_apart (ring_head m)); [lia..|]. rewrite <- Ht.
  apply Z2Nat.inj; [apply Z.mod_pos_bound; lia|rewrite Ht; apply Z.mod_pos_bound; lia|done].
Qed.

(** A store to the slot at the tail leaves the queue as it lies. *)
Lemma laid_out_tail_store m q f :
  laid_out m q → (length q < capacity)%nat → laid_out (m <| slots ::= alter f (Z.to_nat (ring_tail m)) |>) q.
Proof using HC.
  intros Hm Hq. pose proof Hm as (Hh & Hl & Hc & Ht & Hk). unfold laid_out; simpl.
  split_all; [done|by rewrite length_alter|done|done|]. intros k d Hd.
  rewrite list_lookup_alter_ne; [by apply Hk|]. symmetry. apply (tail_slot_free m q); [done..|].
  by eapply lookup_lt_Some.
Qed.

Lemma next_tail m q : laid_out m q → next_position (ring_tail m) = (ring_head m + Z.of_nat (S (length q))) mod Z.of_nat CAP.
Proof using HC.
  intros (_ & _ & _ & -> & _). pose proof (cap_bounds CAP). unfold next_position.
  rewrite Zplus_mod_idemp_l. f_equal. lia.
Qed.

Lemma stored_all s d : stored 4 s d → s = slot_of d.
Proof. destruct s, d. unfold stored, slot_of. simpl. intros (? & ? & ? & ?). f_equal; auto with lia. Qed.

Lemma laid_out_publish m q s d :
  laid_out m q → (length q < capacity)%nat → slots m !! Z.to_nat (ring_tail m) = Some s → stored 4 s d →
  laid_out (m <| ring_tail := next_position (ring_tail m) |>) (q ++ [d]).
Proof using HC.
  intros Hm Hq Hs Hd. pose proof Hm as (Hh & Hl & Hc & Ht & Hk). apply stored_all in Hd as ->.
  unfold laid_out; simpl. rewrite length_app. simpl. split_all; [done|done|lia| |].
  - rewrite (next_tail m q Hm). do 2 f_equal. lia.
  - intros k d' [[_ Hk']|[-> <-]]%lookup_snoc_Some; [by apply Hk|]. by rewrite <- Ht.
Qed.

Lemma laid_out_release m d q :
  laid_out m (d :: q) → laid_out (m <| ring_head := next_position (ring_head m) |>) q.
Proof using HC.
  intros (Hh & Hl & Hc & Ht & Hk). pose proof (cap_bounds CAP). unfold laid_out, next_position; simpl in *.
  split_all; [|done|lia| |].
  - unfold position_ok. apply Z.mod_pos_bound. lia.
  - rewrite Ht, Zplus_mod_idemp_l. f_equal. lia.
  - intros k d' Hd. specialize (Hk (S k) d' Hd). rewrite <- Hk. do 2 f_equal.
    rewrite Zplus_mod_idemp_l. f_equal. lia.
Qed.

(** ** The ring refuses exactly when the queue is full, or empty *)
Lemma tail_meets_head m q : laid_out m q → next_position (ring_tail m) = ring_head m ↔ length q = capacity.
Proof using HC.
  intros Hm. pose proof (next_tail m q Hm) as E. destruct Hm as (Hh & _ & Hc & _ & _).
  pose proof (cap_bounds CAP). unfold capacity, position_ok in *. rewrite E. split.
  - intros E1. destruct (decide (S (length q) = CAP)); [lia|].
    assert (Z.of_nat (S (length q)) = 0); [|lia]. apply (offsets_apart (ring_head m)); [lia..|].
    rewrite E1, Z.add_0_r. symmetry. apply Z.mod_small. lia.
  - intros E1. replace (Z.of_nat (S (length q))) with (1 * Z.of_nat CAP) by lia.
    rewrite Z_mod_plus_full. apply Z.mod_small. lia.
Qed.

Lemma head_meets_tail m q : laid_out m q → ring_head m = ring_tail m ↔ q = [].
Proof using HC.
  intros (Hh & _ & Hc & Ht & _). pose proof (cap_bounds CAP). unfold capacity, position_ok in *. rewrite Ht. split.
  - intros E. assert (0 = Z.of_nat (length q)) as E0.
    { apply (offsets_apart (ring_head m)); [lia..|]. rewrite <- E, Z.add_0_r. apply Z.mod_small. lia. }
    apply nil_length_inv. lia.
  - intros ->. simpl. rewrite Z.add_0_r. symmetry. apply Z.mod_small. lia.
Qed.

(** ** One access at a time *)
Lemma enqueue_first_access t d m :
  position_ok CAP t → position_ok CAP (ring_head m) →
  thread_step (RingProducer_try_enqueue CAP {| rp_tail := t |} d) m
  = Some (if next_position t =? ring_head m then Done (Err d, {| rp_tail := t |}) else storing 0 t d, m).
Proof using HC.
  intros Ht Hh. cbn -[Z.land wrapping_add]. unfold at_slot. rewrite advance_mask by done.
  rewrite (land_mask CAP (ring_head m)) by (unfold position_ok in *; lia). unfold position_ok in *.
  rewrite (Z.mod_small (ring_head m)), (proj2 (Z.ltb_lt t _)) by lia. reflexivity.
Qed.

Lemma dequeue_first_access h m :
  position_ok CAP h → position_ok CAP (ring_tail m) →
  thread_step (RingConsumer_try_dequeue CAP {| rc_head := h |}) m
  = Some (if h =? ring_tail m then Done (None, {| rc_head := h |}) else loading 0 h Descriptor_ZERO, m).
Proof using HC.
  intros Hh Ht. cbn -[Z.land wrapping_add]. unfold at_slot. rewrite advance_mask by done.
  rewrite (land_mask CAP (ring_tail m)) by (unfold position_ok in *; lia). unfold position_ok in *.
  rewrite (Z.mod_small (ring_tail m)), (proj2 (Z.ltb_lt h _)) by lia. reflexivity.
Qed.

Lemma some_pair {A B} (a c : A) (b d : B) : Some (a, b) = Some (c, d) → c = a ∧ d = b.
Proof. by intros [= -> ->]. Qed.

Lemma storing_access j t d m p' m' :
  (j < 4)%nat → thread_step (storing j t d) m = Some (p', m') →
  p' = storing (S j) t d ∧ ∃ f, m' = m <| slots ::= alter f (Z.to_nat t) |> ∧ ∀ s, stored j s d → stored (S j) (f s) d.
Proof.
  intros Hj. do 4 (destruct j as [|j]; [intros [= <- <-]; split; [done|]; eexists; split; [done|];
    unfold stored; simpl; intros s (? & ? & ? & ?); auto with lia|]). lia.
Qed.

Lemma loading_access j h d m k' m' :
  (j < 4)%nat → slots m !! Z.to_nat h = Some (slot_of d) →
  thread_step (loading j h d) m = Some (k', m') → k' = loading (S j) h d ∧ m' = m.
Proof.
  intros Hj Hs. do 4 (destruct j as [|j]; [cbn; rewrite Hs; intros [= <- <-]; by destruct d|]). lia.
Qed.

(** ** One side's part of the relation does not depend on the other's accesses *)
Lemma putting_as_frame m m' q q' th st :
  ring_tail m' = ring_tail m → slots m' = slots m → (length q' ≤ length q)%nat →
  putting_as m q th st → putting_as m' q' th st.
Proof.
  intros Et Es Hq H. inversion H; subst; rewrite <- Et in *; try constructor.
  eapply as_put_storing; [done|lia|by rewrite Es|done].
Qed.

Lemma taking_as_frame m m' q q' th st :
  ring_head m' = ring_head m → q `prefix_of` q' → taking_as m q th st → taking_as m' q' th st.
Proof.
  intros Eh [r ->] H. inversion H; subst; rewrite <- Eh in *; try constructor.
  eapply as_take_loading; [done|]. by rewrite <- app_comm_cons.
Qed.

Ltac open_sim := unfold simulates; cbn [image producing consuming queued putting taking]; split_all.

(** A step of the producer is nothing, a put or a refusal of the queue. *)
Lemma producer_simulated m q p k p' m' st kt :
  laid_out m q → putting_as m q (Running p) st → taking_as m q k kt → thread_step p m = Some (p', m') →
  ∃ f, (f = {| queued := q; putting := st; taking := kt |}
        ∨ fifo_step capacity {| queued := q; putting := st; taking := kt |} None f)
    ∧ simulates {| image := m'; producing := Running p'; consuming := k |} f.
Proof using HC.
  intros Hm Hp Hk Hstep. inversion Hp as [|d|j s d Hj Hq Hs Hd|r]; subst; [| |done].
  - rewrite enqueue_first_access in Hstep by (by eapply tail_ok || apply Hm).
    destruct (next_position (ring_tail m) =? ring_head m) eqn:E; apply some_pair in Hstep as [-> ->].
    + apply Z.eqb_eq, (tail_meets_head m q Hm) in E. eexists. split; [right; by apply fifo_full|].
      open_sim; [done|constructor|done].
    + apply Z.eqb_neq in E. rewrite (tail_meets_head m q Hm) in E.
      assert (length q < capacity)%nat by (destruct Hm as (_ & _ & ? & _); lia).
      destruct (lookup_lt_is_Some_2 (slots m) (Z.to_nat (ring_tail m))) as [s Hs].
      { pose proof (tail_ok m q Hm) as Ht. unfold position_ok in Ht. destruct Hm as (_ & -> & _). lia. }
      eexists. split; [by left|]. open_sim; [done| |done].
      eapply as_put_storing; [lia|done|done|]. unfold stored. auto with lia.
  - destruct (decide (j = 4%nat)) as [->|].
    + injection Hstep as <- <-. eexists. split; [right; by apply fifo_put|]. open_sim.
      * by eapply laid_out_publish.
      * exact (as_put_decided (m <| ring_tail := next_position (ring_tail m) |>) (q ++ [d]) (Ok tt)).
      * eapply taking_as_frame; [| |done]; [done|by eexists].
    + apply storing_access in Hstep as [-> (f & -> & Hf)]; [|lia].
      eexists. split; [by left|]. open_sim.
      * by apply laid_out_tail_store.
      * refine (as_put_storing (m <| slots ::= alter f (Z.to_nat (ring_tail m)) |>) q (S j) (f s) d _ Hq _ (Hf s Hd)); [lia|].
        simpl. by rewrite list_lookup_alter_eq, Hs.
      * eapply taking_as_frame; [| |done]; reflexivity.
Qed.

(** A step of the consumer is nothing, a take or a refusal of the queue. *)
Lemma consumer_simulated m q p k k' m' st kt :
  laid_out m q → putting_as m q p st → taking_as m q (Running k) kt → thread_step k m = Some (k', m') →
  ∃ f, (f = {| queued := q; putting := st; taking := kt |}
        ∨ fifo_step capacity {| queued := q; putting := st; taking := kt |} None f)
    ∧ simulates {| image := m'; producing := p; consuming := Running k' |} f.
Proof using HC.
  intros Hm Hp Hk Hstep. inversion Hk as [| |j d q' Hj Hq|o]; subst; [| |done].
  - rewrite dequeue_first_access in Hstep by (by eapply tail_ok || apply Hm).
    destruct (ring_head m =? ring_tail m) eqn:E; apply some_pair in Hstep as [-> ->].
    + apply Z.eqb_eq, (head_meets_tail m q Hm) in E as ->. eexists. split; [right; apply fifo_empty|].
      open_sim; [done|done|constructor].
    + apply Z.eqb_neq in E. rewrite (head_meets_tail m q Hm) in E. destruct q as [|d q]; [done|].
      eexists. split; [by left|]. open_sim; [done..|]. by apply (as_take_loading m (d :: q) 0 d q); [lia|].
  - destruct (decide (j = 4%nat)) as [->|].
    + injection Hstep as <- <-. eexists. split; [right; apply fifo_take|]. open_sim.
      * by eapply laid_out_release.
      * eapply putting_as_frame; [| | |done]; [done..|simpl; lia].
      * exact (as_take_decided (m <| ring_head := next_position (ring_head m) |>) q' (Some d)).
    + apply loading_access in Hstep as [-> ->]; [|lia|].
      * eexists. split; [by left|]. open_sim; [done..|]. by apply (as_take_loading m (d :: q') (S j) d q'); [lia|].
      * destruct Hm as (Hh & _ & _ & _ & Hs). rewrite <- (Hs 0%nat d eq_refl). do 2 f_equal.
        unfold position_ok in Hh. simpl. rewrite Z.add_0_r. symmetry. by apply Z.mod_small.
Qed.

Lemma storing_unfinished j t d m : is_Some (thread_step (storing j t d) m).
Proof. do 4 (destruct j as [|j]; [by eexists|]). by eexists. Qed.

Lemma loading_unfinished j h d m : is_Some (thread_step (loading j h d) m).
Proof. do 4 (destruct j as [|j]; [by eexists|]). by eexists. Qed.

Lemma put_answers_decided m q r h st :
  putting_as m q (Running (Done (r, h))) st → st = PutDecided r ∧ h = {| rp_tail := ring_tail m |}.
Proof.
  inversion 1 as [|?|j s d ???? E|]; [|done].
  destruct (storing_unfinished j (ring_tail m) d m) as [? Hs]. by rewrite E in Hs.
Qed.

Lemma take_answers_decided m q o h st :
  taking_as m q (Running (Done (o, h))) st → st = TakeDecided o ∧ h = {| rc_head := ring_head m |}.
Proof.
  inversion 1 as [| |j d q0 ?? E|]; [|done].
  destruct (loading_unfinished j (ring_head m) d m) as [? Hs]. by rewrite E in Hs.
Qed.

Lemma step_simulated s label s' f :
  simulates s f → system_step s label s' →
  ∃ f', simulates s' f' ∧ ((label = None ∧ f' = f) ∨ fifo_step capacity f label f').
Proof using HC.
  intros (Hm & Hp & Hk) Hstep. destruct f as [q st kt]. inversion Hstep; subst; cbn [image producing consuming queued putting taking] in *.
  - inversion Hp; subst. eexists. split; [|right; constructor]. open_sim; [done|constructor|done].
  - edestruct producer_simulated as (f & Hf & Hs); [done..|]. exists f. split; [done|]. destruct Hf; auto.
  - apply put_answers_decided in Hp as [-> ->]. eexists. split; [|right; constructor]. open_sim; [done|constructor|done].
  - inversion Hk; subst. eexists. split; [|right; constructor]. open_sim; [done|done|constructor].
  - edestruct consumer_simulated as (f & Hf & Hs); [done..|]. exists f. split; [done|]. destruct Hf; auto.
  - apply take_answers_decided in Hk as [-> ->]. eexists. split; [|right; constructor]. open_sim; [done|done|constructor].
Qed.

Lemma system_new_simulates : simulates system_new fifo_new.
Proof using HC.
  pose proof (cap_bounds CAP). unfold simulates, laid_out. simpl. split_all; [| | | | | |constructor].
  - unfold position_ok. lia.
  - apply length_replicate.
  - unfold capacity. lia.
  - done.
  - intros k d Hk. by rewrite lookup_nil in Hk.
  - apply (as_put_idle (SpscRing_new CAP)).
Qed.

Lemma runs_simulated trace s :
  runs system_step system_new trace s → ∃ f, runs (fifo_step capacity) fifo_new trace f ∧ simulates s f.
Proof using HC.
  induction 1 as [|trace s1 s2 _ (f & Hf & Hsim) Hstep|trace s1 label s2 _ (f & Hf & Hsim) Hstep].
  - eexists. split; [constructor|apply system_new_simulates].
  - destruct (step_simulated _ _ _ _ Hsim Hstep) as (f' & Hs' & [[_ ->]|Hfs]); [eauto|].
    exists f'. split; [by eapply runs_silent|done].
  - destruct (step_simulated _ _ _ _ Hsim Hstep) as (f' & Hs' & [[? _]|Hfs]); [done|].
    exists f'. split; [by eapply runs_seen|done].
Qed.

(** Neither side's array index is ever out of bounds. *)
Lemma simulates_no_panic s f : simulates s f → producing s ≠ Running Panic ∧ consuming s ≠ Running Panic.
Proof using HC.
  intros (_ & Hp & Hk). split; intros E; rewrite E in *.
  - inversion Hp as [|?|j ? d ???? E'|].
    destruct (storing_unfinished j (ring_tail (image s)) d (image s)) as [? Hs]. by rewrite E' in Hs.
  - inversion Hk as [| |j d ??? E'|].
    destruct (loading_unfinished j (ring_head (image s)) d (image s)) as [? Hs]. by rewrite E' in Hs.
Qed.

(** ** What a run hands over *)

(** The descriptors a consumer was given, and those a producer was told were
    accepted: an acceptance is of the descriptor of the call before it. *)
Definition delivered (trace : list Label) : list Descriptor :=
  omap (λ label, match label with DequeueAnswers o => o | _ => None end) trace.

Definition last_call (trace : list Label) : option Descriptor :=
  last (omap (λ label, match label with CallEnqueue d => Some d | _ => None end) trace).

Inductive accepted : list Label → list Descriptor → Prop :=
| accepted_nil : accepted [] []
| accepted_ok trace ds d :
    accepted trace ds → last_call trace = Some d → accepted (trace ++ [EnqueueAnswers (Ok tt)]) (ds ++ [d])
| accepted_other trace ds label :
    accepted trace ds → label ≠ EnqueueAnswers (Ok tt) → accepted (trace ++ [label]) ds.

Definition put_pending (p : Putting) (trace : list Label) : list Descriptor :=
  match p with PutDecided (Ok _) => from_option (λ d, [d]) [] (last_call trace) | _ => [] end.
Definition take_pending (k : Taking) : list Descriptor :=
  match k with TakeDecided (Some d) => [d] | _ => [] end.

Lemma last_call_snoc trace label :
  last_call (trace ++ [label]) = match label with CallEnqueue d => Some d | _ => last_call trace end.
Proof.
  unfold last_call. rewrite omap_app. destruct label; simpl; [by rewrite last_snoc|by rewrite app_nil_r..].
Qed.

Lemma delivered_snoc trace label :
  delivered (trace ++ [label]) = delivered trace ++ match label with DequeueAnswers (Some d) => [d] | _ => [] end.
Proof. unfold delivered. rewrite omap_app. by destruct label as [| | |[]]. Qed.

(** Every descriptor accepted is delivered, held by one side, or queued: once, and
    in order. *)
Definition fifo_accounts (trace : list Label) (f : Fifo) : Prop :=
  (length (queued f) ≤ capacity)%nat
  ∧ match putting f with
    | PutCalled d => last_call trace = Some d
    | PutDecided (Ok _) => is_Some (last_call trace)
    | _ => True
    end
  ∧ ∃ ds, accepted trace ds
      ∧ delivered trace ++ take_pending (taking f) ++ queued f = ds ++ put_pending (putting f) trace.

Lemma fifo_runs_account trace f : runs (fifo_step capacity) fifo_new trace f → fifo_accounts trace f.
Proof using Type.
  induction 1 as [|trace f1 f2 _ (Hl & Hp & ds & Hds & E) Hstep|trace f1 label f2 _ (Hl & Hp & ds & Hds & E) Hstep].
  - unfold fifo_accounts; simpl; split_all; [lia|done|]. exists []. split; [constructor|done].
  - inversion Hstep; subst; unfold fifo_accounts; simpl in *; split_all; rewrite ?length_app; simpl; try lia; try done;
      try (exists ds; split; [done|]; simpl in *).
    all: try exact E. rewrite Hp. simpl. rewrite app_nil_r in E. by rewrite <- E, <- !app_assoc.
  - inversion Hstep; subst; unfold fifo_accounts; simpl in *; split_all; try done; rewrite ?last_call_snoc; try done.
    + exists ds. rewrite delivered_snoc, app_nil_r. split; [by constructor|done].
    + destruct r as [[]|d].
      * destruct Hp as [d Hd]. exists (ds ++ [d]). rewrite delivered_snoc, !app_nil_r. split; [by constructor|].
        by rewrite Hd in E.
      * exists ds. rewrite delivered_snoc, app_nil_r. split; [by constructor|done].
    + exists ds. rewrite delivered_snoc, app_nil_r. split; [by constructor|].
      unfold put_pending. by rewrite last_call_snoc.
    + exists ds. rewrite delivered_snoc. split; [by constructor|].
      rewrite <- app_assoc. unfold put_pending in *. rewrite last_call_snoc. by destruct o.
Qed.
End Refinement.

(** C11. However the single accesses of one producer and one consumer interleave,
    what the two sides see is a run of a first-in first-out queue of [CAP - 1]
    descriptors whose operations each take effect at one instant between call and
    answer: an enqueue is refused only of a full queue, a dequeue only of an empty
    one, and no index leaves the array. *)
Theorem ring_refines_fifo CAP trace s :
  RingCap CAP → runs (system_step CAP) (system_new CAP) trace s →
  (∃ f, runs (fifo_step (CAP - 1)) fifo_new trace f ∧ (length (queued f) ≤ CAP - 1)%nat)
  ∧ producing s ≠ Running _ _ Panic ∧ consuming s ≠ Running _ _ Panic.
Proof.
  intros HC Hs. destruct (runs_simulated CAP _ _ Hs) as (f & Hf & Hsim).
  split; [|by eapply simulates_no_panic]. exists f. split; [done|]. apply Hsim.
Qed.

(** Hand-over through the ring neither loses, repeats nor reorders: at every
    moment of every interleaving, the descriptors delivered are the first of those
    accepted, and what is accepted and not yet delivered, no more than [CAP], is
    still in the ring or in a call that has not answered. *)
Theorem ring_delivers_in_order CAP trace s :
  RingCap CAP → runs (system_step CAP) (system_new CAP) trace s →
  ∃ ds unanswered transit, accepted trace ds ∧ (length unanswered ≤ 1)%nat ∧ (length transit ≤ CAP)%nat
    ∧ delivered trace ++ transit = ds ++ unanswered.
Proof.
  intros HC Hs. destruct (runs_simulated CAP _ _ Hs) as (f & Hf & _).
  destruct (fifo_runs_account CAP _ _ Hf) as (Hl & _ & ds & Hds & E).
  exists ds, (put_pending (putting f) trace), (take_pending (taking f) ++ queued f). split_all; [done| | |done].
  - unfold put_pending. destruct (putting f) as [| |[]]; simpl; try lia. destruct (last_call trace); simpl; lia.
  - rewrite length_app. pose proof (cap_bounds CAP). unfold capacity in Hl.
    destruct (taking f) as [| |[]]; simpl; lia.
Qed.

(** ** Against a peer that keeps to no protocol *)
Lemma try_enqueue_within CAP self d : within 6 (RingProducer_try_enqueue CAP self d).
Proof. cbn [RingProducer_try_enqueue prog_bind RingProducer_peer_head load within]. intros head.
  destruct (_ =? head); [done|]. unfold at_slot. by destruct (_ <? _); simpl. Qed.

Lemma try_dequeue_within CAP self : within 6 (RingConsumer_try_dequeue CAP self).
Proof. cbn [RingConsumer_try_dequeue prog_bind RingConsumer_peer_tail load within]. intros tail.
  destruct (_ =? tail); [done|]. unfold at_slot. by destruct (_ <? _); simpl. Qed.


(** ** A run by schedule, for the examples *)
Inductive Move := ProducerCalls (d : Descriptor) | ProducerGoes | ConsumerCalls | ConsumerGoes.

Section Schedule.
Context (CAP : nat).

Definition move (mv : Move) (s : System) : option (option Label * System) :=
  match mv, producing s, consuming s with
  | ProducerCalls d, Idle _ _ h, _ =>
      Some (Some (CallEnqueue d), {| image := image s; producing := Running _ _ (RingProducer_try_enqueue CAP h d);
                                     consuming := consuming s |})
  | ProducerGoes, Running _ _ (Done (r, h)), _ =>
      Some (Some (EnqueueAnswers r), {| image := image s; producing := Idle _ _ h; consuming := consuming s |})
  | ProducerGoes, Running _ _ (Access R access k), _ =>
      Some (None, {| image := (access (image s)).2; producing := Running _ _ (k (access (image s)).1);
                     consuming := consuming s |})
  | ConsumerCalls, _, Idle _ _ h =>
      Some (Some CallDequeue, {| image := image s; producing := producing s;
                                 consuming := Running _ _ (RingConsumer_try_dequeue CAP h) |})
  | ConsumerGoes, _, Running _ _ (Done (o, h)) =>
      Some (Some (DequeueAnswers o), {| image := image s; producing := producing s; consuming := Idle _ _ h |})
  | ConsumerGoes, _, Running _ _ (Access R access k) =>
      Some (None, {| image := (access (image s)).2; producing := producing s;
                     consuming := Running _ _ (k (access (image s)).1) |})
  | _, _, _ => None
  end.

Fixpoint perform (moves : list Move) (trace : list Label) (s : System) : option (list Label * System) :=
  match moves with
  | [] => Some (trace, s)
  | mv :: moves =>
      match move mv s with
      | Some (None, s) => perform moves trace s
      | Some (Some label, s) => perform moves (trace ++ [label]) s
      | None => None
      end
  end.

Lemma move_steps mv s label s' : move mv s = Some (label, s') → system_step CAP s label s'.
Proof.
  destruct mv, s as [m [hp|[[r hp]| |R1 a1 k1]] [hc|[[o hc]| |R2 a2 k2]]]; simpl; try done;
    intros [= <- <-]; by econstructor.
Qed.

Lemma perform_runs moves trace s0 s trace' s' :
  runs (system_step CAP) s0 trace s → perform moves trace s = Some (trace', s') →
  runs (system_step CAP) s0 trace' s'.
Proof.
  revert trace s. induction moves as [|mv moves IH]; simpl; intros trace s Hs; [by intros [= <- <-]|].
  destruct (move mv s) as [[[label|] s1]|] eqn:E; [| |done]; apply move_steps in E; apply IH.
  - by eapply runs_seen.
  - by eapply runs_silent.
Qed.
End Schedule.

(** A ring of two slots: an enqueue overtaken by a dequeue that finds nothing, then
    a dequeue whose loads interleave with a refused enqueue. *)
Definition packet (i : Z) : Descriptor := Descriptor_new i 12 60 Transmit.

Definition two_slots_moves : list Move :=
  [ProducerCalls (packet 1); ProducerGoes; ProducerGoes; ConsumerCalls; ConsumerGoes; ConsumerGoes]
  ++ replicate 5 ProducerGoes ++ [ConsumerCalls; ConsumerGoes; ConsumerGoes; ProducerCalls (packet 2)]
  ++ replicate 2 ProducerGoes ++ replicate 5 ConsumerGoes.

Definition two_slots_trace : list Label :=
  [CallEnqueue (packet 1); CallDequeue; DequeueAnswers None; EnqueueAnswers (Ok tt); CallDequeue;
   CallEnqueue (packet 2); EnqueueAnswers (Err (packet 2)); DequeueAnswers (Some (packet 1))].

#[export] Instance two_cap : RingCap 2.
Proof. exists 1%nat. split; [lia|reflexivity]. Qed.

Definition two_slots_end : System := from_option snd (system_new 2) (perform 2 two_slots_moves [] (system_new 2)).

Lemma two_slots_runs : runs (system_step 2) (system_new 2) two_slots_trace two_slots_end.
Proof. apply (perform_runs 2 two_slots_moves [] _ (system_new 2)); [constructor|]. vm_compute. reflexivity. Qed.

Lemma ring_refines_fifo_witness :
  ∃ f, runs (fifo_step 1) fifo_new two_slots_trace f ∧ (length (queued f) ≤ 1)%nat.
Proof. apply (ring_refines_fifo 2 two_slots_trace two_slots_end); [exact two_cap|exact two_slots_runs]. Defined.

(** A peer that rewinds both cursors and overwrites every slot before each access. *)
Definition vandal (n : nat) (r : SpscRing) : SpscRing :=
  {| ring_head := 7; ring_tail := 4294967295; slots := replicate 2 Slot_zero |}.

