(* ===== verification/PacketBuffer.v ===== *)
(** * Packet buffers and their ledger

    Models [datad/crates/packet-buffer/src/lib.rs]: the pool of fixed-size buffers
    two domains and a device share, with the one bounds check behind its accessors,
    and the domain-private ledger of which buffers may be handed out. [N] is the
    const generic of both. The copies are byte by byte, so a peer may write between
    any two of them. *)
From S2P Require Import Prelude Shared.

Definition BUFFER_SIZE : nat := 2048.
Definition checked_add (w x y : Z) : option Z := if x + y <? 2 ^ w then Some (x + y) else None.

(** [usize] is 64 bits wide. *)
Definition span_fits (offset len : Z) : bool :=
  match checked_add 64 offset len with
  | Some end_ => end_ <=? Z.of_nat BUFFER_SIZE
  | None => false
  end.

Record WriteOutsideBuffer := { wob_index : Z; wob_offset : Z; wob_len : Z }.

Inductive CopyOutError :=
| SpanOutsideBuffer (index offset len : Z)
| DestinationTooSmall (len capacity : Z).

Inductive ReturnError :=
| OutOfRange (index : Z)
| NotOutstanding (index : Z)
| ListFull (index : Z).
#[export] Instance ReturnError_eq_dec : EqDecision ReturnError.
Proof. solve_decision. Defined.

Record BufferPool := { buffers : list (list Z) }.
#[export] Instance BufferPool_eta : Eta BufferPool := λ p, {| buffers := buffers p |}.

(** One byte of one buffer. *)
Definition pool_byte (index at_ : nat) (p : BufferPool) : Z :=
  byte_at (default [] (buffers p !! index)) at_.
Definition set_pool_byte (index at_ : nat) (byte : Z) (p : BufferPool) : BufferPool :=
  p <| buffers ::= alter (λ b, <[at_ := byte]> b) index |>.

(** [copy_nonoverlapping] into a buffer, and out of one. *)
Fixpoint copy_in (index at_ : nat) (data : list Z) : Prog BufferPool unit :=
  match data with
  | [] => Done tt
  | byte :: data => do! _ <- store (set_pool_byte index at_ byte); copy_in index (S at_) data
  end.
Fixpoint copy_from (index at_ len : nat) : Prog BufferPool (list Z) :=
  match len with
  | 0%nat => Done []
  | S len =>
      do! byte <- load (pool_byte index at_);
      do! bytes <- copy_from index (S at_) len;
      Done (byte :: bytes)
  end.

Section Pool.
Context (N : nat).

Definition BufferPool_new : BufferPool := {| buffers := replicate N (replicate BUFFER_SIZE 0) |}.

(** The buffer whose base the span is of. *)
Definition BufferPool_span (index offset len : Z) : option nat :=
  if (index <? Z.of_nat N) && span_fits offset len then Some (Z.to_nat index) else None.

Definition BufferPool_write_at (index offset : Z) (data : list Z)
    : Prog BufferPool (Result unit WriteOutsideBuffer) :=
  let len := Z.of_nat (length data) in
  match BufferPool_span index offset len with
  | None => Done (Err {| wob_index := index; wob_offset := offset; wob_len := len |})
  | Some base => do! _ <- copy_in base (Z.to_nat offset) data; Done (Ok tt)
  end.

(** The length answered is [data.len() as u32]. *)
Definition BufferPool_write (index : Z) (data : list Z) : Prog BufferPool (Result Z WriteOutsideBuffer) :=
  do! written <- BufferPool_write_at index 0 data;
  match written with
  | Err e => Done (Err e)
  | Ok _ => Done (Ok (wrap 32 (Z.of_nat (length data))))
  end.

(** The caller's storage is [into]; what comes back is the filled prefix, and the
    storage as it is left. *)
Definition BufferPool_copy_out (index offset len : Z) (into : list Z)
    : Prog BufferPool (Result (list Z) CopyOutError * list Z) :=
  match BufferPool_span index offset len with
  | None => Done (Err (SpanOutsideBuffer index offset len), into)
  | Some base =>
      if (length into <? Z.to_nat len)%nat
      then Done (Err (DestinationTooSmall len (Z.of_nat (length into))), into)
      else
        do! snapshot <- copy_from base (Z.to_nat offset) (Z.to_nat len);
        Done (Ok snapshot, snapshot ++ drop (Z.to_nat len) into)
  end.

(** ** The ledger

    An [OwnedBuffer] is its index. An operation answers nothing where a slice index
    would panic. *)
Record FreeList := { indices : list Z; outstanding : list bool; top : nat }.
#[export] Instance FreeList_eta : Eta FreeList := λ l,
  {| indices := indices l; outstanding := outstanding l; top := top l |}.

Fixpoint fill_indices (remaining index : nat) (indices : list Z) : list Z :=
  match remaining with
  | 0%nat => indices
  | S remaining => fill_indices remaining (S index) (<[index := Z.of_nat index]> indices)
  end.
Definition FreeList_full : FreeList :=
  {| indices := fill_indices N 0 (replicate N 0); outstanding := replicate N false; top := N |}.

(** [array[i] = v]. *)
Definition assign_at {A} (i : nat) (v : A) (l : list A) : option (list A) :=
  if (i <? length l)%nat then Some (<[i := v]> l) else None.

Definition FreeList_pop (l : FreeList) : option (option Z * FreeList) :=
  match top l with
  | 0%nat => Some (None, l)
  | S top' =>
      let l := l <| top := top' |> in
      index ← indices l !! top';
      marked ← assign_at (Z.to_nat index) true (outstanding l);
      Some (Some index, l <| outstanding := marked |>)
  end.

Definition FreeList_accept (index : Z) (l : FreeList) : option (Result unit ReturnError * FreeList) :=
  let slot := Z.to_nat index in
  if (N <=? slot)%nat then Some (Err (OutOfRange index), l) else
  out ← outstanding l !! slot;
  if negb out then Some (Err (NotOutstanding index), l) else
  if (top l =? N)%nat then Some (Err (ListFull index), l) else
  cleared ← assign_at slot false (outstanding l);
  pushed ← assign_at (top l) index (indices l);
  Some (Ok tt, l <| outstanding := cleared |> <| indices := pushed |> <| top := S (top l) |>).

Definition FreeList_push (buffer : Z) (l : FreeList) := FreeList_accept buffer l.
Definition FreeList_reclaim (index : Z) (l : FreeList) := FreeList_accept index l.
Definition FreeList_len (l : FreeList) : nat := top l.
Definition FreeList_is_empty (l : FreeList) : bool := (top l =? 0)%nat.

(** ** The ledger is a stack of distinct indices *)

(** The free indices, the next to be handed out first. *)
Definition free (l : FreeList) : list Z := reverse (take (top l) (indices l)).

Definition ledger_wf (l : FreeList) : Prop :=
  length (indices l) = N ∧ length (outstanding l) = N ∧ (top l ≤ N)%nat
  ∧ NoDup (free l) ∧ (∀ i, i ∈ free l → 0 ≤ i < Z.of_nat N)
  ∧ ∀ slot out, outstanding l !! slot = Some out → (out = false ↔ Z.of_nat slot ∈ free l).

Lemma assign_at_Some {A} i (v : A) l : (i < length l)%nat → assign_at i v l = Some (<[i := v]> l).
Proof. intros. unfold assign_at. by rewrite (proj2 (Nat.ltb_lt _ _)). Qed.

Lemma fill_indices_lookup remaining index l i :
  (index + remaining ≤ length l)%nat →
  fill_indices remaining index l !! i
  = if decide (index ≤ i < index + remaining)%nat then Some (Z.of_nat i) else l !! i.
Proof.
  revert index l. induction remaining as [|remaining IH]; intros index l Hl; simpl.
  - by rewrite decide_False by lia.
  - rewrite IH by (rewrite length_insert; lia).
    destruct (decide (i = index)) as [->|].
    + rewrite decide_False, decide_True, list_lookup_insert_eq by lia. done.
    + rewrite list_lookup_insert_ne by done. by repeat case_decide; try lia.
Qed.

Lemma length_fill_indices remaining index l : length (fill_indices remaining index l) = length l.
Proof. revert index l. induction remaining; intros; simpl; [done|]. by rewrite IHremaining, length_insert. Qed.

Lemma fill_indices_full : fill_indices N 0 (replicate N 0) = Z.of_nat <$> seq 0 N.
Proof.
  apply list_eq. intros i. rewrite fill_indices_lookup by (rewrite length_replicate; lia).
  rewrite list_lookup_fmap. case_decide.
  - by rewrite lookup_seq_lt by lia.
  - rewrite lookup_seq_ge by lia. simpl. apply lookup_replicate_None. lia.
Qed.

Lemma full_wf : ledger_wf FreeList_full.
Proof.
  unfold ledger_wf, free; simpl. rewrite length_fill_indices, !length_replicate, fill_indices_full.
  rewrite take_ge by (rewrite length_fmap, length_seq; lia). split_all; [done..| | |].
  - rewrite reverse_Permutation. apply NoDup_fmap_2; [intros x y; lia|apply NoDup_seq].
  - intros i. rewrite elem_of_reverse, list_elem_of_fmap. intros (n & -> & Hn%elem_of_seq). lia.
  - intros slot out [-> Hs]%lookup_replicate. split; [intros _|done].
    rewrite elem_of_reverse. apply list_elem_of_fmap. exists slot. split; [done|]. apply elem_of_seq. lia.
Qed.

(** A free index is not outstanding, and there are no more than [N] of them. *)
Lemma free_length l : ledger_wf l → length (free l) = top l.
Proof.
  intros (Hi & _ & Ht & _). unfold free. rewrite length_reverse, length_take. lia.
Qed.

Lemma free_room l i : ledger_wf l → 0 ≤ i < Z.of_nat N → i ∉ free l → (top l < N)%nat.
Proof.
  intros Hl Hi Hn. rewrite <- (free_length l Hl). destruct Hl as (_ & _ & _ & Hnd & Hr & _).
  assert (i :: free l ⊆+ Z.of_nat <$> seq 0 N) as Hsub.
  { apply NoDup_submseteq; [by constructor|]. intros x [->|Hx]%elem_of_cons.
    - apply list_elem_of_fmap. exists (Z.to_nat i). split; [lia|]. apply elem_of_seq. lia.
    - apply Hr in Hx. apply list_elem_of_fmap. exists (Z.to_nat x). split; [lia|]. apply elem_of_seq. lia. }
  apply submseteq_length in Hsub. rewrite length_fmap, length_seq in Hsub. simpl in Hsub. lia.
Qed.

Lemma free_pop l top' index :
  top l = S top' → indices l !! top' = Some index → free l = index :: free (l <| top := top' |>).
Proof.
  intros Ht Hi. unfold free. simpl. by rewrite Ht, (take_S_r _ _ _ Hi), reverse_snoc.
Qed.

(** Handing out: the top of the stack, or nothing of an empty one. *)
Lemma pop_spec l :
  ledger_wf l →
  match free l with
  | [] => FreeList_pop l = Some (None, l)
  | i :: rest => ∃ l', FreeList_pop l = Some (Some i, l') ∧ free l' = rest ∧ ledger_wf l'
  end.
Proof.
  intros Hl. pose proof (free_length l Hl) as Hlen. pose proof Hl as (Hi & Ho & Ht & Hnd & Hr & Hout).
  unfold FreeList_pop. destruct (top l) as [|top'] eqn:E.
  { by destruct (free l). }
  destruct (lookup_lt_is_Some_2 (indices l) top') as [index Hidx]; [lia|].
  pose proof (free_pop l top' index E Hidx) as Hfree. rewrite Hfree in *.
  assert (0 ≤ index < Z.of_nat N) as Hin by (apply Hr; left). apply NoDup_cons in Hnd as [Hni Hnd].
  simpl. rewrite Hidx. simpl. rewrite assign_at_Some by lia. eexists. split; [done|].
  split; [done|]. unfold ledger_wf; simpl. rewrite length_insert. unfold free in *; simpl in *.
  split_all; [done|done|lia|done| |].
  - intros i Hi'. apply Hr. by right.
  - intros slot out. rewrite list_lookup_insert_Some. intros [(<- & <- & _)|[Hne Hs]].
    + split; [done|]. rewrite Z2Nat.id by lia. intros ?. by destruct Hni.
    + rewrite (Hout slot out Hs), elem_of_cons. split; [|by right]. intros [Heq|]; [|done]. lia.
Qed.

(** Taking back: three answers, the third unreachable. *)
Lemma accept_spec i l :
  ledger_wf l → 0 ≤ i →
  if decide (Z.of_nat N ≤ i) then FreeList_accept i l = Some (Err (OutOfRange i), l)
  else if decide (i ∈ free l) then FreeList_accept i l = Some (Err (NotOutstanding i), l)
  else ∃ l', FreeList_accept i l = Some (Ok tt, l') ∧ free l' = i :: free l ∧ ledger_wf l'.
Proof.
  intros Hl Hi0. pose proof Hl as (Hi & Ho & Ht & Hnd & Hr & Hout). unfold FreeList_accept.
  case_decide as Hrange; [by rewrite (proj2 (Nat.leb_le _ _)) by lia|].
  rewrite (proj2 (Nat.leb_gt _ _)) by lia.
  destruct (lookup_lt_is_Some_2 (outstanding l) (Z.to_nat i)) as [out Hs]; [lia|].
  pose proof (Hout _ _ Hs) as Hiff. rewrite Z2Nat.id in Hiff by lia. rewrite Hs. simpl.
  case_decide as Hfree; [by rewrite (proj2 Hiff Hfree)|].
  assert (out = true) as -> by (destruct out; [done|]; by destruct Hfree; apply Hiff). simpl.
  pose proof (free_room l i Hl ltac:(lia) Hfree) as Hroom.
  rewrite (proj2 (Nat.eqb_neq _ _)) by lia. rewrite !assign_at_Some by lia. simpl.
  eexists. split; [done|].
  assert (∀ o, free {| indices := <[top l := i]> (indices l); outstanding := o; top := S (top l) |} = i :: free l) as Hf.
  { intros o. unfold free; simpl. rewrite (take_S_r _ _ i) by (apply list_lookup_insert_eq; lia).
    by rewrite reverse_snoc, take_insert_ge by lia. }
  split; [apply Hf|]. unfold ledger_wf. rewrite Hf. simpl. rewrite !length_insert.
  split_all; [done|done|lia|by constructor| |].
  - intros x [->|Hx]%elem_of_cons; [lia|by apply Hr].
  - intros slot out. rewrite list_lookup_insert_Some, elem_of_cons. intros [(<- & <- & _)|[Hne Hs']].
    + split; [left; lia|done].
    + rewrite (Hout slot out Hs'). split; [by right|]. intros [Heq|]; [lia|done].
Qed.

(** ** The pool's accessors stay inside one buffer *)
Definition pool_ok (p : BufferPool) : Prop :=
  length (buffers p) = N ∧ Forall (λ b, length b = BUFFER_SIZE ∧ bytes_ok b) (buffers p).

(** Bytes [lo] to [hi] of one buffer are all that differs. *)
Definition pool_writes (index lo hi : nat) (p p' : BufferPool) : Prop :=
  ∀ i at_, (i ≠ index ∨ at_ < lo ∨ hi ≤ at_)%nat → pool_byte i at_ p' = pool_byte i at_ p.

Lemma set_pool_byte_ok index at_ byte p : is_u8 byte → pool_ok p → pool_ok (set_pool_byte index at_ byte p).
Proof.
  intros Hb [Hl Hf]. split; simpl; [by rewrite length_alter|].
  apply Forall_alter; [done|]. intros b Hb' _. eapply Forall_lookup_1 in Hf as [Hlen Hok]; [|exact Hb'].
  split; [by rewrite length_insert|by apply Forall_insert].
Qed.

Lemma byte_at_insert b at_ byte i :
  byte_at (<[at_ := byte]> b) i = if decide (i = at_ ∧ at_ < length b)%nat then byte else byte_at b i.
Proof.
  unfold byte_at. rewrite !nth_lookup. case_decide as H.
  - destruct H as [-> H]. by rewrite list_lookup_insert_eq.
  - destruct (decide (i = at_)) as [->|Hne].
    + rewrite list_insert_ge by lia. done.
    + by rewrite list_lookup_insert_ne.
Qed.

Lemma set_pool_byte_writes index at_ byte p : pool_writes index at_ (S at_) p (set_pool_byte index at_ byte p).
Proof.
  intros i j Hij. unfold pool_byte, set_pool_byte. simpl.
  destruct (decide (index = i)) as [<-|]; [|by rewrite list_lookup_alter_ne].
  rewrite list_lookup_alter_eq. destruct (buffers p !! index); simpl; [|done].
  rewrite byte_at_insert, decide_False by lia. done.
Qed.

Lemma copy_in_confined index at_ data :
  bytes_ok data → confined pool_ok (pool_writes index at_ (at_ + length data)) (copy_in index at_ data) (λ _, True).
Proof.
  intros Hd. assert (∀ lo hi, (lo ≤ at_)%nat → (at_ + length data ≤ hi)%nat →
    confined pool_ok (pool_writes index lo hi) (copy_in index at_ data) (λ _, True)) as H; [|apply H; lia].
  revert at_. induction Hd as [|byte data Hb Hd IH]; intros at_ lo hi Hlo Hhi; simpl; [done|].
  intros p Hp. split_all; [by apply set_pool_byte_ok| |simpl in Hhi; apply IH; lia].
  intros i j Hij. apply set_pool_byte_writes. simpl in Hhi. lia.
Qed.

Lemma copy_from_confined (G : BufferPool → BufferPool → Prop) index at_ len :
  (∀ p, G p p) →
  confined pool_ok G (copy_from index at_ len) (λ bytes, length bytes = len ∧ bytes_ok bytes).
Proof.
  intros HG. revert at_. induction len as [|len IH]; intros at_; simpl; [by split; [|constructor]|].
  intros p [Hl Hf]. split_all; [by split|done|].
  eapply confined_bind; [apply IH|]. intros bytes [Hlen Hok]. simpl. split; [lia|]. constructor; [|done].
  unfold pool_byte. apply byte_at_ok. destruct (buffers p !! index) as [b|] eqn:E; simpl; [|constructor].
  eapply Forall_lookup_1 in Hf as [_ ?]; [|exact E]. done.
Qed.

Lemma span_fits_spec offset len :
  0 ≤ offset → 0 ≤ len → span_fits offset len = true ↔ offset + len ≤ Z.of_nat BUFFER_SIZE.
Proof.
  intros. unfold span_fits, checked_add. change (Z.of_nat BUFFER_SIZE) with 2048. change (2 ^ 64) with 18446744073709551616.
  destruct (offset + len <? _) eqn:E; simpl; lia.
Qed.

Lemma write_at_confined index offset data :
  0 ≤ index → 0 ≤ offset → bytes_ok data →
  confined pool_ok (pool_writes (Z.to_nat index) (Z.to_nat offset) (Z.to_nat offset + length data))
    (BufferPool_write_at index offset data)
    (λ r, if decide (index < Z.of_nat N ∧ offset + Z.of_nat (length data) ≤ Z.of_nat BUFFER_SIZE)
          then r = Ok tt
          else r = Err {| wob_index := index; wob_offset := offset; wob_len := Z.of_nat (length data) |}).
Proof.
  intros Hi Ho Hd. unfold BufferPool_write_at, BufferPool_span.
  pose proof (span_fits_spec offset (Z.of_nat (length data)) Ho ltac:(lia)) as Hs.
  destruct (index <? Z.of_nat N) eqn:E; simpl; [|rewrite decide_False by lia; done].
  destruct (span_fits _ _); simpl.
  - eapply confined_bind; [by apply copy_in_confined|]. intros _ _. simpl. rewrite decide_True; [done|]. split; [lia|by apply Hs].
  - rewrite decide_False; [done|]. intros [_ H]. by apply Hs in H.
Qed.

Lemma copy_out_confined (G : BufferPool → BufferPool → Prop) index offset len into :
  0 ≤ index → 0 ≤ offset → 0 ≤ len → (∀ p, G p p) →
  confined pool_ok G (BufferPool_copy_out index offset len into)
    (λ '(r, into'),
      if decide (index < Z.of_nat N ∧ offset + len ≤ Z.of_nat BUFFER_SIZE) then
        if decide (Z.to_nat len ≤ length into)%nat
        then ∃ bytes, r = Ok bytes ∧ length bytes = Z.to_nat len ∧ bytes_ok bytes
                      ∧ into' = bytes ++ drop (Z.to_nat len) into
        else r = Err (DestinationTooSmall len (Z.of_nat (length into))) ∧ into' = into
      else r = Err (SpanOutsideBuffer index offset len) ∧ into' = into).
Proof.
  intros Hi Ho Hl HG. unfold BufferPool_copy_out, BufferPool_span. pose proof (span_fits_spec offset len Ho Hl) as Hs.
  destruct (index <? Z.of_nat N) eqn:E; simpl; [|rewrite decide_False by lia; done].
  destruct (span_fits _ _); simpl.
  - destruct (_ <? _)%nat eqn:E2; simpl.
    + rewrite decide_True by (split; [lia|by apply Hs]). by rewrite decide_False by lia.
    + eapply confined_bind; [by apply copy_from_confined|]. intros bytes [? ?]. simpl.
      rewrite decide_True by (split; [lia|by apply Hs]). rewrite decide_True by lia. by exists bytes.
  - rewrite decide_False; [done|]. intros [_ H]. by apply Hs in H.
Qed.

(** ** Alone *)
Lemma insert_alter {A} (f : A → A) (i : nat) (x : A) (l : list A) : <[i := x]> (alter f i l) = <[i := x]> l.
Proof. revert i. induction l; intros [|i]; f_equal/=; auto. Qed.

Lemma copy_in_alone index at_ data p b :
  buffers p !! index = Some b → (at_ + length data ≤ length b)%nat →
  alone (copy_in index at_ data) p = (Some tt, p <| buffers ::= <[index := splice b at_ data]> |>).
Proof.
  revert at_ p b. induction data as [|byte data IH]; intros at_ p b Hb Hl; simpl in *.
  - f_equal. destruct p as [bs]. simpl in *. f_equal. symmetry. apply list_insert_id.
    unfold splice. simpl. by rewrite Nat.add_0_r, take_drop.
  - rewrite (IH (S at_) _ (<[at_ := byte]> b)).
    + f_equal. unfold set_pool_byte. simpl. f_equal.
      rewrite insert_alter. f_equal. unfold splice.
      rewrite (take_S_r _ _ byte) by (apply list_lookup_insert_eq; lia).
      rewrite take_insert_ge, drop_insert_lt by lia. rewrite <- app_assoc. simpl.
      by replace (S (at_ + length data)) with (at_ + S (length data))%nat by lia.
    + unfold set_pool_byte. simpl. by rewrite list_lookup_alter_eq, Hb.
    + rewrite length_insert. lia.
Qed.

Lemma copy_from_alone index at_ len p b :
  buffers p !! index = Some b → (at_ + len ≤ length b)%nat →
  alone (copy_from index at_ len) p = (Some (take len (drop at_ b)), p).
Proof.
  revert at_. induction len as [|len IH]; intros at_ Hb Hl; simpl; [by rewrite take_0|].
  rewrite alone_bind, IH by (done || lia). simpl. unfold pool_byte. rewrite Hb. simpl.
  destruct (lookup_lt_is_Some_2 b at_) as [x Hx]; [lia|].
  rewrite (drop_S _ _ _ Hx). simpl. unfold byte_at. by rewrite nth_lookup, Hx.
Qed.
End Pool.
