(* ===== verification/WireTap.v ===== *)
(** * The recording tap's ABI and ring

    Models [datad/crates/wire/src/tap.rs]: the vocabulary of an observation and its
    encoding in words, the annotation a slot carries, the checks a reader holds a
    peer's words to, and the single-producer single-consumer ring of slots with its
    two handles, access by access. *)
From S2P Require Import Prelude Shared.

Definition TAP_SNAP_LEN : nat := 2048.
Definition TAP_SLOTS : nat := 64.
Definition TAP_RESERVED_WORDS : nat := 3.
Definition TAP_RULE_COUNT : Z := 256.
Definition TAP_FLAG_OUTBOUND : Z := 1.
Definition MAX_INTERFACES : Z := 8.
Definition TAP_MASK : Z := Z.of_nat TAP_SLOTS - 1.

(** ** The vocabulary *)
Inductive TapDirection := Inbound | Outbound.
#[export] Instance TapDirection_eq_dec : EqDecision TapDirection.
Proof. solve_decision. Defined.

Definition TapDirection_to_bits (x : TapDirection) : Z :=
  match x with Inbound => 0 | Outbound => TAP_FLAG_OUTBOUND end.
Definition TapDirection_from_bits (bits : Z) : option TapDirection :=
  if bits =? 0 then Some Inbound else if bits =? TAP_FLAG_OUTBOUND then Some Outbound else None.

Inductive TapVerdict := TV_Forwarded | TV_Dropped | TV_Revoked.

Definition TapVerdict_to_bits (x : TapVerdict) : Z :=
  match x with TV_Forwarded => 0 | TV_Dropped => 1 | TV_Revoked => 2 end.
Definition TapVerdict_from_bits (bits : Z) : option TapVerdict :=
  match bits with 0 => Some TV_Forwarded | 1 => Some TV_Dropped | 2 => Some TV_Revoked | _ => None end.

(** [pipeline::DropReason], one higher than its index. *)
Inductive TapDropReason :=
| TDR_Unowned | TDR_UnconfiguredIngressPort | TDR_InterfaceDisabled | TDR_NotAddressedToUs
| TDR_VlanTagged | TDR_MartianSource | TDR_UnroutableDestination | TDR_AddressedToThisRouter
| TDR_TtlExpired | TDR_NoRoute | TDR_EgressIsIngress | TDR_NoNeighbour | TDR_FlowUnsupportedProtocol
| TDR_FlowFragment | TDR_FlowMalformed | TDR_FlowInvalidFlags | TDR_FlowMidStream
| TDR_FlowInvalidState | TDR_FlowOutOfWindow | TDR_FlowNoSuchFlow | TDR_FlowQuotedInvalid
| TDR_FlowUnsupportedIcmp | TDR_FlowTableFull | TDR_FlowBucketFull | TDR_PolicyDenied
| TDR_NoPolicyMatch.
#[export] Instance TapDropReason_eq_dec : EqDecision TapDropReason.
Proof. solve_decision. Defined.

Definition TapDropReason_to_bits (x : TapDropReason) : Z :=
  match x with
  | TDR_Unowned => 1 | TDR_UnconfiguredIngressPort => 2 | TDR_InterfaceDisabled => 3
  | TDR_NotAddressedToUs => 4 | TDR_VlanTagged => 5 | TDR_MartianSource => 6
  | TDR_UnroutableDestination => 7 | TDR_AddressedToThisRouter => 8 | TDR_TtlExpired => 9
  | TDR_NoRoute => 10 | TDR_EgressIsIngress => 11 | TDR_NoNeighbour => 12
  | TDR_FlowUnsupportedProtocol => 13 | TDR_FlowFragment => 14 | TDR_FlowMalformed => 15
  | TDR_FlowInvalidFlags => 16 | TDR_FlowMidStream => 17 | TDR_FlowInvalidState => 18
  | TDR_FlowOutOfWindow => 19 | TDR_FlowNoSuchFlow => 20 | TDR_FlowQuotedInvalid => 21
  | TDR_FlowUnsupportedIcmp => 22 | TDR_FlowTableFull => 23 | TDR_FlowBucketFull => 24
  | TDR_PolicyDenied => 25 | TDR_NoPolicyMatch => 26
  end.
Definition TapDropReason_from_bits (bits : Z) : option TapDropReason :=
  match bits with
  | 1 => Some TDR_Unowned | 2 => Some TDR_UnconfiguredIngressPort | 3 => Some TDR_InterfaceDisabled
  | 4 => Some TDR_NotAddressedToUs | 5 => Some TDR_VlanTagged | 6 => Some TDR_MartianSource
  | 7 => Some TDR_UnroutableDestination | 8 => Some TDR_AddressedToThisRouter
  | 9 => Some TDR_TtlExpired | 10 => Some TDR_NoRoute | 11 => Some TDR_EgressIsIngress
  | 12 => Some TDR_NoNeighbour | 13 => Some TDR_FlowUnsupportedProtocol
  | 14 => Some TDR_FlowFragment | 15 => Some TDR_FlowMalformed | 16 => Some TDR_FlowInvalidFlags
  | 17 => Some TDR_FlowMidStream | 18 => Some TDR_FlowInvalidState | 19 => Some TDR_FlowOutOfWindow
  | 20 => Some TDR_FlowNoSuchFlow | 21 => Some TDR_FlowQuotedInvalid
  | 22 => Some TDR_FlowUnsupportedIcmp | 23 => Some TDR_FlowTableFull
  | 24 => Some TDR_FlowBucketFull | 25 => Some TDR_PolicyDenied | 26 => Some TDR_NoPolicyMatch
  | _ => None
  end.

(** [lfw_flow::Classification], one higher than its index. *)
Inductive TapClassification :=
| TC_New | TC_Established | TC_Related.
#[export] Instance TapClassification_eq_dec : EqDecision TapClassification.
Proof. solve_decision. Defined.

Definition TapClassification_to_bits (x : TapClassification) : Z :=
  match x with
  | TC_New => 1 | TC_Established => 2 | TC_Related => 3
  end.
Definition TapClassification_from_bits (bits : Z) : option TapClassification :=
  match bits with
  | 1 => Some TC_New | 2 => Some TC_Established | 3 => Some TC_Related | _ => None
  end.

(** [lfw_flow::FlowState] by its discriminant; the vacant state has no encoding. *)
Inductive TapFlowState :=
| TFS_SynSent | TFS_SynReceived | TFS_Established | TFS_FinWait | TFS_CloseWait | TFS_Closing
| TFS_TimeWait | TFS_Closed | TFS_UdpUnreplied | TFS_UdpAssured | TFS_IcmpUnreplied
| TFS_IcmpReplied.
#[export] Instance TapFlowState_eq_dec : EqDecision TapFlowState.
Proof. solve_decision. Defined.

Definition TapFlowState_to_bits (x : TapFlowState) : Z :=
  match x with
  | TFS_SynSent => 1 | TFS_SynReceived => 2 | TFS_Established => 3 | TFS_FinWait => 4
  | TFS_CloseWait => 5 | TFS_Closing => 6 | TFS_TimeWait => 7 | TFS_Closed => 8
  | TFS_UdpUnreplied => 9 | TFS_UdpAssured => 10 | TFS_IcmpUnreplied => 11 | TFS_IcmpReplied => 12
  end.
Definition TapFlowState_from_bits (bits : Z) : option TapFlowState :=
  match bits with
  | 1 => Some TFS_SynSent | 2 => Some TFS_SynReceived | 3 => Some TFS_Established
  | 4 => Some TFS_FinWait | 5 => Some TFS_CloseWait | 6 => Some TFS_Closing | 7 => Some TFS_TimeWait
  | 8 => Some TFS_Closed | 9 => Some TFS_UdpUnreplied | 10 => Some TFS_UdpAssured
  | 11 => Some TFS_IcmpUnreplied | 12 => Some TFS_IcmpReplied | _ => None
  end.

Definition TapFlowState_is_terminal (x : TapFlowState) : bool :=
  match x with TFS_TimeWait | TFS_Closed => true | _ => false end.

Record TapFlow := {
  tf_slot : Z;
  tf_generation : Z;
  tf_classification : option TapClassification;
  tf_state : TapFlowState
}.
#[export] Instance TapFlow_eq_dec : EqDecision TapFlow.
Proof. solve_decision. Defined.

(** The lifecycle or policy event a frame caused. *)
Inductive TapEvent :=
| TE_FlowOpened | TE_FlowAdvanced | TE_FlowClosed | TE_PolicyDenied | TE_PolicyNoMatch
| TE_FlowRefused | TE_FlowRevoked.
#[export] Instance TapEvent_eq_dec : EqDecision TapEvent.
Proof. solve_decision. Defined.

Definition TapEvent_to_bits (x : TapEvent) : Z :=
  match x with
  | TE_FlowOpened => 1 | TE_FlowAdvanced => 2 | TE_FlowClosed => 3 | TE_PolicyDenied => 4
  | TE_PolicyNoMatch => 5 | TE_FlowRefused => 6 | TE_FlowRevoked => 7
  end.
Definition TapEvent_from_bits (bits : Z) : option TapEvent :=
  match bits with
  | 1 => Some TE_FlowOpened | 2 => Some TE_FlowAdvanced | 3 => Some TE_FlowClosed
  | 4 => Some TE_PolicyDenied | 5 => Some TE_PolicyNoMatch | 6 => Some TE_FlowRefused
  | 7 => Some TE_FlowRevoked | _ => None
  end.

Definition TapEvent_names_a_flow (x : TapEvent) : bool :=
  match x with TE_FlowOpened | TE_FlowAdvanced | TE_FlowClosed | TE_FlowRevoked => true | _ => false end.
Definition TapEvent_names_a_rule (x : TapEvent) : bool :=
  match x with TE_FlowOpened | TE_PolicyDenied => true | _ => false end.

(** [struct TapRule(u16)]: the position, below [TAP_RULE_COUNT] by construction. *)
Record TapRule := { tap_rule_position : Z }.
#[export] Instance TapRule_eq_dec : EqDecision TapRule.
Proof. solve_decision. Defined.

Definition TapRule_new (position : nat) : option TapRule :=
  if Z.of_nat position <? TAP_RULE_COUNT then Some {| tap_rule_position := Z.of_nat position |} else None.
Definition TapRule_to_bits (x : TapRule) : Z := tap_rule_position x + 1.
Definition TapRule_from_bits (bits : Z) : option TapRule :=
  if bits <? 1 then None else
  if bits - 1 <? TAP_RULE_COUNT then Some {| tap_rule_position := bits - 1 |} else None.

Inductive TapOutcome := TO_Forwarded | TO_Dropped (reason : TapDropReason) | TO_Revoked.
#[export] Instance TapOutcome_eq_dec : EqDecision TapOutcome.
Proof. solve_decision. Defined.

Definition TapOutcome_observes_a_frame (x : TapOutcome) : bool :=
  match x with TO_Revoked => false | _ => true end.
Definition TapOutcome_verdict (x : TapOutcome) : TapVerdict :=
  match x with TO_Forwarded => TV_Forwarded | TO_Dropped _ => TV_Dropped | TO_Revoked => TV_Revoked end.
Definition TapOutcome_drop_reason (x : TapOutcome) : Z :=
  match x with TO_Forwarded | TO_Revoked => 0 | TO_Dropped reason => TapDropReason_to_bits reason end.

Record TapDecision := {
  td_outcome : TapOutcome;
  td_direction : option TapDirection;
  td_generation : Z;
  td_flow : option TapFlow;
  td_rule : option TapRule;
  td_event : option TapEvent
}.

Definition TapDecision_flow_slot (d : TapDecision) : Z := from_option tf_slot 0 (td_flow d).
Definition TapDecision_flow_generation (d : TapDecision) : Z := from_option tf_generation 0 (td_flow d).
Definition TapDecision_classification (d : TapDecision) : Z :=
  match td_flow d with
  | Some {| tf_classification := Some classification |} => TapClassification_to_bits classification
  | _ => 0
  end.
Definition TapDecision_flags (d : TapDecision) : Z := from_option TapDirection_to_bits 0 (td_direction d).
Definition TapDecision_flow_state (d : TapDecision) : Z :=
  from_option (λ flow, TapFlowState_to_bits (tf_state flow)) 0 (td_flow d).
Definition TapDecision_event (d : TapDecision) : Z := from_option TapEvent_to_bits 0 (td_event d).
Definition TapDecision_rule (d : TapDecision) : Z := from_option TapRule_to_bits 0 (td_rule d).

(** ** The annotation *)
Record TapAnnotation := {
  an_packet_id : Z;
  an_timestamp : Z;
  an_interface_id : Z;
  an_original_len : Z;
  an_captured_len : Z;
  an_verdict : Z;
  an_drop_reason : Z;
  an_flags : Z;
  an_generation : Z;
  an_flow_slot : Z;
  an_flow_generation : Z;
  an_classification : Z;
  an_event : Z;
  an_flow_state : Z;
  an_rule : Z;
  an_reserved : list Z
}.
#[export] Instance TapAnnotation_eta : Eta TapAnnotation := λ a,
  {| an_packet_id := an_packet_id a; an_timestamp := an_timestamp a
     ; an_interface_id := an_interface_id a; an_original_len := an_original_len a
     ; an_captured_len := an_captured_len a; an_verdict := an_verdict a
     ; an_drop_reason := an_drop_reason a; an_flags := an_flags a; an_generation := an_generation a
     ; an_flow_slot := an_flow_slot a; an_flow_generation := an_flow_generation a
     ; an_classification := an_classification a; an_event := an_event a
     ; an_flow_state := an_flow_state a; an_rule := an_rule a; an_reserved := an_reserved a |}.

Definition TapAnnotation_new (packet_id timestamp interface_id : Z) (decision : TapDecision) : TapAnnotation :=
  {| an_packet_id := packet_id; an_timestamp := timestamp; an_interface_id := interface_id;
     an_original_len := 0; an_captured_len := 0;
     an_verdict := TapVerdict_to_bits (TapOutcome_verdict (td_outcome decision));
     an_drop_reason := TapOutcome_drop_reason (td_outcome decision);
     an_flags := TapDecision_flags decision; an_generation := td_generation decision;
     an_flow_slot := TapDecision_flow_slot decision;
     an_flow_generation := TapDecision_flow_generation decision;
     an_classification := TapDecision_classification decision;
     an_event := TapDecision_event decision; an_flow_state := TapDecision_flow_state decision;
     an_rule := TapDecision_rule decision; an_reserved := replicate TAP_RESERVED_WORDS 0 |}.

Record CheckedTap := {
  ck_packet_id : Z;
  ck_timestamp : Z;
  ck_interface_id : Z;
  ck_original_len : Z;
  ck_outcome : TapOutcome;
  ck_direction : option TapDirection;
  ck_generation : Z;
  ck_flow : option TapFlow;
  ck_rule : option TapRule;
  ck_event : option TapEvent
}.
#[export] Instance CheckedTap_eta : Eta CheckedTap := λ t,
  {| ck_packet_id := ck_packet_id t; ck_timestamp := ck_timestamp t; ck_interface_id := ck_interface_id t; ck_original_len :=
     ck_original_len t; ck_outcome := ck_outcome t; ck_direction := ck_direction t; ck_generation := ck_generation t; ck_flow
     := ck_flow t; ck_rule := ck_rule t; ck_event := ck_event t |}.

Inductive TapFault :=
| CapturedLenPastSnap (captured_len : Z)
| CapturedLenPastOriginal (captured_len original_len : Z)
| InterfaceUnknown (interface_id : Z)
| FlagsUnknown (flags : Z)
| ReservedNonZero (reserved : list Z)
| VerdictUnknown (verdict : Z)
| DropReasonUnknown (drop_reason : Z)
| DropReasonOnForwarded (drop_reason : Z)
| DropReasonMissingOnDropped
| DropReasonOnRevocation (drop_reason : Z)
| WireLengthOnRevocation (original_len captured_len : Z)
| DirectionOnRevocation (flags : Z)
| ClassificationOnRevocation (classification : Z)
| WireLengthMissing (verdict : Z)
| DirectionMissing (verdict : Z)
| RevocationEventMismatch (verdict event : Z)
| ClassificationUnknown (classification : Z)
| FlowStateUnknown (flow_state : Z)
| EventUnknown (event : Z)
| RuleUnknown (rule : Z)
| FlowWithoutClassification (flow_slot flow_generation flow_state : Z)
| FlowStateMissingOnClassified (classification : Z)
| FlowEventWithoutFlow (event : Z)
| CloseEventWithoutTerminalState (flow_state : Z)
| RuleOnEventWithoutFilterDecision (rule event : Z)
| RuleMissingOnFilterDecision (event : Z).

(** ** Checking a peer's words *)
Record Decoded := { dc_flow : option TapFlow; dc_rule : option TapRule; dc_event : option TapEvent }.

(** A word that is zero for absence, decoded or refused. *)
Definition decode_word {A} (from_bits : Z → option A) (bits : Z) (fault : TapFault) : Result (option A) TapFault :=
  if bits =? 0 then Ok None else
  match from_bits bits with Some x => Ok (Some x) | None => Err fault end.

Definition decode_decision (raw : TapAnnotation) (observes_a_frame : bool) : Result Decoded TapFault :=
  try! classification <- decode_word TapClassification_from_bits (an_classification raw)
                           (ClassificationUnknown (an_classification raw));
  try! state <- decode_word TapFlowState_from_bits (an_flow_state raw) (FlowStateUnknown (an_flow_state raw));
  let unclassified :=
    FlowWithoutClassification (an_flow_slot raw) (an_flow_generation raw) (an_flow_state raw) in
  try! flow <-
    match classification, state with
    | Some classification, Some state =>
        Ok (Some {| tf_slot := an_flow_slot raw; tf_generation := an_flow_generation raw;
                    tf_classification := Some classification; tf_state := state |})
    | None, Some state =>
        if negb observes_a_frame
        then Ok (Some {| tf_slot := an_flow_slot raw; tf_generation := an_flow_generation raw;
                         tf_classification := None; tf_state := state |})
        else Err unclassified
    | None, None =>
        if negb (an_flow_slot raw =? 0) || negb (an_flow_generation raw =? 0) then Err unclassified else Ok None
    | Some _, None => Err (FlowStateMissingOnClassified (an_classification raw))
    end;
  try! event <- decode_word TapEvent_from_bits (an_event raw) (EventUnknown (an_event raw));
  try! rule <- decode_word TapRule_from_bits (an_rule raw) (RuleUnknown (an_rule raw));
  let has_rule := bool_decide (is_Some rule) in
  match event with
  | Some event =>
      if TapEvent_names_a_flow event && negb (bool_decide (is_Some flow))
      then Err (FlowEventWithoutFlow (an_event raw)) else
      if bool_decide (event = TE_FlowClosed)
         && negb (match flow with Some flow => TapFlowState_is_terminal (tf_state flow) | None => false end)
      then Err (CloseEventWithoutTerminalState (an_flow_state raw)) else
      if negb (Bool.eqb (TapEvent_names_a_rule event) has_rule)
      then Err (if has_rule then RuleOnEventWithoutFilterDecision (an_rule raw) (an_event raw)
                else RuleMissingOnFilterDecision (an_event raw))
      else Ok {| dc_flow := flow; dc_rule := rule; dc_event := Some event |}
  | None =>
      if has_rule then Err (RuleOnEventWithoutFilterDecision (an_rule raw) (an_event raw))
      else Ok {| dc_flow := flow; dc_rule := rule; dc_event := None |}
  end.

(** The part of [read_into] between loading the words and copying the payload. *)
Definition check_words (raw : TapAnnotation) : Result CheckedTap TapFault :=
  let captured_len := an_captured_len raw in
  if Z.of_nat TAP_SNAP_LEN <? captured_len then Err (CapturedLenPastSnap captured_len) else
  if an_original_len raw <? captured_len
  then Err (CapturedLenPastOriginal captured_len (an_original_len raw)) else
  if u8_max <? an_interface_id raw then Err (InterfaceUnknown (an_interface_id raw)) else
  if MAX_INTERFACES <=? an_interface_id raw then Err (InterfaceUnknown (an_interface_id raw)) else
  if existsb (λ word, negb (word =? 0)) (an_reserved raw) then Err (ReservedNonZero (an_reserved raw)) else
  match TapVerdict_from_bits (an_verdict raw) with
  | None => Err (VerdictUnknown (an_verdict raw))
  | Some verdict =>
  try! reason <- decode_word TapDropReason_from_bits (an_drop_reason raw) (DropReasonUnknown (an_drop_reason raw));
  try! outcome <-
    match verdict, reason with
    | TV_Forwarded, None => Ok TO_Forwarded
    | TV_Dropped, Some reason => Ok (TO_Dropped reason)
    | TV_Revoked, None => Ok TO_Revoked
    | TV_Forwarded, Some reason => Err (DropReasonOnForwarded (TapDropReason_to_bits reason))
    | TV_Dropped, None => Err DropReasonMissingOnDropped
    | TV_Revoked, Some reason => Err (DropReasonOnRevocation (TapDropReason_to_bits reason))
    end;
  try! direction <-
    (if TapOutcome_observes_a_frame outcome then
       if an_original_len raw =? 0 then Err (WireLengthMissing (an_verdict raw)) else
       match TapDirection_from_bits (an_flags raw) with
       | Some direction => Ok (Some direction)
       | None => Err (FlagsUnknown (an_flags raw))
       end
     else
       if negb (an_original_len raw =? 0) || negb (captured_len =? 0)
       then Err (WireLengthOnRevocation (an_original_len raw) captured_len) else
       if negb (an_flags raw =? 0) then Err (DirectionOnRevocation (an_flags raw)) else
       if negb (an_classification raw =? 0) then Err (ClassificationOnRevocation (an_classification raw)) else
       Ok None);
  if Bool.eqb (TapOutcome_observes_a_frame outcome) (an_event raw =? TapEvent_to_bits TE_FlowRevoked)
  then Err (RevocationEventMismatch (an_verdict raw) (an_event raw)) else
  try! decoded <- decode_decision raw (TapOutcome_observes_a_frame outcome);
  Ok {| ck_packet_id := an_packet_id raw; ck_timestamp := an_timestamp raw;
        ck_interface_id := an_interface_id raw; ck_original_len := an_original_len raw;
        ck_outcome := outcome; ck_direction := direction; ck_generation := an_generation raw;
        ck_flow := dc_flow decoded; ck_rule := dc_rule decoded; ck_event := dc_event decoded |}
  end.

(** ** The ring *)

(** A slot: the annotation's words as atomics, then the payload, one atomic a byte. *)
Record TapSlot := { ts_words : TapAnnotation; ts_payload : list Z }.
#[export] Instance TapSlot_eta : Eta TapSlot := λ s, {| ts_words := ts_words s; ts_payload := ts_payload s |}.

Definition TapAnnotation_zero : TapAnnotation :=
  {| an_packet_id := 0; an_timestamp := 0; an_interface_id := 0; an_original_len := 0; an_captured_len := 0;
     an_verdict := 0; an_drop_reason := 0; an_flags := 0; an_generation := 0; an_flow_slot := 0;
     an_flow_generation := 0; an_classification := 0; an_event := 0; an_flow_state := 0; an_rule := 0;
     an_reserved := replicate TAP_RESERVED_WORDS 0 |}.
Definition TapSlot_zero : TapSlot := {| ts_words := TapAnnotation_zero; ts_payload := replicate TAP_SNAP_LEN 0 |}.

(** The records region, which the forwarder writes, and the consume region, which
    the recorder writes. *)
Record TapRecords := { tap_tail : Z; tap_dropped : Z; tap_slots : list TapSlot }.
#[export] Instance TapRecords_eta : Eta TapRecords := λ r,
  {| tap_tail := tap_tail r; tap_dropped := tap_dropped r; tap_slots := tap_slots r |}.
Record TapConsume := { tap_head : Z }.
Record TapRegions := { tap_records : TapRecords; tap_consume : TapConsume }.
#[export] Instance TapRegions_eta : Eta TapRegions := λ r,
  {| tap_records := tap_records r; tap_consume := tap_consume r |}.

Definition TapRecords_zero : TapRecords :=
  {| tap_tail := 0; tap_dropped := 0; tap_slots := replicate TAP_SLOTS TapSlot_zero |}.
Definition TapConsume_zero : TapConsume := {| tap_head := 0 |}.
Definition TapRecords_capacity : nat := Z.to_nat TAP_MASK.

(** A frame cut to what a slot holds, with its length. *)
Record Snapped := { sn_bytes : list Z; sn_len : Z }.
Definition Snapped_take (frame : list Z) : Snapped :=
  if (length frame <? TAP_SNAP_LEN)%nat
  then {| sn_bytes := frame; sn_len := wrap 32 (Z.of_nat (length frame)) |}
  else {| sn_bytes := take TAP_SNAP_LEN frame; sn_len := Z.of_nat TAP_SNAP_LEN |}.

(** The slot a cursor names: the masked index is below [TAP_SLOTS]. *)
Definition TapRecords_slot (at_ : Z) : nat := Z.to_nat (Z.land at_ TAP_MASK).

(** One word of a slot, stored and loaded. *)
Definition store_word (i : nat) (f : TapAnnotation → TapAnnotation) : Prog TapRegions unit :=
  store (λ r, r <| tap_records ::= λ r, r <| tap_slots ::= alter (λ s, s <| ts_words ::= f |>) i |> |>).
Definition load_word (i : nat) (f : TapAnnotation → Z) : Prog TapRegions Z :=
  load (λ r, f (ts_words (default TapSlot_zero (tap_slots (tap_records r) !! i)))).

(** [for (cell, word) in self._reserved.iter().zip(..)]. *)
Fixpoint store_reserved (i k : nat) (words : list Z) : Prog TapRegions unit :=
  match words with
  | [] => Done tt
  | word :: words =>
      do! _ <- store_word i (λ a, a <| an_reserved ::= <[k := word]> |>);
      store_reserved i (S k) words
  end.
Fixpoint load_reserved (i k remaining : nat) : Prog TapRegions (list Z) :=
  match remaining with
  | 0%nat => Done []
  | S remaining =>
      do! word <- load_word i (λ a, nth k (an_reserved a) 0);
      do! words <- load_reserved i (S k) remaining;
      Done (word :: words)
  end.

(** [for (cell, byte) in self.payload.iter().zip(payload.bytes)]: no further than
    either. *)
Fixpoint store_payload (i k : nat) (bytes : list Z) : Prog TapRegions unit :=
  match bytes with
  | [] => Done tt
  | byte :: bytes =>
      if (k <? TAP_SNAP_LEN)%nat then
        do! _ <- store (λ r, r <| tap_records ::= λ r, r <| tap_slots ::=
                                    alter (λ s, s <| ts_payload ::= <[k := byte]> |>) i |> |>);
        store_payload i (S k) bytes
      else Done tt
  end.
Fixpoint load_payload (i k remaining : nat) : Prog TapRegions (list Z) :=
  match remaining with
  | 0%nat => Done []
  | S remaining =>
      do! byte <- load (λ r, byte_at (ts_payload (default TapSlot_zero (tap_slots (tap_records r) !! i))) k);
      do! bytes <- load_payload i (S k) remaining;
      Done (byte :: bytes)
  end.

Definition TapSlot_store (i : nat) (a : TapAnnotation) (original_len : Z) (payload : Snapped)
    : Prog TapRegions unit :=
  do! _ <- store_word i (λ w, w <| an_packet_id := an_packet_id a |>);
  do! _ <- store_word i (λ w, w <| an_timestamp := an_timestamp a |>);
  do! _ <- store_word i (λ w, w <| an_interface_id := an_interface_id a |>);
  do! _ <- store_word i (λ w, w <| an_original_len := original_len |>);
  do! _ <- store_word i (λ w, w <| an_verdict := an_verdict a |>);
  do! _ <- store_word i (λ w, w <| an_drop_reason := an_drop_reason a |>);
  do! _ <- store_word i (λ w, w <| an_flags := an_flags a |>);
  do! _ <- store_word i (λ w, w <| an_generation := an_generation a |>);
  do! _ <- store_word i (λ w, w <| an_flow_slot := an_flow_slot a |>);
  do! _ <- store_word i (λ w, w <| an_flow_generation := an_flow_generation a |>);
  do! _ <- store_word i (λ w, w <| an_classification := an_classification a |>);
  do! _ <- store_word i (λ w, w <| an_event := an_event a |>);
  do! _ <- store_word i (λ w, w <| an_flow_state := an_flow_state a |>);
  do! _ <- store_word i (λ w, w <| an_rule := an_rule a |>);
  do! _ <- store_reserved i 0 (an_reserved a);
  do! _ <- store_payload i 0 (sn_bytes payload);
  store_word i (λ w, w <| an_captured_len := sn_len payload |>).

Definition TapSlot_load (i : nat) : Prog TapRegions TapAnnotation :=
  do! reserved <- load_reserved i 0 TAP_RESERVED_WORDS;
  do! packet_id <- load_word i an_packet_id;
  do! timestamp <- load_word i an_timestamp;
  do! interface_id <- load_word i an_interface_id;
  do! original_len <- load_word i an_original_len;
  do! captured_len <- load_word i an_captured_len;
  do! verdict <- load_word i an_verdict;
  do! drop_reason <- load_word i an_drop_reason;
  do! flags <- load_word i an_flags;
  do! generation <- load_word i an_generation;
  do! flow_slot <- load_word i an_flow_slot;
  do! flow_generation <- load_word i an_flow_generation;
  do! classification <- load_word i an_classification;
  do! event <- load_word i an_event;
  do! flow_state <- load_word i an_flow_state;
  do! rule <- load_word i an_rule;
  Done {| an_packet_id := packet_id; an_timestamp := timestamp; an_interface_id := interface_id;
          an_original_len := original_len; an_captured_len := captured_len; an_verdict := verdict;
          an_drop_reason := drop_reason; an_flags := flags; an_generation := generation;
          an_flow_slot := flow_slot; an_flow_generation := flow_generation;
          an_classification := classification; an_event := event; an_flow_state := flow_state;
          an_rule := rule; an_reserved := reserved |}.

(** [into] has [TAP_SNAP_LEN] bytes; the slice answered is the payload. *)
Definition TapSlot_read_into (i : nat) : Prog TapRegions (Result (CheckedTap * list Z) TapFault) :=
  do! raw <- TapSlot_load i;
  match check_words raw with
  | Err fault => Done (Err fault)
  | Ok checked =>
      do! target <- load_payload i 0 (Z.to_nat (an_captured_len raw));
      Done (Ok (checked, target))
  end.

(** ** The handles *)
Inductive TapWriteError :=
| Full (dropped : Z)
| FrameExceedsWireLength (frame_len original_len : Z).

Record TapWriter := { tw_tail : Z; tw_dropped : Z }.
Definition TapRecords_writer : TapWriter := {| tw_tail := 0; tw_dropped := 0 |}.

Definition PeerConsume_head : Prog TapRegions Z := load (λ r, Z.land (tap_head (tap_consume r)) TAP_MASK).
Definition PeerRecords_tail : Prog TapRegions Z := load (λ r, Z.land (tap_tail (tap_records r)) TAP_MASK).
Definition PeerRecords_dropped : Prog TapRegions Z := load (λ r, tap_dropped (tap_records r)).

Definition TapWriter_write (self : TapWriter) (annotation : TapAnnotation) (original_len : Z) (frame : list Z)
    : Prog TapRegions (Result nat TapWriteError * TapWriter) :=
  let payload := Snapped_take frame in
  if original_len <? sn_len payload
  then Done (Err (FrameExceedsWireLength (Z.of_nat (length frame)) original_len), self) else
  let next := Z.land (wrapping_add 32 (tw_tail self) 1) TAP_MASK in
  do! head <- PeerConsume_head;
  if next =? head then
    let dropped := saturating_add 32 (tw_dropped self) 1 in
    do! _ <- store (λ r, r <| tap_records ::= λ r, r <| tap_dropped := dropped |> |>);
    Done (Err (Full dropped), {| tw_tail := tw_tail self; tw_dropped := dropped |})
  else
    do! _ <- TapSlot_store (TapRecords_slot (tw_tail self)) annotation original_len payload;
    do! _ <- store (λ r, r <| tap_records ::= λ r, r <| tap_tail := next |> |>);
    Done (Ok (length (sn_bytes payload)), {| tw_tail := next; tw_dropped := tw_dropped self |}).

Record TapReader := { tr_head : Z; tr_refused : Z }.
Definition TapConsume_reader : TapReader := {| tr_head := 0; tr_refused := 0 |}.

Definition TapReader_read (self : TapReader)
    : Prog TapRegions (option (Result (CheckedTap * list Z) TapFault) * TapReader) :=
  do! tail <- PeerRecords_tail;
  if tr_head self =? tail then Done (None, self) else
  do! read <- TapSlot_read_into (TapRecords_slot (tr_head self));
  let head := Z.land (wrapping_add 32 (tr_head self) 1) TAP_MASK in
  do! _ <- store (λ r, r <| tap_consume := {| tap_head := head |} |>);
  Done (Some read,
        {| tr_head := head;
           tr_refused := match read with Err _ => saturating_add 32 (tr_refused self) 1 | Ok _ => tr_refused self end |}).

(** [while taken < bound]; [visit] sees each record in turn, with its own state. *)
Fixpoint TapReader_drain_loop {V : Type} (visit : Result (CheckedTap * list Z) TapFault → V → V)
    (remaining taken : nat) (self : TapReader) (v : V) : Prog TapRegions (nat * TapReader * V) :=
  match remaining with
  | 0%nat => Done (taken, self, v)
  | S remaining =>
      do! (read, self) <- TapReader_read self;
      match read with
      | None => Done (taken, self, v)
      | Some read => TapReader_drain_loop visit remaining (S taken) self (visit read v)
      end
  end.
Definition TapReader_drain {V : Type} (self : TapReader) (limit : nat)
    (visit : Result (CheckedTap * list Z) TapFault → V → V) (v : V) : Prog TapRegions (nat * TapReader * V) :=
  let bound := if (limit <? TapRecords_capacity)%nat then limit else TapRecords_capacity in
  TapReader_drain_loop visit bound 0 self v.

Definition TapWriter_len (self : TapWriter) : Prog TapRegions nat :=
  do! head <- PeerConsume_head;
  Done (Z.to_nat (Z.land (wrapping_sub 32 (tw_tail self) head) TAP_MASK)).
Definition TapReader_len (self : TapReader) : Prog TapRegions nat :=
  do! tail <- PeerRecords_tail;
  Done (Z.to_nat (Z.land (wrapping_sub 32 tail (tr_head self)) TAP_MASK)).
Definition TapReader_dropped_by_writer : Prog TapRegions Z := PeerRecords_dropped.

(** ** Encoding and checking are inverse

    What a record must be for its words to be accepted: the relations the two
    documents of the ABI name. *)
Definition decision_consistent (d : TapDecision) : Prop :=
  match td_outcome d with
  | TO_Revoked =>
      td_direction d = None ∧ td_event d = Some TE_FlowRevoked
      ∧ match td_flow d with Some flow => tf_classification flow = None | None => False end
  | _ =>
      is_Some (td_direction d) ∧ td_event d ≠ Some TE_FlowRevoked
      ∧ match td_flow d with Some flow => is_Some (tf_classification flow) | None => True end
  end
  ∧ match td_event d with
    | Some event =>
        (TapEvent_names_a_flow event = true → is_Some (td_flow d))
        ∧ (event = TE_FlowClosed → ∃ flow, td_flow d = Some flow ∧ TapFlowState_is_terminal (tf_state flow) = true)
        ∧ (TapEvent_names_a_rule event = true ↔ is_Some (td_rule d))
    | None => td_rule d = None
    end
  ∧ match td_rule d with Some rule => 0 ≤ tap_rule_position rule < TAP_RULE_COUNT | None => True end.

Lemma drop_reason_bits x : decode_word TapDropReason_from_bits (TapDropReason_to_bits x) = λ _, Ok (Some x).
Proof. by destruct x. Qed.
Lemma classification_bits x : decode_word TapClassification_from_bits (TapClassification_to_bits x) = λ _, Ok (Some x).
Proof. by destruct x. Qed.
Lemma flow_state_bits x : decode_word TapFlowState_from_bits (TapFlowState_to_bits x) = λ _, Ok (Some x).
Proof. by destruct x. Qed.
Lemma event_bits x : decode_word TapEvent_from_bits (TapEvent_to_bits x) = λ _, Ok (Some x).
Proof. by destruct x. Qed.
Lemma rule_bits x :
  0 ≤ tap_rule_position x < TAP_RULE_COUNT →
  decode_word TapRule_from_bits (TapRule_to_bits x) = λ _, Ok (Some x).
Proof.
  intros Hx. destruct x as [position]. unfold decode_word, TapRule_from_bits, TapRule_to_bits, TAP_RULE_COUNT in *.
  simpl in *. rewrite (proj2 (Z.eqb_neq _ _)), (proj2 (Z.ltb_ge _ _)), (proj2 (Z.ltb_lt _ _)) by lia.
  by replace (position + 1 - 1) with position by lia.
Qed.
Lemma event_bits_revoked x : (TapEvent_to_bits x =? TapEvent_to_bits TE_FlowRevoked) = bool_decide (x = TE_FlowRevoked).
Proof. by destruct x. Qed.

Lemma decode_word_inv {A} (from_bits : Z → option A) (to_bits : A → Z) bits fault o :
  (∀ b x, from_bits b = Some x → b = to_bits x) →
  decode_word from_bits bits fault = Ok o → bits = from_option to_bits 0 o.
Proof.
  intros Hinv. unfold decode_word. destruct (bits =? 0) eqn:E; [intros [= <-]; simpl; lia|].
  destruct (from_bits bits) as [x|] eqn:Ex; [|done]. intros [= <-]. by apply Hinv.
Qed.

Ltac invert_bits := intros bits x; cbv beta delta [TapDropReason_from_bits TapClassification_from_bits
  TapFlowState_from_bits TapEvent_from_bits TapVerdict_from_bits];
  repeat (case_match; try discriminate); intros [= <-]; reflexivity.

Lemma TapDropReason_bits_inv : ∀ b x, TapDropReason_from_bits b = Some x → b = TapDropReason_to_bits x.
Proof. invert_bits. Qed.
Lemma TapClassification_bits_inv : ∀ b x, TapClassification_from_bits b = Some x → b = TapClassification_to_bits x.
Proof. invert_bits. Qed.
Lemma TapFlowState_bits_inv : ∀ b x, TapFlowState_from_bits b = Some x → b = TapFlowState_to_bits x.
Proof. invert_bits. Qed.
Lemma TapEvent_bits_inv : ∀ b x, TapEvent_from_bits b = Some x → b = TapEvent_to_bits x.
Proof. invert_bits. Qed.
Lemma TapVerdict_bits_inv : ∀ b x, TapVerdict_from_bits b = Some x → b = TapVerdict_to_bits x.
Proof. invert_bits. Qed.
Lemma TapDirection_bits_inv b x : TapDirection_from_bits b = Some x → b = TapDirection_to_bits x.
Proof. unfold TapDirection_from_bits, TAP_FLAG_OUTBOUND. repeat case_match; intros [= <-]; simpl; unfold TAP_FLAG_OUTBOUND; lia. Qed.
Lemma TapRule_bits_inv b x :
  TapRule_from_bits b = Some x → b = TapRule_to_bits x ∧ 0 ≤ tap_rule_position x < TAP_RULE_COUNT.
Proof. unfold TapRule_from_bits, TapRule_to_bits, TAP_RULE_COUNT. repeat case_match; intros [= <-]; simpl; lia. Qed.

(** The decision a checked record carries, and the words of one. *)
Definition CheckedTap_decision (ck : CheckedTap) : TapDecision :=
  {| td_outcome := ck_outcome ck; td_direction := ck_direction ck; td_generation := ck_generation ck;
     td_flow := ck_flow ck; td_rule := ck_rule ck; td_event := ck_event ck |}.
Definition words_of (ck : CheckedTap) (captured_len : Z) : TapAnnotation :=
  (TapAnnotation_new (ck_packet_id ck) (ck_timestamp ck) (ck_interface_id ck) (CheckedTap_decision ck))
    <| an_original_len := ck_original_len ck |> <| an_captured_len := captured_len |>.

Definition lengths_consistent (ck : CheckedTap) (captured_len : Z) : Prop :=
  0 ≤ captured_len ≤ Z.of_nat TAP_SNAP_LEN ∧ captured_len ≤ ck_original_len ck
  ∧ (if TapOutcome_observes_a_frame (ck_outcome ck) then 0 < ck_original_len ck else ck_original_len ck = 0).

Lemma decode_decision_complete ck captured_len :
  decision_consistent (CheckedTap_decision ck) →
  decode_decision (words_of ck captured_len) (TapOutcome_observes_a_frame (ck_outcome ck))
  = Ok {| dc_flow := ck_flow ck; dc_rule := ck_rule ck; dc_event := ck_event ck |}.
Proof.
  destruct ck as [pid ts iface olen out dir gen fl rl ev]. unfold decision_consistent. simpl.
  intros (Hout & Hev & Hrl). unfold decode_decision. simpl.
  unfold TapDecision_classification, TapDecision_flow_state, TapDecision_flow_slot, TapDecision_flow_generation,
    TapDecision_event, TapDecision_rule. simpl.
  assert (decode_word TapRule_from_bits (from_option TapRule_to_bits 0 rl) = λ _, Ok rl) as Er.
  { destruct rl; [by apply rule_bits|done]. }
  assert (decode_word TapEvent_from_bits (from_option TapEvent_to_bits 0 ev) = λ _, Ok ev) as Ee.
  { destruct ev; [apply event_bits|done]. }
  rewrite Er, Ee. clear Er Ee. simpl.
  destruct fl as [[slot fgen cl st]|]; simpl in *.
  - rewrite flow_state_bits.
    assert (∀ r, match cl with Some classification => decode_word TapClassification_from_bits (TapClassification_to_bits classification)
                  | None => decode_word TapClassification_from_bits 0 end r = Ok cl) as Ec
      by (intros r; destruct cl; [by rewrite classification_bits|done]).
    destruct cl as [cl|]; rewrite Ec; simpl.
    + destruct ev as [ev|]; simpl.
      * destruct Hev as (_ & Hcl & Hnr). rewrite ?andb_false_r.
        assert (bool_decide (ev = TE_FlowClosed) && negb (TapFlowState_is_terminal st) = false) as ->.
        { case_bool_decide; [|done]. destruct (Hcl H) as (? & [= <-] & Ht). simpl in *. by rewrite Ht. }
        assert (Bool.eqb (TapEvent_names_a_rule ev) (bool_decide (is_Some rl)) = true) as ->.
        { apply eqb_true_iff. apply eq_bool_prop_intro. rewrite bool_decide_spec, <- Hnr. by destruct (TapEvent_names_a_rule ev). }
        done.
      * subst rl. done.
    + destruct out; try (by destruct Hout as (_ & _ & []); done).
      simpl. destruct Hout as (_ & -> & _). destruct Hev as (_ & _ & Hnr). simpl in *.
      destruct rl; [|done]. by discriminate (proj2 Hnr (ex_intro _ _ eq_refl)).
  - destruct ev as [ev|]; simpl; [|by subst].
    destruct Hev as (Hnf & Hcl & Hnr).
    destruct (TapEvent_names_a_flow ev) eqn:E; [by destruct Hnf|]. simpl.
    rewrite bool_decide_false by (intros ->; destruct Hcl as (? & ? & _); done). simpl.
    assert (Bool.eqb (TapEvent_names_a_rule ev) (bool_decide (is_Some rl)) = true) as ->; [|done].
    apply eqb_true_iff. apply eq_bool_prop_intro. rewrite bool_decide_spec, <- Hnr. by destruct (TapEvent_names_a_rule ev).
Qed.

Lemma direction_bits d : TapDirection_from_bits (TapDirection_to_bits d) = Some d.
Proof. by destruct d. Qed.

Lemma revoked_event ev : ev ≠ Some TE_FlowRevoked → (from_option TapEvent_to_bits 0 ev =? TapEvent_to_bits TE_FlowRevoked) = false.
Proof. destruct ev as [[]|]; done. Qed.

Lemma check_words_complete ck captured_len :
  decision_consistent (CheckedTap_decision ck) → 0 ≤ ck_interface_id ck < MAX_INTERFACES →
  lengths_consistent ck captured_len → check_words (words_of ck captured_len) = Ok ck.
Proof.
  intros Hd Hi (Hc & Hco & Hol). pose proof (decode_decision_complete ck captured_len Hd) as Hdec.
  unfold check_words.
  change (an_captured_len (words_of ck captured_len)) with captured_len.
  change (an_original_len (words_of ck captured_len)) with (ck_original_len ck).
  change (an_interface_id (words_of ck captured_len)) with (ck_interface_id ck).
  change (an_reserved (words_of ck captured_len)) with [0; 0; 0].
  change (an_verdict (words_of ck captured_len)) with (TapVerdict_to_bits (TapOutcome_verdict (ck_outcome ck))).
  change (an_drop_reason (words_of ck captured_len)) with (TapOutcome_drop_reason (ck_outcome ck)).
  change (an_flags (words_of ck captured_len)) with (from_option TapDirection_to_bits 0 (ck_direction ck)).
  change (an_event (words_of ck captured_len)) with (from_option TapEvent_to_bits 0 (ck_event ck)).
  change (an_classification (words_of ck captured_len)) with (TapDecision_classification (CheckedTap_decision ck)).
  unfold MAX_INTERFACES, u8_max in *. change (Z.of_nat TAP_SNAP_LEN) with 2048 in *.
  rewrite !(proj2 (Z.ltb_ge _ _)), (proj2 (Z.leb_gt _ _)) by lia.
  destruct Hd as (Hout & _ & _). cbn [CheckedTap_decision td_outcome td_direction td_event td_flow] in Hout.
  destruct (ck_outcome ck) as [|reason|] eqn:Eo.
  - destruct Hout as ([d Ed] & Hnr & _). rewrite Ed, (revoked_event _ Hnr). simpl in *.
    rewrite (proj2 (Z.eqb_neq _ 0)) by lia. simpl. rewrite direction_bits. simpl. rewrite Hdec. simpl.
    rewrite <- Eo, <- Ed. by destruct ck.
  - destruct Hout as ([d Ed] & Hnr & _). rewrite Ed, (revoked_event _ Hnr). simpl in *. rewrite drop_reason_bits. simpl.
    rewrite (proj2 (Z.eqb_neq _ 0)) by lia. simpl. rewrite direction_bits. simpl. rewrite Hdec. simpl.
    rewrite <- Eo, <- Ed. by destruct ck.
  - destruct Hout as (Ed & Ee & Hfl). rewrite Ed, Ee. simpl in *. rewrite Hol.
    assert (captured_len = 0) as -> by lia. simpl.
    assert (TapDecision_classification (CheckedTap_decision ck) = 0) as ->.
    { unfold TapDecision_classification. simpl. destruct (ck_flow ck) as [[? ? [] ?]|]; done. }
    simpl. rewrite Hdec. simpl. rewrite <- Eo, <- Ed, <- Hol. by destruct ck.
Qed.

(** What decoding the six words of a decision says of them. *)
Lemma decode_decision_sound raw observes dec :
  (observes = false → an_classification raw = 0) → decode_decision raw observes = Ok dec →
  an_flow_slot raw = from_option tf_slot 0 (dc_flow dec)
  ∧ an_flow_generation raw = from_option tf_generation 0 (dc_flow dec)
  ∧ an_classification raw = from_option (λ f, from_option TapClassification_to_bits 0 (tf_classification f)) 0 (dc_flow dec)
  ∧ an_flow_state raw = from_option (λ f, TapFlowState_to_bits (tf_state f)) 0 (dc_flow dec)
  ∧ an_event raw = from_option TapEvent_to_bits 0 (dc_event dec)
  ∧ an_rule raw = from_option TapRule_to_bits 0 (dc_rule dec)
  ∧ match dc_flow dec with Some f => is_Some (tf_classification f) ↔ observes = true | None => True end
  ∧ match dc_event dec with
    | Some event =>
        (TapEvent_names_a_flow event = true → is_Some (dc_flow dec))
        ∧ (event = TE_FlowClosed → ∃ flow, dc_flow dec = Some flow ∧ TapFlowState_is_terminal (tf_state flow) = true)
        ∧ (TapEvent_names_a_rule event = true ↔ is_Some (dc_rule dec))
    | None => dc_rule dec = None
    end
  ∧ match dc_rule dec with Some rule => 0 ≤ tap_rule_position rule < TAP_RULE_COUNT | None => True end.
Proof.
  intros Hobs. unfold decode_decision.
  rewrite result_bind_Ok. intros (cl & Hcl & H). pose proof (decode_word_inv _ _ _ _ _ TapClassification_bits_inv Hcl) as Ecl.
  rewrite result_bind_Ok in H. destruct H as (st & Hst & H). pose proof (decode_word_inv _ _ _ _ _ TapFlowState_bits_inv Hst) as Est.
  rewrite result_bind_Ok in H. destruct H as (fl & Hfl & H).
  rewrite result_bind_Ok in H. destruct H as (ev & Hev & H). pose proof (decode_word_inv _ _ _ _ _ TapEvent_bits_inv Hev) as Eev.
  rewrite result_bind_Ok in H. destruct H as (rl & Hrl & H).
  assert (an_rule raw = from_option TapRule_to_bits 0 rl
    ∧ match rl with Some rule => 0 ≤ tap_rule_position rule < TAP_RULE_COUNT | None => True end) as [Erl Hrange].
  { unfold decode_word in Hrl. destruct (an_rule raw =? 0) eqn:E0; [injection Hrl as <-; split; [simpl; lia|done]|].
    destruct (TapRule_from_bits _) as [r|] eqn:Er; [|done]. injection Hrl as <-. by apply TapRule_bits_inv in Er. }
  assert (an_flow_slot raw = from_option tf_slot 0 fl ∧ an_flow_generation raw = from_option tf_generation 0 fl
    ∧ an_classification raw = from_option (λ f, from_option TapClassification_to_bits 0 (tf_classification f)) 0 fl
    ∧ an_flow_state raw = from_option (λ f, TapFlowState_to_bits (tf_state f)) 0 fl
    ∧ match fl with Some f => is_Some (tf_classification f) ↔ observes = true | None => True end) as (? & ? & ? & ? & ?).
  { destruct cl as [cl|], st as [st|]; [| |destruct observes|]; simpl in *; try done.
    - injection Hfl as <-. simpl. split_all; try done. split; [|done]. intros _. destruct observes; [done|].
      rewrite Hobs in Ecl by done. by destruct cl.
    - injection Hfl as <-. simpl. split_all; try done.
    - destruct (an_flow_slot raw =? 0) eqn:E1, (an_flow_generation raw =? 0) eqn:E2; simpl in *; try done.
      injection Hfl as <-. simpl. split_all; lia || done. }
  destruct ev as [ev|].
  - destruct (TapEvent_names_a_flow ev && negb (bool_decide (is_Some fl))) eqn:Enf; [done|].
    destruct (bool_decide (ev = TE_FlowClosed) && _) eqn:Ecd; [done|].
    destruct (Bool.eqb _ _) eqn:Enr; simpl in H; [|done]. injection H as <-. cbn [dc_flow dc_event dc_rule]. split_all; try done.
    + intros Hn. rewrite Hn in Enf. simpl in Enf. destruct fl; [by eexists|]. by rewrite bool_decide_false in Enf by (by intros [? ?]).
    + intros ->. rewrite bool_decide_true in Ecd by done. simpl in Ecd. destruct fl as [f|]; [|done]. exists f.
      split; [done|]. by destruct (TapFlowState_is_terminal _).
    + apply eqb_prop in Enr. rewrite Enr. by rewrite bool_decide_eq_true.
  - destruct (bool_decide (is_Some rl)) eqn:E; [done|]. injection H as <-. cbn [dc_flow dc_event dc_rule]. split_all; try done.
    destruct rl; [|done]. by rewrite bool_decide_true in E by (by eexists).
Qed.

(** The words a mapped slot holds: unsigned, and the reserved ones [TAP_RESERVED_WORDS] in number. *)
Definition words_ok (raw : TapAnnotation) : Prop :=
  0 ≤ an_captured_len raw ∧ 0 ≤ an_original_len raw ∧ 0 ≤ an_interface_id raw
  ∧ length (an_reserved raw) = TAP_RESERVED_WORDS.

Lemma reserved_zero words :
  length words = TAP_RESERVED_WORDS → existsb (λ word, negb (word =? 0)) words = false → words = [0; 0; 0].
Proof.
  destruct words as [|a [|b [|c [|]]]]; try done. intros _. simpl.
  destruct (a =? 0) eqn:?, (b =? 0) eqn:?, (c =? 0) eqn:?; try done. intros _. repeat f_equal; lia.
Qed.

Lemma check_words_sound raw ck :
  words_ok raw → check_words raw = Ok ck →
  raw = words_of ck (an_captured_len raw) ∧ decision_consistent (CheckedTap_decision ck)
  ∧ 0 ≤ ck_interface_id ck < MAX_INTERFACES ∧ lengths_consistent ck (an_captured_len raw).
Proof.
  intros (Hc0 & Ho0 & Hi0 & Hres). unfold check_words.
  destruct (_ <? an_captured_len raw) eqn:E1; [done|]. destruct (an_original_len raw <? _) eqn:E2; [done|].
  destruct (u8_max <? _) eqn:E3; [done|]. destruct (MAX_INTERFACES <=? _) eqn:E4; [done|].
  destruct (existsb _ _) eqn:E5; [done|]. apply reserved_zero in E5; [|done].
  destruct (TapVerdict_from_bits _) as [verdict|] eqn:Ev; [|done]. apply TapVerdict_bits_inv in Ev.
  rewrite result_bind_Ok. intros (reason & Hreason & H).
  pose proof (decode_word_inv _ _ _ _ _ TapDropReason_bits_inv Hreason) as Er.
  rewrite result_bind_Ok in H. destruct H as (outcome & Hout & H).
  assert (verdict = TapOutcome_verdict outcome ∧ an_drop_reason raw = TapOutcome_drop_reason outcome) as [-> Edr].
  { destruct verdict, reason; try done; injection Hout as <-; done. }
  rewrite result_bind_Ok in H. destruct H as (direction & Hdir & H).
  destruct (Bool.eqb _ _) eqn:Erev; [done|]. rewrite result_bind_Ok in H. destruct H as (dec & Hdec & H).
  assert (an_flags raw = from_option TapDirection_to_bits 0 direction
    ∧ (if TapOutcome_observes_a_frame outcome then is_Some direction ∧ 0 < an_original_len raw
       else direction = None ∧ an_original_len raw = 0 ∧ an_classification raw = 0)) as [Efl Hobs].
  { destruct (TapOutcome_observes_a_frame outcome).
    - destruct (an_original_len raw =? 0) eqn:E6; [done|]. destruct (TapDirection_from_bits _) as [d|] eqn:Ed; [|done].
      apply TapDirection_bits_inv in Ed. injection Hdir as <-. split_all; [done|by eexists|lia].
    - destruct (an_original_len raw =? 0) eqn:E6, (an_captured_len raw =? 0) eqn:E7; simpl in Hdir; try done.
      destruct (an_flags raw =? 0) eqn:E8; [|done]. destruct (an_classification raw =? 0) eqn:E9; [|done].
      injection Hdir as <-. simpl. split_all; lia || done. }
  apply decode_decision_sound in Hdec as (Hs & Hg & Hcl & Hst & Hevw & Hrl & Hfc & Hev & Hrr).
  2:{ intros Eobs. rewrite Eobs in Hobs. apply Hobs. }
  injection H as <-. unfold decision_consistent, lengths_consistent, words_of, TapAnnotation_new. simpl.
  split_all.
  - destruct raw. simpl in *. subst. unfold TapDecision_flags, TapDecision_flow_slot, TapDecision_flow_generation,
      TapDecision_classification, TapDecision_event, TapDecision_flow_state, TapDecision_rule. simpl. f_equal; [done|].
    by destruct (dc_flow dec) as [[? ? [] ?]|].
  - rewrite Hevw in Erev. destruct outcome; simpl in *.
    + destruct Hobs as [? ?]. split_all; [done|by intros Hx; rewrite Hx in Erev|]. destruct (dc_flow dec); [by apply Hfc|done].
    + destruct Hobs as [? ?]. split_all; [done|by intros Hx; rewrite Hx in Erev|]. destruct (dc_flow dec); [by apply Hfc|done].
    + destruct Hobs as (? & ? & ?). assert (dc_event dec = Some TE_FlowRevoked) as Ee.
      { destruct (dc_event dec) as [[]|]; done. }
      split_all; [done|done|]. rewrite Ee in Hev. destruct Hev as (Hn & _). destruct (Hn eq_refl) as [f Hf]. rewrite Hf in Hfc |- *.
      destruct (tf_classification f); [|done]. by discriminate (proj1 Hfc (ex_intro _ _ eq_refl)).
  - done.
  - done.
  - lia.
  - unfold MAX_INTERFACES in *. lia.
  - lia.
  - lia.
  - lia.
  - destruct (TapOutcome_observes_a_frame outcome); tauto.
Qed.

(** A reader accepts a slot's words exactly when they are the encoding of a
    decision that means something, with an interface the table has and lengths a
    frame can have, and what it answers is that decision: the checks refuse
    nothing a first-party producer writes of one, and let nothing else through. *)
Theorem tap_words_exact raw ck :
  words_ok raw →
  check_words raw = Ok ck ↔
  raw = words_of ck (an_captured_len raw) ∧ decision_consistent (CheckedTap_decision ck)
  ∧ 0 ≤ ck_interface_id ck < MAX_INTERFACES ∧ lengths_consistent ck (an_captured_len raw).
Proof.
  intros Hraw. split; [by apply check_words_sound|].
  intros (-> & Hd & Hi & Hl). by apply check_words_complete.
Qed.

(** Where a record's words carry several faults, the one reported is not always
    the first the documentation lists: an unknown flag is listed before a reserved
    word, and a record with both is refused for the reserved word. *)
Theorem fault_order_is_not_as_listed :
  check_words (TapAnnotation_zero <| an_original_len := 60 |> <| an_flags := 2 |> <| an_reserved := [1; 0; 0] |>)
  = Err (ReservedNonZero [1; 0; 0])
  ∧ check_words (TapAnnotation_zero <| an_original_len := 60 |> <| an_flags := 2 |>) = Err (FlagsUnknown 2).
Proof. split; reflexivity. Qed.
