(* ===== verification/PdTap.v ===== *)
(** * The dataplane's end of the recording tap

    Models [datad/crates/pd-runtime/src/tap.rs]: how a verdict and the facts the chain
    attached become the decision a record carries, and the handle that numbers and
    publishes records. *)
From S2P Require Import Prelude Shared NetHeaders Routing Clock FlowKey FlowEntry FlowTable Pipeline WireTap.

Definition tap_drop_reason (reason : DropReason) : TapDropReason :=
  match reason with
  | DR_Unowned => TDR_Unowned
  | DR_UnconfiguredIngressPort => TDR_UnconfiguredIngressPort
  | DR_InterfaceDisabled => TDR_InterfaceDisabled
  | DR_NotAddressedToUs => TDR_NotAddressedToUs
  | DR_VlanTagged => TDR_VlanTagged
  | DR_MartianSource => TDR_MartianSource
  | DR_UnroutableDestination => TDR_UnroutableDestination
  | DR_AddressedToThisRouter => TDR_AddressedToThisRouter
  | DR_TtlExpired => TDR_TtlExpired
  | DR_NoRoute => TDR_NoRoute
  | DR_EgressIsIngress => TDR_EgressIsIngress
  | DR_NoNeighbour => TDR_NoNeighbour
  | DR_FlowUnsupportedProtocol => TDR_FlowUnsupportedProtocol
  | DR_FlowFragment => TDR_FlowFragment
  | DR_FlowMalformed => TDR_FlowMalformed
  | DR_FlowInvalidFlags => TDR_FlowInvalidFlags
  | DR_FlowMidStream => TDR_FlowMidStream
  | DR_FlowInvalidState => TDR_FlowInvalidState
  | DR_FlowOutOfWindow => TDR_FlowOutOfWindow
  | DR_FlowNoSuchFlow => TDR_FlowNoSuchFlow
  | DR_FlowQuotedInvalid => TDR_FlowQuotedInvalid
  | DR_FlowUnsupportedIcmp => TDR_FlowUnsupportedIcmp
  | DR_FlowTableFull => TDR_FlowTableFull
  | DR_FlowBucketFull => TDR_FlowBucketFull
  | DR_PolicyDenied => TDR_PolicyDenied
  | DR_NoPolicyMatch => TDR_NoPolicyMatch
  end.

Definition tap_classification (c : Classification) : TapClassification :=
  match c with CNew => TC_New | CEstablished => TC_Established | CRelated => TC_Related end.

Definition tap_flow_state (state : FlowState) : option TapFlowState :=
  match state with
  | Vacant => None
  | SynSent => Some TFS_SynSent
  | SynReceived => Some TFS_SynReceived
  | Established => Some TFS_Established
  | FinWait => Some TFS_FinWait
  | CloseWait => Some TFS_CloseWait
  | Closing => Some TFS_Closing
  | TimeWait => Some TFS_TimeWait
  | Closed => Some TFS_Closed
  | UdpUnreplied => Some TFS_UdpUnreplied
  | UdpAssured => Some TFS_UdpAssured
  | IcmpUnreplied => Some TFS_IcmpUnreplied
  | IcmpReplied => Some TFS_IcmpReplied
  end.

Definition tap_flow (observation : FlowObservation) : option TapFlow :=
  match tap_flow_state (ob_state observation) with
  | Some state =>
      Some {| tf_slot := id_slot (ob_id observation); tf_generation := id_generation (ob_id observation);
              tf_classification := Some (tap_classification (ob_classification observation)); tf_state := state |}
  | None => None
  end.

Definition tap_revoked_flow (flow : LiveFlow) : option TapFlow :=
  match tap_flow_state (lf_state flow) with
  | Some state =>
      Some {| tf_slot := id_slot (lf_id flow); tf_generation := id_generation (lf_id flow);
              tf_classification := None; tf_state := state |}
  | None => None
  end.

Definition tap_outcome (verdict : Verdict) : TapOutcome :=
  match verdict with
  | Forward _ _ _ => TO_Forwarded
  | Drop reason => TO_Dropped (tap_drop_reason reason)
  end.

Definition tap_decision (inspection : Inspection) (verdict : Verdict) (direction : TapDirection) (generation : Z)
    : TapDecision :=
  let flow := in_flow inspection in
  let rule := position ← in_matched inspection; TapRule_new position in
  let event :=
    match verdict, ob_transition <$> flow with
    | Forward _ _ _, Some Opened => Some TE_FlowOpened
    | Forward _ _ _, Some Advanced =>
        match ob_state <$> flow with
        | Some (TimeWait | Closed) => Some TE_FlowClosed
        | _ => Some TE_FlowAdvanced
        end
    | Forward _ _ _, (Some Held | None) => None
    | Drop _, transition =>
        if bool_decide (is_Some (in_refusal inspection)) then Some TE_FlowRefused else
        match transition with
        | Some (Opened | Held) =>
            Some (match rule with Some _ => TE_PolicyDenied | None => TE_PolicyNoMatch end)
        | _ => None
        end
    end in
  {| td_outcome := tap_outcome verdict;
     td_direction := Some direction;
     td_generation := generation;
     td_flow := flow ≫= tap_flow;
     td_rule := match event with
                | Some event => if TapEvent_names_a_rule event then rule else None
                | None => None
                end;
     td_event := event |}.

(** ** The handle *)
Record Tap := { tp_writer : TapWriter; tp_next_packet_id : Z; tp_observed : Z; tp_refused : Z }.
#[export] Instance Tap_eta : Eta Tap := λ t,
  {| tp_writer := tp_writer t; tp_next_packet_id := tp_next_packet_id t; tp_observed := tp_observed t;
     tp_refused := tp_refused t |}.

Record TapCounters := { tc_observed : Z; tc_dropped : Z; tc_refused : Z }.

Definition Tap_attach : Tap :=
  {| tp_writer := TapRecords_writer; tp_next_packet_id := 0; tp_observed := 0; tp_refused := 0 |}.
Definition Tap_counters (t : Tap) : TapCounters :=
  {| tc_observed := tp_observed t; tc_dropped := tw_dropped (tp_writer t); tc_refused := tp_refused t |}.

Record Observation := { os_timestamp : Z; os_interface_id : Z; os_decision : TapDecision; os_frame : list Z }.
Record Revocation := { rev_timestamp : Z; rev_flow : LiveFlow; rev_generation : Z }.

(** What a write's answer does to the counts: a full ring is the writer's to count. *)
Definition count_write (self : Tap) (written : Result nat TapWriteError * TapWriter) : Tap :=
  let self := self <| tp_writer := written.2 |> in
  match written.1 with
  | Ok _ => self <| tp_observed ::= bump |>
  | Err (Full _) => self
  | Err (FrameExceedsWireLength _ _) => self <| tp_refused ::= bump |>
  end.

Definition Tap_observe (self : Tap) (o : Observation) : Prog TapRegions Tap :=
  let packet_id := tp_next_packet_id self in
  let self := self <| tp_next_packet_id ::= bump |> in
  let original_len := Z.min (Z.of_nat (length (os_frame o))) u32_max in
  let annotation := TapAnnotation_new packet_id (os_timestamp o) (os_interface_id o) (os_decision o) in
  do! written <- TapWriter_write (tp_writer self) annotation original_len (os_frame o);
  Done (count_write self written).

Definition Tap_observe_revocation (self : Tap) (r : Revocation) : Prog TapRegions Tap :=
  match tap_revoked_flow (rev_flow r) with
  | None => Done self
  | Some recorded =>
      let packet_id := tp_next_packet_id self in
      let self := self <| tp_next_packet_id ::= bump |> in
      let annotation := TapAnnotation_new packet_id (rev_timestamp r) (op_ingress (lf_opening (rev_flow r)))
        {| td_outcome := TO_Revoked; td_direction := None; td_generation := rev_generation r;
           td_flow := Some recorded; td_rule := None; td_event := Some TE_FlowRevoked |} in
      do! written <- TapWriter_write (tp_writer self) annotation 0 [];
      Done (count_write self written)
  end.
