(* ===== verification/TapFacts.v ===== *)
(** * What the tap records is what was decided

    The decision [PdTap] composes of an evaluation always means something, so a
    reader accepts it; and a record published on an idle ring is read back as it was
    decided, with the frame's bytes. *)
From S2P Require Import Prelude Shared NetHeaders NetHeadersFacts Routing Clock SeqNumber FlowKey FlowEntry FlowTcp FlowIcmp FlowTable FlowTableInv FlowTableOps FlowTableSpec FlowTableRun Pipeline PipelineFacts WireTap PdTap.

(** ** The decision means something *)

(** A ruleset of the type's capacity. *)
Definition ruleset_fits (c : Configuration) : Prop := (length (rs_rules (cf_rules c)) ≤ MAX_RULES)%nat.

Lemma find_first_elem {A} (p : A → bool) l x : find_first p l = Some x → x ∈ l.
Proof.
  induction l as [|y l IH]; simpl; [done|]. destruct (p y); [intros [= ->]; left|]. right. auto.
Qed.

Lemma length_omap_id {A} (l : list (option A)) : (length (omap id l) ≤ length l)%nat.
Proof. induction l as [|[r|] l IH]; csimpl; lia. Qed.

Lemma first_match_position c s position rule :
  ruleset_fits c → Ruleset_first_match (cf_rules c) s = Some (position, rule) → (position < MAX_RULES)%nat.
Proof.
  intros Hr H%find_first_elem. apply elem_of_lookup_imap in H as (i & x & [= -> _] & Hi).
  apply lookup_lt_Some in Hi. unfold ruleset_fits in Hr.
  pose proof (length_omap_id (take (rs_len (cf_rules c)) (rs_rules (cf_rules c)))) as H.
  rewrite length_take in H. lia.
Qed.

Lemma rule_position position : (position < MAX_RULES)%nat → ∃ rule, TapRule_new position = Some rule
  ∧ 0 ≤ tap_rule_position rule < TAP_RULE_COUNT.
Proof.
  unfold TapRule_new, TAP_RULE_COUNT, MAX_RULES. intros H. rewrite (proj2 (Z.ltb_lt _ _)) by lia.
  eexists. split; [done|]. simpl. lia.
Qed.

Lemma tap_flow_state_live st : st ≠ Vacant → ∃ s, tap_flow_state st = Some s
  ∧ (TapFlowState_is_terminal s = true ↔ st = TimeWait ∨ st = Closed).
Proof. destruct st; [done|..]; intros _; eexists; (split; [done|]); simpl; intuition discriminate. Qed.

Section Decisions.
Context {T : Type} `{!Tracker T, !TrackerLaws T}.

(** What the chain leaves on the inspection, by where the frame was settled. *)
Inductive inspected (c : Configuration) : Verdict → Inspection → Prop :=
| inspected_before_tracker reason i :
    in_flow i = None → in_refusal i = None → in_matched i = None → inspected c (Drop reason) i
| inspected_refused reason i kind :
    in_flow i = None → in_refusal i = Some kind → in_matched i = None → inspected c (Drop reason) i
| inspected_established egress source destination i flow :
    in_flow i = Some flow → ob_state flow ≠ Vacant → ob_transition flow ≠ Opened → in_matched i = None →
    inspected c (Forward egress source destination) i
| inspected_filtered verdict i :
    in_refusal i = None →
    match in_flow i with
    | Some flow => (ob_transition flow = Opened ∧ ob_state flow ≠ Vacant) ∨ ob_transition flow = Held
    | None => True
    end →
    match in_matched i with
    | Some position => (position < MAX_RULES)%nat
    | None => ∃ reason, verdict = Drop reason
    end →
    inspected c verdict i.

Lemma policy_inspected c i counters :
  ruleset_fits c → in_refusal i = None → in_matched i = None → is_Some (in_forwarding i) →
  match in_flow i with
  | Some flow => (ob_transition flow = Opened ∧ ob_state flow ≠ Vacant) ∨ ob_transition flow = Held
  | None => True
  end →
  let r := PolicyStage_evaluate c (counters, i) in inspected c r.1 r.2.2.
Proof.
  intros Hr Href Hm [f Hf] Hflow. unfold PolicyStage_evaluate. rewrite Hf.
  destruct (Ruleset_first_match _ _) as [[position rule]|] eqn:Hfm; simpl.
  - apply first_match_position in Hfm; [|done]. by apply inspected_filtered.
  - apply inspected_filtered; [done|done|]. rewrite Hm. by eexists.
Qed.

Lemma evaluate_inspected c now own policy ingress frame t :
  ruleset_fits c → trk_ok t → Packet_ok (arriving_packet ingress frame) →
  let r := Pipeline_evaluate c now own (arriving policy ingress frame t) in inspected c r.1 (ch_inspection r.2).
Proof.
  intros Hr Ht Hp. unfold Pipeline_evaluate. cbn [arriving ch_inspection ch_table ch_policy].
  destruct own; cbn [OwnershipStage_evaluate]; [by apply inspected_before_tracker|].
  destruct (AdmissionStage_evaluate _ c) as [|v] eqn:Ha.
  2:{ apply admission_settles in Ha as [r ->]. by apply inspected_before_tracker. }
  destruct (RoutingStage_evaluate c _) as [[|v] i] eqn:Hro.
  2:{ apply routing_settles in Hro as [-> [r ->]]. by apply inspected_before_tracker. }
  apply routing_continues in Hro as (f & -> & _). unfold ConnectionStage_classify.
  pose proof (law_state now (arriving_packet ingress frame) t Ht Hp) as Hst.
  change (packet_of (Inspection_attach_forwarding (Inspection_new ingress frame) f)) with (arriving_packet ingress frame).
  destruct (trk_classify now (arriving_packet ingress frame) t) as [o t1]. cbn [fst] in Hst.
  destruct o as [id st|id d previous st|id d|refusal].
  - pose proof (policy_inspected c (Inspection_attach_flow (Inspection_attach_forwarding (Inspection_new ingress frame) f)
      {| ob_id := id; ob_classification := CNew; ob_state := st; ob_transition := Opened |}) policy Hr
      eq_refl eq_refl ltac:(by eexists) ltac:(by left)) as H.
    cbv beta iota zeta. destruct (PolicyStage_evaluate c _) as [v [counters i]]. by destruct (ConnectionStage_settle i v t1).
  - simpl. eapply inspected_established; [done|done| |done]. simpl. by case_bool_decide.
  - destruct (trk_flow t1 id) as [e|]; cbn [fmap option_fmap option_map].
    + pose proof (policy_inspected c (Inspection_attach_flow (Inspection_attach_forwarding (Inspection_new ingress frame) f)
        {| ob_id := id; ob_classification := CRelated; ob_state := fl_state e; ob_transition := Held |}) policy Hr
        eq_refl eq_refl ltac:(by eexists) ltac:(by right)) as H.
      cbv beta iota zeta. destruct (PolicyStage_evaluate c _) as [v [counters i]]. by destruct (ConnectionStage_settle i v t1).
    + pose proof (policy_inspected c (Inspection_attach_forwarding (Inspection_new ingress frame) f) policy Hr
        eq_refl eq_refl ltac:(by eexists) I) as H.
      cbv beta iota zeta. destruct (PolicyStage_evaluate c _) as [v [counters i]]. by destruct (ConnectionStage_settle i v t1).
  - simpl. by eapply inspected_refused.
Qed.

Lemma tap_flow_live flow : ob_state flow ≠ Vacant → ∃ f, tap_flow flow = Some f ∧ is_Some (tf_classification f)
  ∧ (TapFlowState_is_terminal (tf_state f) = true ↔ ob_state flow = TimeWait ∨ ob_state flow = Closed).
Proof.
  intros H. unfold tap_flow. destruct (tap_flow_state_live _ H) as (s & -> & Hs). eexists. split; [done|].
  split; [by eexists|done].
Qed.

Lemma tap_flow_classified flow f : tap_flow flow = Some f → is_Some (tf_classification f).
Proof. unfold tap_flow. destruct (tap_flow_state _); [|done]. intros [= <-]. by eexists. Qed.

Ltac settle :=
  split_all; try done; try (by eexists); try (by intros _; eexists); try lia; try (by split; [intros _; eexists|]).

(** Every decision the forwarder composes of an evaluation is one the ABI has a
    meaning for. *)
Lemma tap_decision_consistent c v i generation :
  inspected c v i → decision_consistent (tap_decision i v Inbound generation).
Proof.
  intros Hi. unfold decision_consistent, tap_decision. cbn [td_outcome td_direction td_event td_flow td_rule].
  assert (match in_flow i ≫= tap_flow with Some flow => is_Some (tf_classification flow) | None => True end) as Hcl.
  { destruct (in_flow i) as [flow|]; simpl; [|done]. destruct (tap_flow flow) eqn:E; [by eapply tap_flow_classified|done]. }
  destruct Hi as [reason i Hf Href Hm|reason i kind Hf Href Hm|egress src dst i flow Hf Hst Htr Hm|v i Href Hf Hm].
  - rewrite Hf, Href, Hm in *. simpl. settle.
  - rewrite Hf, Href, Hm in *. simpl. settle.
  - rewrite Hf, Hm in *. simpl in *. destruct (tap_flow_live _ Hst) as (f & Ef & _ & Hterm). rewrite Ef in *.
    destruct (ob_transition flow); [done| |]; simpl.
    + destruct (ob_state flow) eqn:Es; simpl; (split_all; [by eexists|done|done|by eexists| | |done]);
        try (intros ?; exists f; split; [done|]; apply Hterm; auto); try done; intuition discriminate.
    + settle.
  - destruct (in_matched i) as [position|] eqn:Em; simpl in *.
    + destruct (rule_position _ Hm) as (rule & Er & Hrange). rewrite Er.
      destruct v as [egress src dst|reason]; rewrite ?Href.
      * destruct (in_flow i) as [flow|]; simpl in *.
        -- destruct Hf as [[-> Hst]| ->]; simpl; [|settle].
           destruct (tap_flow_live _ Hst) as (f & Ef & _). rewrite Ef in *.
           settle.
        -- settle.
      * rewrite bool_decide_false by (by intros [? ?]). destruct (in_flow i) as [flow|]; simpl in *.
        -- destruct Hf as [[-> Hst]| ->]; simpl; (settle).
        -- settle.
    + destruct Hm as [reason ->]. simpl. rewrite Href, bool_decide_false by (by intros [? ?]).
      destruct (in_flow i) as [flow|]; simpl in *.
      * destruct Hf as [[-> Hst]| ->]; simpl; settle.
      * settle.
Qed.
End Decisions.
