(* ===== verification/PdRuntime.v ===== *)
(** * The domains' ends of a pipeline

    Models [datad/crates/pd-runtime/src/lib.rs]: the pool owner, which lends buffers
    out as bare indices and takes them back off a ring a peer writes, and the
    forwarding stage, which drains one ring through the decision chain into another
    and rewrites what it forwards. *)
From S2P Require Import Prelude Shared Queue PacketBuffer NetHeaders Routing Clock FlowKey FlowEntry FlowTable Pipeline WireTap PdTap.

Definition POOL_BUFFERS : nat := 64.
Definition DEVICE_HEADER_LEN : Z := 12.
Definition RING_SLOTS : nat := 128.
Definition DRAIN_LIMIT : nat := RING_SLOTS.

Definition descriptor_in_bounds (d : Descriptor) : bool :=
  (d_buffer d <? Z.of_nat POOL_BUFFERS)
  && match checked_add 64 (d_offset d) (d_len d) with
     | Some end_ => end_ <=? Z.of_nat BUFFER_SIZE
     | None => false
     end.

(** The physical address of a pool buffer: nothing where the assertion fails. *)
Definition buffer_paddr (pool_paddr index : Z) : option Z :=
  if index <? Z.of_nat POOL_BUFFERS then Some (pool_paddr + index * Z.of_nat BUFFER_SIZE) else None.

(** A routine that may panic, in a program. *)
Definition or_panic {M A} (o : option A) : Prog M A := match o with Some a => Done a | None => Panic end.

(** ** The pool owner *)
Record PoolCounters := { reclaim_not_lent : Z; reclaim_refused : Z }.
#[export] Instance PoolCounters_eta : Eta PoolCounters := λ c,
  {| reclaim_not_lent := reclaim_not_lent c; reclaim_refused := reclaim_refused c |}.

Record PoolOwner := {
  po_ledger : FreeList;
  po_lent : list bool;
  po_free : RingConsumer;
  po_counters : PoolCounters
}.
#[export] Instance PoolOwner_eta : Eta PoolOwner := λ o,
  {| po_ledger := po_ledger o; po_lent := po_lent o; po_free := po_free o; po_counters := po_counters o |}.

Definition PoolOwner_attach : PoolOwner :=
  {| po_ledger := FreeList_full POOL_BUFFERS; po_lent := replicate POOL_BUFFERS false;
     po_free := SpscRing_consumer; po_counters := {| reclaim_not_lent := 0; reclaim_refused := 0 |} |}.

(** Nothing where the code would panic. *)
Definition PoolOwner_alloc (self : PoolOwner) : option (option Z * PoolOwner) :=
  '(popped, ledger) ← FreeList_pop (po_ledger self);
  Some (popped, self <| po_ledger := ledger |>).

Definition PoolOwner_release (self : PoolOwner) (buffer : Z) : option PoolOwner :=
  '(pushed, ledger) ← FreeList_push POOL_BUFFERS buffer (po_ledger self);
  match pushed with
  | Ok _ => Some (self <| po_ledger := ledger |>)
  | Err _ => None
  end.

(** Over the ring it publishes on. The token comes back where the ring refuses. *)
Definition PoolOwner_lend (self : PoolOwner) (ring : RingProducer) (buffer offset len : Z) (verdict : wire_Verdict)
    : Prog SpscRing (Result unit Z * PoolOwner * RingProducer) :=
  do! (enqueued, ring) <- RingProducer_try_enqueue RING_SLOTS ring (Descriptor_new buffer offset len verdict);
  match enqueued with
  | Err _ => Done (Err buffer, self, ring)
  | Ok _ =>
      do! lent <- or_panic (assign_at (Z.to_nat buffer) true (po_lent self));
      Done (Ok tt, self <| po_lent := lent |>, ring)
  end.

(** What the loop of [reclaim] threads through. *)
Record Reclaiming := { rq_ledger : FreeList; rq_lent : list bool; rq_counters : PoolCounters; rq_reclaimed : nat }.
#[export] Instance Reclaiming_eta : Eta Reclaiming := λ q,
  {| rq_ledger := rq_ledger q; rq_lent := rq_lent q; rq_counters := rq_counters q; rq_reclaimed := rq_reclaimed q |}.

Definition reclaim_one (descriptor : Descriptor) (q : Reclaiming) : Prog SpscRing (Flow Reclaiming) :=
  let index := d_buffer descriptor in
  if negb (bool_decide (rq_lent q !! Z.to_nat index = Some true))
  then Done (Next (q <| rq_counters ::= λ c, c <| reclaim_not_lent ::= bump |> |>)) else
  do! (accepted, ledger) <- or_panic (FreeList_reclaim POOL_BUFFERS index (rq_ledger q));
  let q := q <| rq_ledger := ledger |> in
  match accepted with
  | Ok _ =>
      do! lent <- or_panic (assign_at (Z.to_nat index) false (rq_lent q));
      Done (Next (q <| rq_lent := lent |> <| rq_reclaimed ::= S |>))
  | Err _ => Done (Next (q <| rq_counters ::= λ c, c <| reclaim_refused ::= bump |> |>))
  end.

(** Over the return ring. *)
Definition PoolOwner_reclaim (self : PoolOwner) : Prog SpscRing (nat * PoolOwner) :=
  do! (consumer, q) <-
    for_drain RING_SLOTS (λ r, r) (λ r _, r) reclaim_one (po_free self) DRAIN_LIMIT
      {| rq_ledger := po_ledger self; rq_lent := po_lent self; rq_counters := po_counters self; rq_reclaimed := 0 |};
  Done (rq_reclaimed q,
        {| po_ledger := rq_ledger q; po_lent := rq_lent q; po_free := consumer; po_counters := rq_counters q |}).

Definition PoolOwner_owned (self : PoolOwner) : nat := FreeList_len (po_ledger self).

(** ** The forwarding stage *)
Definition REWRITTEN_HEADER_LEN : nat := ETHERNET_HEADER_LEN + IPV4_HEADER_LEN.

Record RouteCounters := {
  rcn_generation : Z;
  rcn_forwarded : Z;
  rcn_egress_full : Z;
  rcn_malformed_descriptor : Z;
  rcn_snapshot_failed : Z;
  rcn_unparsable : ParseCounters;
  rcn_misrouted : Z;
  rcn_writeback_failed : Z;
  rcn_drops : DropCounters
}.
#[export] Instance RouteCounters_eta : Eta RouteCounters := λ c,
  {| rcn_generation := rcn_generation c; rcn_forwarded := rcn_forwarded c; rcn_egress_full := rcn_egress_full c;
     rcn_malformed_descriptor := rcn_malformed_descriptor c; rcn_snapshot_failed := rcn_snapshot_failed c;
     rcn_unparsable := rcn_unparsable c; rcn_misrouted := rcn_misrouted c;
     rcn_writeback_failed := rcn_writeback_failed c; rcn_drops := rcn_drops c |}.

Definition RouteCounters_default : RouteCounters :=
  {| rcn_generation := 0; rcn_forwarded := 0; rcn_egress_full := 0; rcn_malformed_descriptor := 0;
     rcn_snapshot_failed := 0; rcn_unparsable := ParseCounters_new; rcn_misrouted := 0;
     rcn_writeback_failed := 0; rcn_drops := DropCounters_new |}.

Record RouteStage := {
  rt_ingress : PortId;
  rt_egress : PortId;
  rt_from : RingConsumer;
  rt_to : RingProducer;
  rt_scratch : list Z;
  rt_counters : RouteCounters
}.
#[export] Instance RouteStage_eta : Eta RouteStage := λ s,
  {| rt_ingress := rt_ingress s; rt_egress := rt_egress s; rt_from := rt_from s; rt_to := rt_to s;
     rt_scratch := rt_scratch s; rt_counters := rt_counters s |}.

Definition RouteStage_attach (ingress egress : PortId) : RouteStage :=
  {| rt_ingress := ingress; rt_egress := egress; rt_from := SpscRing_consumer; rt_to := SpscRing_producer;
     rt_scratch := replicate BUFFER_SIZE 0; rt_counters := RouteCounters_default |}.

(** The memory a forwarding domain works over: the two rings of its region, the
    pool, the tap's regions, and the processor's timestamp counter. *)
Record Dataplane := {
  dp_rx : SpscRing;
  dp_tx : SpscRing;
  dp_pool : BufferPool;
  dp_tap : TapRegions;
  dp_tsc : Z
}.
#[export] Instance Dataplane_eta : Eta Dataplane := λ d,
  {| dp_rx := dp_rx d; dp_tx := dp_tx d; dp_pool := dp_pool d; dp_tap := dp_tap d; dp_tsc := dp_tsc d |}.

Definition on_rx {A} (p : Prog SpscRing A) : Prog Dataplane A := zoom dp_rx (λ r d, d <| dp_rx := r |>) p.
Definition on_tx {A} (p : Prog SpscRing A) : Prog Dataplane A := zoom dp_tx (λ r d, d <| dp_tx := r |>) p.
Definition on_pool {A} (p : Prog BufferPool A) : Prog Dataplane A := zoom dp_pool (λ r d, d <| dp_pool := r |>) p.
Definition on_tap {A} (p : Prog TapRegions A) : Prog Dataplane A := zoom dp_tap (λ r d, d <| dp_tap := r |>) p.

(** The frame's bytes, and the scratch they were put in the front of. *)
Definition snapshot (d : Descriptor) (scratch : list Z)
    : Prog Dataplane (Result (list Z) CopyOutError * list Z) :=
  let len := Z.to_nat (d_len d) in
  if (length scratch <? len)%nat
  then Done (Err (DestinationTooSmall (d_len d) (Z.of_nat (length scratch))), scratch)
  else
    do! (copied, frame_bytes) <-
      on_pool (BufferPool_copy_out POOL_BUFFERS (d_buffer d) (d_offset d) (d_len d) (take len scratch));
    Done (match copied with Ok _ => Ok frame_bytes | Err e => Err e end, frame_bytes ++ drop len scratch).

Inductive Routed :=
| Routed_Forward (source destination : MacAddress) (decision : TapDecision)
| Routed_Dropped (decision : TapDecision)
| Routed_Discarded.

Definition Routed_observed (r : Routed) : option TapDecision :=
  match r with
  | Routed_Forward _ _ decision | Routed_Dropped decision => Some decision
  | Routed_Discarded => None
  end.

Record Deciding := { dg_configuration : Configuration; dg_ownership : Ownership }.

Definition place (index offset : Z) (bytes : list Z) : Prog Dataplane (Result unit WriteOutsideBuffer) :=
  on_pool (BufferPool_write_at POOL_BUFFERS index offset bytes).

Definition write_back (d : Descriptor) (scratch : list Z) (counters : RouteCounters)
    : Prog Dataplane (wire_Verdict * RouteCounters) :=
  do! placed <- place (d_buffer d) (d_offset d) (take REWRITTEN_HEADER_LEN scratch);
  match placed with
  | Ok _ => Done (Transmit, counters)
  | Err _ => Done (Discard, counters <| rcn_writeback_failed ::= bump |>)
  end.

(** [frame.rewrite_for_forwarding] edits the front of the scratch the frame
    borrows. *)
Definition forward (d : Descriptor) (scratch : list Z) (frame_len : nat) (source destination : MacAddress)
    (counters : RouteCounters) : Prog Dataplane (wire_Verdict * list Z * RouteCounters) :=
  let frame_bytes := if (length scratch <? frame_len)%nat then [] else take frame_len scratch in
  match Frame_parse frame_bytes with
  | Err error => Done (Discard, scratch, counters <| rcn_unparsable ::= λ c, ParseCounters_record c error |>)
  | Ok frame =>
      match Frame_rewrite_for_forwarding frame source destination with
      | Ok frame =>
          let scratch := Frame_buffer frame ++ drop frame_len scratch in
          do! (verdict, counters) <- write_back d scratch counters;
          Done (verdict, scratch, counters)
      | Err _ => Done (Discard, scratch, counters <| rcn_drops ::= λ c, DropCounters_record c DR_TtlExpired |>)
      end
  end.

Section Stage.
Context {T : Type} `{!Tracker T}.

(** The pipeline's own counters and the table, which a decision edits. *)
Definition stage_decide (deciding : Deciding) (now : Monotonic) (ingress egress : PortId) (frame_bytes : list Z)
    (policy : PolicyCounters) (table : T) (counters : RouteCounters) : Routed * PolicyCounters * T * RouteCounters :=
  match Frame_parse frame_bytes with
  | Err error =>
      (Routed_Discarded, policy, table, counters <| rcn_unparsable ::= λ c, ParseCounters_record c error |>)
  | Ok frame =>
      let c := dg_configuration deciding in
      let '(verdict, chain) := Pipeline_evaluate c now (dg_ownership deciding)
        {| ch_policy := policy; ch_inspection := Inspection_new ingress frame; ch_table := table |} in
      let decision := tap_decision (ch_inspection chain) verdict Inbound (cf_generation c) in
      let policy := ch_policy chain in
      let table := ch_table chain in
      match verdict with
      | Drop reason =>
          (Routed_Dropped decision, policy, table, counters <| rcn_drops ::= λ c, DropCounters_record c reason |>)
      | Forward decided source destination =>
          if negb (decided =? egress)
          then (Routed_Discarded, policy, table, counters <| rcn_misrouted ::= bump |>)
          else (Routed_Forward source destination decision, policy, table, counters)
      end
  end.

(** What the loop of [poll] threads through. *)
Record Polling := {
  pl_to : RingProducer;
  pl_scratch : list Z;
  pl_counters : RouteCounters;
  pl_policy : PolicyCounters;
  pl_table : T;
  pl_tap : option Tap;
  pl_handed_on : nat
}.
#[export] Instance Polling_eta : Eta Polling := λ p,
  {| pl_to := pl_to p; pl_scratch := pl_scratch p; pl_counters := pl_counters p; pl_policy := pl_policy p;
     pl_table := pl_table p; pl_tap := pl_tap p; pl_handed_on := pl_handed_on p |}.

(** [if let Some(tap) = .. && let Some(decision) = ..]: one record of the frame as
    it arrived. *)
Definition observe_routed (routed : Routed) (ingress : PortId) (frame_len : nat) (scratch : list Z)
    (tap : option Tap) : Prog Dataplane (option Tap) :=
  match tap, Routed_observed routed with
  | Some tap, Some decision =>
      do! timestamp <- load dp_tsc;
      do! tap <- on_tap (Tap_observe tap
        {| os_timestamp := timestamp; os_interface_id := ingress; os_decision := decision;
           os_frame := if (length scratch <? frame_len)%nat then [] else take frame_len scratch |});
      Done (Some tap)
  | _, _ => Done tap
  end.

Definition poll_one (deciding : Deciding) (now : Monotonic) (ingress egress : PortId) (descriptor : Descriptor)
    (p : Polling) : Prog Dataplane (Flow Polling) :=
  if negb (descriptor_in_bounds descriptor)
  then Done (Next (p <| pl_counters ::= λ c, c <| rcn_malformed_descriptor ::= bump |> |>)) else
  do! (copied, scratch) <- snapshot descriptor (pl_scratch p);
  let p := p <| pl_scratch := scratch |> in
  let '(routed, frame_len, p) :=
    match copied with
    | Ok frame_bytes =>
        let '(routed, policy, table, counters) :=
          stage_decide deciding now ingress egress frame_bytes (pl_policy p) (pl_table p) (pl_counters p) in
        (routed, length frame_bytes,
         p <| pl_policy := policy |> <| pl_table := table |> <| pl_counters := counters |>)
    | Err _ =>
        (Routed_Discarded, 0%nat, p <| pl_counters ::= λ c, c <| rcn_snapshot_failed ::= bump |> |>)
    end in
  do! tap <- observe_routed routed ingress frame_len (pl_scratch p) (pl_tap p);
  let p := p <| pl_tap := tap |> in
  do! (verdict, scratch, counters) <-
    match routed with
    | Routed_Forward source destination _ =>
        forward descriptor (pl_scratch p) frame_len source destination (pl_counters p)
    | Routed_Dropped _ | Routed_Discarded => Done (Discard, pl_scratch p, pl_counters p)
    end;
  let p := p <| pl_scratch := scratch |> <| pl_counters := counters |> in
  do! (enqueued, to) <- on_tx (RingProducer_try_enqueue RING_SLOTS (pl_to p)
                                 (descriptor <| d_verdict := wire_Verdict_to_bits verdict |>));
  let p := p <| pl_to := to |> in
  match enqueued with
  | Err _ => Done (Break (p <| pl_counters ::= λ c, c <| rcn_egress_full ::= bump |> |>))
  | Ok _ =>
      Done (Next (p <| pl_handed_on ::= S |>
                    <| pl_counters ::= λ c, if bool_decide (verdict = Transmit) then c <| rcn_forwarded ::= bump |> else c |>))
  end.

Definition RouteStage_poll (self : RouteStage) (policy : PolicyCounters) (configuration : Configuration)
    (now : Monotonic) (table : T) (ownership : Ownership) (tap : option Tap)
    : Prog Dataplane (nat * RouteStage * PolicyCounters * T * option Tap) :=
  let deciding := {| dg_configuration := configuration; dg_ownership := ownership |} in
  do! (from, p) <-
    for_drain RING_SLOTS dp_rx (λ r d, d <| dp_rx := r |>) (poll_one deciding now (rt_ingress self) (rt_egress self))
      (rt_from self) DRAIN_LIMIT
      {| pl_to := rt_to self; pl_scratch := rt_scratch self;
         pl_counters := (rt_counters self) <| rcn_generation := cf_generation configuration |>;
         pl_policy := policy; pl_table := table; pl_tap := tap; pl_handed_on := 0 |};
  Done (pl_handed_on p,
        self <| rt_from := from |> <| rt_to := pl_to p |> <| rt_scratch := pl_scratch p |>
             <| rt_counters := pl_counters p |>,
        pl_policy p, pl_table p, pl_tap p).
End Stage.
