(* ===== verification/PoolOwnership.v ===== *)
(** * One owner per buffer

    The pool owner of [PdRuntime] against a peer that writes the return ring as it
    likes: at every moment each buffer is free, held by this domain or lent, and
    exactly one of the three. *)
From S2P Require Import Prelude Shared Queue PacketBuffer NetHeaders Routing Clock FlowKey FlowEntry FlowTable Pipeline WireTap PdTap PdRuntime.

#[export] Instance ring_slots_cap : RingCap RING_SLOTS.
Proof. exists 7%nat. split; [lia|reflexivity]. Qed.

Implicit Types (o : PoolOwner) (held : list Z).

(** ** The ledger refines a stack *)
Inductive LedgerOp := Pop | Return (index : Z).
Inductive LedgerAnswer := Popped (index : option Z) | Returned (r : Result unit ReturnError).

Definition ledger_do (N : nat) (op : LedgerOp) (l : FreeList) : option (LedgerAnswer * FreeList) :=
  match op with
  | Pop => '(popped, l) ← FreeList_pop l; Some (Popped popped, l)
  | Return i => '(r, l) ← FreeList_reclaim N i l; Some (Returned r, l)
  end.

(** The specification: a stack of indices, no index twice. *)
Definition stack_do (N : nat) (op : LedgerOp) (stack : list Z) : LedgerAnswer * list Z :=
  match op, stack with
  | Pop, [] => (Popped None, [])
  | Pop, i :: stack => (Popped (Some i), stack)
  | Return i, _ =>
      if decide (Z.of_nat N ≤ i) then (Returned (Err (OutOfRange i)), stack)
      else if decide (i ∈ stack) then (Returned (Err (NotOutstanding i)), stack)
      else (Returned (Ok tt), i :: stack)
  end.

Fixpoint ledger_run (N : nat) (ops : list LedgerOp) (l : FreeList) : option (list LedgerAnswer * FreeList) :=
  match ops with
  | [] => Some ([], l)
  | op :: ops =>
      '(a, l) ← ledger_do N op l;
      '(answers, l) ← ledger_run N ops l;
      Some (a :: answers, l)
  end.
Fixpoint stack_run (N : nat) (ops : list LedgerOp) (stack : list Z) : list LedgerAnswer * list Z :=
  match ops with
  | [] => ([], stack)
  | op :: ops =>
      let '(a, stack) := stack_do N op stack in
      let '(answers, stack) := stack_run N ops stack in
      (a :: answers, stack)
  end.

Definition op_ok (op : LedgerOp) : Prop := match op with Pop => True | Return i => is_u32 i end.

Lemma ledger_do_stack N op l :
  ledger_wf N l → op_ok op →
  ∃ l', ledger_do N op l = Some ((stack_do N op (free l)).1, l') ∧ free l' = (stack_do N op (free l)).2 ∧ ledger_wf N l'.
Proof.
  intros Hl Hop. destruct op as [|i]; simpl.
  - pose proof (pop_spec N l Hl) as H. destruct (free l) as [|i rest] eqn:E; simpl.
    + rewrite H. simpl. eauto.
    + destruct H as (l' & -> & Hf & Hw). simpl. eauto.
  - pose proof (accept_spec N i l Hl ltac:(unfold op_ok, in_u in Hop; lia)) as H. unfold FreeList_reclaim.
    case_decide; [rewrite H; simpl; eauto|]. case_decide; [rewrite H; simpl; eauto|].
    destruct H as (l' & -> & Hf & Hw). simpl. eauto.
Qed.

Lemma ledger_run_stack N ops l :
  ledger_wf N l → Forall op_ok ops →
  ∃ l', ledger_run N ops l = Some ((stack_run N ops (free l)).1, l') ∧ free l' = (stack_run N ops (free l)).2 ∧ ledger_wf N l'.
Proof.
  intros Hl Hops. revert l Hl. induction Hops as [|op ops Hop Hops IH]; intros l Hl; simpl; [eauto|].
  destruct (ledger_do_stack N op l Hl Hop) as (l1 & -> & E1 & Hl1). simpl.
  destruct (IH l1 Hl1) as (l2 & -> & E2 & Hl2). simpl. rewrite E1 in *.
  destruct (stack_do N op (free l)) as [a st]. simpl in *. destruct (stack_run N ops st) as [answers st']. simpl in *. eauto.
Qed.

(** Over any sequence of hand-outs and returns, whatever indices are returned,
    the ledger answers as a stack of distinct indices does that starts as the whole
    pool: a return is refused where the index names no buffer or one already free
    and accepted otherwise, the list is never found full and no index leaves an
    array. *)
Theorem ledger_refines_stack N ops :
  Forall op_ok ops →
  ∃ l', ledger_run N ops (FreeList_full N) = Some ((stack_run N ops (reverse (Z.of_nat <$> seq 0 N))).1, l')
    ∧ free l' = (stack_run N ops (reverse (Z.of_nat <$> seq 0 N))).2
    ∧ NoDup (free l') ∧ FreeList_len l' = length (free l').
Proof.
  intros Hops. assert (free (FreeList_full N) = reverse (Z.of_nat <$> seq 0 N)) as E.
  { unfold free, FreeList_full. simpl. by rewrite fill_indices_full, take_ge by (rewrite length_fmap, length_seq; lia). }
  rewrite <- E. destruct (ledger_run_stack N ops _ (full_wf N) Hops) as (l' & H1 & H2 & Hw).
  exists l'. split_all; [done|done|apply Hw|]. symmetry. by eapply free_length.
Qed.

(** ** The partition *)
Definition is_lent (lent : list bool) (i : Z) : Prop := lent !! Z.to_nat i = Some true.

(** Free, held or lent: one of them, and only one. *)
Definition one_place (l : FreeList) (lent : list bool) held (i : Z) : Prop :=
  (i ∈ free l ∨ i ∈ held ∨ is_lent lent i)
  ∧ ¬ (i ∈ free l ∧ i ∈ held) ∧ ¬ (i ∈ free l ∧ is_lent lent i) ∧ ¬ (i ∈ held ∧ is_lent lent i).

Definition in_pool (i : Z) : Prop := 0 ≤ i < Z.of_nat POOL_BUFFERS.

Definition partition (l : FreeList) (lent : list bool) held : Prop :=
  ledger_wf POOL_BUFFERS l ∧ length lent = POOL_BUFFERS ∧ NoDup held ∧ Forall in_pool held
  ∧ ∀ i, in_pool i → one_place l lent held i.

Definition owner_inv o held : Prop :=
  partition (po_ledger o) (po_lent o) held ∧ position_ok RING_SLOTS (rc_head (po_free o))
  ∧ reclaim_refused (po_counters o) = 0.

Lemma attach_inv : owner_inv PoolOwner_attach [].
Proof.
  unfold owner_inv. split_all; [|unfold position_ok, RING_SLOTS; simpl; lia|done]. unfold partition. cbn [po_ledger po_lent PoolOwner_attach].
  pose proof (full_wf POOL_BUFFERS) as Hf. split_all; [done|apply length_replicate|constructor|constructor|].
  intros i Hi. unfold in_pool in Hi. unfold one_place, is_lent.
  assert (replicate POOL_BUFFERS false !! Z.to_nat i = Some false) as Hr by (apply lookup_replicate; split; [done|lia]).
  assert (i ∈ free (FreeList_full POOL_BUFFERS)).
  { destruct Hf as (_ & _ & _ & _ & _ & Ho). specialize (Ho (Z.to_nat i) false Hr). rewrite Z2Nat.id in Ho by lia. by apply Ho. }
  rewrite Hr. split_all; [by left|by intros [_ ?%not_elem_of_nil]|by intros [_ ?]|by intros [_ ?]].
Qed.

Lemma held_filter held i : Forall in_pool held → Forall in_pool (filter (.≠ i) held).
Proof. rewrite !Forall_forall. intros H x [_ Hx]%list_elem_of_filter. by apply H. Qed.

(** An index moves from one place to another. *)
Lemma partition_alloc l lent held i l' :
  partition l lent held → free l = i :: free l' → ledger_wf POOL_BUFFERS l' → partition l' lent (i :: held).
Proof.
  intros (Hw & Hl & Hnd & Hin & Hone) Ef Hw'.
  assert (in_pool i) as Hi by (destruct Hw as (_ & _ & _ & _ & Hr & _); apply Hr; rewrite Ef; left).
  assert (i ∉ free l') as Hni.
  { destruct Hw as (_ & _ & _ & Hn & _). rewrite Ef in Hn. by apply NoDup_cons in Hn as [? _]. }
  unfold partition. split_all; [done|done| |by constructor|].
  - constructor; [|done]. intros Hh. destruct (Hone i Hi) as (_ & Hx & _). apply Hx. split; [rewrite Ef; left|done].
  - intros j Hj. specialize (Hone j Hj). unfold one_place in *. rewrite Ef in Hone. rewrite elem_of_cons in *.
    destruct (decide (j = i)) as [->|Hne]; intuition congruence.
Qed.

Lemma partition_release l lent held i l' :
  partition l lent held → i ∈ held → free l' = i :: free l → ledger_wf POOL_BUFFERS l' →
  partition l' lent (filter (.≠ i) held).
Proof.
  intros (Hw & Hl & Hnd & Hin & Hone) Hi Ef Hw'.
  unfold partition. split_all; [done|done|by apply NoDup_filter|by apply held_filter|].
  intros j Hj. specialize (Hone j Hj). unfold one_place in *. rewrite Ef, elem_of_cons, list_elem_of_filter.
  destruct (decide (j = i)) as [->|Hne]; intuition congruence.
Qed.

Lemma partition_lend l lent held i :
  partition l lent held → i ∈ held → partition l (<[Z.to_nat i := true]> lent) (filter (.≠ i) held).
Proof.
  intros (Hw & Hl & Hnd & Hin & Hone) Hi.
  assert (in_pool i) as Hip by (by eapply Forall_forall in Hin).
  unfold partition. split_all; [done|by rewrite length_insert|by apply NoDup_filter|by apply held_filter|].
  intros j Hj. pose proof (Hone j Hj) as Hj'. unfold one_place, is_lent, in_pool in *. rewrite list_elem_of_filter.
  destruct (decide (j = i)) as [->|Hne].
  - rewrite list_lookup_insert_eq by lia. intuition congruence.
  - rewrite list_lookup_insert_ne by lia. intuition congruence.
Qed.

Lemma partition_reclaim l lent held i l' :
  partition l lent held → is_lent lent i → 0 ≤ i → free l' = i :: free l → ledger_wf POOL_BUFFERS l' →
  partition l' (<[Z.to_nat i := false]> lent) held.
Proof.
  intros (Hw & Hl & Hnd & Hin & Hone) Hi Hi0 Ef Hw'.
  assert (in_pool i) as Hip.
  { unfold is_lent in Hi. apply lookup_lt_Some in Hi. unfold in_pool. lia. }
  unfold partition. split_all; [done|by rewrite length_insert|done|done|].
  intros j Hj. pose proof (Hone j Hj) as Hj'. unfold one_place, is_lent, in_pool in *. rewrite Ef, elem_of_cons.
  destruct (decide (j = i)) as [->|Hne].
  - rewrite list_lookup_insert_eq by lia. intuition congruence.
  - rewrite list_lookup_insert_ne by lia. intuition congruence.
Qed.

(** ** Each operation keeps the partition *)
Lemma alloc_inv o held :
  owner_inv o held →
  ∃ popped o', PoolOwner_alloc o = Some (popped, o')
    ∧ match popped with Some i => in_pool i ∧ owner_inv o' (i :: held) | None => owner_inv o' held end.
Proof.
  intros (Hp & Hpos & Hc). unfold PoolOwner_alloc. pose proof (pop_spec POOL_BUFFERS _ (proj1 Hp)) as H.
  destruct (free (po_ledger o)) as [|i rest] eqn:E.
  - rewrite H. simpl. eexists _, _. split; [done|]. by destruct o.
  - destruct H as (l' & -> & Hf & Hw). simpl. eexists _, _. split; [done|]. rewrite <- Hf in E.
    split; [|split; [by eapply partition_alloc|done]].
    destruct Hp as ((_ & _ & _ & _ & Hr & _) & _). apply Hr. rewrite E. left.
Qed.

(** A held buffer can always be given back: [release] does not panic. *)
Lemma release_inv o held i :
  owner_inv o held → i ∈ held → ∃ o', PoolOwner_release o i = Some o' ∧ owner_inv o' (filter (.≠ i) held).
Proof.
  intros (Hp & Hpos & Hc) Hi. pose proof Hp as (Hw & _ & _ & Hin & Hone).
  assert (in_pool i) as Hip by (by eapply Forall_forall in Hin).
  destruct (Hone i Hip) as (_ & Hx & _). unfold PoolOwner_release, FreeList_push.
  pose proof (accept_spec POOL_BUFFERS i _ Hw ltac:(unfold in_pool in Hip; lia)) as H.
  rewrite decide_False in H by (unfold in_pool in Hip; lia). rewrite decide_False in H by tauto.
  destruct H as (l' & -> & Hf & Hw'). simpl. eexists. split; [done|].
  split; [by eapply partition_release|done].
Qed.

Lemma lend_inv o held ring i offset len verdict :
  owner_inv o held → i ∈ held → position_ok RING_SLOTS (rp_tail ring) → is_u32 offset → is_u32 len →
  confined (SpscRing_ok RING_SLOTS) (producer_writes (rp_tail ring)) (PoolOwner_lend o ring i offset len verdict)
    (λ '(r, o', ring'), position_ok RING_SLOTS (rp_tail ring')
       ∧ match r with
         | Ok _ => owner_inv o' (filter (.≠ i) held)
         | Err back => back = i ∧ o' = o ∧ rp_tail ring' = rp_tail ring
         end).
Proof.
  intros (Hp & Hpos & Hc) Hi Hring Hoff Hlen. pose proof Hp as (Hw & Hll & _ & Hin & _).
  assert (in_pool i) as Hip by (by eapply Forall_forall in Hin).
  unfold PoolOwner_lend. destruct ring as [t]. eapply confined_bind.
  { apply (try_enqueue_confined RING_SLOTS); [apply Hring|]. unfold Descriptor_ok, Descriptor_new; simpl.
    split_all; [unfold in_pool in Hip; change (Z.of_nat POOL_BUFFERS) with 64 in Hip; ints|done|done|].
    destruct verdict; simpl; ints. }
  intros [[u|back] [t']]; simpl.
  - intros ->. unfold or_panic. rewrite assign_at_Some by (unfold in_pool in Hip; lia). simpl.
    split; [apply (next_ok RING_SLOTS), Hring|]. split; [by apply partition_lend|done].
  - intros [-> ->]. by split.
Qed.

(** How many buffers are lent. *)
Definition lent_count (lent : list bool) : nat := length (filter (.= true) lent).

Lemma lent_count_clear lent i :
  lent !! i = Some true → lent_count lent = S (lent_count (<[i := false]> lent)).
Proof.
  intros Hi. unfold lent_count. rewrite <- (take_drop_middle lent i true Hi) at 1.
  rewrite insert_take_drop by (by eapply lookup_lt_Some). rewrite !filter_app, !filter_cons. simpl.
  rewrite !length_app. simpl. lia.
Qed.

Lemma reclaim_inv o held :
  owner_inv o held →
  confined (SpscRing_ok RING_SLOTS) consumer_writes (PoolOwner_reclaim o)
    (λ '(reclaimed, o'), owner_inv o' held ∧ (reclaimed ≤ DRAIN_LIMIT)%nat
       ∧ (lent_count (po_lent o') + reclaimed = lent_count (po_lent o))%nat
       ∧ ∀ i, is_lent (po_lent o') i → is_lent (po_lent o) i).
Proof.
  intros (Hp & Hpos & Hc). unfold PoolOwner_reclaim. eapply confined_bind.
  { set (J := λ n q, partition (rq_ledger q) (rq_lent q) held ∧ reclaim_refused (rq_counters q) = 0
      ∧ (rq_reclaimed q ≤ n)%nat ∧ (lent_count (rq_lent q) + rq_reclaimed q = lent_count (po_lent o))%nat
      ∧ ∀ i, is_lent (rq_lent q) i → is_lent (po_lent o) i).
    apply (for_drain_confined RING_SLOTS _ _ _ (SpscRing_ok RING_SLOTS) consumer_writes J J);
      [done|done| |done|done|simpl; unfold J; split_all; auto].
    intros n d q Hd (Hq & Hr & Hn & Hcount & Hsub). unfold reclaim_one.
    case_bool_decide as Hl; simpl; [|unfold J; split_all; simpl; auto].
    assert (0 ≤ d_buffer d) as H0 by (destruct Hd as [? _]; unfold in_u in *; lia).
    pose proof Hq as (Hw & Hll & _ & _ & Hone).
    assert (in_pool (d_buffer d)) as Hip by (apply lookup_lt_Some in Hl; unfold in_pool; lia).
    destruct (Hone _ Hip) as (_ & _ & Hx & _).
    pose proof (accept_spec POOL_BUFFERS (d_buffer d) _ Hw H0) as H. unfold FreeList_reclaim.
    rewrite decide_False in H by (unfold in_pool in Hip; lia). rewrite decide_False in H by tauto.
    destruct H as (l' & -> & Hf & Hw'). simpl. unfold or_panic. rewrite assign_at_Some by (unfold in_pool in Hip; lia).
    unfold J. simpl. split_all; simpl; [by eapply partition_reclaim|done|lia| |].
    - rewrite (lent_count_clear _ _ Hl) in Hcount. lia.
    - intros i Hi. apply Hsub. unfold is_lent in *. rewrite list_lookup_insert_Some in Hi.
      destruct Hi as [(_ & ? & _)|[_ Hi]]; [done|]. exact Hi. }
  intros [self q] (k & Hk & (Hq & Hr & Hn & Hcount & Hsub) & Hh). simpl. split_all; [|lia|done|done].
  unfold owner_inv. simpl. split_all; [done| |done]. rewrite Hh. pose proof (cap_bounds RING_SLOTS).
  unfold position_ok. apply Z.mod_pos_bound. lia.
Qed.

(** ** The domain

    What the owning domain does with its owner, its publish ring and the tokens it
    holds; before each access to either ring the peer may have written anything. *)
Definition typed_peer (env : nat → SpscRing → SpscRing) : Prop :=
  ∀ n r, SpscRing_ok RING_SLOTS r → SpscRing_ok RING_SLOTS (env n r).

Definition Domain : Type := PoolOwner * RingProducer * list Z.

Inductive domain_step : Domain → Domain → Prop :=
| domain_allocs o ring held i o' :
    PoolOwner_alloc o = Some (Some i, o') → domain_step (o, ring, held) (o', ring, i :: held)
| domain_is_exhausted o ring held o' :
    PoolOwner_alloc o = Some (None, o') → domain_step (o, ring, held) (o', ring, held)
| domain_releases o ring held i o' :
    i ∈ held → PoolOwner_release o i = Some o' → domain_step (o, ring, held) (o', ring, filter (.≠ i) held)
| domain_lends o ring held i offset len verdict env m o' ring' n' m' :
    i ∈ held → is_u32 offset → is_u32 len → typed_peer env → SpscRing_ok RING_SLOTS m →
    run env (PoolOwner_lend o ring i offset len verdict) 0 m = (Some (Ok tt, o', ring'), n', m') →
    domain_step (o, ring, held) (o', ring', filter (.≠ i) held)
| domain_keeps o ring held i offset len verdict env m back o' ring' n' m' :
    i ∈ held → is_u32 offset → is_u32 len → typed_peer env → SpscRing_ok RING_SLOTS m →
    run env (PoolOwner_lend o ring i offset len verdict) 0 m = (Some (Err back, o', ring'), n', m') →
    domain_step (o, ring, held) (o', ring', held)
| domain_reclaims o ring held env m k o' n' m' :
    typed_peer env → SpscRing_ok RING_SLOTS m →
    run env (PoolOwner_reclaim o) 0 m = (Some (k, o'), n', m') →
    domain_step (o, ring, held) (o', ring, held).

Definition domain_new : Domain := (PoolOwner_attach, SpscRing_producer, []).

Definition domain_inv (d : Domain) : Prop :=
  let '(o, ring, held) := d in owner_inv o held ∧ position_ok RING_SLOTS (rp_tail ring).

Lemma domain_step_inv d d' : domain_inv d → domain_step d d' → domain_inv d'.
Proof.
  intros Hd Hs. destruct Hs as [o ring held i o' H|o ring held o' H|o ring held i o' Hi H
    |o ring held i offset len verdict env m o' ring' n' m' Hi Hof Hle He Hm H
    |o ring held i offset len verdict env m back o' ring' n' m' Hi Hof Hle He Hm H
    |o ring held env m k o' n' m' He Hm H]; destruct Hd as [Ho Hr]; unfold domain_inv.
  - destruct (alloc_inv _ _ Ho) as (? & ? & E & HQ). rewrite H in E. injection E as <- <-. tauto.
  - destruct (alloc_inv _ _ Ho) as (? & ? & E & HQ). rewrite H in E. injection E as <- <-. tauto.
  - destruct (release_inv _ _ _ Ho Hi) as (? & E & HQ). rewrite H in E. injection E as <-. tauto.
  - destruct (confined_sound _ _ _ _ env (lend_inv o held ring i offset len verdict Ho Hi Hr Hof Hle) He 0 m Hm)
      as (? & ? & ? & E & HQ & _). rewrite H in E. injection E as <- <- <-. tauto.
  - destruct (confined_sound _ _ _ _ env (lend_inv o held ring i offset len verdict Ho Hi Hr Hof Hle) He 0 m Hm)
      as (? & ? & ? & E & HQ & _). rewrite H in E. injection E as <- <- <-. destruct HQ as (Hr' & -> & -> & _). tauto.
  - destruct (confined_sound _ _ _ _ env (reclaim_inv o held Ho) He 0 m Hm)
      as (? & ? & ? & E & HQ & _). rewrite H in E. injection E as <- <- <-. tauto.
Qed.

Lemma domain_new_inv : domain_inv domain_new.
Proof. split; [apply attach_inv|]. unfold position_ok, RING_SLOTS. simpl. lia. Qed.

Lemma domain_runs_inv d : rtc domain_step domain_new d → domain_inv d.
Proof. intros H. eapply rtc_ind_r; [exact domain_new_inv| |exact H]. intros ?? _ Hs Hi. by eapply domain_step_inv. Qed.


(** A domain that holds buffer 63 while its peer claims, five times over, to return
    it: every claim is counted and nothing moves. *)
Definition holding : PoolOwner := default PoolOwner_attach (snd <$> PoolOwner_alloc PoolOwner_attach).
Definition forger (n : nat) (r : SpscRing) : SpscRing :=
  r <| ring_tail := 5 |> <| slots := replicate RING_SLOTS {| sl_buffer := 63; sl_offset := 0; sl_len := 0; sl_verdict := 0 |} |>.
Definition forged : option (nat * PoolOwner) * nat * SpscRing :=
  run forger (PoolOwner_reclaim holding) 0 (SpscRing_new RING_SLOTS).
Definition unmoved : PoolOwner := default holding (snd <$> forged.1.1).

Lemma typed_slots s : Slot_ok s → Forall Slot_ok (replicate RING_SLOTS s).
Proof. by apply Forall_replicate. Qed.

Lemma forger_typed : typed_peer forger.
Proof.
  intros n r (Hh & _). unfold SpscRing_ok, forger. cbn [ring_head ring_tail slots assign SpscRing_eta].
  split_all; [done|ints|apply length_replicate|]. apply typed_slots. unfold Slot_ok. simpl. ints.
Qed.

Lemma new_ring_typed : SpscRing_ok RING_SLOTS (SpscRing_new RING_SLOTS).
Proof.
  unfold SpscRing_ok, SpscRing_new. cbn [ring_head ring_tail slots].
  split_all; [ints|ints|apply length_replicate|]. apply typed_slots. unfold Slot_ok. simpl. ints.
Qed.

Lemma forged_run : rtc domain_step domain_new (unmoved, SpscRing_producer, [63]).
Proof.
  eapply rtc_l; [apply (domain_allocs _ _ _ 63 holding); vm_compute; reflexivity|]. eapply rtc_once.
  apply (domain_reclaims holding _ _ forger (SpscRing_new RING_SLOTS) 0 unmoved forged.1.2 forged.2).
  - exact forger_typed.
  - exact new_ring_typed.
  - vm_compute. reflexivity.
Qed.

