(* ===== verification/PdRoute.v ===== *)
(** * The forwarding stage carries out what the chain decided

    One pass of [RouteStage::poll] against peers that write anything into the shared
    regions at any moment: it returns, it takes a bounded number of descriptors, and
    what it leaves on the counters and in the connection table is the chain's
    decision on each snapshot, in order ([poll_refines_account]). Undisturbed, what
    it leaves in the pool is the rewritten frame and nothing else
    ([poll_one_carries_out]). *)
From S2P Require Import Prelude Shared Queue QueueFifo PacketBuffer NetHeaders NetHeadersFacts Routing Clock FlowKey FlowEntry FlowTable FlowTableSpec FlowTableRun Pipeline PipelineFacts FlowTracker PipelineExamples WireTap PdTap PdRuntime PoolOwnership.

(** ** The types of the configuration *)
Definition mac_ok (m : MacAddress) : Prop := length m = 6%nat ∧ bytes_ok m.
Definition macs_typed (r : Router) : Prop :=
  Forall (λ i, mac_ok (if_mac i)) (interfaces r) ∧ Forall (λ n, mac_ok (nb_mac n)) (neighbours r).

Lemma elem_of_take_weaken {A} n (l : list A) x : x ∈ take n l → x ∈ l.
Proof. intros H. rewrite <- (take_drop n l), elem_of_app. by left. Qed.

Lemma deliverable_macs c i f : macs_typed (cf_table c) → deliverable c i f → mac_ok (fw_source f) ∧ mac_ok (fw_destination f).
Proof.
  intros [Hi Hn] (_ & _ & _ & _ & _ & _ & _ & egress & nb & Hr & _ & Hnb & ->). cbn [fw_source fw_destination]. split.
  - apply min_by_key_spec in Hr as [[_ Hr]%list_elem_of_filter _]. apply elem_of_take_weaken in Hr.
    by eapply Forall_forall in Hi.
  - apply find_first_Some in Hnb as (before & after & Heq & _ & _).
    assert (nb ∈ take (neighbour_count (cf_table c)) (neighbours (cf_table c))) as H%elem_of_take_weaken
      by (rewrite Heq, elem_of_app; right; left).
    by eapply Forall_forall in Hn.
Qed.

(** ** The rewrite of a frame the chain forwards *)

Lemma rewrite_bytes_ok f src dst f' :
  bytes_ok (Frame_buffer f) → length (ipv4 f) = IPV4_HEADER_LEN → bytes_ok src → bytes_ok dst →
  Frame_rewrite_for_forwarding f src dst = Ok f' → bytes_ok (Frame_buffer f').
Proof.
  unfold Frame_buffer. rewrite !bytes_ok_app. intros (_ & Hb & Hi & Hp & Hpad) Hlen Hs Hd.
  unfold Frame_rewrite_for_forwarding. destruct (Z.ltb_spec 0 (ttl_of (ipv4 f) - 1)); [|done]. simpl negb. cbv iota.
  assert (is_u8 (ttl_of (ipv4 f))) as Ht by (apply byte_at_ok; done).
  set (base := <[11%nat:=0]> (<[10%nat:=0]> (<[8%nat:=ttl_of (ipv4 f) - 1]> (ipv4 f)))).
  assert (bytes_ok base) as Hbase.
  { repeat apply Forall_insert; try done; ints. }
  destruct (to_be16 _) as [hi lo] eqn:Hck.
  destruct (checksum_completes base hi lo Hbase ltac:(subst base; by rewrite !length_insert) Hck) as (_ & ? & ?).
  intros [= <-]. simpl. split_all; try done; [by apply bytes_ok_app|]. by apply Forall_insert; [apply Forall_insert|].
Qed.

(** What a forwarded frame's rewrite is: a frame of the same length that parses, and
    that differs only in the header bytes the stage writes back. *)
Record rewritten (frame : list Z) (source destination : MacAddress) (f f' : Frame) : Prop := {
  rw_parsed : Frame_parse frame = Ok f;
  rw_edited : Frame_rewrite_for_forwarding f source destination = Ok f';
  rw_ok : bytes_ok (Frame_buffer f');
  rw_room : (REWRITTEN_HEADER_LEN ≤ length frame)%nat;
  rw_length : length (Frame_buffer f') = length frame;
  rw_rest : drop REWRITTEN_HEADER_LEN (Frame_buffer f') = drop REWRITTEN_HEADER_LEN frame;
  rw_macs : mac_ok source ∧ mac_ok destination
}.

Lemma rewritten_untagged frame f source destination :
  bytes_ok frame → Frame_parse frame = Ok f → vlan f = None → 1 < ip_ttl (Frame_ipv4 f) →
  mac_ok source → mac_ok destination → ∃ f', rewritten frame source destination f f'.
Proof.
  intros Hok Hparse Hv Httl [Hls Hs] [Hld Hd]. destruct (rewrite_succeeds f source destination Httl) as [f' Hrw].
  exists f'. pose proof Hparse as [<- (Hms & Hsh & (Hip & _) & _)]%Frame_parse_sound.
  pose proof (rewrite_shape _ _ _ _ Hrw) as (Em & Eb & Ei & Ep & Epad).
  assert (length (l2_between f) = 2%nat) as Hl2.
  { destruct Hsh as [(_ & ? & _)|(_ & _ & _ & ?)]; [done|congruence]. }
  assert (∀ m b i rest : list Z, length m = 12%nat → length b = 2%nat → length i = 20%nat →
    drop REWRITTEN_HEADER_LEN (m ++ b ++ i ++ rest) = rest) as Hdrop.
  { intros m b i rest ? ? ?. rewrite (app_assoc b), (app_assoc m).
    replace REWRITTEN_HEADER_LEN with (length (m ++ b ++ i)) by (rewrite !length_app; unfold REWRITTEN_HEADER_LEN; lens).
    by rewrite drop_app_length. }
  unfold MAC_PAIR_LEN in *. constructor; try done.
  - exact (rewrite_bytes_ok f source destination f' Hok Hip Hs Hd Hrw).
  - unfold Frame_buffer, REWRITTEN_HEADER_LEN. rewrite !length_app. lens.
  - unfold Frame_buffer. rewrite Em, Eb, Ep, Epad, !length_app. lens.
  - unfold Frame_buffer. rewrite Em, Eb, Ep, Epad. rewrite !Hdrop; rewrite ?length_app; lens || done.
Qed.

(** ** The tap, whatever the recorder writes *)
Definition tap_writes (r r' : TapRegions) : Prop := tap_consume r' = tap_consume r.
Abbreviation tap_confined p := (confined (λ _ : TapRegions, True) tap_writes p) (only parsing).

Lemma records_store_confined (f : TapRecords → TapRecords) (Q : unit → Prop) :
  Q tt → tap_confined (store (λ r, r <| tap_records ::= f |>)) Q.
Proof. intros HQ. by apply confined_store. Qed.

Lemma store_reserved_confined i k words : tap_confined (store_reserved i k words) (λ _, True).
Proof.
  revert k. induction words as [|word words IH]; intros k; cbn [store_reserved]; [done|].
  by eapply (confined_bind _ _ _ _ (λ _, True)); [apply records_store_confined|intros _ _].
Qed.

Lemma store_payload_confined i k bytes : tap_confined (store_payload i k bytes) (λ _, True).
Proof.
  revert k. induction bytes as [|byte bytes IH]; intros k; cbn [store_payload]; [done|].
  destruct (_ <? _)%nat; [|done].
  by eapply (confined_bind _ _ _ _ (λ _, True)); [apply records_store_confined|intros _ _].
Qed.

Lemma TapSlot_store_confined i a original_len payload :
  tap_confined (TapSlot_store i a original_len payload) (λ _, True).
Proof.
  unfold TapSlot_store.
  repeat (eapply (confined_bind _ _ _ _ (λ _, True)); [|intros _ _]);
    first [apply store_reserved_confined|apply store_payload_confined|by apply records_store_confined].
Qed.

(** Every decided frame takes a packet identifier; a frame is never refused for its
    length, and what is not recorded is what the ring had no room for. *)
Lemma Tap_observe_confined tap o :
  tap_confined (Tap_observe tap o)
    (λ tap', tp_next_packet_id tap' = bump (tp_next_packet_id tap) ∧ tp_refused tap' = tp_refused tap).
Proof.
  unfold Tap_observe, TapWriter_write.
  assert ((Z.min (Z.of_nat (length (os_frame o))) u32_max <? sn_len (Snapped_take (os_frame o))) = false) as Hlen.
  { unfold Snapped_take, wrap, u32_max. change (2 ^ 32) with 4294967296. change TAP_SNAP_LEN with 2048%nat.
    destruct (_ <? 2048)%nat eqn:E; cbn [sn_len]; [rewrite Z.mod_small by lia|]; lia. }
  rewrite Hlen. eapply (confined_bind _ _ _ _ (λ '(written, _), ∀ len olen, written ≠ Err (FrameExceedsWireLength len olen))).
  - eapply (confined_bind _ _ _ _ (λ _, True)); [by apply confined_load|intros head _].
    case_match; (eapply (confined_bind _ _ _ _ (λ _, True)); [|intros _ _]).
    + by apply records_store_confined.
    + done.
    + apply TapSlot_store_confined.
    + eapply (confined_bind _ _ _ _ (λ _, True)); [by apply records_store_confined|done].
  - intros [written writer] Hw. simpl. destruct written as [|[]]; simpl; [done|done|]. by destruct (Hw frame_len original_len).
Qed.

(** ** One descriptor, whatever the peers write *)
Definition dataplane_ok (d : Dataplane) : Prop :=
  SpscRing_ok RING_SLOTS (dp_rx d) ∧ SpscRing_ok RING_SLOTS (dp_tx d) ∧ pool_ok POOL_BUFFERS (dp_pool d).

(** What the stage may edit: its ends of the two rings, the pool, the tap's records. *)
Definition stage_writes (d d' : Dataplane) : Prop :=
  consumer_writes (dp_rx d) (dp_rx d') ∧ ring_head (dp_tx d') = ring_head (dp_tx d)
  ∧ tap_consume (dp_tap d') = tap_consume (dp_tap d) ∧ dp_tsc d' = dp_tsc d.
Abbreviation stage_confined p := (confined dataplane_ok stage_writes p) (only parsing).

Lemma stage_writes_refl d : stage_writes d d.
Proof. done. Qed.

Lemma descriptor_in_bounds_spec d :
  Descriptor_ok d →
  descriptor_in_bounds d = true ↔ d_buffer d < Z.of_nat POOL_BUFFERS ∧ d_offset d + d_len d ≤ Z.of_nat BUFFER_SIZE.
Proof.
  intros (_ & Ho & Hl & _). unfold descriptor_in_bounds, checked_add, in_u in *.
  change (2 ^ 64) with 18446744073709551616. change (2 ^ 32) with 4294967296 in *.
  destruct (Z.ltb_spec (d_offset d + d_len d) 18446744073709551616); lia.
Qed.

Lemma snapshot_confined d scratch :
  Descriptor_ok d → descriptor_in_bounds d = true → length scratch = BUFFER_SIZE →
  stage_confined (snapshot d scratch)
    (λ '(copied, scratch'), ∃ frame, copied = Ok frame ∧ length frame = Z.to_nat (d_len d) ∧ bytes_ok frame
       ∧ scratch' = frame ++ drop (Z.to_nat (d_len d)) scratch).
Proof.
  intros Hd [Hb Hfit]%(descriptor_in_bounds_spec _ Hd) Hs. destruct Hd as (Hdb & Ho & Hl & _).
  unfold in_u, BUFFER_SIZE in *. unfold snapshot. rewrite (proj2 (Nat.ltb_ge _ _)) by lia.
  eapply confined_bind.
  { eapply confined_zoom; [apply (copy_out_confined POOL_BUFFERS (λ p p', p' = p)); (lia || done)|by intros m (_ & _ & ?)|].
    intros m n (? & ? & ?) ? ->. split; [done|]. by destruct m. }
  intros [copied frame_bytes]. rewrite decide_True by (unfold BUFFER_SIZE; lia).
  rewrite length_take, decide_True by lia. intros (frame & -> & Hlen & Hok & ->). exists frame.
  rewrite (drop_ge (take _ _)), app_nil_r by (rewrite length_take; lia). done.
Qed.

Lemma write_back_confined d scratch counters :
  Descriptor_ok d → descriptor_in_bounds d = true → bytes_ok scratch →
  (REWRITTEN_HEADER_LEN ≤ Z.to_nat (d_len d) ≤ length scratch)%nat →
  stage_confined (write_back d scratch counters) (λ r, r = (Transmit, counters)).
Proof.
  intros Hd [Hb Hfit]%(descriptor_in_bounds_spec _ Hd) Hs Hlen. destruct Hd as (Hdb & Ho & Hl & _).
  unfold in_u in *. unfold write_back, place. eapply confined_bind.
  { eapply confined_zoom;
      [apply (write_at_confined POOL_BUFFERS (d_buffer d) (d_offset d)); [lia|lia|by apply Forall_take]|by intros m (_ & _ & ?)|].
    intros m n (? & ? & ?) ? _. done. }
  cbv beta. intros r. rewrite decide_True by (rewrite length_take; lia). by intros ->.
Qed.

Lemma forward_confined d frame rest source destination f f' counters :
  Descriptor_ok d → descriptor_in_bounds d = true → length frame = Z.to_nat (d_len d) → bytes_ok rest →
  rewritten frame source destination f f' →
  stage_confined (forward d (frame ++ rest) (length frame) source destination counters)
    (λ r, r = (Transmit, Frame_buffer f' ++ rest, counters)).
Proof.
  intros Hd Hb Hlen Hrest [Hp He Hok Hroom Hl _ _]. unfold forward.
  rewrite (proj2 (Nat.ltb_ge _ _)) by (rewrite length_app; lia). rewrite take_app_length, Hp, He, drop_app_length.
  eapply confined_bind; [apply write_back_confined; [done|done|by apply bytes_ok_app|rewrite length_app; lia]|].
  intros r ->. done.
Qed.

Lemma observe_routed_confined routed ingress frame_len scratch tap :
  stage_confined (observe_routed routed ingress frame_len scratch tap)
    (λ tap', tp_next_packet_id <$> tap' = match Routed_observed routed with Some _ => bump | None => id end <$> (tp_next_packet_id <$> tap)
             ∧ tp_refused <$> tap' = tp_refused <$> tap).
Proof.
  unfold observe_routed. destruct tap as [tap|]; [|by destruct (Routed_observed routed)].
  destruct (Routed_observed routed) as [decision|]; [|done].
  eapply (confined_bind _ _ _ _ (λ _, True)); [by apply confined_load|intros timestamp _].
  eapply confined_bind.
  { eapply confined_zoom; [apply Tap_observe_confined|done|]. intros m n Hm _ Ht. split; [done|]. by repeat split. }
  intros tap' [H1 H2]. simpl. by rewrite H1, H2.
Qed.

Lemma enqueue_confined to d :
  position_ok RING_SLOTS (rp_tail to) → Descriptor_ok d →
  stage_confined (on_tx (RingProducer_try_enqueue RING_SLOTS to d))
    (λ '(r, to'), rp_tail to' = match r with Ok _ => (rp_tail to + 1) mod Z.of_nat RING_SLOTS | Err _ => rp_tail to end).
Proof.
  intros Hp Hd. destruct to as [p]. eapply confined_zoom.
  - eapply confined_weaken; [by apply (try_enqueue_confined RING_SLOTS p d)|done|].
    intros [[] to']; [done|]. by intros [_ ?].
  - by intros m (_ & ? & _).
  - intros m n (? & ? & ?) ? [Hh _]. split; [done|]. by repeat split.
Qed.

(** ** The account a pass leaves

    What became of one descriptor: refused for its bounds, or its snapshot decided
    and the descriptor handed on, or decided and the egress ring full. *)
Inductive PollEvent := Malformed | Carried (frame : list Z) (handed_on : bool).

Definition event_ok (e : PollEvent) : Prop :=
  match e with Malformed => True | Carried frame _ => bytes_ok frame ∧ (length frame ≤ BUFFER_SIZE)%nat end.

(** A full egress ring ends the pass. *)
Definition breaks_last (events : list PollEvent) : Prop :=
  ∀ i frame, events !! i = Some (Carried frame false) → S i = length events.

Lemma breaks_last_snoc events e :
  (∀ frame, Carried frame false ∉ events) → breaks_last (events ++ [e]).
Proof.
  intros H i frame Hi. destruct (decide (i < length events)%nat).
  - rewrite lookup_app_l in Hi by done. by apply list_elem_of_lookup_2 in Hi as ?%H.
  - apply lookup_lt_Some in Hi. rewrite length_app in *. simpl in *. lia.
Qed.

Section Account.
Context {T : Type} `{!Tracker T}.
Context (deciding : Deciding) (now : Monotonic) (ingress egress : PortId).

Record Account := {
  ac_policy : PolicyCounters;
  ac_table : T;
  ac_counters : RouteCounters;
  ac_packet_id : option Z;
  ac_handed_on : nat
}.

Definition account (a : Account) (e : PollEvent) : Account :=
  match e with
  | Malformed =>
      {| ac_policy := ac_policy a; ac_table := ac_table a;
         ac_counters := (ac_counters a) <| rcn_malformed_descriptor ::= bump |>;
         ac_packet_id := ac_packet_id a; ac_handed_on := ac_handed_on a |}
  | Carried frame handed_on =>
      let '(routed, policy, table, counters) :=
        stage_decide deciding now ingress egress frame (ac_policy a) (ac_table a) (ac_counters a) in
      {| ac_policy := policy; ac_table := table;
         ac_counters :=
           if handed_on then
             match routed with Routed_Forward _ _ _ => counters <| rcn_forwarded ::= bump |> | _ => counters end
           else counters <| rcn_egress_full ::= bump |>;
         ac_packet_id := match Routed_observed routed with Some _ => bump | None => id end <$> ac_packet_id a;
         ac_handed_on := if handed_on then S (ac_handed_on a) else ac_handed_on a |}
  end.

Definition accounted (p : Polling) : Account :=
  {| ac_policy := pl_policy p; ac_table := pl_table p; ac_counters := pl_counters p;
     ac_packet_id := tp_next_packet_id <$> pl_tap p; ac_handed_on := pl_handed_on p |}.

Context `{!TrackerLaws T}.
Context (Hmacs : macs_typed (cf_table (dg_configuration deciding))).

(** A forwarding verdict is about a frame the stage can rewrite. *)
Lemma stage_decide_forwards frame policy table counters source destination decision policy' table' counters' :
  bytes_ok frame →
  stage_decide deciding now ingress egress frame policy table counters
    = (Routed_Forward source destination decision, policy', table', counters') →
  ∃ f f', rewritten frame source destination f f'.
Proof using Hmacs.
  intros Hok. unfold stage_decide. destruct (Frame_parse frame) as [f|] eqn:Hp; [|done].
  set (c := dg_configuration deciding) in *.
  change {| ch_policy := policy; ch_inspection := Inspection_new ingress f; ch_table := table |}
    with (arriving policy ingress f table).
  destruct (Pipeline_evaluate c now (dg_ownership deciding) (arriving policy ingress f table)) as [v chain] eqn:He.
  destruct v as [decided src dst|]; [|done]. destruct (negb _); [done|]. intros [= -> -> _ _ _ _].
  destruct (dg_ownership deciding) eqn:Hown.
  { by rewrite unowned_forwards_nothing in He. }
  destruct (deliverable_cases c (Inspection_new ingress f)) as [[fwd Hd]|Hnd].
  2:{ pose proof (evaluate_undeliverable c now Os_Owned policy ingress f table (or_intror Hnd)) as [[reason Hr] _].
      by rewrite He in Hr. }
  pose proof (evaluate_deliverable c now policy ingress f table fwd Hd) as [Hv _]. cbv zeta in Hv. rewrite He in Hv.
  destruct (deliverable_macs _ _ _ Hmacs Hd) as [Hs Hds].
  assert (source = fw_source fwd ∧ destination = fw_destination fwd) as [-> ->].
  { unfold tracked_verdict in Hv. cbn [fst] in Hv. by cases. }
  destruct Hd as (_ & Hvl & _ & _ & _ & _ & Httl & _). exists f. by apply rewritten_untagged.
Qed.

Lemma stage_decide_table frame policy table counters :
  bytes_ok frame → trk_ok table →
  trk_ok (stage_decide deciding now ingress egress frame policy table counters).1.2.
Proof using Type*.
  intros Hok Ht. unfold stage_decide. destruct (Frame_parse frame) as [f|] eqn:Hp; [|done].
  destruct (parsed_frame_is_trackable _ _ ingress Hok Hp) as [Hpk _].
  pose proof (evaluate_table (dg_configuration deciding) now (dg_ownership deciding) policy ingress f table Ht Hpk) as [H _].
  unfold arriving in H. destruct (Pipeline_evaluate _ _ _ _) as [v chain]. destruct v; [destruct (negb _)|]; exact H.
Qed.

(** What the loop keeps of its state: the producer's place, the scratch's size, a
    table in order, and a tap that refused nothing. *)
Record polling_ok (tail : Z) (refused : option Z) (p : Polling) : Prop := {
  po_place : rp_tail (pl_to p) = (tail + Z.of_nat (pl_handed_on p)) mod Z.of_nat RING_SLOTS;
  po_scratch : length (pl_scratch p) = BUFFER_SIZE ∧ bytes_ok (pl_scratch p);
  po_table : trk_ok (pl_table p);
  po_refused : tp_refused <$> pl_tap p = refused
}.

Lemma poll_one_confined tail refused d p :
  Descriptor_ok d → polling_ok tail refused p →
  stage_confined (poll_one deciding now ingress egress d p)
    (λ flow, ∃ e, event_ok e ∧
       match flow with
       | Next p' => polling_ok tail refused p' ∧ accounted p' = account (accounted p) e ∧ ∀ frame, e ≠ Carried frame false
       | Break p' => polling_ok tail refused p' ∧ accounted p' = account (accounted p) e
       end).
Proof using Hmacs.
  intros Hd [Hplace [Hs Hsok] Ht Hr]. unfold poll_one.
  destruct (descriptor_in_bounds d) eqn:Hb; simpl negb; cbv iota.
  2:{ exists Malformed. by split_all. }
  eapply confined_bind; [by apply snapshot_confined|]. intros [copied scratch] (frame & -> & Hlen & Hfok & ->).
  assert (length frame ≤ BUFFER_SIZE)%nat as Hfl.
  { apply (descriptor_in_bounds_spec _ Hd) in Hb. destruct Hd as (_ & ? & ? & _). unfold in_u in *. lia. }
  assert (bytes_ok (drop (Z.to_nat (d_len d)) (pl_scratch p))) as Hrest by by apply Forall_drop.
  assert (length frame + length (drop (Z.to_nat (d_len d)) (pl_scratch p)) = BUFFER_SIZE)%nat as Htot
    by (rewrite length_drop; lia).
  cbv zeta. cbn [pl_policy pl_table pl_counters pl_tap pl_scratch assign].
  pose proof (stage_decide_table frame (pl_policy p) (pl_table p) (pl_counters p) Hfok Ht) as Ht'.
  destruct (stage_decide deciding now ingress egress frame _ _ _) as [[[routed policy] table] counters] eqn:Hdec.
  cbn [fst snd] in Ht'. eapply confined_bind; [apply observe_routed_confined|].
  intros tap [Hid Href]. cbn [pl_policy pl_table pl_counters pl_tap pl_scratch assign].
  eapply (confined_bind _ _ _ _ (λ '(verdict, scratch, counters'), counters' = counters
    ∧ verdict = match routed with Routed_Forward _ _ _ => Transmit | _ => Discard end
    ∧ length scratch = BUFFER_SIZE ∧ bytes_ok scratch)).
  { destruct routed as [source destination decision|decision|]; cycle 1.
    - simpl. rewrite length_app, bytes_ok_app. done.
    - simpl. rewrite length_app, bytes_ok_app. done.
    - destruct (stage_decide_forwards _ _ _ _ _ _ _ _ _ _ Hfok Hdec) as (f & f' & Hrw).
      eapply confined_weaken; [by apply (forward_confined d frame _ source destination f f')|done|].
      intros r ->. destruct Hrw. rewrite length_app, bytes_ok_app, rw_length0. done. }
  intros [[verdict scratch] counters'] (-> & Hv & Hs' & Hsok').
  cbn [pl_policy pl_table pl_counters pl_tap pl_scratch pl_to assign].
  eapply confined_bind; [apply enqueue_confined|].
  { rewrite Hplace. pose proof (cap_bounds RING_SLOTS). unfold position_ok. apply Z.mod_pos_bound. lia. }
  { destruct Hd as (? & ? & ? & _). unfold Descriptor_ok. split_all; try done. destruct verdict; simpl; ints. }
  intros [enqueued to] Hto. destruct enqueued as [[]|back]; simpl.
  - exists (Carried frame true). split; [done|]. split_all; [constructor; simpl; try done| |done].
    + rewrite Hto, Hplace, Zplus_mod_idemp_l. f_equal. lia.
    + by rewrite Href.
    + unfold accounted, account. simpl. rewrite Hdec, Hid. f_equal. subst verdict. by destruct routed.
  - exists (Carried frame false). split; [done|]. split; [constructor; simpl; try done|].
    + by rewrite Hto.
    + by rewrite Href.
    + unfold accounted, account. simpl. by rewrite Hdec, Hid.
Qed.
End Account.

(** ** A pass *)
Definition stage_ok (self : RouteStage) : Prop :=
  position_ok RING_SLOTS (rc_head (rt_from self)) ∧ position_ok RING_SLOTS (rp_tail (rt_to self))
  ∧ length (rt_scratch self) = BUFFER_SIZE ∧ bytes_ok (rt_scratch self).

Section Pass.
Context {T : Type} `{!Tracker T, !TrackerLaws T}.

(** C10. A pass of the forwarding stage carries out what the chain decides, whatever
    the other domains write into the shared regions while it runs: it never panics,
    it writes only its own ends of the rings, the pool and the tap's records, it
    takes at most [DRAIN_LIMIT] descriptors, it stops at the first the egress ring
    has no room for, and the policy counters, the connection table, the stage's
    counters, the tap's packet numbering and the count it returns are those of
    deciding each snapshot in turn. In particular the counters of a failed snapshot
    and of a failed write-back never move, and a frame the chain forwards is always
    the one transmitted. *)
Theorem poll_refines_account self policy c now (table : T) own tap :
  macs_typed (cf_table c) → trk_ok table → stage_ok self →
  confined dataplane_ok stage_writes (RouteStage_poll self policy c now table own tap)
    (λ '(handed_on, self', policy', table', tap'), ∃ events,
      (length events ≤ DRAIN_LIMIT)%nat ∧ Forall event_ok events ∧ breaks_last events
      ∧ {| ac_policy := policy'; ac_table := table'; ac_counters := rt_counters self';
           ac_packet_id := tp_next_packet_id <$> tap'; ac_handed_on := handed_on |}
        = foldl (account {| dg_configuration := c; dg_ownership := own |} now (rt_ingress self) (rt_egress self))
            {| ac_policy := policy; ac_table := table;
               ac_counters := (rt_counters self) <| rcn_generation := cf_generation c |>;
               ac_packet_id := tp_next_packet_id <$> tap; ac_handed_on := 0 |} events
      ∧ trk_ok table' ∧ stage_ok self' ∧ tp_refused <$> tap' = tp_refused <$> tap
      ∧ rc_head (rt_from self') = (rc_head (rt_from self) + Z.of_nat (length events)) mod Z.of_nat RING_SLOTS
      ∧ rp_tail (rt_to self') = (rp_tail (rt_to self) + Z.of_nat handed_on) mod Z.of_nat RING_SLOTS).
Proof.
  intros Hm Ht (Hf & Hto & Hs & Hsok). unfold RouteStage_poll. cbv zeta.
  set (deciding := {| dg_configuration := c; dg_ownership := own |}).
  set (p0 := {| pl_to := rt_to self |}).
  set (held := λ (n : nat) events p, length events = n ∧ Forall event_ok events
    ∧ accounted p = foldl (account deciding now (rt_ingress self) (rt_egress self)) (accounted p0) events
    ∧ polling_ok (rp_tail (rt_to self)) (tp_refused <$> tap) p).
  eapply confined_bind.
  { apply (for_drain_confined RING_SLOTS dp_rx _ _ dataplane_ok stage_writes
      (λ n p, ∃ events, held n events p ∧ ∀ frame, Carried frame false ∉ events)
      (λ n p, ∃ events, held n events p ∧ breaks_last events)); [..|done|].
    - by intros m (? & _).
    - intros m r (? & ? & ?) Hr Hw. by split.
    - intros n d p Hd (events & (<- & Hev & Hacc & Hok) & Hnb).
      eapply confined_weaken; [by apply (poll_one_confined deciding now (rt_ingress self) (rt_egress self) Hm)|done|].
      intros [p'|p'] (e & He & Hrest); exists (events ++ [e]); (split; [|]).
      + destruct Hrest as (? & Hstep & _). unfold held. split_all; [rewrite length_app; simpl; lia|by apply Forall_app_2; [|constructor]| |done].
        by rewrite foldl_app, <- Hacc.
      + destruct Hrest as (_ & _ & Hne). intros frame [?%Hnb|Heq%list_elem_of_singleton]%elem_of_app; [done|by apply (Hne frame)].
      + destruct Hrest as (? & Hstep). unfold held. split_all; [rewrite length_app; simpl; lia|by apply Forall_app_2; [|constructor]| |done].
        by rewrite foldl_app, <- Hacc.
      + by apply breaks_last_snoc.
    - intros n p (events & Hh & Hnb). exists events. split; [done|]. intros i frame Hi.
      by apply list_elem_of_lookup_2 in Hi as ?%Hnb.
    - exists []. split; [|by intros frame ?%elem_of_nil]. unfold held. split_all; [done|done|done|]. constructor; try done.
      simpl. rewrite Z.add_0_r. symmetry. by apply Z.mod_small. }
  intros [from p] (k & Hk & (events & (Hl & Hev & Hacc & [Hplace Hsc Htab Hre]) & Hlast) & Hh). simpl.
  pose proof (cap_bounds RING_SLOTS) as HC.
  exists events. rewrite Hl. split_all; try done.
  unfold stage_ok. simpl. rewrite Hh, Hplace. unfold position_ok. split_all; try (apply Z.mod_pos_bound; lia); tauto.
Qed.
End Pass.

(** ** One descriptor, undisturbed *)

Lemma confined_alone {M A} (I : M → Prop) G (p : Prog M A) Q m :
  confined I G p Q → I m → ∃ a m', alone p m = (Some a, m') ∧ Q a ∧ I m'.
Proof.
  intros Hp Hm. destruct (confined_sound I G p Q (λ _ m, m) Hp (λ _ _ H, H) 0%nat m Hm) as (a & n & m' & Hr & HQ & Hm').
  destruct (run_alone p 0%nat m) as [n' Hn]. rewrite Hn in Hr. exists a, m'. split_all; [|done|done].
  destruct (alone p m). simpl in Hr. congruence.
Qed.

Definition Slot_of (d : Descriptor) : Slot :=
  {| sl_buffer := d_buffer d; sl_offset := d_offset d; sl_len := d_len d; sl_verdict := d_verdict d |}.

Lemma Slot_store_alone i d r : alone (Slot_store i d) r = (Some tt, r <| slots ::= <[i := Slot_of d]> |>).
Proof.
  simpl. f_equal. destruct r as [h t l]. simpl. f_equal. by rewrite !list_alter_alter_eq, list_insert_alter.
Qed.

(** An enqueue on a ring nobody else touches: refused and nothing written, or the
    slot at the tail filled and the tail moved. *)
Definition enqueued (p : Z) (d : Descriptor) (r : SpscRing) : SpscRing :=
  r <| slots ::= <[Z.to_nat p := Slot_of d]> |> <| ring_tail := (p + 1) mod Z.of_nat RING_SLOTS |>.
Definition ring_full (p : Z) (r : SpscRing) : bool :=
  (p + 1) mod Z.of_nat RING_SLOTS =? ring_head r mod Z.of_nat RING_SLOTS.

Lemma try_enqueue_alone p d r :
  position_ok RING_SLOTS p → SpscRing_ok RING_SLOTS r →
  alone (RingProducer_try_enqueue RING_SLOTS {| rp_tail := p |} d) r
  = if ring_full p r then (Some (Err d, {| rp_tail := p |}), r)
    else (Some (Ok tt, {| rp_tail := (p + 1) mod Z.of_nat RING_SLOTS |}), enqueued p d r).
Proof.
  intros Hp (Hh & _). unfold RingProducer_try_enqueue, RingProducer_peer_head, ring_full, enqueued. cbn [rp_tail].
  rewrite alone_bind. cbn [alone load fst snd]. rewrite (advance_mask RING_SLOTS), (land_mask RING_SLOTS) by (done || (unfold in_u in Hh; lia)).
  destruct (_ =? _); [done|]. unfold at_slot. rewrite (proj2 (Z.ltb_lt p _)) by apply Hp.
  by rewrite alone_bind, Slot_store_alone.
Qed.

Lemma on_pool_alone {A} (p : Prog BufferPool A) m :
  alone (on_pool p) m = ((alone p (dp_pool m)).1, m <| dp_pool := (alone p (dp_pool m)).2 |>).
Proof. apply (alone_zoom dp_pool); [done|done|by intros []]. Qed.
Lemma on_tx_alone {A} (p : Prog SpscRing A) m :
  alone (on_tx p) m = ((alone p (dp_tx m)).1, m <| dp_tx := (alone p (dp_tx m)).2 |>).
Proof. apply (alone_zoom dp_tx); [done|done|by intros []]. Qed.
Lemma on_tap_alone {A} (p : Prog TapRegions A) m :
  alone (on_tap p) m = ((alone p (dp_tap m)).1, m <| dp_tap := (alone p (dp_tap m)).2 |>).
Proof. apply (alone_zoom dp_tap); [done|done|by intros []]. Qed.

Lemma observe_routed_alone routed ingress frame_len scratch tap m :
  ∃ tap' r, alone (observe_routed routed ingress frame_len scratch tap) m = (Some tap', m <| dp_tap := r |>).
Proof.
  unfold observe_routed. destruct tap as [tap|], (Routed_observed routed) as [decision|];
    try (eexists _, (dp_tap m); by destruct m).
  rewrite alone_bind. cbn [alone load fst snd].
  match goal with |- context [Tap_observe ?t ?o] =>
    destruct (confined_alone _ _ _ _ (dp_tap m) (Tap_observe_confined t o) I) as (tap' & r & Ha & _) end.
  rewrite alone_bind, on_tap_alone, Ha. by eexists _, r.
Qed.

(** The span a descriptor names. *)
Definition span (d : Descriptor) (buffer : list Z) : list Z := take (Z.to_nat (d_len d)) (drop (Z.to_nat (d_offset d)) buffer).

Lemma snapshot_alone d scratch m buffer :
  Descriptor_ok d → descriptor_in_bounds d = true → length scratch = BUFFER_SIZE →
  buffers (dp_pool m) !! Z.to_nat (d_buffer d) = Some buffer → length buffer = BUFFER_SIZE →
  alone (snapshot d scratch) m = (Some (Ok (span d buffer), span d buffer ++ drop (Z.to_nat (d_len d)) scratch), m).
Proof.
  intros Hd [Hb Hfit]%(descriptor_in_bounds_spec _ Hd) Hs Hbuf Hlen. destruct Hd as (Hdb & Ho & Hl & _). unfold in_u in *.
  unfold snapshot, BufferPool_copy_out, BufferPool_span. rewrite (proj2 (Nat.ltb_ge _ _)) by lia.
  rewrite (proj2 (Z.ltb_lt _ _)) by lia.
  rewrite (proj2 (span_fits_spec (d_offset d) (d_len d) ltac:(lia) ltac:(lia))) by lia. cbn [andb].
  rewrite (proj2 (Nat.ltb_ge _ _)) by (rewrite length_take; lia).
  rewrite alone_bind, on_pool_alone, alone_bind, (copy_from_alone _ _ _ _ buffer) by (done || lia).
  cbn [alone fst snd]. rewrite (drop_ge (take _ _)), app_nil_r by (rewrite length_take; lia).
  f_equal. by destruct m as [? ? [] ? ?].
Qed.

(** Writing a frame's header back over its span is writing the frame back. *)
Lemma splice_header {A} (buffer : list A) at_ n frame frame' :
  frame = take (length frame) (drop at_ buffer) → length frame' = length frame →
  drop n frame' = drop n frame → (n ≤ length frame)%nat → (at_ + length frame ≤ length buffer)%nat →
  splice buffer at_ (take n frame') = splice buffer at_ frame'.
Proof.
  intros Hf Hl Hd Hn Hfit. unfold splice. rewrite length_take, Hl, Nat.min_l by lia. f_equal.
  rewrite <- (take_drop n frame') at 2. rewrite <- app_assoc. f_equal. rewrite Hd. rewrite Hf at 1.
  rewrite skipn_firstn_comm, drop_drop. rewrite <- (take_drop (length frame - n) (drop (at_ + n) buffer)) at 1.
  rewrite drop_drop. do 2 f_equal. lia.
Qed.

Lemma forward_alone d rest m buffer source destination f f' counters :
  Descriptor_ok d → descriptor_in_bounds d = true →
  buffers (dp_pool m) !! Z.to_nat (d_buffer d) = Some buffer → length buffer = BUFFER_SIZE →
  rewritten (span d buffer) source destination f f' →
  alone (forward d (span d buffer ++ rest) (length (span d buffer)) source destination counters) m
  = (Some (Transmit, Frame_buffer f' ++ rest, counters),
     m <| dp_pool ::= λ p, p <| buffers ::= <[Z.to_nat (d_buffer d) := splice buffer (Z.to_nat (d_offset d)) (Frame_buffer f')]> |> |>).
Proof.
  intros Hd [Hb Hfit]%(descriptor_in_bounds_spec _ Hd) Hbuf Hlen [Hp He Hok Hroom Hl Hr _].
  destruct Hd as (Hdb & Ho & Hle & _). unfold in_u in *.
  assert (length (span d buffer) = Z.to_nat (d_len d)) as Hspan
    by (unfold span; rewrite length_take, length_drop; lia).
  unfold forward. rewrite (proj2 (Nat.ltb_ge _ _)) by (rewrite length_app; lia).
  rewrite take_app_length, Hp, He, drop_app_length. unfold write_back, place, BufferPool_write_at, BufferPool_span.
  rewrite take_app_le by lia.
  assert (length (take REWRITTEN_HEADER_LEN (Frame_buffer f')) = REWRITTEN_HEADER_LEN) as Hhl by (rewrite length_take; lia).
  rewrite Hhl, (proj2 (Z.ltb_lt _ _)) by lia.
  rewrite (proj2 (span_fits_spec (d_offset d) (Z.of_nat REWRITTEN_HEADER_LEN) ltac:(lia) ltac:(lia))) by lia. cbn [andb].
  rewrite !alone_bind, on_pool_alone, alone_bind, (copy_in_alone _ _ _ _ buffer) by (done || lia).
  cbn [alone fst snd].
  rewrite (splice_header _ _ _ (span d buffer)) by (done || lia || (unfold span at 1; rewrite Hspan; done)).
  done.
Qed.

Section Carried.
Context {T : Type} `{!Tracker T, !TrackerLaws T}.

(** What the pool holds after a descriptor's frame met [routed]. *)
Definition pool_after (d : Descriptor) (buffer : list Z) (before : list (list Z)) (routed : Routed) (after : list (list Z)) : Prop :=
  match routed with
  | Routed_Forward source destination _ =>
      ∃ f f', Frame_parse (span d buffer) = Ok f ∧ Frame_parse (Frame_buffer f') = Ok f'
        ∧ Frame_destination_mac f' = destination ∧ Frame_source_mac f' = source
        ∧ ip_ttl (Frame_ipv4 f') = ip_ttl (Frame_ipv4 f) - 1
        ∧ payload f' = payload f ∧ length (Frame_buffer f') = length (span d buffer)
        ∧ after = <[Z.to_nat (d_buffer d) := splice buffer (Z.to_nat (d_offset d)) (Frame_buffer f')]> before
  | _ => after = before
  end.

Lemma rewritten_pool d buffer source destination decision f f' before :
  bytes_ok (span d buffer) → rewritten (span d buffer) source destination f f' →
  pool_after d buffer before (Routed_Forward source destination decision)
    (<[Z.to_nat (d_buffer d) := splice buffer (Z.to_nat (d_offset d)) (Frame_buffer f')]> before).
Proof.
  intros Hfok [Hp He Hok Hroom Hl _ [[Hls _] [Hld _]]]. exists f, f'.
  destruct (rewrite_reparses _ _ _ _ _ Hfok Hp Hls Hld He) as (? & ? & ? & _ & Hip & _).
  destruct (rewrite_shape _ _ _ _ He) as (_ & _ & _ & ? & _). split_all; try done. by rewrite Hip.
Qed.

Lemma carry_alone deciding now ingress egress d buffer rest m (policy policy' : PolicyCounters) (table table' : T) counters counters' routed :
  macs_typed (cf_table (dg_configuration deciding)) → Descriptor_ok d → descriptor_in_bounds d = true →
  buffers (dp_pool m) !! Z.to_nat (d_buffer d) = Some buffer → length buffer = BUFFER_SIZE → bytes_ok (span d buffer) →
  stage_decide deciding now ingress egress (span d buffer) policy table counters = (routed, policy', table', counters') →
  ∃ scratch pool, alone
    match routed with
    | Routed_Forward source destination _ => forward d (span d buffer ++ rest) (length (span d buffer)) source destination counters'
    | _ => Done (Discard, span d buffer ++ rest, counters')
    end m = (Some (match routed with Routed_Forward _ _ _ => Transmit | _ => Discard end, scratch, counters'), m <| dp_pool := pool |>)
    ∧ pool_after d buffer (buffers (dp_pool m)) routed (buffers pool).
Proof.
  intros Hm Hd Hb Hbuf Hlen Hfok Hdec. destruct routed as [source destination decision|decision|]; cycle 1.
  - exists (span d buffer ++ rest), (dp_pool m). by destruct m.
  - exists (span d buffer ++ rest), (dp_pool m). by destruct m.
  - destruct (stage_decide_forwards _ _ _ _ Hm _ _ _ _ _ _ _ _ _ _ Hfok Hdec) as (f & f' & Hrw).
    eexists _, _. rewrite (forward_alone d rest _ buffer source destination f f' counters') by done.
    split; [done|]. exact (rewritten_pool _ _ _ _ decision f f' _ Hfok Hrw).
Qed.

End Carried.
