(* ===== verification/TapReadback.v ===== *)
(** * A record is read back as it was decided

    The writer's stores and the reader's loads of one slot, composed: what the
    forwarder observes of a frame is what the recorder reads, checked and accepted. *)
From S2P Require Import Prelude Shared NetHeaders NetHeadersFacts Routing Clock SeqNumber FlowKey FlowEntry FlowTcp FlowIcmp FlowTable FlowTableInv FlowTableOps FlowTableSpec FlowTableRun Pipeline PipelineFacts FlowTracker PipelineExamples WireTap PdTap TapFacts.

(** ** Storing is editing one slot *)
Definition edit_tap_slot (i : nat) (f : TapSlot → TapSlot) (r : TapRegions) : TapRegions :=
  r <| tap_records ::= λ r, r <| tap_slots ::= alter f i |> |>.

Lemma edit_tap_slot_twice i f g r : edit_tap_slot i g (edit_tap_slot i f r) = edit_tap_slot i (g ∘ f) r.
Proof. unfold edit_tap_slot. simpl. by rewrite list_alter_alter_eq. Qed.

Lemma edit_tap_slot_ext i f g r :
  (∀ s, tap_slots (tap_records r) !! i = Some s → f s = g s) → edit_tap_slot i f r = edit_tap_slot i g r.
Proof.
  intros H. unfold edit_tap_slot. simpl. f_equal. f_equal. apply list_eq. intros j.
  destruct (decide (i = j)) as [<-|]; [|by rewrite !list_lookup_alter_ne].
  rewrite !list_lookup_alter_eq. destruct (_ !! i) as [s|] eqn:E; simpl; [|done]. by rewrite (H s).
Qed.

Lemma edit_tap_slot_lookup i f r s :
  tap_slots (tap_records r) !! i = Some s → tap_slots (tap_records (edit_tap_slot i f r)) !! i = Some (f s).
Proof. intros H. unfold edit_tap_slot. simpl. by rewrite list_lookup_alter_eq, H. Qed.

Lemma store_word_alone {A} i f (k : unit → Prog TapRegions A) r :
  alone (prog_bind (store_word i f) k) r = alone (k tt) (edit_tap_slot i (λ s, s <| ts_words ::= f |>) r).
Proof. done. Qed.

Lemma store_word_last i f r :
  alone (store_word i f) r = (Some tt, edit_tap_slot i (λ s, s <| ts_words ::= f |>) r).
Proof. done. Qed.

Lemma inserts_cons {A} (k : nat) (x : A) xs l : list_inserts (S k) xs (<[k := x]> l) = list_inserts k (x :: xs) l.
Proof. simpl. by rewrite list_insert_inserts_lt by lia. Qed.

Lemma store_reserved_alone i k words r :
  alone (store_reserved i k words) r
  = (Some tt, edit_tap_slot i (λ s, s <| ts_words ::= λ w, w <| an_reserved ::= list_inserts k words |> |>) r).
Proof.
  revert k r. induction words as [|word words IH]; intros k r; cbn [store_reserved].
  - simpl. f_equal. rewrite (edit_tap_slot_ext _ _ id) by (by intros [[] ?]). destruct r as [[]]. unfold edit_tap_slot. simpl.
    by rewrite list_alter_id.
  - rewrite store_word_alone, IH, edit_tap_slot_twice. f_equal. apply edit_tap_slot_ext. intros s _. simpl.
    by rewrite inserts_cons.
Qed.

Lemma store_payload_alone i k bytes r :
  (k + length bytes ≤ TAP_SNAP_LEN)%nat →
  alone (store_payload i k bytes) r = (Some tt, edit_tap_slot i (λ s, s <| ts_payload ::= list_inserts k bytes |>) r).
Proof.
  revert k r. induction bytes as [|byte bytes IH]; intros k r Hk; cbn [store_payload].
  - simpl. f_equal. rewrite (edit_tap_slot_ext _ _ id) by (by intros []). destruct r as [[]]. unfold edit_tap_slot. simpl.
    by rewrite list_alter_id.
  - simpl in Hk. rewrite (proj2 (Nat.ltb_lt _ _)) by lia.
    change (alone (prog_bind (store (edit_tap_slot i (λ s, s <| ts_payload ::= <[k := byte]> |>))) (λ _, store_payload i (S k) bytes)) r
      = (Some tt, edit_tap_slot i (λ s, s <| ts_payload ::= list_inserts k (byte :: bytes) |>) r)).
    rewrite alone_bind. cbn [alone store fst snd]. rewrite IH, edit_tap_slot_twice by lia. f_equal.
    apply edit_tap_slot_ext. intros s _. simpl. by rewrite inserts_cons.
Qed.

(** The slot a record leaves: its words, and its payload over what was there. *)
Definition TapSlot_holding (a : TapAnnotation) (original_len : Z) (payload : Snapped) (s : TapSlot) : TapSlot :=
  {| ts_words := a <| an_original_len := original_len |> <| an_captured_len := sn_len payload |>;
     ts_payload := list_inserts 0 (sn_bytes payload) (ts_payload s) |}.

Definition TapSlot_ok (s : TapSlot) : Prop :=
  length (an_reserved (ts_words s)) = TAP_RESERVED_WORDS ∧ length (ts_payload s) = TAP_SNAP_LEN.
Definition tap_ok (r : TapRegions) : Prop :=
  length (tap_slots (tap_records r)) = TAP_SLOTS ∧ Forall TapSlot_ok (tap_slots (tap_records r)).

Lemma TapSlot_store_alone i a original_len payload r s :
  tap_slots (tap_records r) !! i = Some s → TapSlot_ok s → length (an_reserved a) = TAP_RESERVED_WORDS →
  (length (sn_bytes payload) ≤ TAP_SNAP_LEN)%nat →
  alone (TapSlot_store i a original_len payload) r
  = (Some tt, edit_tap_slot i (TapSlot_holding a original_len payload) r).
Proof.
  intros Hs [Hres Hpl] Ha Hp. unfold TapSlot_store.
  rewrite !store_word_alone, alone_bind, store_reserved_alone, alone_bind, store_payload_alone by lia.
  rewrite store_word_last. f_equal.
  rewrite !edit_tap_slot_twice. apply edit_tap_slot_ext. intros s' Hs'. rewrite Hs in Hs'. injection Hs' as <-.
  unfold TapSlot_holding. destruct a, s as [[] pl]. simpl in *. f_equal. f_equal.
  rewrite <- (app_nil_r an_reserved) at 1. by rewrite list_inserts_0_l by lia.
Qed.

(** ** Loading is reading one slot *)
Section Loading.
Context (i : nat) (r : TapRegions) (s : TapSlot) (Hs : tap_slots (tap_records r) !! i = Some s).

Lemma load_word_alone {A} f (k : Z → Prog TapRegions A) : alone (prog_bind (load_word i f) k) r = alone (k (f (ts_words s))) r.
Proof using Hs. unfold load_word. rewrite alone_bind. cbn [alone load fst snd]. by rewrite Hs. Qed.

Lemma load_payload_alone k n :
  (k + n ≤ length (ts_payload s))%nat → alone (load_payload i k n) r = (Some (take n (drop k (ts_payload s))), r).
Proof using Hs.
  revert k. induction n as [|n IH]; intros k Hk; cbn [load_payload]; [by rewrite take_0|].
  rewrite alone_bind. cbn [alone load fst snd]. rewrite alone_bind, IH by lia. cbn [alone]. rewrite Hs. simpl.
  destruct (lookup_lt_is_Some_2 (ts_payload s) k) as [x Hx]; [lia|].
  rewrite (drop_S _ _ _ Hx). simpl. unfold byte_at. by rewrite nth_lookup, Hx.
Qed.

Lemma TapSlot_load_alone : TapSlot_ok s → alone (TapSlot_load i) r = (Some (ts_words s), r).
Proof using Hs.
  intros [Hres _]. unfold TapSlot_load, TAP_RESERVED_WORDS in *. cbn [load_reserved].
  rewrite alone_bind. repeat first [rewrite load_word_alone|rewrite alone_bind|progress cbn [alone]].
  destruct (ts_words s). simpl in *.
  by destruct an_reserved as [|? [|? [|? [|]]]].
Qed.

Lemma TapSlot_read_alone ck :
  TapSlot_ok s → check_words (ts_words s) = Ok ck → 0 ≤ an_captured_len (ts_words s) ≤ Z.of_nat TAP_SNAP_LEN →
  alone (TapSlot_read_into i) r = (Some (Ok (ck, take (Z.to_nat (an_captured_len (ts_words s))) (ts_payload s))), r).
Proof using Hs.
  intros Hok Hck Hc. unfold TapSlot_read_into. rewrite alone_bind, TapSlot_load_alone, Hck by done.
  rewrite alone_bind, load_payload_alone, drop_0; [done|]. destruct Hok as [_ ->]. lia.
Qed.
End Loading.

(** ** Writing, then reading *)
Definition tap_cursor_ok (at_ : Z) : Prop := 0 ≤ at_ < Z.of_nat TAP_SLOTS.
Definition tap_next (at_ : Z) : Z := Z.land (wrapping_add 32 at_ 1) TAP_MASK.
(** Room for one more record. *)
Definition tap_room (at_ : Z) (r : TapRegions) : Prop := tap_next at_ ≠ Z.land (tap_head (tap_consume r)) TAP_MASK.

Lemma land_tap_mask x : 0 ≤ x → Z.land x TAP_MASK = x mod 64.
Proof. intros Hx. change TAP_MASK with (Z.ones 6). rewrite Z.land_ones by lia. done. Qed.

Lemma tap_next_spec at_ : tap_cursor_ok at_ → tap_next at_ = (at_ + 1) mod 64.
Proof.
  unfold tap_cursor_ok. change (Z.of_nat TAP_SLOTS) with 64. intros H. unfold tap_next, wrapping_add, wrap.
  change (2 ^ 32) with 4294967296. rewrite Z.mod_small by lia. apply land_tap_mask. lia.
Qed.

Lemma Snapped_spec frame :
  sn_bytes (Snapped_take frame) = take TAP_SNAP_LEN frame
  ∧ sn_len (Snapped_take frame) = Z.of_nat (length (take TAP_SNAP_LEN frame)).
Proof.
  unfold Snapped_take. change TAP_SNAP_LEN with 2048%nat. destruct (length frame <? 2048)%nat eqn:E; cbn [sn_bytes sn_len].
  - rewrite take_ge by lia. split; [done|]. unfold wrap. change (2 ^ 32) with 4294967296. apply Z.mod_small. lia.
  - split; [done|]. rewrite length_take. lia.
Qed.

Lemma write_alone self annotation original_len frame r :
  tap_ok r → tap_cursor_ok (tw_tail self) → tap_room (tw_tail self) r →
  length (an_reserved annotation) = TAP_RESERVED_WORDS → Z.of_nat (length (take TAP_SNAP_LEN frame)) ≤ original_len →
  alone (TapWriter_write self annotation original_len frame) r
  = (Some (Ok (length (take TAP_SNAP_LEN frame)), {| tw_tail := tap_next (tw_tail self); tw_dropped := tw_dropped self |}),
     (edit_tap_slot (Z.to_nat (tw_tail self)) (TapSlot_holding annotation original_len (Snapped_take frame)) r)
       <| tap_records ::= λ r, r <| tap_tail := tap_next (tw_tail self) |> |>).
Proof.
  intros [Hl Hok] Hc Hroom Ha Hol. destruct (Snapped_spec frame) as [Hb Hn]. unfold TapWriter_write.
  rewrite (proj2 (Z.ltb_ge _ _)) by lia. fold (tap_next (tw_tail self)). unfold PeerConsume_head.
  rewrite alone_bind. cbn [alone load fst snd]. rewrite (proj2 (Z.eqb_neq _ _)) by exact Hroom.
  assert (TapRecords_slot (tw_tail self) = Z.to_nat (tw_tail self)) as ->.
  { unfold TapRecords_slot, tap_cursor_ok in *. change (Z.of_nat TAP_SLOTS) with 64 in *.
    rewrite land_tap_mask, Z.mod_small by lia. done. }
  destruct (lookup_lt_is_Some_2 (tap_slots (tap_records r)) (Z.to_nat (tw_tail self))) as [s Hs].
  { rewrite Hl. unfold tap_cursor_ok in Hc. lia. }
  rewrite alone_bind, (TapSlot_store_alone _ _ _ _ _ s); [by rewrite Hb|done|by eapply Forall_lookup_1|done|].
  rewrite Hb, length_take. lia.
Qed.

Lemma holding_ok a original_len frame s :
  TapSlot_ok s → length (an_reserved a) = TAP_RESERVED_WORDS →
  TapSlot_ok (TapSlot_holding a original_len (Snapped_take frame) s)
  ∧ take (length (take TAP_SNAP_LEN frame)) (ts_payload (TapSlot_holding a original_len (Snapped_take frame) s))
    = take TAP_SNAP_LEN frame.
Proof.
  intros [_ Hp] Ha. destruct (Snapped_spec frame) as [Hb _]. split.
  - split; simpl; [done|]. by rewrite length_inserts.
  - simpl. rewrite Hb. set (bytes := take TAP_SNAP_LEN frame).
    assert (length bytes ≤ length (ts_payload s))%nat by (unfold bytes; rewrite length_take, Hp; lia).
    rewrite <- (take_drop (length bytes) (ts_payload s)), list_inserts_0_r by (rewrite length_take; lia).
    by rewrite take_app_length.
Qed.

(** A record written where there is room, with words a reader accepts, is what the
    reader at that slot answers. *)
Lemma write_read_alone writer reader ck frame r :
  tap_ok r → tap_cursor_ok (tw_tail writer) → tap_room (tw_tail writer) r → tr_head reader = tw_tail writer →
  decision_consistent (CheckedTap_decision ck) → 0 ≤ ck_interface_id ck < MAX_INTERFACES →
  lengths_consistent ck (Z.of_nat (length (take TAP_SNAP_LEN frame))) →
  ∃ r1 r2,
    alone (TapWriter_write writer
      (TapAnnotation_new (ck_packet_id ck) (ck_timestamp ck) (ck_interface_id ck) (CheckedTap_decision ck))
      (ck_original_len ck) frame) r
    = (Some (Ok (length (take TAP_SNAP_LEN frame)), {| tw_tail := tap_next (tw_tail writer); tw_dropped := tw_dropped writer |}), r1)
    ∧ alone (TapReader_read reader) r1
      = (Some (Some (Ok (ck, take TAP_SNAP_LEN frame)),
               {| tr_head := tap_next (tw_tail writer); tr_refused := tr_refused reader |}), r2).
Proof.
  intros Hr Hc Hroom Hh Hd Hi Hl. rewrite write_alone by (done || apply Hl). eexists _, _. split; [done|].
  destruct (lookup_lt_is_Some_2 (tap_slots (tap_records r)) (Z.to_nat (tw_tail writer))) as [s Hs].
  { destruct Hr as [-> _]. unfold tap_cursor_ok in Hc. lia. }
  pose proof (Forall_lookup_1 _ _ _ _ (proj2 Hr) Hs) as Hok.
  unfold TapReader_read, PeerRecords_tail. rewrite alone_bind. cbn [alone load fst snd tap_records tap_tail assign].
  assert (Z.land (tap_next (tw_tail writer)) TAP_MASK = (tw_tail writer + 1) mod 64) as Ht.
  { rewrite tap_next_spec, land_tap_mask, Z.mod_mod by (done || lia || (apply Z.mod_pos_bound; lia)). done. }
  unfold tap_cursor_ok in Hc. change (Z.of_nat TAP_SLOTS) with 64 in Hc.
  change (Z.land (tap_tail _) TAP_MASK) with (Z.land (tap_next (tw_tail writer)) TAP_MASK).
  rewrite Ht, Hh. rewrite (proj2 (Z.eqb_neq _ _)) by (Z.div_mod_to_equations; lia).
  assert (TapRecords_slot (tw_tail writer) = Z.to_nat (tw_tail writer)) as ->.
  { unfold TapRecords_slot. rewrite land_tap_mask, Z.mod_small by lia. done. }
  set (a := TapAnnotation_new _ _ _ _).
  destruct (holding_ok a (ck_original_len ck) frame s Hok eq_refl) as [Hok' Htake].
  destruct (Snapped_spec frame) as [_ Hn].
  rewrite alone_bind. set (held := TapSlot_holding a (ck_original_len ck) (Snapped_take frame)) in *.
  match goal with |- context [alone (TapSlot_read_into ?i) ?R] =>
    rewrite (TapSlot_read_alone i R (held s) (edit_tap_slot_lookup i held r s Hs) ck) end.
  - cbn [alone fst snd store]. unfold held, TapSlot_holding in *. cbn [ts_words ts_payload assign an_captured_len] in *.
    rewrite Hn, Nat2Z.id, Htake. fold (tap_next (tw_tail writer)). done.
  - done.
  - unfold held, TapSlot_holding. cbn [ts_words]. rewrite Hn. apply check_words_complete; done.
  - unfold held, TapSlot_holding. cbn [ts_words assign an_captured_len]. rewrite Hn. split; [lia|]. apply Hl.
Qed.

Section Observed.
Context {T : Type} `{!Tracker T, !TrackerLaws T}.

(** What the recorder reads of a frame is what the chain decided of it: a frame
    that parsed and was evaluated, observed through a tap with room for it, is read
    back by the reader at that slot, accepted, with the decision as it was composed
    (verdict, flow, rule and event), the packet number, the time, the port, the
    length on the wire and the frame's first [TAP_SNAP_LEN] bytes, and the reader has
    refused nothing. *)
Theorem observation_reads_back c now own policy ingress bytes frame (t : T) tap reader timestamp r :
  ruleset_fits c → trk_ok t → bytes_ok bytes → Frame_parse bytes = Ok frame → Z.of_nat (length bytes) ≤ u32_max →
  0 ≤ ingress < MAX_INTERFACES → tap_ok r → tap_cursor_ok (tw_tail (tp_writer tap)) →
  tap_room (tw_tail (tp_writer tap)) r → tr_head reader = tw_tail (tp_writer tap) →
  let evaluated := Pipeline_evaluate c now own (arriving policy ingress frame t) in
  let decision := tap_decision (ch_inspection evaluated.2) evaluated.1 Inbound (cf_generation c) in
  ∃ tap' r1 r2 ck reader',
    alone (Tap_observe tap {| os_timestamp := timestamp; os_interface_id := ingress; os_decision := decision; os_frame := bytes |}) r
    = (Some tap', r1)
    ∧ alone (TapReader_read reader) r1 = (Some (Some (Ok (ck, take TAP_SNAP_LEN bytes)), reader'), r2)
    ∧ CheckedTap_decision ck = decision ∧ ck_packet_id ck = tp_next_packet_id tap ∧ ck_timestamp ck = timestamp
    ∧ ck_interface_id ck = ingress ∧ ck_original_len ck = Z.of_nat (length bytes)
    ∧ tr_refused reader' = tr_refused reader ∧ tr_head reader' = tw_tail (tp_writer tap')
    ∧ tp_observed tap' = bump (tp_observed tap).
Proof.
  intros Hc Ht Hok Hp Hlen Hi Hr Hcur Hroom Hh evaluated decision.
  destruct (parsed_frame_is_trackable _ _ ingress Hok Hp) as [Hpk _].
  pose proof (tap_decision_consistent c _ _ (cf_generation c) (evaluate_inspected c now own policy ingress frame t Hc Ht Hpk)) as Hd.
  fold evaluated in Hd. fold decision in Hd.
  assert (0 < length bytes)%nat as Hpos by (destruct bytes; [done|simpl; lia]).
  assert (td_outcome decision ≠ TO_Revoked) as Hout by (subst decision; simpl; by destruct evaluated.1).
  set (ck := {| ck_packet_id := tp_next_packet_id tap; ck_timestamp := timestamp; ck_interface_id := ingress;
    ck_original_len := Z.of_nat (length bytes); ck_outcome := td_outcome decision; ck_direction := td_direction decision;
    ck_generation := td_generation decision; ck_flow := td_flow decision; ck_rule := td_rule decision; ck_event := td_event decision |}).
  assert (CheckedTap_decision ck = decision) as Hck by done.
  destruct (write_read_alone (tp_writer tap) reader ck bytes r) as (r1 & r2 & Hw & Hrd); try done.
  { unfold lengths_consistent. split_all; [lia|rewrite length_take; lia|rewrite length_take; cbn [ck ck_original_len]; lia|].
    unfold ck. cbn [ck_outcome ck_original_len]. destruct (td_outcome decision); cbn [TapOutcome_observes_a_frame]; [lia|lia|done]. }
  exists (count_write (tap <| tp_next_packet_id ::= bump |>) (Ok (length (take TAP_SNAP_LEN bytes)),
    {| tw_tail := tap_next (tw_tail (tp_writer tap)); tw_dropped := tw_dropped (tp_writer tap) |})), r1, r2, ck.
  eexists. split_all; [|exact Hrd|done..]. unfold Tap_observe. cbn [os_timestamp os_interface_id os_decision os_frame].
  rewrite Z.min_l by lia. cbn [assign tp_writer tp_next_packet_id]. rewrite alone_bind.
  rewrite Hck in Hw. cbn [ck ck_packet_id ck_timestamp ck_interface_id ck_original_len] in Hw. by rewrite Hw.
Qed.
End Observed.
