(* ===== verification/PdExamples.v ===== *)
(** * The forwarding domain: one frame through it

    The appliance of [PipelineExamples] with a DNS query in buffer 3 and its
    descriptor on the receive ring: the theorems of the tap and of the stage applied
    to it, and the pass run to its end. *)
From S2P Require Import Prelude Shared Queue QueueFifo PacketBuffer NetHeaders NetHeadersFacts Routing Clock SeqNumber FlowKey FlowEntry FlowTcp FlowIcmp FlowTable FlowTableInv FlowTableOps FlowTableSpec FlowLife FlowTableRun FlowTableTheorems FlowTableExamples Pipeline PipelineFacts FlowTracker PipelineExamples WireTap PdTap TapFacts PdRuntime PoolOwnership PdRoute TapReadback.

#[local] Instance tracker_4 : Tracker FlowTable := flow_tracker 4.
#[local] Instance tracker_4_laws : TrackerLaws FlowTable := flow_tracker_laws 4.

(** A drop's words, as a producer writes them. *)
Definition drop_record : CheckedTap :=
  {| ck_packet_id := 7; ck_timestamp := 1000; ck_interface_id := 1; ck_original_len := 60;
     ck_outcome := TO_Dropped TDR_NoRoute; ck_direction := Some Inbound; ck_generation := 1; ck_flow := None;
     ck_rule := None; ck_event := None |}.

(** ** The memory *)
Definition query_descriptor : Descriptor := {| d_buffer := 3; d_offset := 12; d_len := 42; d_verdict := 0 |}.
Definition query_buffer : list Z := splice (replicate BUFFER_SIZE 0) 12 query_bytes.
Definition query_pool : BufferPool := (BufferPool_new POOL_BUFFERS) <| buffers ::= <[3%nat := query_buffer]> |>.
Definition query_dataplane : Dataplane :=
  {| dp_rx := (alone (RingProducer_try_enqueue RING_SLOTS SpscRing_producer query_descriptor) (SpscRing_new RING_SLOTS)).2;
     dp_tx := SpscRing_new RING_SLOTS; dp_pool := query_pool;
     dp_tap := {| tap_records := TapRecords_zero; tap_consume := TapConsume_zero |}; dp_tsc := 5000 |}.

Lemma appliance_macs : macs_typed (cf_table open_appliance).
Proof. split; repeat constructor; done. Qed.

Lemma bytes_ok_replicate n : bytes_ok (replicate n 0).
Proof. apply Forall_replicate. ints. Qed.

Lemma query_buffer_ok : length query_buffer = BUFFER_SIZE ∧ bytes_ok query_buffer.
Proof.
  unfold query_buffer. split.
  - apply length_splice. rewrite length_replicate. unfold BUFFER_SIZE. simpl. lia.
  - unfold splice. rewrite !bytes_ok_app. split_all; [apply Forall_take, bytes_ok_replicate|exact query_bytes_ok|].
    apply Forall_drop, bytes_ok_replicate.
Qed.

Lemma new_ring_ok : SpscRing_ok RING_SLOTS (SpscRing_new RING_SLOTS).
Proof.
  unfold SpscRing_ok. cbn [SpscRing_new ring_head ring_tail slots]. split_all; [ints|ints|by rewrite length_replicate|].
  apply Forall_replicate. unfold Slot_ok. simpl. split_all; ints.
Qed.

Lemma query_dataplane_ok : dataplane_ok query_dataplane.
Proof.
  unfold dataplane_ok. cbn [dp_rx dp_tx dp_pool query_dataplane]. split_all; [|apply new_ring_ok|].
  - destruct (confined_alone _ _ _ _ (SpscRing_new RING_SLOTS)
      (try_enqueue_confined RING_SLOTS 0 query_descriptor ltac:(by unfold position_ok) ltac:(unfold Descriptor_ok; simpl; split_all; ints))
      new_ring_ok) as (a & m & Ha & _ & Hm).
    change SpscRing_producer with {| rp_tail := 0 |}. by rewrite Ha.
  - split; cbn [query_pool BufferPool_new buffers assign]; [by rewrite length_insert, length_replicate|]. apply Forall_insert; [|apply query_buffer_ok].
    apply Forall_replicate. split; [apply length_replicate|apply bytes_ok_replicate].
Qed.

Lemma attached_ok : stage_ok (RouteStage_attach 0 1).
Proof. unfold stage_ok. cbn [RouteStage_attach rt_from rt_to rt_scratch]. split_all; [done|done|apply length_replicate|apply bytes_ok_replicate]. Qed.

(** ** The pass *)

(** It hands the query on, and counts it forwarded and nothing else. *)
Example query_carried :
  match (alone (RouteStage_poll (RouteStage_attach 0 1) PolicyCounters_new open_appliance 0 empty_table Os_Owned (Some Tap_attach))
           query_dataplane).1 with
  | Some (handed_on, self, _, _, tap) =>
      (handed_on, rt_counters self, tp_observed <$> tap)
      = (1%nat, RouteCounters_default <| rcn_generation := 1 |> <| rcn_forwarded := 1 |>, Some 1)
  | None => False
  end.
Proof. vm_compute. reflexivity. Qed.

Lemma poll_refines_account_witness :
  stage_ok (RouteStage_attach 0 1) ∧ dataplane_ok query_dataplane
  ∧ ∃ a m, alone (RouteStage_poll (RouteStage_attach 0 1) PolicyCounters_new open_appliance 0 empty_table Os_Owned (Some Tap_attach))
             query_dataplane = (Some a, m).
Proof.
  split; [exact attached_ok|]. split; [exact query_dataplane_ok|].
  destruct (confined_alone _ _ _ _ query_dataplane
    (poll_refines_account (RouteStage_attach 0 1) PolicyCounters_new open_appliance 0 empty_table Os_Owned (Some Tap_attach)
       appliance_macs empty_table_ok attached_ok) query_dataplane_ok) as (a & m & Ha & _).
  by exists a, m.
Defined.

Definition query_polling : Polling (T := FlowTable) :=
  {| pl_to := SpscRing_producer; pl_scratch := replicate BUFFER_SIZE 0; pl_counters := RouteCounters_default;
     pl_policy := PolicyCounters_new; pl_table := empty_table; pl_tap := None; pl_handed_on := 0 |}.
Definition owned_deciding : Deciding := {| dg_configuration := open_appliance; dg_ownership := Os_Owned |}.


