(* ===== verification/Layout.v ===== *)
(** * Byte images laid out in fixed fields

    What the encodings that sit at fixed offsets share (the store's record and the recording
    ring's superblock): spans of a byte image, an image cut into consecutive tiles, and the
    image that writes at increasing offsets over zeroes leave. *)
From S2P Require Import Prelude.

(** ** Slices and tilings *)
Definition slice (l : list Z) (at_ len : nat) : list Z := take len (drop at_ l).

Lemma length_slice l a n : (a + n ≤ length l)%nat → length (slice l a n) = n.
Proof. intros. unfold slice. rewrite length_take, length_drop. lia. Qed.

Lemma slice_ok l a n : bytes_ok l → bytes_ok (slice l a n).
Proof. intros. by apply Forall_take, Forall_drop. Qed.

Lemma slice_slice l a n b m : (b + m ≤ n)%nat → slice (slice l a n) b m = slice l (a + b) m.
Proof.
  intros H. unfold slice. rewrite skipn_firstn_comm, take_take, drop_drop, Nat.min_l by lia. done.
Qed.

(** A span as the word it holds. *)
Lemma span_word l n a : bytes_ok l → (a + n ≤ length l)%nat → slice l a n = le_bytes n (from_le (slice l a n)).
Proof. intros Hok H. rewrite <- (length_slice l a n H) at 2. symmetry. apply le_bytes_from_le. by apply slice_ok. Qed.

Lemma span_range l n a : bytes_ok l → (a + n ≤ length l)%nat → 0 ≤ from_le (slice l a n) < 2 ^ (8 * Z.of_nat n).
Proof.
  intros Hok H. pose proof (from_le_range (slice l a n) (slice_ok _ _ _ Hok)) as Hr. by rewrite length_slice in Hr.
Qed.

(** A scan for a byte other than zero. *)
Lemma all_zero (l : list Z) : forallb (λ byte, byte =? 0) l = true ↔ l = replicate (length l) 0.
Proof.
  split.
  - intros Hz. symmetry. apply replicate_as_Forall. split; [done|]. apply Forall_forall. intros x Hx%list_elem_of_In.
    apply (proj1 (forallb_forall _ _) Hz) in Hx. lia.
  - intros ->. apply forallb_forall. intros x Hx. apply list_elem_of_In, elem_of_replicate in Hx. lia.
Qed.

(** Where the [i]th tile of a tiling is. *)
Lemma tile_read ts i t : ts !! i = Some t → slice (concat ts) (length (concat (take i ts))) (length t) = t.
Proof.
  intros Ht. rewrite <- (take_drop i ts) at 1. rewrite concat_app. unfold slice. rewrite drop_app_length.
  rewrite (drop_S _ _ _ Ht). simpl. by rewrite take_app_length.
Qed.

(** Cutting a list into tiles of given lengths. *)
Fixpoint cut (l : list Z) (at_ : nat) (lens : list nat) : list (list Z) :=
  match lens with
  | [] => []
  | n :: lens => slice l at_ n :: cut l (at_ + n) lens
  end.

Lemma length_cut l a lens : length (cut l a lens) = length lens.
Proof. revert a. induction lens as [|n lens IH]; intros a; [done|]. cbn [cut length]. by rewrite IH. Qed.

Lemma cut_split l a lens lens' : cut l a (lens ++ lens') = cut l a lens ++ cut l (a + sum_list lens) lens'.
Proof.
  revert a. induction lens as [|n lens IH]; intros a; cbn [app cut]; [by rewrite Nat.add_0_r|]. rewrite IH. simpl.
  by rewrite Nat.add_assoc.
Qed.

Lemma concat_cut l a lens : (a + sum_list lens = length l)%nat → concat (cut l a lens) = drop a l.
Proof.
  revert a. induction lens as [|n lens IH]; intros a H; simpl in *.
  - rewrite drop_ge by lia. done.
  - rewrite IH by lia. unfold slice. by rewrite <- drop_drop, take_drop.
Qed.

Lemma cut_app l k a lens : (a + sum_list lens ≤ length l)%nat → cut (l ++ k) a lens = cut l a lens.
Proof.
  revert a. induction lens as [|n lens IH]; intros a H; simpl in *; [done|]. rewrite IH by lia. f_equal.
  unfold slice. rewrite drop_app_le, take_app_le by (rewrite ?length_drop; lia). done.
Qed.

Lemma cut_concat front ts : cut (front ++ concat ts) (length front) (length <$> ts) = ts.
Proof.
  revert front. induction ts as [|t ts IH]; intros front; simpl; [done|]. f_equal.
  - unfold slice. by rewrite drop_app_length, take_app_length.
  - rewrite app_assoc, <- length_app. apply IH.
Qed.

Lemma slice_app_iff copy a n m x y :
  length x = n → (a + n + m ≤ length copy)%nat →
  slice copy a (n + m) = x ++ y ↔ slice copy a n = x ∧ slice copy (a + n) m = y.
Proof.
  intros Hx H. split.
  - intros Heq. split.
    + rewrite <- (Nat.add_0_r a) at 1. rewrite <- (slice_slice copy a (n + m) 0 n) by lia. rewrite Heq. unfold slice.
      rewrite drop_0. by rewrite <- Hx, take_app_length.
    + rewrite <- (slice_slice copy a (n + m) n m) by lia. rewrite Heq. unfold slice. rewrite <- Hx, drop_app_length.
      apply take_ge. assert (length (x ++ y) = n + m)%nat as Hl by (rewrite <- Heq; apply length_slice; lia).
      rewrite length_app in Hl. lia.
  - intros [<- <-]. unfold slice. by rewrite <- drop_drop, take_take_drop.
Qed.

(** ** Patches over a zeroed image *)
Definition patch : Type := nat * list Z.
Definition patched (image : list Z) (ps : list patch) : list Z := foldl (λ image p, list_inserts p.1 p.2 image) image ps.

Fixpoint ordered (pos : nat) (ps : list patch) (total : nat) : Prop :=
  match ps with
  | [] => (pos ≤ total)%nat
  | (a, bytes) :: ps => (pos ≤ a)%nat ∧ ordered (a + length bytes) ps total
  end.
Fixpoint filled (pos : nat) (ps : list patch) (total : nat) : list Z :=
  match ps with
  | [] => replicate (total - pos) 0
  | (a, bytes) :: ps => replicate (a - pos) 0 ++ bytes ++ filled (a + length bytes) ps total
  end.

Lemma ordered_le pos ps total : ordered pos ps total → (pos ≤ total)%nat.
Proof.
  revert pos. induction ps as [|[a bytes] ps IH]; intros pos; simpl; [done|]. intros [? ?%IH]. lia.
Qed.

Lemma patched_filled front pos ps total :
  length front = pos → ordered pos ps total → patched (front ++ replicate (total - pos) 0) ps = front ++ filled pos ps total.
Proof.
  revert front pos. induction ps as [|[a bytes] ps IH]; intros front pos Hf Ho; simpl in *; [done|].
  destruct Ho as [Ha Ho]. pose proof (ordered_le _ _ _ Ho) as Hle.
  cbn [fst snd].
  replace (replicate (total - pos) 0) with (replicate (a - pos) 0 ++ replicate (length bytes) 0 ++ replicate (total - (a + length bytes)) 0)
    by (rewrite <- !replicate_add; f_equal; lia).
  rewrite app_assoc. set (before := front ++ replicate (a - pos) 0).
  assert (length before = a) as Hb by (unfold before; rewrite length_app, length_replicate; lia).
  replace a with (length before + 0)%nat at 1 by lia.
  rewrite list_inserts_app_r, list_inserts_0_r by (by rewrite length_replicate).
  rewrite app_assoc, IH; [|rewrite length_app; lia|done]. unfold before. by rewrite <- !app_assoc.
Qed.

Lemma patched_zero ps total : ordered 0 ps total → patched (replicate total 0) ps = filled 0 ps total.
Proof.
  intros Ho. pose proof (patched_filled [] 0 ps total eq_refl Ho) as H. simpl in H.
  by replace (total - 0)%nat with total in H by lia.
Qed.

Lemma length_filled pos ps total : ordered pos ps total → length (filled pos ps total) = (total - pos)%nat.
Proof.
  revert pos. induction ps as [|[a bytes] ps IH]; intros pos; simpl; [by rewrite length_replicate|].
  intros [Ha Ho]. pose proof (ordered_le _ _ _ Ho). rewrite !length_app, length_replicate, IH by done. lia.
Qed.

Lemma filled_total pos ps t t' :
  ordered pos ps t → (t ≤ t')%nat → filled pos ps t' = filled pos ps t ++ replicate (t' - t) 0.
Proof.
  revert pos. induction ps as [|[a bytes] ps IH]; intros pos Ho Ht; simpl in *.
  - rewrite <- replicate_add. f_equal. lia.
  - destruct Ho as [? Ho]. rewrite IH by done. by rewrite <- !app_assoc.
Qed.

(** *** Stepping through a filled image *)
Lemma run_none n (x : list Z) : n = 0%nat → replicate n 0 ++ x = x.
Proof. by intros ->. Qed.
Lemma run_some n m (x y : list Z) : n = m → x = y → replicate n 0 ++ x = replicate m 0 ++ y.
Proof. by intros -> ->. Qed.
Lemma app_step (x y z : list Z) : y = z → x ++ y = x ++ z.
Proof. by intros ->. Qed.

