(* ===== verification/Store.v ===== *)
(** * The persistent state

    Models [datad/crates/store]: the sector layout ([layout.rs]), the configuration
    slot array ([slots.rs]), the double-buffered state record and its encoding
    ([state.rs]), what makes a document a version ([document.rs]) and the factory-reset
    request ([reset.rs]). The hash is the SHA-256 of a library outside the sources, so
    it is an argument: a function on byte strings whose digests have [DIGEST_LEN]
    bytes. *)
From S2P Require Import Prelude.

Definition DIGEST_LEN : nat := 32.

(** ** Layout *)
Definition SECTOR_SIZE : nat := 512.
Definition STATE_COPY_SECTORS : nat := 8.
Definition STATE_COPY_BYTES : nat := STATE_COPY_SECTORS * SECTOR_SIZE.
Definition STATE_A_SECTOR : nat := 0.
Definition STATE_B_SECTOR : nat := STATE_A_SECTOR + STATE_COPY_SECTORS.
Definition RESET_REQUEST_SECTOR : nat := STATE_B_SECTOR + STATE_COPY_SECTORS.
Definition SLOTS_START_SECTOR : nat := 24.
Definition DOCUMENT_BYTES : Z := 64 * 1024.
Definition SLOT_SECTORS : nat := 128.
Definition SLOT_COUNT : nat := 8.
Definition STORE_SECTORS : nat := SLOTS_START_SECTOR + SLOT_SECTORS * SLOT_COUNT.

(** ** Words and spans of the record *)

(** [for (slot, byte) in image.iter_mut().skip(at).zip(bytes)]. *)
Definition write_bytes (image : list Z) (at_ : nat) (bytes : list Z) : list Z := list_inserts at_ bytes image.
Definition write_u16 (image : list Z) (at_ : nat) (value : Z) : list Z := write_bytes image at_ (le_bytes 2 value).
Definition write_u32 (image : list Z) (at_ : nat) (value : Z) : list Z := write_bytes image at_ (le_bytes 4 value).
Definition write_u64 (image : list Z) (at_ : nat) (value : Z) : list Z := write_bytes image at_ (le_bytes 8 value).

(** [for (slot, byte) in into.iter_mut().zip(copy.iter().skip(at))]. *)
Definition copy_from (copy : list Z) (at_ : nat) (into : list Z) : list Z := list_inserts 0 (drop at_ copy) into.
Definition read_u16 (copy : list Z) (at_ : nat) : Z := from_le (copy_from copy at_ (replicate 2 0)).
Definition read_u32 (copy : list Z) (at_ : nat) : Z := from_le (copy_from copy at_ (replicate 4 0)).
Definition read_u64 (copy : list Z) (at_ : nat) : Z := from_le (copy_from copy at_ (replicate 8 0)).
Definition read_digest (copy : list Z) (at_ : nat) : list Z := copy_from copy at_ (replicate DIGEST_LEN 0).

(** A range past the slice reads as empty. *)
Definition is_zero (copy : list Z) (from to : nat) : bool :=
  if (from <=? to)%nat && (to <=? length copy)%nat
  then forallb (λ byte, byte =? 0) (take (to - from) (drop from copy))
  else true.

(** ** The slot array *)
Definition SlotIndex : Type := nat.
Definition SlotIndex_new (index : Z) : option SlotIndex :=
  if index <? Z.of_nat SLOT_COUNT then Some (Z.to_nat index) else None.
Definition slot_sector (index : SlotIndex) : nat := SLOTS_START_SECTOR + SLOT_SECTORS * index.

Record SlotEntry := { se_generation : Z; se_len : Z; se_digest : list Z }.
#[export] Instance SlotEntry_eq_dec : EqDecision SlotEntry.
Proof. solve_decision. Defined.

Inductive Reuse :=
| Empty (slot : SlotIndex)
| Displaces (slot : SlotIndex) (generation : Z).
Definition Reuse_slot (r : Reuse) : SlotIndex := match r with Empty slot | Displaces slot _ => slot end.

Inductive StateError :=
| CertificateTooLong (len : Z)
| DocumentTooLong (len : Z)
| SlotNamedTwice (slot : nat)
| SlotOutsideArray (slot : Z)
| NamedSlotEmpty (slot : nat)
| LayoutMismatch (stored_slots stored_slot_sectors : Z).

Record Slots := { sl_entries : list (option SlotEntry); sl_running : option SlotIndex; sl_candidate : option SlotIndex }.
#[export] Instance Slots_eta : Eta Slots := λ s,
  {| sl_entries := sl_entries s; sl_running := sl_running s; sl_candidate := sl_candidate s |}.

Definition Slots_empty : Slots :=
  {| sl_entries := replicate SLOT_COUNT None; sl_running := None; sl_candidate := None |}.

Definition Slots_entry (s : Slots) (slot : SlotIndex) : option SlotEntry := mjoin (sl_entries s !! slot).

(** [for named in [running, candidate]], then the pair. *)
Definition Slots_decoded (entries : list (option SlotEntry)) (running candidate : option SlotIndex)
    : Result Slots StateError :=
  let empty named := match named with
                     | Some slot => match mjoin (entries !! slot) with None => Some slot | Some _ => None end
                     | None => None
                     end in
  match empty running with
  | Some slot => Err (NamedSlotEmpty slot)
  | None =>
  match empty candidate with
  | Some slot => Err (NamedSlotEmpty slot)
  | None =>
  match running, candidate with
  | Some r, Some c => if decide (r = c) then Err (SlotNamedTwice r)
                      else Ok {| sl_entries := entries; sl_running := running; sl_candidate := candidate |}
  | _, _ => Ok {| sl_entries := entries; sl_running := running; sl_candidate := candidate |}
  end
  end
  end.

Definition Slots_occupied (s : Slots) : nat := length (omap id (sl_entries s)).

(** [.max().unwrap_or(0)] over unsigned generations. *)
Definition Slots_newest_generation (s : Slots) : Z := foldr Z.max 0 (se_generation <$> omap id (sl_entries s)).

(** The loop of [next_for_reuse], from slot [index]. *)
Fixpoint reuse_loop (s : Slots) (entries : list (option SlotEntry)) (index : nat) (oldest : option (SlotIndex * Z))
    : option Reuse :=
  match entries with
  | [] => '(slot, generation) ← oldest; Some (Displaces slot generation)
  | entry :: entries =>
      match SlotIndex_new (Z.of_nat index) with
      | None => reuse_loop s entries (S index) oldest
      | Some slot =>
          match entry with
          | None => Some (Empty slot)
          | Some entry =>
              if bool_decide (Some slot = sl_running s) || bool_decide (Some slot = sl_candidate s)
              then reuse_loop s entries (S index) oldest
              else reuse_loop s entries (S index)
                     (if match oldest with Some (_, generation) => se_generation entry <? generation | None => true end
                      then Some (slot, se_generation entry) else oldest)
          end
      end
  end.
Definition Slots_next_for_reuse (s : Slots) : option Reuse := reuse_loop s (sl_entries s) 0 None.

Definition Slots_place (slot : SlotIndex) (entry : SlotEntry) (running : bool) (s : Slots) : Slots :=
  let s := s <| sl_entries ::= <[slot := Some entry]> |> in
  if running then s <| sl_running := Some slot |> <| sl_candidate := None |>
  else s <| sl_candidate := Some slot |>.

Definition Slots_clear (s : Slots) : Slots := Slots_empty.

(** ** The state *)
Definition STATE_MAGIC : Z := 0x45524F545357464C.
Definition STATE_VERSION : Z := 1.
Definition DEVICE_ID_BYTES : nat := 16.
Definition SECRET_LEN : nat := 32.
Definition PUBLIC_LEN : nat := 65.
Definition MAX_STORED_CERTIFICATE : nat := 768.
Definition ENDPOINT_LEN : nat := 6.
Definition MAGIC_AT : nat := 0.
Definition VERSION_AT : nat := 8.
Definition ONBOARDING_AT : nat := 12.
Definition GENERATION_AT : nat := 16.
Definition DEVICE_ID_AT : nat := 24.
Definition SECRET_AT : nat := 40.
Definition PUBLIC_AT : nat := 72.
Definition ENDPOINT_AT : nat := 140.
Definition DEVICE_CERT_LEN_AT : nat := 148.
Definition ANCHOR_CERT_LEN_AT : nat := 152.
Definition RUNNING_AT : nat := 156.
Definition CANDIDATE_AT : nat := 160.
Definition SLOT_COUNT_AT : nat := 164.
Definition SLOT_SECTORS_AT : nat := 166.
Definition SLOT_TABLE_AT : nat := 168.
Definition SLOT_ENTRY_BYTES : nat := 48.
Definition SLOT_GENERATION_AT : nat := 0.
Definition SLOT_LEN_AT : nat := 8.
Definition SLOT_DIGEST_AT : nat := 16.
Definition DEVICE_CERT_AT : nat := 552.
Definition ANCHOR_CERT_AT : nat := 1320.
Definition DIGEST_AT : nat := STATE_COPY_BYTES - DIGEST_LEN.
Definition NO_SLOT : Z := u32_max.

Inductive Onboarding := Unowned | Onboarded.
#[export] Instance Onboarding_eq_dec : EqDecision Onboarding.
Proof. solve_decision. Defined.
Definition Onboarding_to_bits (o : Onboarding) : Z := match o with Unowned => 0 | Onboarded => 1 end.
Definition Onboarding_from_bits (bits : Z) : option Onboarding :=
  if bits =? 0 then Some Unowned else if bits =? 1 then Some Onboarded else None.

Record StoredCertificate := { sc_bytes : list Z; sc_len : nat }.
Definition StoredCertificate_ABSENT : StoredCertificate :=
  {| sc_bytes := replicate MAX_STORED_CERTIFICATE 0; sc_len := 0 |}.
Definition StoredCertificate_new (der : list Z) : Result StoredCertificate StateError :=
  let len := length der in
  if (MAX_STORED_CERTIFICATE <? len)%nat then Err (CertificateTooLong (Z.of_nat len)) else
  Ok {| sc_bytes := list_inserts 0 der (replicate MAX_STORED_CERTIFICATE 0); sc_len := len |}.
Definition StoredCertificate_as_bytes (c : StoredCertificate) : list Z :=
  if (sc_len c <=? length (sc_bytes c))%nat then take (sc_len c) (sc_bytes c) else [].
Definition StoredCertificate_is_empty (c : StoredCertificate) : bool := (sc_len c =? 0)%nat.

Record StoredEndpoint := { sp_address : list Z; sp_port : Z }.
Definition StoredEndpoint_ABSENT : StoredEndpoint := {| sp_address := replicate 4 0; sp_port := 0 |}.
Definition StoredEndpoint_is_absent (e : StoredEndpoint) : bool :=
  (sp_port e =? 0)
  || (be32 (byte_at (sp_address e) 0) (byte_at (sp_address e) 1) (byte_at (sp_address e) 2) (byte_at (sp_address e) 3) =? 0).

Record State := {
  st_generation : Z;
  st_onboarding : Onboarding;
  st_device_id : list Z;
  st_secret : list Z;
  st_public : list Z;
  st_endpoint : StoredEndpoint;
  st_device_certificate : StoredCertificate;
  st_anchor_certificate : StoredCertificate;
  st_slots : Slots
}.
#[export] Instance State_eta : Eta State := λ s,
  {| st_generation := st_generation s; st_onboarding := st_onboarding s; st_device_id := st_device_id s;
     st_secret := st_secret s; st_public := st_public s; st_endpoint := st_endpoint s;
     st_device_certificate := st_device_certificate s; st_anchor_certificate := st_anchor_certificate s;
     st_slots := st_slots s |}.

Definition State_minted (device_id secret public : list Z) (onboarding_certificate : StoredCertificate) : State :=
  {| st_generation := 1; st_onboarding := Unowned; st_device_id := device_id; st_secret := secret;
     st_public := public; st_endpoint := StoredEndpoint_ABSENT; st_device_certificate := onboarding_certificate;
     st_anchor_certificate := StoredCertificate_ABSENT; st_slots := Slots_empty |}.

Definition State_advance (s : State) : State := s <| st_generation ::= λ g, saturating_add 64 g 1 |>.

Definition State_adopt (device_certificate anchor_certificate : StoredCertificate) (endpoint : StoredEndpoint) (s : State)
    : State :=
  State_advance (s <| st_device_certificate := device_certificate |> <| st_anchor_certificate := anchor_certificate |>
                   <| st_endpoint := endpoint |> <| st_onboarding := Onboarded |>).

Definition State_record_document (slot : SlotIndex) (entry : SlotEntry) (running : bool) (s : State) : State :=
  State_advance (s <| st_slots ::= Slots_place slot entry running |>).

Record StateImage := { im_state : State; im_slot_count : Z; im_slot_sectors : Z }.
Definition StateImage_generation (i : StateImage) : Z := st_generation (im_state i).

(** A [CheckedState] is the state it holds. *)
Definition StateImage_check (i : StateImage) : Result State StateError :=
  let owed_count := Z.of_nat SLOT_COUNT in
  let owed_sectors := Z.of_nat SLOT_SECTORS in
  if negb (im_slot_count i =? owed_count) || negb (im_slot_sectors i =? owed_sectors)
  then Err (LayoutMismatch (im_slot_count i) (im_slot_sectors i))
  else Ok (im_state i).

Inductive Copies := Parity | Both.
Record StateWrite := { sw_sector : nat; sw_sectors : nat }.

Definition encode_slot (slot : option SlotIndex) : Z := match slot with Some slot => Z.of_nat slot | None => NO_SLOT end.
Definition decode_slot (bits : Z) : option (option SlotIndex) :=
  if bits =? NO_SLOT then Some None else Some <$> SlotIndex_new bits.

Definition stored_certificate (copy : list Z) (at_ len : nat) : option StoredCertificate :=
  if (at_ + len <=? length copy)%nat
  then Some {| sc_bytes := list_inserts 0 (take len (drop at_ copy)) (replicate MAX_STORED_CERTIFICATE 0); sc_len := len |}
  else None.

(** [for (index, entry) in state.slots.entries().iter().enumerate()]. *)
Fixpoint write_entries (image : list Z) (index : nat) (entries : list (option SlotEntry)) : list Z :=
  match entries with
  | [] => image
  | entry :: entries =>
      let at_ := (SLOT_TABLE_AT + index * SLOT_ENTRY_BYTES)%nat in
      let '(generation, len, digest) :=
        match entry with
        | Some entry => (se_generation entry, se_len entry, se_digest entry)
        | None => (0, 0, replicate DIGEST_LEN 0)
        end in
      let image := write_u64 image (at_ + SLOT_GENERATION_AT) generation in
      let image := write_u32 image (at_ + SLOT_LEN_AT) len in
      let image := write_bytes image (at_ + SLOT_DIGEST_AT) digest in
      write_entries image (S index) entries
  end.

(** [for (index, slot) in entries.iter_mut().enumerate()], [remaining] of them. *)
Fixpoint read_entries (copy : list Z) (index remaining : nat) : option (list (option SlotEntry)) :=
  match remaining with
  | 0%nat => Some []
  | S remaining =>
      let at_ := (SLOT_TABLE_AT + index * SLOT_ENTRY_BYTES)%nat in
      let generation := read_u64 copy (at_ + SLOT_GENERATION_AT) in
      let len := read_u32 copy (at_ + SLOT_LEN_AT) in
      if negb (read_u32 copy (at_ + SLOT_LEN_AT + 4) =? 0) then None else
      if generation =? 0 then
        if negb (len =? 0) || negb (bool_decide (read_digest copy (at_ + SLOT_DIGEST_AT) = replicate DIGEST_LEN 0)) then None
        else rest ← read_entries copy (S index) remaining; Some (None :: rest)
      else if (len =? 0) || (DOCUMENT_BYTES <? len) then None
      else
        rest ← read_entries copy (S index) remaining;
        Some (Some {| se_generation := generation; se_len := len; se_digest := read_digest copy (at_ + SLOT_DIGEST_AT) |} :: rest)
  end.

Section Record_.
Context (sha256 : list Z → list Z).

Definition digest_of (image : list Z) : list Z := sha256 (take DIGEST_AT image).

(** What [encode_state] composes before it chooses the copies. *)
Definition compose (state : State) : list Z :=
  let image := replicate STATE_COPY_BYTES 0 in
  let image := write_u64 image MAGIC_AT STATE_MAGIC in
  let image := write_u32 image VERSION_AT STATE_VERSION in
  let image := write_u32 image ONBOARDING_AT (Onboarding_to_bits (st_onboarding state)) in
  let image := write_u64 image GENERATION_AT (st_generation state) in
  let image := write_bytes image DEVICE_ID_AT (st_device_id state) in
  let image := write_bytes image SECRET_AT (st_secret state) in
  let image := write_bytes image PUBLIC_AT (st_public state) in
  let image := write_bytes image ENDPOINT_AT (sp_address (st_endpoint state)) in
  let image := write_u16 image (ENDPOINT_AT + 4) (sp_port (st_endpoint state)) in
  let image := write_u32 image DEVICE_CERT_LEN_AT (Z.of_nat (sc_len (st_device_certificate state))) in
  let image := write_u32 image ANCHOR_CERT_LEN_AT (Z.of_nat (sc_len (st_anchor_certificate state))) in
  let image := write_u32 image RUNNING_AT (encode_slot (sl_running (st_slots state))) in
  let image := write_u32 image CANDIDATE_AT (encode_slot (sl_candidate (st_slots state))) in
  let image := write_u16 image SLOT_COUNT_AT (Z.of_nat SLOT_COUNT) in
  let image := write_u16 image SLOT_SECTORS_AT (Z.of_nat SLOT_SECTORS) in
  let image := write_entries image 0 (sl_entries (st_slots state)) in
  let image := write_bytes image DEVICE_CERT_AT (StoredCertificate_as_bytes (st_device_certificate state)) in
  let image := write_bytes image ANCHOR_CERT_AT (StoredCertificate_as_bytes (st_anchor_certificate state)) in
  write_bytes image DIGEST_AT (digest_of image).

(** [out] holds both copies. *)
Definition encode_state (out : list Z) (state : State) (copies : Copies) : StateWrite * list Z :=
  let image := compose state in
  let first := take STATE_COPY_BYTES out in
  let second := drop STATE_COPY_BYTES out in
  match copies with
  | Both => ({| sw_sector := STATE_A_SECTOR; sw_sectors := 2 * STATE_COPY_SECTORS |}, image ++ image)
  | Parity =>
      if st_generation state mod 2 =? 0
      then ({| sw_sector := STATE_A_SECTOR; sw_sectors := STATE_COPY_SECTORS |}, image ++ second)
      else ({| sw_sector := STATE_B_SECTOR; sw_sectors := STATE_COPY_SECTORS |}, first ++ image)
  end.

Definition decode_copy (copy : list Z) : option StateImage :=
  if negb (read_u64 copy MAGIC_AT =? STATE_MAGIC) then None else
  if negb (read_u32 copy VERSION_AT =? STATE_VERSION) then None else
  let stored_digest := read_digest copy DIGEST_AT in
  if negb (bool_decide (stored_digest = digest_of copy)) then None else
  let generation := read_u64 copy GENERATION_AT in
  if generation =? 0 then None else
  onboarding ← Onboarding_from_bits (read_u32 copy ONBOARDING_AT);
  let device_len := Z.to_nat (read_u32 copy DEVICE_CERT_LEN_AT) in
  let anchor_len := Z.to_nat (read_u32 copy ANCHOR_CERT_LEN_AT) in
  if (MAX_STORED_CERTIFICATE <? device_len)%nat || (MAX_STORED_CERTIFICATE <? anchor_len)%nat then None else
  if negb (is_zero copy (DEVICE_CERT_AT + device_len) (DEVICE_CERT_AT + MAX_STORED_CERTIFICATE))
     || negb (is_zero copy (ANCHOR_CERT_AT + anchor_len) (ANCHOR_CERT_AT + MAX_STORED_CERTIFICATE))
     || negb (is_zero copy (ANCHOR_CERT_AT + MAX_STORED_CERTIFICATE) DIGEST_AT) then None else
  if negb (is_zero copy (PUBLIC_AT + PUBLIC_LEN) ENDPOINT_AT)
     || negb (is_zero copy (ENDPOINT_AT + ENDPOINT_LEN) DEVICE_CERT_LEN_AT)
     || negb (is_zero copy (SLOT_TABLE_AT + SLOT_COUNT * SLOT_ENTRY_BYTES) DEVICE_CERT_AT) then None else
  let stored_count := read_u16 copy SLOT_COUNT_AT in
  let stored_sectors := read_u16 copy SLOT_SECTORS_AT in
  if Z.of_nat SLOT_COUNT <? stored_count then None else
  entries ← read_entries copy 0 SLOT_COUNT;
  running ← decode_slot (read_u32 copy RUNNING_AT);
  candidate ← decode_slot (read_u32 copy CANDIDATE_AT);
  match Slots_decoded entries running candidate with
  | Err _ => None
  | Ok slots =>
  let device_id := copy_from copy DEVICE_ID_AT (replicate DEVICE_ID_BYTES 0) in
  let secret := copy_from copy SECRET_AT (replicate SECRET_LEN 0) in
  let public := copy_from copy PUBLIC_AT (replicate PUBLIC_LEN 0) in
  let address := copy_from copy ENDPOINT_AT (replicate 4 0) in
  device_certificate ← stored_certificate copy DEVICE_CERT_AT device_len;
  anchor_certificate ← stored_certificate copy ANCHOR_CERT_AT anchor_len;
  let endpoint := {| sp_address := address; sp_port := read_u16 copy (ENDPOINT_AT + 4) |} in
  let owned := negb (StoredCertificate_is_empty device_certificate) && negb (StoredCertificate_is_empty anchor_certificate) in
  if match onboarding with
     | Onboarded => negb owned || StoredEndpoint_is_absent endpoint
     | Unowned => negb (StoredCertificate_is_empty anchor_certificate) || negb (StoredEndpoint_is_absent endpoint)
     end then None else
  Some {| im_state :=
            {| st_generation := generation; st_onboarding := onboarding; st_device_id := device_id; st_secret := secret;
               st_public := public; st_endpoint := endpoint; st_device_certificate := device_certificate;
               st_anchor_certificate := anchor_certificate; st_slots := slots |};
          im_slot_count := stored_count; im_slot_sectors := stored_sectors |}
  end.

Definition decode_state (bytes : list Z) : option StateImage :=
  let first := take STATE_COPY_BYTES bytes in
  let second := drop STATE_COPY_BYTES bytes in
  match decode_copy first, decode_copy second with
  | Some first, Some second =>
      Some (if StateImage_generation first <? StateImage_generation second then second else first)
  | Some only, None | None, Some only => Some only
  | None, None => None
  end.

Definition stored_secret_window (bytes : list Z) : list Z := copy_from bytes SECRET_AT (replicate SECRET_LEN 0).

(** ** Documents *)
Inductive DocumentError :=
| Empty_
| PastBound (len bound : Z)
| GenerationZero
| NotNewest (named newest : Z)
| ArrayFull
| DigestMismatch.

Definition staged_entry (generation : Z) (document : list Z) (slots : Slots) : Result SlotEntry DocumentError :=
  let len := Z.of_nat (length document) in
  if len =? 0 then Err Empty_ else
  if DOCUMENT_BYTES <? len then Err (PastBound len DOCUMENT_BYTES) else
  if generation =? 0 then Err GenerationZero else
  let newest := Slots_newest_generation slots in
  if generation <=? newest then Err (NotNewest generation newest) else
  Ok {| se_generation := generation; se_len := len; se_digest := sha256 document |}.

(** [document::matches]. *)
Definition document_matches (entry : SlotEntry) (document : list Z) : Result unit DocumentError :=
  let len := Z.of_nat (length document) in
  if negb (len =? se_len entry) then Err (PastBound len (se_len entry)) else
  if bool_decide (sha256 document = se_digest entry) then Ok tt else Err DigestMismatch.
End Record_.

(** ** The reset request *)
Definition RESET_REQUEST_BYTES : nat := SECTOR_SIZE.
Definition RESET_MAGIC : Z := 0x544553455257464C.
Definition RESET_VERSION : Z := 1.
Definition RESET_MAGIC_AT : nat := 0.
Definition RESET_VERSION_AT : nat := 8.

Inductive ResetRequest := Requested | Absent.

Definition write_reset_request : list Z :=
  let sector := replicate RESET_REQUEST_BYTES 0 in
  let sector := list_inserts RESET_MAGIC_AT (le_bytes 8 RESET_MAGIC) sector in
  list_inserts RESET_VERSION_AT (le_bytes 4 RESET_VERSION) sector.
Definition reset_token : list Z := write_reset_request.

Definition ResetRequest_read (sector : list Z) : ResetRequest :=
  if bool_decide (sector = reset_token) then Requested else Absent.
Definition ResetRequest_is_requested (r : ResetRequest) : bool := match r with Requested => true | Absent => false end.

Record Cleared := { cl_generation : Z; cl_documents : nat; cl_was_owned : bool }.
Definition Cleared_of (state : option State) : Cleared :=
  match state with
  | Some state =>
      {| cl_generation := st_generation state; cl_documents := Slots_occupied (st_slots state);
         cl_was_owned := bool_decide (st_onboarding state = Onboarded) |}
  | None => {| cl_generation := 0; cl_documents := 0; cl_was_owned := false |}
  end.
