(* ===== verification/StoreRecord.v ===== *)
(** * The state record: its bytes and what they mean

    The record's encoding as a tiling of its bytes, and the exact correspondence
    between the copies a decoder accepts and the states of this build
    ([state_record_exact]). *)
From S2P Require Import Prelude Layout Store.

Lemma copy_from_slice copy a n : (a + n ≤ length copy)%nat → copy_from copy a (replicate n 0) = slice copy a n.
Proof.
  intros H. unfold copy_from, slice. rewrite <- (take_drop n (drop a copy)) at 1.
  apply list_inserts_0_l. rewrite length_take, length_drop, length_replicate. lia.
Qed.

(** ** What a state is, on top of its types *)
Definition certificate_ok (c : StoredCertificate) : Prop :=
  length (sc_bytes c) = MAX_STORED_CERTIFICATE ∧ bytes_ok (sc_bytes c) ∧ (sc_len c ≤ MAX_STORED_CERTIFICATE)%nat
  ∧ drop (sc_len c) (sc_bytes c) = replicate (MAX_STORED_CERTIFICATE - sc_len c) 0.

Definition entry_ok (e : SlotEntry) : Prop :=
  0 < se_generation e < 2 ^ 64 ∧ 0 < se_len e ≤ DOCUMENT_BYTES ∧ length (se_digest e) = DIGEST_LEN ∧ bytes_ok (se_digest e).

(** A named slot is of the array and holds a document. *)
Definition named_ok (s : Slots) (named : option SlotIndex) : Prop :=
  match named with Some slot => (slot < SLOT_COUNT)%nat ∧ is_Some (Slots_entry s slot) | None => True end.
Definition slots_ok (s : Slots) : Prop :=
  length (sl_entries s) = SLOT_COUNT ∧ Forall (λ e, match e with Some e => entry_ok e | None => True end) (sl_entries s)
  ∧ named_ok s (sl_running s) ∧ named_ok s (sl_candidate s)
  ∧ (∀ slot, sl_running s = Some slot → sl_candidate s ≠ Some slot).

(** An owner is a certificate, an anchor and an endpoint together. *)
Definition ownership_ok (s : State) : Prop :=
  match st_onboarding s with
  | Onboarded => sc_len (st_device_certificate s) ≠ 0%nat ∧ sc_len (st_anchor_certificate s) ≠ 0%nat
                 ∧ StoredEndpoint_is_absent (st_endpoint s) = false
  | Unowned => sc_len (st_anchor_certificate s) = 0%nat ∧ StoredEndpoint_is_absent (st_endpoint s) = true
  end.

Record state_ok (s : State) : Prop := {
  so_generation : 0 < st_generation s < 2 ^ 64;
  so_device_id : length (st_device_id s) = DEVICE_ID_BYTES ∧ bytes_ok (st_device_id s);
  so_secret : length (st_secret s) = SECRET_LEN ∧ bytes_ok (st_secret s);
  so_public : length (st_public s) = PUBLIC_LEN ∧ bytes_ok (st_public s);
  so_address : length (sp_address (st_endpoint s)) = 4%nat ∧ bytes_ok (sp_address (st_endpoint s));
  so_port : is_u16 (sp_port (st_endpoint s));
  so_device_certificate : certificate_ok (st_device_certificate s);
  so_anchor_certificate : certificate_ok (st_anchor_certificate s);
  so_slots : slots_ok (st_slots s);
  so_ownership : ownership_ok s
}.

(** ** The record as a tiling *)
Create HintDb store_lens.
#[export] Hint Unfold DIGEST_LEN SECTOR_SIZE STATE_COPY_SECTORS STATE_COPY_BYTES DEVICE_ID_BYTES SECRET_LEN PUBLIC_LEN
  MAX_STORED_CERTIFICATE ENDPOINT_LEN MAGIC_AT VERSION_AT ONBOARDING_AT GENERATION_AT DEVICE_ID_AT SECRET_AT PUBLIC_AT
  ENDPOINT_AT DEVICE_CERT_LEN_AT ANCHOR_CERT_LEN_AT RUNNING_AT CANDIDATE_AT SLOT_COUNT_AT SLOT_SECTORS_AT SLOT_TABLE_AT
  SLOT_ENTRY_BYTES SLOT_GENERATION_AT SLOT_LEN_AT SLOT_DIGEST_AT DEVICE_CERT_AT ANCHOR_CERT_AT DIGEST_AT SLOT_COUNT : store_lens.
Ltac store_lens := autounfold with store_lens in *; rewrite ?length_le_bytes in *; lia.

Definition entry_tile (e : option SlotEntry) : list Z :=
  match e with
  | Some e => le_bytes 8 (se_generation e) ++ le_bytes 4 (se_len e) ++ replicate 4 0 ++ se_digest e
  | None => le_bytes 8 0 ++ le_bytes 4 0 ++ replicate 4 0 ++ replicate DIGEST_LEN 0
  end.

(** A certificate as the record holds it: the bytes in use, then zeroes. *)
Definition certificate_tile (c : StoredCertificate) : list Z :=
  StoredCertificate_as_bytes c ++ replicate (MAX_STORED_CERTIFICATE - sc_len c) 0.

(** Everything the digest covers. *)
Definition body_tiles (s : State) : list (list Z) :=
  let device := st_device_certificate s in
  let anchor := st_anchor_certificate s in
  [le_bytes 8 STATE_MAGIC; le_bytes 4 STATE_VERSION; le_bytes 4 (Onboarding_to_bits (st_onboarding s));
   le_bytes 8 (st_generation s); st_device_id s; st_secret s; st_public s; replicate 3 0;
   sp_address (st_endpoint s); le_bytes 2 (sp_port (st_endpoint s)); replicate 2 0;
   le_bytes 4 (Z.of_nat (sc_len device)); le_bytes 4 (Z.of_nat (sc_len anchor));
   le_bytes 4 (encode_slot (sl_running (st_slots s))); le_bytes 4 (encode_slot (sl_candidate (st_slots s)));
   le_bytes 2 (Z.of_nat SLOT_COUNT); le_bytes 2 (Z.of_nat SLOT_SECTORS)]
  ++ (entry_tile <$> sl_entries (st_slots s))
  ++ [certificate_tile device; certificate_tile anchor; replicate 1976 0].
Definition body_lens : list nat :=
  [8; 4; 4; 8; 16; 32; 65; 3; 4; 2; 2; 4; 4; 4; 4; 2; 2]%nat ++ replicate 8 48%nat ++ [768; 768; 1976]%nat.

Fixpoint entry_patches (index : nat) (entries : list (option SlotEntry)) : list patch :=
  match entries with
  | [] => []
  | entry :: entries =>
      let at_ := (SLOT_TABLE_AT + index * SLOT_ENTRY_BYTES)%nat in
      [((at_ + SLOT_GENERATION_AT)%nat, le_bytes 8 (from_option se_generation 0 entry));
       ((at_ + SLOT_LEN_AT)%nat, le_bytes 4 (from_option se_len 0 entry));
       ((at_ + SLOT_DIGEST_AT)%nat, from_option se_digest (replicate DIGEST_LEN 0) entry)]
      ++ entry_patches (S index) entries
  end.

Lemma write_entries_patched image index entries :
  write_entries image index entries = patched image (entry_patches index entries).
Proof.
  revert image index. induction entries as [|[e|] entries IH]; intros image index; [done| |];
    cbn [write_entries]; rewrite IH; done.
Qed.

Definition digests_ok (entries : list (option SlotEntry)) : Prop :=
  Forall (λ e, match e with Some e => length (se_digest e) = DIGEST_LEN | None => True end) entries.

Lemma entries_filled index entries rest total pos :
  digests_ok entries → pos = (SLOT_TABLE_AT + index * SLOT_ENTRY_BYTES)%nat →
  filled pos (entry_patches index entries ++ rest) total
  = concat (entry_tile <$> entries) ++ filled (pos + length entries * SLOT_ENTRY_BYTES) rest total.
Proof.
  revert index pos. induction entries as [|e entries IH]; intros index pos Hd ->.
  - simpl. by rewrite Nat.add_0_r.
  - apply Forall_cons in Hd as [He Hd]. cbn [entry_patches app filled fmap list_fmap concat length]. rewrite !length_le_bytes.
    assert (length (from_option se_digest (replicate DIGEST_LEN 0) e) = DIGEST_LEN) as -> by (destruct e; [exact He|apply length_replicate]).
    rewrite (IH (S index)) by (done || store_lens).
    assert (∀ x : list Z, entry_tile e ++ x = le_bytes 8 (from_option se_generation 0 e) ++ le_bytes 4 (from_option se_len 0 e)
      ++ replicate 4 0 ++ from_option se_digest (replicate DIGEST_LEN 0) e ++ x) as Ht
      by (intros x; destruct e; unfold entry_tile; by rewrite <- !app_assoc).
    rewrite <- app_assoc, Ht. rewrite (run_none (_ - _)) by store_lens. apply app_step.
    rewrite (run_none (_ - _)) by store_lens. apply app_step. apply run_some; [store_lens|]. apply app_step. apply app_step.
    f_equal. store_lens.
Qed.

Lemma entries_ordered index entries rest total :
  digests_ok entries → ordered (SLOT_TABLE_AT + (index + length entries) * SLOT_ENTRY_BYTES) rest total →
  ordered (SLOT_TABLE_AT + index * SLOT_ENTRY_BYTES) (entry_patches index entries ++ rest) total.
Proof.
  revert index. induction entries as [|e entries IH]; intros index Hd Ho.
  - simpl in *. by rewrite Nat.add_0_r in Ho.
  - apply Forall_cons in Hd as [He Hd]. cbn [entry_patches app ordered]. rewrite !length_le_bytes.
    assert (length (from_option se_digest (replicate DIGEST_LEN 0) e) = DIGEST_LEN) as -> by (destruct e; [exact He|apply length_replicate]).
    split_all; try store_lens.
    replace (SLOT_TABLE_AT + index * SLOT_ENTRY_BYTES + SLOT_DIGEST_AT + DIGEST_LEN)%nat
      with (SLOT_TABLE_AT + S index * SLOT_ENTRY_BYTES)%nat by store_lens.
    apply IH; [done|]. simpl in Ho. by replace (S index + length entries)%nat with (index + S (length entries))%nat by lia.
Qed.

Definition patches_of (s : State) : list patch :=
  [(MAGIC_AT, le_bytes 8 STATE_MAGIC); (VERSION_AT, le_bytes 4 STATE_VERSION);
   (ONBOARDING_AT, le_bytes 4 (Onboarding_to_bits (st_onboarding s))); (GENERATION_AT, le_bytes 8 (st_generation s));
   (DEVICE_ID_AT, st_device_id s); (SECRET_AT, st_secret s); (PUBLIC_AT, st_public s);
   (ENDPOINT_AT, sp_address (st_endpoint s)); ((ENDPOINT_AT + 4)%nat, le_bytes 2 (sp_port (st_endpoint s)));
   (DEVICE_CERT_LEN_AT, le_bytes 4 (Z.of_nat (sc_len (st_device_certificate s))));
   (ANCHOR_CERT_LEN_AT, le_bytes 4 (Z.of_nat (sc_len (st_anchor_certificate s))));
   (RUNNING_AT, le_bytes 4 (encode_slot (sl_running (st_slots s))));
   (CANDIDATE_AT, le_bytes 4 (encode_slot (sl_candidate (st_slots s))));
   (SLOT_COUNT_AT, le_bytes 2 (Z.of_nat SLOT_COUNT)); (SLOT_SECTORS_AT, le_bytes 2 (Z.of_nat SLOT_SECTORS))]
  ++ entry_patches 0 (sl_entries (st_slots s))
  ++ [(DEVICE_CERT_AT, StoredCertificate_as_bytes (st_device_certificate s));
      (ANCHOR_CERT_AT, StoredCertificate_as_bytes (st_anchor_certificate s))].

Section Encoding.
Context (sha256 : list Z → list Z).
Hypothesis sha256_digest : ∀ m, length (sha256 m) = DIGEST_LEN ∧ bytes_ok (sha256 m).

Lemma compose_patched s :
  compose sha256 s =
  let image := patched (replicate STATE_COPY_BYTES 0) (patches_of s) in write_bytes image DIGEST_AT (digest_of sha256 image).
Proof. unfold compose, patches_of, patched. rewrite !foldl_app. rewrite write_entries_patched. done. Qed.

Lemma as_bytes_length c : certificate_ok c → length (StoredCertificate_as_bytes c) = sc_len c.
Proof.
  intros (Hl & _ & Hn & _). unfold StoredCertificate_as_bytes. rewrite (proj2 (Nat.leb_le _ _)) by lia.
  rewrite length_take. lia.
Qed.

Lemma slots_digests s : slots_ok s → digests_ok (sl_entries s) ∧ length (sl_entries s) = 8%nat.
Proof.
  intros (Hl & He & _). split; [|done]. eapply Forall_impl; [exact He|]. intros [e|]; [|done]. by intros (_ & _ & ? & _).
Qed.

Lemma patches_ordered s total : state_ok s → (DIGEST_AT ≤ total)%nat → ordered 0 (patches_of s) total.
Proof.
  intros [] Htot. destruct (slots_digests _ so_slots0) as [Hd Hl].
  destruct so_device_id0, so_secret0, so_public0, so_address0.
  unfold patches_of. cbn [app ordered]. split_all; try store_lens.
  rewrite length_le_bytes. apply (entries_ordered 0); [done|]. rewrite Hl. cbn [ordered].
  rewrite !as_bytes_length by done. destruct so_device_certificate0 as (_ & _ & ? & _), so_anchor_certificate0 as (_ & _ & ? & _).
  split_all; store_lens.
Qed.

Lemma filled_tiles s : state_ok s → filled 0 (patches_of s) DIGEST_AT = concat (body_tiles s).
Proof.
  intros []. destruct (slots_digests _ so_slots0) as [Hd Hl].
  destruct so_device_id0 as [Hid _], so_secret0 as [Hsec _], so_public0 as [Hpub _], so_address0 as [Hadr _].
  pose proof (as_bytes_length _ so_device_certificate0) as Hdc. pose proof (as_bytes_length _ so_anchor_certificate0) as Hac.
  destruct so_device_certificate0 as (_ & _ & ? & _), so_anchor_certificate0 as (_ & _ & ? & _).
  unfold patches_of, body_tiles. cbn [app filled concat].
  rewrite (entries_filled 0) by (done || store_lens). rewrite Hl, concat_app. cbn [filled concat].
  unfold certificate_tile. rewrite <- !app_assoc. rewrite !length_le_bytes, Hid, Hsec, Hpub, Hadr, Hdc, Hac.
  repeat first [rewrite (run_none (_ - _)) by store_lens | apply run_some; [store_lens|] | apply app_step].
  rewrite app_nil_r, <- replicate_add. f_equal. store_lens.
Qed.

Lemma length_entry_tile e : match e with Some e => length (se_digest e) = DIGEST_LEN | None => True end → length (entry_tile e) = 48%nat.
Proof. destruct e; cbn [entry_tile]; intros H; rewrite !length_app, ?length_replicate, ?length_le_bytes, ?H; store_lens. Qed.

Lemma entry_tiles_lens es : digests_ok es → length <$> (entry_tile <$> es) = replicate (length es) 48%nat.
Proof. induction 1 as [|e es He _ IH]; [done|]. cbn [fmap list_fmap length replicate]. f_equal; [by apply length_entry_tile|exact IH]. Qed.

Lemma tiles_lens s : state_ok s → length <$> body_tiles s = body_lens.
Proof.
  intros []. destruct (slots_digests _ so_slots0) as [Hd Hl].
  destruct so_device_id0 as [Hid _], so_secret0 as [Hsec _], so_public0 as [Hpub _], so_address0 as [Hadr _].
  pose proof (as_bytes_length _ so_device_certificate0) as Hdc. pose proof (as_bytes_length _ so_anchor_certificate0) as Hac.
  destruct so_device_certificate0 as (_ & _ & ? & _), so_anchor_certificate0 as (_ & _ & ? & _).
  unfold body_tiles, body_lens. rewrite !fmap_app. f_equal; [|f_equal].
  - cbn [fmap list_fmap]. rewrite !length_le_bytes, !length_replicate, Hid, Hsec, Hpub, Hadr. done.
  - by rewrite entry_tiles_lens, Hl.
  - cbn [fmap list_fmap]. unfold certificate_tile. rewrite !length_app, !length_replicate, Hdc, Hac. repeat f_equal; store_lens.
Qed.

Definition body (s : State) : list Z := concat (body_tiles s).

Lemma length_body s : state_ok s → length (body s) = DIGEST_AT.
Proof.
  intros Hs. unfold body. rewrite <- filled_tiles, length_filled by (done || by apply patches_ordered). lia.
Qed.

Lemma compose_tiles s : state_ok s → compose sha256 s = body s ++ sha256 (body s).
Proof.
  intros Hs. pose proof (length_body s Hs) as Hlen. rewrite compose_patched. cbv zeta.
  rewrite patched_zero by (apply patches_ordered; [done|store_lens]).
  rewrite (filled_total 0 _ DIGEST_AT) by (store_lens || by apply patches_ordered).
  rewrite filled_tiles by done. fold (body s). unfold digest_of, write_bytes.
  rewrite take_app_le, take_ge by lia. replace DIGEST_AT with (length (body s) + 0)%nat at 1 by lia.
  rewrite list_inserts_app_r. f_equal. rewrite <- (app_nil_r (sha256 _)) at 1.
  rewrite list_inserts_0_l; [done|]. rewrite length_replicate, (proj1 (sha256_digest _)). store_lens.
Qed.
End Encoding.

(** ** Reading a tiling back *)
Lemma sum_body_lens : sum_list body_lens = DIGEST_AT.
Proof. reflexivity. Qed.

(** A record's covered bytes are a state's exactly when they cut into its tiles. *)
Lemma body_cut copy s :
  state_ok s → (DIGEST_AT ≤ length copy)%nat → take DIGEST_AT copy = body s ↔ cut copy 0 body_lens = body_tiles s.
Proof.
  intros Hs Hl. rewrite <- (take_drop DIGEST_AT copy) at 2. rewrite cut_app.
  2:{ rewrite sum_body_lens, length_take. lia. }
  split; intros H.
  - rewrite H. unfold body. rewrite <- (tiles_lens s Hs). apply (cut_concat []).
  - unfold body. rewrite <- H. rewrite concat_cut; [done|]. rewrite sum_body_lens, length_take. lia.
Qed.

(** *** Words, spans and entries of a copy *)
Section Copy.
Context (copy : list Z) (Hlen : length copy = STATE_COPY_BYTES) (Hok : bytes_ok copy).

Lemma slice_word n a : (a + n ≤ STATE_COPY_BYTES)%nat → slice copy a n = le_bytes n (from_le (copy_from copy a (replicate n 0))).
Proof using Hlen Hok. intros H. rewrite copy_from_slice by lia. apply span_word; [done|lia]. Qed.

Lemma word_range n a : (a + n ≤ STATE_COPY_BYTES)%nat → 0 ≤ from_le (copy_from copy a (replicate n 0)) < 2 ^ (8 * Z.of_nat n).
Proof using Hlen Hok. intros H. rewrite copy_from_slice by lia. apply span_range; [done|lia]. Qed.

Lemma word_slice n a v :
  (a + n ≤ STATE_COPY_BYTES)%nat → slice copy a n = le_bytes n v → 0 ≤ v < 2 ^ (8 * Z.of_nat n) →
  from_le (copy_from copy a (replicate n 0)) = v.
Proof using Hlen. intros H Hs Hv. rewrite copy_from_slice, Hs by lia. by apply from_le_le_bytes. Qed.

Lemma is_zero_slice from to :
  (from ≤ to ≤ STATE_COPY_BYTES)%nat → is_zero copy from to = true ↔ slice copy from (to - from) = replicate (to - from) 0.
Proof using Hlen.
  intros H. unfold is_zero. rewrite (proj2 (Nat.leb_le from to)), (proj2 (Nat.leb_le to _)) by lia. cbn [andb].
  fold (slice copy from (to - from)). pose proof (length_slice copy from (to - from) ltac:(lia)) as Hl.
  rewrite all_zero. by rewrite Hl.
Qed.

(** One turn of the loop over the table. *)
Definition read_entry (at_ : nat) : option (option SlotEntry) :=
  let generation := read_u64 copy (at_ + SLOT_GENERATION_AT) in
  let len := read_u32 copy (at_ + SLOT_LEN_AT) in
  if negb (read_u32 copy (at_ + SLOT_LEN_AT + 4) =? 0) then None else
  if generation =? 0 then
    if negb (len =? 0) || negb (bool_decide (read_digest copy (at_ + SLOT_DIGEST_AT) = replicate DIGEST_LEN 0)) then None
    else Some None
  else if (len =? 0) || (DOCUMENT_BYTES <? len) then None
  else Some (Some {| se_generation := generation; se_len := len; se_digest := read_digest copy (at_ + SLOT_DIGEST_AT) |}).

Lemma read_entries_step index n :
  read_entries copy index (S n) =
  e ← read_entry (SLOT_TABLE_AT + index * SLOT_ENTRY_BYTES); rest ← read_entries copy (S index) n; Some (e :: rest).
Proof. cbn [read_entries]. unfold read_entry. by repeat case_match. Qed.

Definition table_entry_ok (e : option SlotEntry) : Prop := match e with Some e => entry_ok e | None => True end.

Lemma entry_slices a e :
  table_entry_ok e → (a + 48 ≤ STATE_COPY_BYTES)%nat →
  slice copy a 48 = entry_tile e ↔
  slice copy a 8 = le_bytes 8 (from_option se_generation 0 e) ∧ slice copy (a + 8) 4 = le_bytes 4 (from_option se_len 0 e)
  ∧ slice copy (a + 12) 4 = replicate 4 0 ∧ slice copy (a + 16) 32 = from_option se_digest (replicate DIGEST_LEN 0) e.
Proof using Hlen.
  intros He Ha. change 48%nat with (8 + (4 + (4 + 32)))%nat.
  assert (entry_tile e = le_bytes 8 (from_option se_generation 0 e) ++ le_bytes 4 (from_option se_len 0 e) ++ replicate 4 0
    ++ from_option se_digest (replicate DIGEST_LEN 0) e) as -> by (by destruct e).
  rewrite slice_app_iff, slice_app_iff, slice_app_iff by (rewrite ?length_le_bytes, ?length_replicate; lia).
  replace (a + 8 + 4)%nat with (a + 12)%nat by lia. replace (a + 12 + 4)%nat with (a + 16)%nat by lia. done.
Qed.

Lemma read_entry_exact a e :
  (a + 48 ≤ STATE_COPY_BYTES)%nat → read_entry a = Some e ↔ table_entry_ok e ∧ slice copy a 48 = entry_tile e.
Proof using Hlen Hok.
  intros Ha. unfold read_entry, read_u64, read_u32, read_digest. autounfold with store_lens.
  rewrite Nat.add_0_r. replace (a + 8 + 4)%nat with (a + 12)%nat by lia. rewrite (copy_from_slice copy (a + 16)) by lia.
  pose proof (slice_word 8 a ltac:(lia)) as Eg. pose proof (slice_word 4 (a + 8) ltac:(lia)) as El.
  pose proof (slice_word 4 (a + 12) ltac:(lia)) as Ep.
  pose proof (word_range 8 a ltac:(lia)) as Rg. pose proof (word_range 4 (a + 8) ltac:(lia)) as Rl.
  assert (length (slice copy (a + 16) 32) = 32%nat ∧ bytes_ok (slice copy (a + 16) 32)) as [Hdl Hdo]
    by (split; [apply length_slice; lia|by apply slice_ok]).
  split.
  - destruct (from_le (copy_from copy (a + 12) _) =? 0) eqn:E0; [|done]. apply Z.eqb_eq in E0. rewrite E0 in Ep. cbn [negb].
    destruct (from_le (copy_from copy a _) =? 0) eqn:E1.
    + apply Z.eqb_eq in E1. rewrite E1 in Eg. destruct (from_le (copy_from copy (a + 8) _) =? 0) eqn:E2; [|done].
      apply Z.eqb_eq in E2. rewrite E2 in El. cbn [negb orb]. case_bool_decide as E3; [|done]. intros [= <-].
      split; [done|]. by apply entry_slices.
    + destruct (_ || _) eqn:E2; [done|]. intros [= <-]. apply orb_false_iff in E2 as [E2 E3].
      assert (table_entry_ok (Some {| se_generation := from_le (copy_from copy a (replicate 8 0));
        se_len := from_le (copy_from copy (a + 8) (replicate 4 0)); se_digest := slice copy (a + 16) 32 |})) as Hte.
      { unfold table_entry_ok, entry_ok, DIGEST_LEN. cbn [se_generation se_len se_digest]. split_all; try done; lia. }
      split; [done|]. by apply entry_slices.
  - intros [He Hs]. apply entry_slices in Hs as (Hg & Hl & Hp & Hd); [|done|done].
    rewrite (word_slice 4 (a + 12) 0), Hd by (lia || done). cbn [Z.eqb negb]. destruct e as [e|].
    + destruct He as (Hgr & Hlr & _ & _). unfold DOCUMENT_BYTES in *.
      rewrite (word_slice 8 a (se_generation e)), (word_slice 4 (a + 8) (se_len e)) by (done || lia).
      rewrite !(proj2 (Z.eqb_neq _ 0)), (proj2 (Z.ltb_ge _ _)) by lia. cbn [orb]. by destruct e.
    + rewrite (word_slice 8 a 0), (word_slice 4 (a + 8) 0) by (done || lia). cbn [Z.eqb negb orb from_option].
      by rewrite bool_decide_true.
Qed.

Lemma read_entries_exact index n es :
  (SLOT_TABLE_AT + (index + n) * SLOT_ENTRY_BYTES ≤ STATE_COPY_BYTES)%nat →
  read_entries copy index n = Some es ↔
  Forall table_entry_ok es ∧ cut copy (SLOT_TABLE_AT + index * SLOT_ENTRY_BYTES) (replicate n 48%nat) = entry_tile <$> es.
Proof using Hlen Hok.
  revert index es. induction n as [|n IH]; intros index es Hn.
  - simpl. split; [by intros [= <-]|]. intros [_ H]. by destruct es.
  - rewrite read_entries_step. cbn [replicate cut].
    assert (SLOT_TABLE_AT + index * SLOT_ENTRY_BYTES + 48 ≤ STATE_COPY_BYTES)%nat as Ha by store_lens.
    assert (SLOT_TABLE_AT + index * SLOT_ENTRY_BYTES + 48 = SLOT_TABLE_AT + S index * SLOT_ENTRY_BYTES)%nat as Hnext by store_lens.
    rewrite Hnext. split.
    + intros (e & He & (rest & Hrest & [= <-])%bind_Some)%bind_Some. apply read_entry_exact in He as [Hte Hsl]; [|done].
      apply IH in Hrest as [Hf Hc]; [|store_lens]. split; [by constructor|]. cbn [fmap list_fmap]. by rewrite Hsl, Hc.
    + destruct es as [|e es]; [by intros [_ ?]|]. intros [[Hte Hf]%Forall_cons H]. cbn [fmap list_fmap] in H. injection H as Hsl Hc.
      apply bind_Some. exists e. split; [by apply read_entry_exact|]. apply bind_Some. exists es.
      split; [|done]. apply IH; [store_lens|done].
Qed.
End Copy.

Lemma cons_step (x y : list Z) l k : x = y → l = k → x :: l = y :: k.
Proof. by intros -> ->. Qed.

Lemma cut_append l a xs ys : cut l a (xs ++ ys) = cut l a xs ++ cut l (a + sum_list xs) ys.
Proof.
  revert a. induction xs as [|n xs IH]; intros a; simpl; [by rewrite Nat.add_0_r|]. by rewrite IH, Nat.add_assoc.
Qed.

(** ** Exactness *)
Section Exact.
Context (sha256 : list Z → list Z).
Hypothesis sha256_digest : ∀ m, length (sha256 m) = DIGEST_LEN ∧ bytes_ok (sha256 m).

Lemma decode_slot_exact bits named :
  0 ≤ bits < 2 ^ 32 →
  decode_slot bits = Some named ↔
  encode_slot named = bits ∧ match named with Some slot => (slot < SLOT_COUNT)%nat | None => True end.
Proof using Type.
  intros Hb. unfold decode_slot, SlotIndex_new, encode_slot, NO_SLOT, SLOT_COUNT, u32_max. change (2 ^ 32) with 4294967296 in Hb.
  destruct (bits =? 4294967295) eqn:E.
  - split; [intros [= <-]; split; [lia|done]|]. destruct named as [slot|]; [|done]. intros [? ?]. lia.
  - destruct (bits <? Z.of_nat 8) eqn:E2; cbn [fmap option_fmap option_map].
    + split; [intros [= <-]; lia|]. destruct named as [slot|]; intros [? ?]; [|lia]. by f_equal; f_equal; lia.
    + split; [done|]. destruct named; intros [? ?]; lia.
Qed.

Lemma encode_slot_range s named : named_ok s named → 0 ≤ encode_slot named < 2 ^ 32.
Proof using Type.
  unfold named_ok, encode_slot, NO_SLOT, u32_max, SLOT_COUNT. change (2 ^ 32) with 4294967296.
  destruct named; [intros [? _]|intros _]; lia.
Qed.

Lemma Slots_decoded_exact entries running candidate s :
  length entries = SLOT_COUNT → Forall table_entry_ok entries →
  (∀ slot, running = Some slot → (slot < SLOT_COUNT)%nat) → (∀ slot, candidate = Some slot → (slot < SLOT_COUNT)%nat) →
  Slots_decoded entries running candidate = Ok s ↔
  s = {| sl_entries := entries; sl_running := running; sl_candidate := candidate |} ∧ slots_ok s.
Proof using Type.
  intros Hl He Hr Hc. unfold Slots_decoded.
  assert (∀ named, (∀ slot, named = Some slot → (slot < SLOT_COUNT)%nat) →
    match named with Some slot => match mjoin (entries !! slot) with None => Some slot | Some _ => None end | None => None end = None
    ↔ named_ok {| sl_entries := entries; sl_running := running; sl_candidate := candidate |} named) as Hn.
  { intros [slot|] Hs; [|done]. unfold named_ok, Slots_entry. cbn [sl_entries]. specialize (Hs _ eq_refl).
    destruct (mjoin (entries !! slot)) as [e|] eqn:E.
    - split; [intros _; split; [done|exists e; exact E]|done].
    - split; [done|]. intros [_ [e He']]. discriminate (eq_trans (eq_sym E) He'). }
  specialize (Hn running Hr) as Hnr. specialize (Hn candidate Hc) as Hnc. unfold slots_ok.
  destruct (match running with Some _ => _ | None => _ end) as [slot|] eqn:E1.
  { split; [done|]. intros [-> (_ & _ & H & _)]. by apply Hnr in H. }
  destruct (match candidate with Some _ => _ | None => _ end) as [slot|] eqn:E2.
  { split; [done|]. intros [-> (_ & _ & _ & H & _)]. by apply Hnc in H. }
  set (built := {| sl_entries := entries; sl_running := running; sl_candidate := candidate |}) in *.
  assert (Ok built = Ok (E := StateError) s ∧ (∀ slot, running = Some slot → candidate ≠ Some slot)
    ↔ s = built ∧ slots_ok s) as Hbuilt.
  { unfold slots_ok. split.
    - intros [[= <-] Hne]. split_all; try done; [by apply Hnr|by apply Hnc].
    - intros [-> (_ & _ & _ & _ & Hne)]. done. }
  unfold slots_ok in Hbuilt. rewrite <- Hbuilt. clear Hbuilt.
  destruct running as [r|], candidate as [c|]; [case_decide as Hne|..].
  - subst c. split; [done|]. intros [_ H]. by destruct (H r).
  - split; [|by intros [? _]]. intros ->. split; [done|]. intros slot [= <-]. congruence.
  - split; [by intros ->|by intros [? _]].
  - split; [by intros ->|by intros [? _]].
  - split; [by intros ->|by intros [? _]].
Qed.

Lemma certificate_read copy at_ len :
  length copy = STATE_COPY_BYTES → bytes_ok copy → (len ≤ MAX_STORED_CERTIFICATE)%nat → (at_ + MAX_STORED_CERTIFICATE ≤ STATE_COPY_BYTES)%nat →
  is_zero copy (at_ + len) (at_ + MAX_STORED_CERTIFICATE) = true →
  ∃ c, stored_certificate copy at_ len = Some c ∧ certificate_ok c ∧ sc_len c = len ∧ slice copy at_ 768 = certificate_tile c.
Proof using Type.
  intros Hl Hok Hn Ha Hz. apply is_zero_slice in Hz; [|done|store_lens].
  replace (at_ + MAX_STORED_CERTIFICATE - (at_ + len))%nat with (768 - len)%nat in Hz by store_lens.
  unfold stored_certificate. rewrite (proj2 (Nat.leb_le _ _)) by lia. eexists. split; [done|].
  fold (slice copy at_ len). pose proof (length_slice copy at_ len ltac:(store_lens)) as Hsl.
  assert (list_inserts 0 (slice copy at_ len) (replicate MAX_STORED_CERTIFICATE 0) = slice copy at_ len ++ replicate (768 - len) 0) as Hb.
  { replace (replicate MAX_STORED_CERTIFICATE 0) with (replicate len 0 ++ replicate (768 - len) 0)
      by (rewrite <- replicate_add; f_equal; store_lens).
    apply list_inserts_0_r. by rewrite length_replicate. }
  rewrite Hb. unfold certificate_ok, certificate_tile, StoredCertificate_as_bytes. cbn [sc_bytes sc_len].
  rewrite length_app, length_replicate, Hsl. split_all.
  - store_lens.
  - apply bytes_ok_app. split; [by apply slice_ok|]. apply Forall_replicate. ints.
  - done.
  - rewrite <- Hsl at 1. by rewrite drop_app_length.
  - done.
  - rewrite (proj2 (Nat.leb_le _ _)) by lia. rewrite take_app_le, take_ge by lia.
    replace 768%nat with (len + (768 - len))%nat at 1 by store_lens. apply slice_app_iff; [done|store_lens|done].
Qed.

Lemma Onboarding_bits bits o : Onboarding_from_bits bits = Some o ↔ bits = Onboarding_to_bits o.
Proof using Type.
  unfold Onboarding_from_bits. split.
  - destruct (bits =? 0) eqn:E0; [intros [= <-]; simpl; lia|]. destruct (bits =? 1) eqn:E1; [intros [= <-]; simpl; lia|done].
  - intros ->. by destruct o.
Qed.

(** A comparison of two constants of the layout. *)
Ltac const_le := apply Nat.leb_le; vm_compute; reflexivity.

Ltac const_range := split; const_le.

Ltac refuse H := let E := fresh "E" in
  match type of H with (if ?b then None else _) = Some _ => destruct b eqn:E; [discriminate H|] end.

(** What is accepted is the state's own encoding, whatever the array's stored size. *)
Lemma decode_copy_sound copy im :
  length copy = STATE_COPY_BYTES → bytes_ok copy → decode_copy sha256 copy = Some im →
  state_ok (im_state im)
  ∧ (im_slot_count im = Z.of_nat SLOT_COUNT → im_slot_sectors im = Z.of_nat SLOT_SECTORS → copy = compose sha256 (im_state im)).
Proof using sha256_digest.
  intros Hl Hok H. unfold decode_copy in H.
  refuse H. refuse H. cbv zeta in H. refuse H. refuse H.
  apply bind_Some in H as (onboarding & Ho & H). apply Onboarding_bits in Ho.
  refuse H. refuse H. refuse H. refuse H.
  apply bind_Some in H as (entries & He & H). apply bind_Some in H as (running & Hr & H).
  apply bind_Some in H as (candidate & Hc & H).
  destruct (Slots_decoded entries running candidate) as [slots|] eqn:Hsl; [|done].
  apply orb_false_iff in E3 as [Hdl Hal]. apply Nat.ltb_ge in Hdl, Hal.
  apply orb_false_iff in E4 as [[Hz1 Hz2]%orb_false_iff Hz3]. apply negb_false_iff in Hz1, Hz2, Hz3.
  apply orb_false_iff in E5 as [[Hz4 Hz5]%orb_false_iff _]. apply negb_false_iff in Hz4, Hz5.
  destruct (certificate_read copy DEVICE_CERT_AT _ Hl Hok Hdl ltac:(const_le) Hz1) as (device & Hdev & Hdok & Hdn & Hdt).
  destruct (certificate_read copy ANCHOR_CERT_AT _ Hl Hok Hal ltac:(const_le) Hz2) as (anchor & Hanc & Haok & Han & Hat).
  rewrite Hdev, Hanc in H. cbn [mbind option_bind] in H. refuse H. apply (inj Some) in H. subst im.
  cbn [im_state im_slot_count im_slot_sectors].
  apply (read_entries_exact copy Hl Hok) in He as [Hte Hcut]; [|const_le].
  assert (length entries = SLOT_COUNT) as Hel.
  { apply (f_equal length) in Hcut. by rewrite length_fmap in Hcut. }
  unfold read_u16, read_u32, read_u64 in *.
  pose proof (word_range copy Hl Hok 4 RUNNING_AT ltac:(const_le)) as Rr.
  pose proof (word_range copy Hl Hok 4 CANDIDATE_AT ltac:(const_le)) as Rc.
  apply (decode_slot_exact _ _ Rr) in Hr as [Hr Hrr]. apply (decode_slot_exact _ _ Rc) in Hc as [Hc Hcr].
  apply Slots_decoded_exact in Hsl as [-> Hsok]; [|done|done|by intros slot ->|by intros slot ->].
  assert (∀ a n, (a + n ≤ STATE_COPY_BYTES)%nat → copy_from copy a (replicate n 0) = slice copy a n) as Hcf
    by (intros a n ?; apply copy_from_slice; lia).
  rewrite (Hcf ENDPOINT_AT 4%nat) in E3 by const_le.
  rewrite (Hcf DEVICE_ID_AT DEVICE_ID_BYTES), (Hcf SECRET_AT SECRET_LEN), (Hcf PUBLIC_AT PUBLIC_LEN), (Hcf ENDPOINT_AT 4%nat) by const_le.
  set (s := {| st_generation := _ |}).
  assert (state_ok s) as Hs.
  { constructor; subst s; cbn [st_generation st_device_id st_secret st_public st_endpoint st_device_certificate st_anchor_certificate
      st_slots sp_address sp_port]; try done.
    1: pose proof (word_range copy Hl Hok 8 GENERATION_AT ltac:(const_le)); lia.
    1-4: by split; [apply length_slice; rewrite Hl; const_le|by apply slice_ok].
    - exact (word_range copy Hl Hok 2 (ENDPOINT_AT + 4) ltac:(const_le)).
    - unfold ownership_ok. cbn [st_onboarding st_device_certificate st_anchor_certificate st_endpoint].
      unfold StoredCertificate_is_empty in E3. destruct onboarding.
      + apply orb_false_iff in E3 as [?%negb_false_iff%Nat.eqb_eq ?%negb_false_iff]. done.
      + apply orb_false_iff in E3 as [[?%negb_true_iff%Nat.eqb_neq ?%negb_true_iff%Nat.eqb_neq]%negb_false_iff%andb_true_iff ?]. done. }
  split; [done|]. intros Hn Hsec.
  rewrite compose_tiles by done.
  assert (take DIGEST_AT copy = body s) as Hbody.
  { apply body_cut; [done|rewrite Hl; const_le|]. unfold body_lens, body_tiles. rewrite !cut_append.
    change (0 + sum_list [8; 4; 4; 8; 16; 32; 65; 3; 4; 2; 2; 4; 4; 4; 4; 2; 2])%nat with (SLOT_TABLE_AT + 0 * SLOT_ENTRY_BYTES)%nat.
    change (SLOT_TABLE_AT + 0 * SLOT_ENTRY_BYTES + sum_list (replicate 8 48))%nat with DEVICE_CERT_AT.
    apply negb_false_iff, Z.eqb_eq in E, E0.
    pose proof (slice_word copy Hl Hok) as Hw.
    assert (∀ a, (a + 4 ≤ STATE_COPY_BYTES)%nat → 0 ≤ from_le (copy_from copy a (replicate 4 0))) as Hpos
      by (intros a ?; by apply (word_range copy Hl Hok 4 a)).
    apply (is_zero_slice copy Hl) in Hz3; [|const_range]. apply (is_zero_slice copy Hl) in Hz4; [|const_range].
    apply (is_zero_slice copy Hl) in Hz5; [|const_range].
    f_equal; [|f_equal; [exact Hcut|]]; subst s; cbn [cut st_generation st_onboarding st_device_id st_secret st_public st_endpoint
      st_device_certificate st_anchor_certificate st_slots sl_running sl_candidate sp_address sp_port].
    - repeat (apply cons_step; [first
        [ exact Hz4 | exact Hz5 | reflexivity
        | rewrite Hw by const_le; apply (f_equal (le_bytes _));
          first [exact E|exact E0|exact Ho|exact (eq_sym Hr)|exact (eq_sym Hc)|exact Hn|exact Hsec|reflexivity
                |rewrite Hdn, Z2Nat.id by (apply Hpos; const_le); reflexivity|rewrite Han, Z2Nat.id by (apply Hpos; const_le); reflexivity] ]|]).
      reflexivity.
    - apply cons_step; [exact Hdt|]. apply cons_step; [exact Hat|]. apply cons_step; [exact Hz3|done]. }
  rewrite <- Hbody. rewrite <- (take_drop DIGEST_AT copy) at 1. f_equal.
  apply negb_false_iff, bool_decide_eq_true in E1. unfold digest_of, read_digest in E1.
  rewrite (Hcf DIGEST_AT DIGEST_LEN) in E1 by const_le. rewrite <- E1. unfold slice. rewrite take_ge; [done|].
  rewrite length_drop, Hl. const_le.
Qed.

Lemma bytes_ok_zeros n : bytes_ok (replicate n 0).
Proof using Type. apply Forall_replicate. ints. Qed.

Lemma entry_tile_ok e : table_entry_ok e → bytes_ok (entry_tile e).
Proof using Type.
  destruct e as [e|]; cbn [entry_tile table_entry_ok].
  - intros (_ & _ & _ & ?). rewrite !bytes_ok_app. split_all; auto using le_bytes_ok, bytes_ok_zeros.
  - intros _. rewrite !bytes_ok_app. split_all; auto using le_bytes_ok, bytes_ok_zeros.
Qed.

Lemma certificate_tile_bytes c : certificate_ok c → certificate_tile c = sc_bytes c.
Proof using Type.
  intros (Hl & _ & Hn & Hz). unfold certificate_tile, StoredCertificate_as_bytes.
  rewrite (proj2 (Nat.leb_le _ _)) by lia. by rewrite <- Hz, take_drop.
Qed.

Lemma body_ok s : state_ok s → bytes_ok (body s).
Proof using Type.
  intros [? [_ ?] [_ ?] [_ ?] [_ ?] ? Hd Ha (_ & He & _) _]. unfold body, bytes_ok. apply Forall_concat.
  unfold body_tiles. rewrite (certificate_tile_bytes _ Hd), (certificate_tile_bytes _ Ha). apply Forall_app_2; [|apply Forall_app_2].
  - repeat (constructor; [first [done|apply le_bytes_ok|apply bytes_ok_zeros]|]). constructor.
  - apply Forall_fmap. eapply Forall_impl; [exact He|]. intros e. apply entry_tile_ok.
  - constructor; [apply Hd|]. constructor; [apply Ha|]. constructor; [apply bytes_ok_zeros|constructor].
Qed.

Lemma compose_shape s :
  state_ok s → length (compose sha256 s) = STATE_COPY_BYTES ∧ bytes_ok (compose sha256 s) ∧ take DIGEST_AT (compose sha256 s) = body s.
Proof using sha256_digest.
  intros Hs. rewrite compose_tiles by done. pose proof (length_body s Hs) as Hb. destruct (sha256_digest (body s)) as [Hl Ho].
  split_all.
  - rewrite length_app, Hb, Hl. done.
  - apply bytes_ok_app. split; [by apply body_ok|done].
  - by rewrite take_app_le, take_ge by lia.
Qed.

Lemma certificate_written copy at_ c :
  length copy = STATE_COPY_BYTES → (at_ + MAX_STORED_CERTIFICATE ≤ STATE_COPY_BYTES)%nat → certificate_ok c →
  slice copy at_ 768 = certificate_tile c →
  is_zero copy (at_ + sc_len c) (at_ + MAX_STORED_CERTIFICATE) = true ∧ stored_certificate copy at_ (sc_len c) = Some c.
Proof using Type.
  intros Hl Ha Hc Hs. rewrite (certificate_tile_bytes c Hc) in Hs. destruct Hc as (Hbl & _ & Hn & Hz).
  assert (slice copy at_ (sc_len c) = take (sc_len c) (sc_bytes c)) as Hfront.
  { rewrite <- (Nat.add_0_r at_), <- (slice_slice copy at_ 768), Hs by store_lens. unfold slice. by rewrite drop_0. }
  split.
  - apply (is_zero_slice copy Hl); [store_lens|].
    replace (at_ + MAX_STORED_CERTIFICATE - (at_ + sc_len c))%nat with (768 - sc_len c)%nat by store_lens.
    rewrite <- (slice_slice copy at_ 768), Hs by store_lens. unfold slice. rewrite Hz, take_ge; [done|].
    rewrite length_replicate. store_lens.
  - unfold stored_certificate. rewrite (proj2 (Nat.leb_le _ _)) by lia. fold (slice copy at_ (sc_len c)). rewrite Hfront.
    f_equal. destruct c as [bytes len]. cbn [sc_bytes sc_len] in *. f_equal.
    replace (replicate MAX_STORED_CERTIFICATE 0) with (replicate len 0 ++ replicate (768 - len) 0)
      by (rewrite <- replicate_add; f_equal; store_lens).
    rewrite list_inserts_0_r by (rewrite length_take, length_replicate; lia).
    rewrite <- (take_drop len bytes) at 2. by rewrite Hz.
Qed.

Lemma cut_lookup l a lens i n : lens !! i = Some n → cut l a lens !! i = Some (slice l (a + sum_list (take i lens)) n).
Proof using Type.
  revert a i. induction lens as [|m lens IH]; intros a i Hi; [done|]. destruct i as [|i]; simpl in *.
  - injection Hi as <-. by rewrite Nat.add_0_r.
  - rewrite (IH _ _ Hi). by rewrite Nat.add_assoc.
Qed.

Lemma cut_field l a lens ts i b n t :
  cut l a lens = ts → ts !! i = Some t → lens !! i = Some n → (a + sum_list (take i lens))%nat = b → slice l b n = t.
Proof using Type. intros Hc Ht Hn <-. apply (cut_lookup l a) in Hn. rewrite Hc, Ht in Hn. by injection Hn as ->. Qed.

(** Every state this build can be in reads back as itself. *)
Lemma decode_compose s :
  state_ok s →
  decode_copy sha256 (compose sha256 s)
  = Some {| im_state := s; im_slot_count := Z.of_nat SLOT_COUNT; im_slot_sectors := Z.of_nat SLOT_SECTORS |}.
Proof using sha256_digest.
  intros Hs. destruct (compose_shape s Hs) as (Hl & Hok & Hbody).
  assert (slice (compose sha256 s) DIGEST_AT DIGEST_LEN = sha256 (body s)) as Hdig.
  { rewrite compose_tiles by done. unfold slice. rewrite <- (length_body s Hs), drop_app_length.
    rewrite <- (proj1 (sha256_digest (body s))). apply take_ge. lia. }
  set (copy := compose sha256 s) in *. clearbody copy.
  pose proof (proj1 (body_cut copy s Hs ltac:(rewrite Hl; const_le)) Hbody) as Hcut.
  unfold body_lens, body_tiles in Hcut. rewrite !cut_append in Hcut.
  apply app_inj_1 in Hcut as [Hfields Hcut]; [|done].
  apply app_inj_1 in Hcut as [Hentries Hcut]; [|by rewrite length_fmap, (proj1 (so_slots s Hs))].
  assert (∀ n a, (a + n ≤ STATE_COPY_BYTES)%nat → copy_from copy a (replicate n 0) = slice copy a n) as Hcf
    by (intros n a ?; apply copy_from_slice; lia).
  pose proof (word_slice copy Hl) as Hw.
  pose proof (λ i a n t, cut_field copy 0 _ _ i a n t Hfields) as Hf.
  pose proof (Hf 7%nat (PUBLIC_AT + PUBLIC_LEN)%nat 3%nat _ eq_refl eq_refl eq_refl) as Hz4.
  pose proof (Hf 10%nat (ENDPOINT_AT + ENDPOINT_LEN)%nat 2%nat _ eq_refl eq_refl eq_refl) as Hz5.
  pose proof (cut_field _ _ _ _ 0%nat DEVICE_CERT_AT _ _ Hcut eq_refl eq_refl eq_refl) as Hdev.
  pose proof (cut_field _ _ _ _ 1%nat ANCHOR_CERT_AT _ _ Hcut eq_refl eq_refl eq_refl) as Hanc.
  pose proof (cut_field _ _ _ _ 2%nat (ANCHOR_CERT_AT + MAX_STORED_CERTIFICATE)%nat _ _ Hcut eq_refl eq_refl eq_refl) as Hz3.
  destruct Hs as [Hg Hid Hsec Hpub Hadr Hport Hdc Hac Hslots Hown].
  destruct (certificate_written copy DEVICE_CERT_AT _ Hl ltac:(const_le) Hdc Hdev) as [Hz1 Hsd].
  destruct (certificate_written copy ANCHOR_CERT_AT _ Hl ltac:(const_le) Hac Hanc) as [Hz2 Hsa].
  assert (∀ c, certificate_ok c → 0 ≤ Z.of_nat (sc_len c) < 2 ^ (8 * Z.of_nat 4)) as Hcl.
  { intros c (_ & _ & ? & _). change (2 ^ (8 * Z.of_nat 4)) with 4294967296. store_lens. }
  pose proof (Hw 8%nat MAGIC_AT _ ltac:(const_le) (Hf 0%nat _ _ _ eq_refl eq_refl eq_refl) ltac:(done)) as R0.
  pose proof (Hw 4%nat VERSION_AT _ ltac:(const_le) (Hf 1%nat _ _ _ eq_refl eq_refl eq_refl) ltac:(done)) as R1.
  pose proof (Hw 4%nat ONBOARDING_AT _ ltac:(const_le) (Hf 2%nat _ _ _ eq_refl eq_refl eq_refl)
    ltac:(by destruct (st_onboarding s))) as R2.
  pose proof (Hw 8%nat GENERATION_AT _ ltac:(const_le) (Hf 3%nat _ _ _ eq_refl eq_refl eq_refl) ltac:(lia)) as R3.
  pose proof (Hf 4%nat DEVICE_ID_AT _ _ eq_refl eq_refl eq_refl) as R4.
  pose proof (Hf 5%nat SECRET_AT _ _ eq_refl eq_refl eq_refl) as R5.
  pose proof (Hf 6%nat PUBLIC_AT _ _ eq_refl eq_refl eq_refl) as R6.
  pose proof (Hf 8%nat ENDPOINT_AT _ _ eq_refl eq_refl eq_refl) as R8.
  pose proof (Hw 2%nat (ENDPOINT_AT + 4)%nat _ ltac:(const_le) (Hf 9%nat _ _ _ eq_refl eq_refl eq_refl) Hport) as R9.
  pose proof (Hw 4%nat DEVICE_CERT_LEN_AT _ ltac:(const_le) (Hf 11%nat _ _ _ eq_refl eq_refl eq_refl) (Hcl _ Hdc)) as R11.
  pose proof (Hw 4%nat ANCHOR_CERT_LEN_AT _ ltac:(const_le) (Hf 12%nat _ _ _ eq_refl eq_refl eq_refl) (Hcl _ Hac)) as R12.
  pose proof Hslots as (Hel & Hef & Hnr & Hnc & Hne).
  pose proof (Hw 4%nat RUNNING_AT _ ltac:(const_le) (Hf 13%nat _ _ _ eq_refl eq_refl eq_refl) (encode_slot_range _ _ Hnr)) as R13.
  pose proof (Hw 4%nat CANDIDATE_AT _ ltac:(const_le) (Hf 14%nat _ _ _ eq_refl eq_refl eq_refl) (encode_slot_range _ _ Hnc)) as R14.
  pose proof (Hw 2%nat SLOT_COUNT_AT _ ltac:(const_le) (Hf 15%nat _ _ _ eq_refl eq_refl eq_refl) ltac:(done)) as R15.
  pose proof (Hw 2%nat SLOT_SECTORS_AT _ ltac:(const_le) (Hf 16%nat _ _ _ eq_refl eq_refl eq_refl) ltac:(done)) as R16.
  unfold decode_copy, read_u16, read_u32, read_u64, read_digest.
  rewrite R0, R1, R2, R3, R9, R11, R12, R13, R14, R15, R16. rewrite (Hcf DIGEST_LEN DIGEST_AT), (Hcf DEVICE_ID_BYTES DEVICE_ID_AT),
    (Hcf SECRET_LEN SECRET_AT), (Hcf PUBLIC_LEN PUBLIC_AT), (Hcf 4%nat ENDPOINT_AT) by const_le.
  unfold digest_of. rewrite Hdig, Hbody.
  change DEVICE_ID_BYTES with 16%nat. change SECRET_LEN with 32%nat. change PUBLIC_LEN with 65%nat.
  rewrite R4, R5, R6, R8, !Nat2Z.id, Hz1, Hz2, Hsd, Hsa.
  rewrite (proj2 (is_zero_slice copy Hl (ANCHOR_CERT_AT + MAX_STORED_CERTIFICATE) DIGEST_AT ltac:(const_range)) Hz3).
  rewrite (proj2 (is_zero_slice copy Hl (PUBLIC_AT + 65) ENDPOINT_AT ltac:(const_range)) Hz4).
  rewrite (proj2 (is_zero_slice copy Hl (ENDPOINT_AT + ENDPOINT_LEN) DEVICE_CERT_LEN_AT ltac:(const_range)) Hz5).
  rewrite (proj2 (is_zero_slice copy Hl (SLOT_TABLE_AT + SLOT_COUNT * SLOT_ENTRY_BYTES) DEVICE_CERT_AT ltac:(const_range)) eq_refl).
  assert (read_entries copy 0 SLOT_COUNT = Some (sl_entries (st_slots s))) as ->.
  { apply (read_entries_exact copy Hl Hok); [const_le|]. split; [exact Hef|exact Hentries]. }
  rewrite !Z.eqb_refl, bool_decide_true by done. cbn [negb].
  rewrite (proj2 (Z.eqb_neq (st_generation s) 0)), (proj2 (Onboarding_bits _ _) eq_refl) by lia. cbn [mbind option_bind].
  rewrite !(proj2 (Nat.ltb_ge MAX_STORED_CERTIFICATE _)) by first [apply Hdc|apply Hac]. cbn [orb negb].
  rewrite Z.ltb_irrefl.
  assert (∀ named, named_ok (st_slots s) named → decode_slot (encode_slot named) = Some named) as Hdn.
  { intros named Hn. apply decode_slot_exact; [by eapply encode_slot_range|]. split; [done|]. destruct named; [apply Hn|done]. }
  rewrite !Hdn by done. cbn [mbind option_bind].
  assert (Slots_decoded (sl_entries (st_slots s)) (sl_running (st_slots s)) (sl_candidate (st_slots s)) = Ok (st_slots s)) as ->.
  { apply Slots_decoded_exact; [done|exact Hef| | |split; [by destruct (st_slots s)|done]].
    - intros slot E. rewrite E in Hnr. apply Hnr.
    - intros slot E. rewrite E in Hnc. apply Hnc. }
  assert ({| sp_address := sp_address (st_endpoint s); sp_port := sp_port (st_endpoint s) |} = st_endpoint s) as -> by (by destruct (st_endpoint s)).
  unfold ownership_ok, StoredCertificate_is_empty in *. destruct s as [g o id sec pub ep dc ac sl]. cbn [st_onboarding st_device_certificate st_anchor_certificate st_endpoint] in *.
  destruct o.
  - destruct Hown as [-> ->]. done.
  - destruct Hown as (? & ? & ->). by rewrite !(proj2 (Nat.eqb_neq _ 0)) by done.
Qed.

(** A copy of the record is acted on exactly when it is the encoding of a state. *)
Lemma checked_copy copy s :
  length copy = STATE_COPY_BYTES → bytes_ok copy →
  (∃ im, decode_copy sha256 copy = Some im ∧ StateImage_check im = Ok s) ↔ state_ok s ∧ copy = compose sha256 s.
Proof using sha256_digest.
  intros Hl Hok. split.
  - intros (im & Hd & Hc). destruct (decode_copy_sound copy im Hl Hok Hd) as [Hs Hcopy].
    unfold StateImage_check in Hc. destruct (_ || _) eqn:E in Hc; [done|]. injection Hc as <-.
    apply orb_false_iff in E as [E1%negb_false_iff%Z.eqb_eq E2%negb_false_iff%Z.eqb_eq]. auto.
  - intros [Hs ->]. eexists. split; [by apply decode_compose|]. done.
Qed.

(** C16. The copies of the record an appliance acts on and the states of this build
    are in exact correspondence: a copy (one of the bytes a medium holds, whoever
    wrote them) decodes and checks to a state exactly when that state is well formed
    and the copy is, to the byte, what [encode_state] composes for it. *)
Theorem state_record_exact copy s :
  length copy = STATE_COPY_BYTES → bytes_ok copy →
  (∃ im, decode_copy sha256 copy = Some im ∧ StateImage_check im = Ok s) ↔ state_ok s ∧ copy = compose sha256 s.
Proof using sha256_digest. apply checked_copy. Qed.

Lemma compose_inj s1 s2 : state_ok s1 → state_ok s2 → compose sha256 s1 = compose sha256 s2 → s1 = s2.
Proof using sha256_digest.
  intros H1 H2 E. pose proof (decode_compose s1 H1) as D1. rewrite E, (decode_compose s2 H2) in D1. by injection D1 as ->.
Qed.
End Exact.

(** ** Which slot a new version takes *)
Definition named (s : Slots) (slot : SlotIndex) : Prop := sl_running s = Some slot ∨ sl_candidate s = Some slot.

Lemma SlotIndex_new_of index : (index < SLOT_COUNT)%nat → SlotIndex_new (Z.of_nat index) = Some index.
Proof. intros. unfold SlotIndex_new. rewrite (proj2 (Z.ltb_lt _ _)) by lia. by rewrite Nat2Z.id. Qed.

(** The best displaceable slot among those before [n]. *)
Definition oldest_before (s : Slots) (n : nat) (oldest : option (SlotIndex * Z)) : Prop :=
  match oldest with
  | None => ∀ j e, (j < n)%nat → sl_entries s !! j = Some (Some e) → named s j
  | Some (slot, g) =>
      (slot < n)%nat ∧ ¬ named s slot ∧ (∃ e, sl_entries s !! slot = Some (Some e) ∧ se_generation e = g)
      ∧ (∀ j e, (j < n)%nat → sl_entries s !! j = Some (Some e) → ¬ named s j →
           g < se_generation e ∨ (g = se_generation e ∧ (slot ≤ j)%nat))
  end.

Definition reuse_ok (s : Slots) (r : option Reuse) : Prop :=
  match r with
  | Some (Empty slot) =>
      sl_entries s !! slot = Some None ∧ ∀ j, (j < slot)%nat → sl_entries s !! j ≠ Some None
  | Some (Displaces slot g) =>
      (∀ j, sl_entries s !! j ≠ Some None) ∧ oldest_before s (length (sl_entries s)) (Some (slot, g))
  | None => (∀ j, sl_entries s !! j ≠ Some None) ∧ oldest_before s (length (sl_entries s)) None
  end.

Lemma reuse_loop_ok s entries index oldest :
  length (sl_entries s) = SLOT_COUNT → drop index (sl_entries s) = entries → (index ≤ SLOT_COUNT)%nat →
  (∀ j, (j < index)%nat → sl_entries s !! j ≠ Some None) → oldest_before s index oldest →
  reuse_ok s (reuse_loop s entries index oldest).
Proof.
  intros Hlen. revert index oldest. induction entries as [|entry entries IH]; intros index oldest Hdrop Hi Hfull Hold; simpl.
  - assert (index = SLOT_COUNT) as -> by (apply (f_equal length) in Hdrop; rewrite length_drop in Hdrop; simpl in Hdrop; lia).
    assert (∀ j, sl_entries s !! j ≠ Some None) as Hnone.
    { intros j Hj. by apply (Hfull j); [apply lookup_lt_Some in Hj; lia|]. }
    destruct oldest as [[slot g]|]; simpl; split; rewrite ?Hlen; done.
  - assert (index < SLOT_COUNT)%nat as Hlt
      by (apply (f_equal length) in Hdrop; rewrite length_drop in Hdrop; simpl in Hdrop; lia).
    assert (sl_entries s !! index = Some entry) as Hentry.
    { rewrite <- (Nat.add_0_r index), <- lookup_drop, Hdrop. done. }
    assert (drop (S index) (sl_entries s) = entries) as Hdrop'.
    { replace (S index) with (index + 1)%nat by lia. by rewrite <- drop_drop, Hdrop. }
    rewrite SlotIndex_new_of by done. destruct entry as [e|]; [|by split].
    assert (∀ j, (j < S index)%nat → sl_entries s !! j ≠ Some None) as Hfull'.
    { intros j Hj. destruct (decide (j = index)) as [->|]; [by rewrite Hentry|apply Hfull; lia]. }
    assert (bool_decide (Some index = sl_running s) || bool_decide (Some index = sl_candidate s) = true ↔ named s index) as Hn.
    { unfold named. rewrite orb_true_iff, !bool_decide_eq_true. firstorder. }
    destruct (_ || _) eqn:E; apply IH; try done; try lia.
    + pose proof (proj1 Hn eq_refl) as Hnamed. destruct oldest as [[slot g]|]; simpl in *.
      * destruct Hold as (? & ? & ? & Hmin). split_all; [lia|done|done|]. intros j e' Hj He Hnn.
        destruct (decide (j = index)) as [->|]; [done|apply Hmin; [lia|done|done]].
      * intros j e' Hj He. destruct (decide (j = index)) as [->|]; [done|apply (Hold j e'); [lia|done]].
    + assert (¬ named s index) as Hnamed by (rewrite <- Hn; done).
      destruct oldest as [[slot g]|]; simpl in *.
      * destruct Hold as (? & ? & (e0 & ? & ?) & Hmin). destruct (Z.ltb_spec (se_generation e) g); simpl.
        -- split_all; [lia|done|by eauto|]. intros j e' Hj He Hnn.
           destruct (decide (j = index)) as [->|]; [rewrite Hentry in He; injection He as <-; lia|].
           destruct (Hmin j e' ltac:(lia) He Hnn) as [|[]]; lia.
        -- split_all; [lia|done|by eauto|]. intros j e' Hj He Hnn.
           destruct (decide (j = index)) as [->|]; [rewrite Hentry in He; injection He as <-; lia|].
           apply Hmin; [lia|done|done].
      * split_all; [lia|done|by eauto|]. intros j e' Hj He Hnn.
        destruct (decide (j = index)) as [->|]; [rewrite Hentry in He; injection He as <-; lia|].
        destruct Hnn. apply (Hold j e'); [lia|done].
Qed.

Lemma next_for_reuse_ok s : length (sl_entries s) = SLOT_COUNT → reuse_ok s (Slots_next_for_reuse s).
Proof.
  intros. apply reuse_loop_ok; [done|by rewrite drop_0|lia|lia|]. intros j e Hj. lia.
Qed.

(** There is always a slot: two are named at most and there are eight. *)
Lemma next_for_reuse_some s :
  slots_ok s → ∃ r, Slots_next_for_reuse s = Some r ∧ (Reuse_slot r < SLOT_COUNT)%nat ∧ ¬ named s (Reuse_slot r).
Proof.
  intros Hs. pose proof Hs as (Hl & _ & Hr & Hc & _). pose proof (next_for_reuse_ok s Hl) as Hok.
  destruct (Slots_next_for_reuse s) as [[slot|slot g]|]; simpl in Hok.
  - destruct Hok as [He _]. eexists. split; [done|]. simpl. split; [apply lookup_lt_Some in He; lia|].
    intros [E|E]; [rewrite E in Hr; destruct Hr as (e & Hr)|rewrite E in Hc; destruct Hc as (e & Hc)];
      unfold Slots_entry in *; rewrite He in *; simpl in *; by destruct e.
  - destruct Hok as (_ & Hlt & Hn & _). eexists. split; [done|]. simpl. by rewrite Hl in Hlt.
  - exfalso. destruct Hok as [Hfull Hall].
    assert (∀ j, (j < SLOT_COUNT)%nat → named s j) as Hn.
    { intros j Hj. destruct (lookup_lt_is_Some_2 (sl_entries s) j ltac:(lia)) as [[e|] He]; [|by destruct (Hfull j)].
      by apply (Hall j e); [lia|]. }
    destruct (Hn 0%nat) as [E0|E0], (Hn 1%nat) as [E1|E1], (Hn 2%nat) as [E2|E2]; unfold SLOT_COUNT; try lia; congruence.
Qed.
