(* ===== verification/StoreMedium.v ===== *)
(** * The store domain's medium

    Models the part of [datad/pds/store/src/main.rs] that reads and writes the block
    device: the transfers and barriers of [Medium], the record, the slots, the
    factory reset, what a boot establishes, and the two requests that change the
    record while the domain runs ([place_document], [take_ownership]); with the
    staging spans of [datad/crates/blk/src/io.rs].

    A routine is an [Io]: a tree of edits of the domain's own memory (the staging
    window and the block counters) and of requests to the device, each continued by
    the driver's answer. [StoreCrash] gives the trees their meaning on a device that
    may fail at any request and lose power at any moment. Hashes, keys and the package
    reader are of libraries or of crates outside this file: arguments. *)
From stdpp Require Import strings.
From S2P Require Import Prelude Layout Store.
#[local] Open Scope string_scope.
#[local] Open Scope list_scope.
#[local] Open Scope Z_scope.

(** ** Spans of the staging window *)
Definition BLK_IO_REGION_SIZE : Z := 0x40000.
Definition SECTOR : Z := Z.of_nat SECTOR_SIZE.
Definition IO_SECTORS : Z := BLK_IO_REGION_SIZE / SECTOR.
Definition MAX_INSTALL_ARCHIVE : Z := 128 * 1024.

Record IoSpan := { is_sector : Z; is_len : Z }.
Definition IoSector_new (index : Z) : option Z := if index <? IO_SECTORS then Some index else None.
Definition IoSpan_offset (span : IoSpan) : Z := is_sector span * SECTOR.
Definition IoSpan_new (sector len : Z) : option IoSpan :=
  if len =? 0 then None else
  if sector * SECTOR + len <=? BLK_IO_REGION_SIZE then Some {| is_sector := sector; is_len := len |} else None.
Definition IoSpan_at_offset (at_ len : Z) : option IoSpan :=
  if negb (at_ mod SECTOR =? 0) then None else
  sector ← IoSector_new (at_ / SECTOR); IoSpan_new sector len.

(** [IoRegion::staging]: the span's bytes of the window. *)
Definition staging (window : list Z) (span : IoSpan) : list Z :=
  take (Z.to_nat (is_len span)) (drop (Z.to_nat (IoSpan_offset span)) window).

(** ** Requests *)
Inductive Operation := Read | Write | Flush.
#[export] Instance Operation_eq_dec : EqDecision Operation.
Proof. solve_decision. Defined.
Inductive Outcome := Outcome_Ok | DeviceError | Unsupported | UnknownStatus (status : Z).
#[export] Instance Outcome_eq_dec : EqDecision Outcome.
Proof. solve_decision. Defined.
Record Token := { tk_slot : Z; tk_generation : Z }.
#[export] Instance Token_eq_dec : EqDecision Token.
Proof. solve_decision. Defined.
Record Completed := { cp_token : Token; cp_operation : Operation; cp_outcome : Outcome; cp_bytes : Z }.

Record BlockCounters := { bc_reads : Z; bc_read_bytes : Z; bc_writes : Z; bc_write_bytes : Z }.
#[export] Instance BlockCounters_eta : Eta BlockCounters := λ c,
  {| bc_reads := bc_reads c; bc_read_bytes := bc_read_bytes c; bc_writes := bc_writes c; bc_write_bytes := bc_write_bytes c |}.
Definition BlockCounters_completed (operation : Operation) (bytes : Z) (c : BlockCounters) : BlockCounters :=
  match operation with
  | Read => c <| bc_reads ::= bump |> <| bc_read_bytes ::= λ n, saturating_add 64 n bytes |>
  | Write => c <| bc_writes ::= bump |> <| bc_write_bytes ::= λ n, saturating_add 64 n bytes |>
  | Flush => c
  end.

(** What [submit] answers, and what [await_completion] makes of the polls behind it:
    the request refused, or its token with the completion polled within the budget. *)
Inductive Answer :=
| NotTaken
| Taken (token : Token) (polled : option Completed).

(** The domain's memory this file's routines share. *)
Record Mem := { md_window : list Z; md_completed : BlockCounters }.
#[export] Instance Mem_eta : Eta Mem := λ m, {| md_window := md_window m; md_completed := md_completed m |}.

Inductive Io (A : Type) : Type :=
| IoDone (answer : A)
| IoLocal (edit : Mem → Mem) (k : Mem → Io A)
| IoRequest (operation : Operation) (sector : nat) (span : option IoSpan) (k : Answer → Io A).
Arguments IoDone {A} answer.
Arguments IoLocal {A} edit k.
Arguments IoRequest {A} operation sector span k.

Fixpoint io_bind {A B} (io : Io A) (f : A → Io B) : Io B :=
  match io with
  | IoDone a => f a
  | IoLocal edit k => IoLocal edit (λ m, io_bind (k m) f)
  | IoRequest operation sector span k => IoRequest operation sector span (λ answer, io_bind (k answer) f)
  end.
Notation "'io!' x '<-' e ';' k" := (io_bind e (λ x, k))
  (at level 20, x pattern, e at level 100, k at level 200, right associativity).

(** [?] on an answer of the device, with the [map_err] in front of it. *)
Definition io_try {A B E F} (from : E → F) (io : Io (Result A E)) (f : A → Io (Result B F)) : Io (Result B F) :=
  io_bind io (λ r, match r with Ok a => f a | Err e => IoDone (Err (from e)) end).
Notation "'try?' x '<-' e ';' k" := (io_try id e (λ x, k))
  (at level 20, x pattern, e at level 100, k at level 200, right associativity).
Notation "'try?' x '<-' e 'as' g ';' k" := (io_try g e (λ x, k))
  (at level 20, x pattern, e at level 100, g at level 100, k at level 200, right associativity).

(** Reading a span, and editing one in place. *)
Definition io_staging (span : IoSpan) : Io (list Z) := IoLocal id (λ m, IoDone (staging (md_window m) span)).
Definition io_stage (span : IoSpan) (edit : list Z → list Z) : Io unit :=
  IoLocal (λ m, m <| md_window ::= λ w, splice w (Z.to_nat (IoSpan_offset span)) (edit (staging w span)) |>)
    (λ _, IoDone tt).

(** ** Refusals *)
Inductive TransferError := Refused | Misattributed | Failed | Short (bytes : Z) | Silent.
Inductive Step := Step_Read | Step_Write | Barrier | ResetRead | ResetClear | Overwrite | SlotWrite | SlotRead.

(** The payloads of the certificate writer's and encoder's errors are their crate's. *)
Inductive IdentityError :=
| KeyUnusable | Certificate | Fingerprint | Storage (error : StateError)
| ScalarUnusable | PublicKeyMismatch | CertificateKeyMismatch | CertificateAbsent.
Definition IdentityError_cause (e : IdentityError) : string :=
  match e with
  | KeyUnusable => "device-key-ungenerable"
  | Certificate => "onboarding-certificate-unwritable"
  | Fingerprint => "public-key-unencodable"
  | Storage _ => "certificate-too-long-for-record"
  | ScalarUnusable => "stored-scalar-unusable"
  | PublicKeyMismatch => "stored-public-key-mismatch"
  | CertificateKeyMismatch => "stored-certificate-key-mismatch"
  | CertificateAbsent => "stored-certificate-absent"
  end.

Inductive EntropyError := NotSupported (feature_word : Z) | Exhausted (word : Z) | Stuck (word : Z).

(** The two bring-up variants precede everything modelled here. *)
Inductive StartupError :=
| TooSmall (capacity needed : Z)
| Record_ (error : StateError)
| Identity_ (error : IdentityError)
| Entropy (error : EntropyError)
| GeneratorStalled
| Document (error : DocumentError).
Inductive EstablishError :=
| EStep (step : Step) (error : TransferError)
| Other (error : StartupError).

Inductive RefusalDetail := DetailNone | DetailOne (value : Z) | DetailTwo (first second : Z).
Record Refusal := { rf_cause : string; rf_detail : RefusalDetail; rf_signalled : bool }.

(** The tokens are the step's name and the failure's. *)
Definition Step_cause (step : Step) (error : TransferError) : string :=
  match step with
  | Step_Read => "state-read-"
  | Step_Write => "state-write-"
  | Barrier => "state-barrier-"
  | ResetRead => "reset-read-"
  | ResetClear => "reset-clear-"
  | Overwrite => "reset-overwrite-"
  | SlotWrite => "slot-write-"
  | SlotRead => "slot-read-"
  end +:+
  match error with
  | Refused => "refused"
  | Misattributed => "misattributed"
  | Failed => "failed"
  | Short _ => "short"
  | Silent => "unanswered"
  end.

Definition record_cause (e : StateError) : string :=
  match e with
  | CertificateTooLong _ => "stored-certificate-too-long"
  | DocumentTooLong _ => "stored-document-too-long"
  | SlotNamedTwice _ => "stored-slot-named-twice"
  | SlotOutsideArray _ => "stored-slot-outside-array"
  | NamedSlotEmpty _ => "stored-named-slot-empty"
  | LayoutMismatch _ _ => "stored-layout-mismatch"
  end.
Definition record_detail (e : StateError) : RefusalDetail :=
  match e with
  | CertificateTooLong len | DocumentTooLong len => DetailOne len
  | SlotNamedTwice slot | NamedSlotEmpty slot => DetailOne (Z.of_nat slot)
  | SlotOutsideArray slot => DetailOne slot
  | LayoutMismatch stored_slots stored_slot_sectors => DetailTwo stored_slots stored_slot_sectors
  end.

Definition DocumentError_cause (e : DocumentError) : string :=
  match e with
  | Empty_ => "document-empty"
  | PastBound _ _ => "document-past-bound"
  | GenerationZero => "document-generation-zero"
  | NotNewest _ _ => "document-generation-not-newest"
  | ArrayFull => "document-array-full"
  | DigestMismatch => "document-digest-mismatch"
  end.
Definition document_detail (e : DocumentError) : RefusalDetail :=
  match e with
  | PastBound len bound => DetailTwo len bound
  | NotNewest named newest => DetailTwo named newest
  | Empty_ | GenerationZero | ArrayFull | DigestMismatch => DetailNone
  end.
Definition document_refusal (e : DocumentError) : Refusal :=
  {| rf_cause := DocumentError_cause e; rf_detail := document_detail e; rf_signalled := true |}.
Definition record_refusal (e : StateError) : Refusal :=
  {| rf_cause := record_cause e; rf_detail := record_detail e; rf_signalled := true |}.
Definition identity_refusal (e : IdentityError) : Refusal :=
  {| rf_cause := IdentityError_cause e; rf_detail := DetailNone; rf_signalled := true |}.

Definition StartupError_refusal (e : StartupError) : Refusal :=
  match e with
  | TooSmall capacity needed =>
      {| rf_cause := "store-medium-too-small"; rf_detail := DetailTwo capacity needed; rf_signalled := true |}
  | Record_ error => record_refusal error
  | Identity_ error => identity_refusal error
  | Entropy (NotSupported feature_word) =>
      {| rf_cause := "rdrand-not-supported"; rf_detail := DetailOne feature_word; rf_signalled := true |}
  | Entropy (Exhausted word) =>
      {| rf_cause := "rdrand-exhausted"; rf_detail := DetailOne word; rf_signalled := true |}
  | Entropy (Stuck word) =>
      {| rf_cause := "rdrand-output-stuck"; rf_detail := DetailOne word; rf_signalled := true |}
  | GeneratorStalled =>
      {| rf_cause := "generator-repeated-a-draw"; rf_detail := DetailNone; rf_signalled := true |}
  | Document error => document_refusal error
  end.
Definition transfer_refusal (step : Step) (error : TransferError) : Refusal :=
  {| rf_cause := Step_cause step error;
     rf_detail := match error with Short bytes => DetailOne bytes | _ => DetailNone end;
     rf_signalled := true |}.
Definition establish_refusal (e : EstablishError) : Refusal :=
  match e with EStep step error => transfer_refusal step error | Other error => StartupError_refusal error end.

(** ** Transfers and barriers *)
Definition judge (step : Step) (operation : Operation) (token : Token) (completed : Completed) (asked : Z)
    : Io (Result unit EstablishError) :=
  if negb (bool_decide (cp_token completed = token)) || negb (bool_decide (cp_operation completed = operation))
  then IoDone (Err (EStep step Misattributed))
  else if negb (bool_decide (cp_outcome completed = Outcome_Ok)) then IoDone (Err (EStep step Failed))
  else if negb (cp_bytes completed =? asked) then IoDone (Err (EStep step (Short (cp_bytes completed))))
  else IoLocal (λ m, m <| md_completed ::= BlockCounters_completed operation (cp_bytes completed) |>)
         (λ _, IoDone (Ok tt)).

Definition transfer (step : Step) (operation : Operation) (sector : nat) (span : IoSpan)
    : Io (Result unit EstablishError) :=
  IoRequest operation sector (Some span) (λ answer,
    match answer with
    | NotTaken => IoDone (Err (EStep step Refused))
    | Taken _ None => IoDone (Err (EStep step Silent))
    | Taken token (Some completed) => judge step operation token completed (is_len span)
    end).

Definition barrier : Io (Result unit EstablishError) :=
  IoRequest Flush 0 None (λ answer,
    match answer with
    | NotTaken => IoDone (Err (EStep Barrier Refused))
    | Taken _ None => IoDone (Err (EStep Barrier Silent))
    | Taken token (Some completed) =>
        if negb (bool_decide (cp_token completed = token)) || negb (bool_decide (cp_operation completed = Flush))
        then IoDone (Err (EStep Barrier Misattributed))
        else if negb (bool_decide (cp_outcome completed = Outcome_Ok)) then IoDone (Err (EStep Barrier Failed))
        else IoDone (Ok tt)
    end).

(** ** The record, the slots and the reset *)
Definition BOTH_COPIES : nat := 2 * STATE_COPY_BYTES.
Definition SNAPSHOT_AT : Z := BLK_IO_REGION_SIZE - MAX_INSTALL_ARCHIVE.
Definition OVERWRITE_SECTORS : Z := BLK_IO_REGION_SIZE / SECTOR.
Definition ONE_SECTOR : IoSpan := {| is_sector := 0; is_len := SECTOR |}.
Definition SNAPSHOT_SPAN : IoSpan := {| is_sector := SNAPSHOT_AT / SECTOR; is_len := MAX_INSTALL_ARCHIVE |}.

Definition sectors_bytes (sectors : Z) : Z :=
  let bytes := saturating_mul 64 sectors SECTOR in if bytes <=? u32_max then bytes else u32_max.

Definition whole_record : IoSpan := default ONE_SECTOR (IoSpan_at_offset 0 (Z.of_nat BOTH_COPIES)).

Definition document_span (offset len : Z) : Result IoSpan EstablishError :=
  if (len =? 0) || (DOCUMENT_BYTES <? len) then Err (EStep SlotWrite Refused) else
  let sectors := (len + SECTOR - 1) / SECTOR in
  let bytes := sectors * SECTOR in
  let bytes := if bytes <=? u32_max then bytes else u32_max in
  match IoSpan_at_offset offset bytes with Some span => Ok span | None => Err (EStep SlotWrite Refused) end.

Section Medium_.
Context (sha256 : list Z → list Z).

(** [region] is the caller's buffer; its new contents come back. *)
Definition read_state (region : list Z) : Io (Result (list Z) EstablishError) :=
  let span := whole_record in
  try? _ <- transfer Step_Read Read STATE_A_SECTOR span;
  io! staged <- io_staging span;
  IoDone (Ok (list_inserts 0 staged region)).

Definition commit (image : list Z) (state : State) (copies : Copies) : Io (Result (list Z) EstablishError) :=
  let '(write, image) := encode_state sha256 image state copies in
  let span := whole_record in
  io! _ <- io_stage span (λ staged, list_inserts 0 image staged);
  let at_ := sectors_bytes (Z.of_nat (sw_sector write - STATE_A_SECTOR)) in
  match IoSpan_at_offset at_ (sectors_bytes (Z.of_nat (sw_sectors write))) with
  | None => IoDone (Err (EStep Step_Write Refused))
  | Some span =>
      try? _ <- transfer Step_Write Write (sw_sector write) span;
      try? _ <- barrier;
      IoDone (Ok image)
  end.

Definition write_document (slot : SlotIndex) (len : Z) : Io (Result unit EstablishError) :=
  match document_span SNAPSHOT_AT len with
  | Err e => IoDone (Err e)
  | Ok span =>
      io! _ <- io_stage span (λ window, take (Z.to_nat len) window ++ replicate (length window - Z.to_nat len) 0);
      try? _ <- transfer SlotWrite Write (slot_sector slot) span;
      barrier
  end.

Definition verify_document (slot : SlotIndex) (entry : SlotEntry) : Io (Result unit EstablishError) :=
  match document_span 0 (se_len entry) with
  | Err e => IoDone (Err e)
  | Ok span =>
      try? _ <- transfer SlotRead Read (slot_sector slot) span;
      io! window <- io_staging span;
      let document := if (Z.to_nat (se_len entry) <=? length window)%nat then take (Z.to_nat (se_len entry)) window else [] in
      IoDone match document_matches sha256 entry document with Ok _ => Ok tt | Err e => Err (Other (Document e)) end
  end.

Definition read_reset : Io (Result ResetRequest EstablishError) :=
  match IoSpan_at_offset 0 (Z.of_nat RESET_REQUEST_BYTES) with
  | None => IoDone (Err (EStep ResetRead Refused))
  | Some span =>
      try? _ <- transfer ResetRead Read RESET_REQUEST_SECTOR span;
      io! staged <- io_staging span;
      IoDone (Ok (ResetRequest_read (list_inserts 0 staged (replicate RESET_REQUEST_BYTES 0))))
  end.

Definition clear_reset : Io (Result unit EstablishError) :=
  match IoSpan_at_offset 0 (Z.of_nat RESET_REQUEST_BYTES) with
  | None => IoDone (Err (EStep ResetClear Refused))
  | Some span =>
      io! _ <- io_stage span (λ staged, replicate (length staged) 0);
      try? _ <- transfer ResetClear Write RESET_REQUEST_SECTOR span;
      barrier
  end.

(** The [while] loop, from [sector]; each round covers at least one sector, so a fuel
    of [STORE_SECTORS] rounds is enough. *)
Fixpoint overwrite_loop (fuel : nat) (sector : Z) : Io (Result unit EstablishError) :=
  match fuel with
  | 0%nat => IoDone (Ok tt)
  | S fuel =>
      if sector <? Z.of_nat STORE_SECTORS then
        let sectors := Z.min (saturating_sub (Z.of_nat STORE_SECTORS) sector) OVERWRITE_SECTORS in
        match IoSpan_at_offset 0 (sectors_bytes sectors) with
        | None => IoDone (Err (EStep Overwrite Refused))
        | Some span =>
            try? _ <- transfer Overwrite Write (Z.to_nat sector) span;
            overwrite_loop fuel (saturating_add 64 sector sectors)
        end
      else IoDone (Ok tt)
  end.
Definition overwrite_store : Io (Result unit EstablishError) :=
  match IoSpan_at_offset 0 BLK_IO_REGION_SIZE with
  | None => IoDone (Err (EStep Overwrite Refused))
  | Some whole =>
      io! _ <- io_stage whole (λ staged, replicate (length staged) 0);
      try? _ <- overwrite_loop STORE_SECTORS 0;
      barrier
  end.

(** [.and_then(|image| image.check().ok())]. *)
Definition checked_state (region : list Z) : option State :=
  image ← decode_state sha256 region;
  match StateImage_check image with Ok state => Some state | Err _ => None end.

(** The caller's buffer is zeroed. *)
Definition factory_reset (region : list Z) : Io (Result (Cleared * list Z) EstablishError) :=
  let cleared := Cleared_of (checked_state region) in
  try? _ <- clear_reset;
  try? _ <- overwrite_store;
  IoDone (Ok (cleared, replicate (length region) 0)).
End Medium_.

(** ** What a boot establishes *)
Definition device_word (bytes : list Z) : Z := foldl (λ word byte, Z.lor (Z.shiftl word 8) byte) 0 bytes.

Definition running_slot (state : State) : option (SlotIndex * SlotEntry) :=
  slot ← sl_running (st_slots state);
  entry ← Slots_entry (st_slots state) slot;
  Some (slot, entry).

(** The keypair's own half, [key], is the scalar it was rebuilt from. *)
Record DeviceKey := {
  dk_scalar : list Z; dk_public_key : list Z; dk_device_id : list Z;
  dk_certificate : list Z; dk_certificate_len : nat; dk_anchor : list Z; dk_anchor_len : nat
}.
Definition MAX_CERTIFICATE_LEN : nat := MAX_STORED_CERTIFICATE.

Record RunningDocument := { rd_generation : Z; rd_slot : Z; rd_bytes : Z }.
Record Established := {
  es_device : Z; es_fingerprint : list Z; es_generation : Z; es_onboarding : Onboarding;
  es_key : option DeviceKey; es_endpoint : StoredEndpoint; es_minted : bool; es_reset : option Cleared;
  es_recorded : Z; es_configuration : option (Result RunningDocument Refusal)
}.
#[export] Instance Established_eta : Eta Established := λ e,
  {| es_device := es_device e; es_fingerprint := es_fingerprint e; es_generation := es_generation e;
     es_onboarding := es_onboarding e; es_key := es_key e; es_endpoint := es_endpoint e; es_minted := es_minted e;
     es_reset := es_reset e; es_recorded := es_recorded e; es_configuration := es_configuration e |}.

Section Domain.
Context (sha256 : list Z → list Z).
(** [P256SecretKey::from_scalar] and [public_key]: the point of a usable scalar. *)
Context (public_of : list Z → option (list Z)).
(** [lfw_store::verify]: the fingerprint of an identity that holds to itself. *)
Context (verify : State → Result (list Z) IdentityError).

Definition DeviceKey_of (state : State) : option DeviceKey :=
  public ← public_of (st_secret state);
  let stored := st_device_certificate state in
  if StoredCertificate_is_empty stored then None else
  let held der := (list_inserts 0 der (replicate MAX_CERTIFICATE_LEN 0), Nat.min MAX_CERTIFICATE_LEN (length der)) in
  let '(certificate, certificate_len) := held (StoredCertificate_as_bytes stored) in
  let '(anchor, anchor_len) := held (StoredCertificate_as_bytes (st_anchor_certificate state)) in
  Some {| dk_scalar := st_secret state; dk_public_key := public; dk_device_id := st_device_id state;
          dk_certificate := certificate; dk_certificate_len := certificate_len;
          dk_anchor := anchor; dk_anchor_len := anchor_len |}.

(** [minted] is this boot's draw: [mint] over the generator [entropy_or_seed] seeded,
    or why there is none. *)
Definition mint_identity (region : list Z) (minted : Result (State * list Z) StartupError)
    : Io (Result Established EstablishError) :=
  match minted with
  | Err e => IoDone (Err (Other e))
  | Ok (state, fingerprint) =>
      try? _ <- commit sha256 region state Both;
      IoDone (Ok {| es_device := device_word (st_device_id state); es_fingerprint := fingerprint;
                    es_generation := st_generation state; es_onboarding := st_onboarding state;
                    es_key := DeviceKey_of state; es_endpoint := st_endpoint state; es_minted := true;
                    es_reset := None; es_recorded := 0; es_configuration := None |})
  end.

(** [capacity] is what the device claims. *)
Definition establish (capacity : Z) (minted : Result (State * list Z) StartupError)
    : Io (Result Established EstablishError) :=
  let needed := Z.of_nat STORE_SECTORS in
  if capacity <? needed then IoDone (Err (Other (TooSmall capacity needed))) else
  try? region <- read_state (replicate BOTH_COPIES 0);
  try? request <- read_reset;
  if ResetRequest_is_requested request then
    try? (cleared, region) <- factory_reset sha256 region;
    try? e <- mint_identity region minted;
    IoDone (Ok (e <| es_reset := Some cleared |>))
  else
  match decode_state sha256 region with
  | None => mint_identity region minted
  | Some image =>
      match StateImage_check image with
      | Err e => IoDone (Err (Other (Record_ e)))
      | Ok state =>
      match verify state with
      | Err e => IoDone (Err (Other (Identity_ e)))
      | Ok fingerprint =>
          io! configuration <-
            match running_slot state with
            | None => IoDone None
            | Some (slot, entry) =>
                io! held <- verify_document sha256 slot entry;
                IoDone (Some match held with
                             | Ok _ => Ok {| rd_generation := se_generation entry; rd_slot := Z.of_nat slot;
                                             rd_bytes := se_len entry |}
                             | Err e => Err (establish_refusal e)
                             end)
            end;
          IoDone (Ok {| es_device := device_word (st_device_id state); es_fingerprint := fingerprint;
                        es_generation := st_generation state; es_onboarding := st_onboarding state;
                        es_key := DeviceKey_of state; es_endpoint := st_endpoint state; es_minted := false;
                        es_reset := None; es_recorded := Slots_newest_generation (st_slots state);
                        es_configuration := configuration |})
      end
      end
  end.

(** ** The two requests that change the record *)
Definition absent_refusal (cause : string) : Refusal :=
  {| rf_cause := cause; rf_detail := DetailNone; rf_signalled := true |}.

(** The reading both requests begin with: the region and the state that holds to
    itself. *)
Definition read_back (absent : string) : Io (Result (list Z * State) Refusal) :=
  try? region <- read_state (replicate BOTH_COPIES 0) as establish_refusal;
  IoDone
    match decode_state sha256 region with
    | None => Err (absent_refusal absent)
    | Some image =>
        match StateImage_check image with
        | Err e => Err (record_refusal e)
        | Ok state => match verify state with Err e => Err (identity_refusal e) | Ok _ => Ok (region, state) end
        end
    end.

(** [staging.copy(snapshot)]: [staged] is what the peer's region read as. *)
Definition take_snapshot (staged : list Z) : Io (list Z) :=
  io! _ <- io_stage SNAPSHOT_SPAN (λ snapshot, list_inserts 0 staged snapshot);
  io_staging SNAPSHOT_SPAN.

Record Recorded := { rc_generation : Z; rc_slot : Z; rc_bytes : Z }.

(** The console record of a displaced version is left out. *)
Definition place_document (generation stated_len : Z) (staged : list Z) : Io (Result Recorded Refusal) :=
  try? (region, state) <- read_back "config-record-absent";
  io! snapshot <- take_snapshot staged;
  if Z.of_nat (length snapshot) <? stated_len
  then IoDone (Err (document_refusal (PastBound stated_len (Z.of_nat (length snapshot))))) else
  let document := take (Z.to_nat stated_len) snapshot in
  match staged_entry sha256 generation document (st_slots state) with
  | Err e => IoDone (Err (document_refusal e))
  | Ok entry =>
  match Slots_next_for_reuse (st_slots state) with
  | None => IoDone (Err (document_refusal ArrayFull))
  | Some reuse =>
      let slot := Reuse_slot reuse in
      try? _ <- write_document slot (se_len entry) as establish_refusal;
      let state := State_record_document slot entry true state in
      try? _ <- commit sha256 region state Parity as establish_refusal;
      IoDone (Ok {| rc_generation := se_generation entry; rc_slot := Z.of_nat slot; rc_bytes := se_len entry |})
  end
  end.
End Domain.

(** ** Installing an owner *)

(** What [lfw_package::read] and the chain behind it leave of an archive, and the
    anchor's public-key structure. *)
Record Package := {
  pk_device_certificate : list Z; pk_trust_anchor : list Z; pk_anchor_spki : list Z;
  pk_address : list Z; pk_port : Z
}.
(** [PackageRefused] is any refusal of the archive, its chain or the appliance's key,
    under the token its crate names it by. *)
Inductive InstallError :=
| AlreadyOwned
| ArchivePastRegion (len staged : Z)
| PackageRefused (cause : string) (detail : RefusalDetail)
| InstallStorage (error : StateError).
Record Adoption := {
  ad_device_certificate : StoredCertificate; ad_anchor_certificate : StoredCertificate;
  ad_endpoint : StoredEndpoint; ad_anchor_fingerprint : list Z
}.
Record Installed := {
  in_endpoint : StoredEndpoint; in_certificate : StoredCertificate; in_anchor : StoredCertificate;
  in_anchor_fingerprint : list Z; in_generation : Z
}.

Definition install_refusal (e : InstallError) : Refusal :=
  let '(cause, detail) :=
    match e with
    | AlreadyOwned => ("install-already-owned", DetailNone)
    | ArchivePastRegion len staged => ("install-archive-past-region", DetailTwo len staged)
    | InstallStorage error =>
        (match error with CertificateTooLong _ => "install-certificate-too-long" | _ => "install-record-refused-the-package" end,
         record_detail error)
    | PackageRefused cause detail => (cause, detail)
    end in
  {| rf_cause := cause; rf_detail := detail; rf_signalled := true |}.

Section Install.
Context (sha256 : list Z → list Z).
Context (verify : State → Result (list Z) IdentityError).
(** The package reader, on an archive and the appliance's public key. *)
Context (package_read : list Z → list Z → Result Package (string * RefusalDetail)).

Definition storage {A} (r : Result A StateError) : Result A InstallError :=
  match r with Ok a => Ok a | Err e => Err (InstallStorage e) end.

Definition adoption_of (package : Package) : Result Adoption InstallError :=
  try! device_certificate <- storage (StoredCertificate_new (pk_device_certificate package));
  try! anchor_certificate <- storage (StoredCertificate_new (pk_trust_anchor package));
  Ok {| ad_device_certificate := device_certificate; ad_anchor_certificate := anchor_certificate;
        ad_endpoint := {| sp_address := pk_address package; sp_port := pk_port package |};
        ad_anchor_fingerprint := sha256 (pk_anchor_spki package) |}.

(** [install::read]. *)
Definition read_package (stated_len : Z) (staged : list Z) (state : State) : Result Adoption InstallError :=
  match st_onboarding state with
  | Onboarded => Err AlreadyOwned
  | Unowned =>
      if Z.of_nat (length staged) <? stated_len then Err (ArchivePastRegion stated_len (Z.of_nat (length staged))) else
      match package_read (take (Z.to_nat stated_len) staged) (st_public state) with
      | Err (cause, detail) => Err (PackageRefused cause detail)
      | Ok package => adoption_of package
      end
  end.

Definition Adoption_take_ownership (a : Adoption) (state : State) : State :=
  State_adopt (ad_device_certificate a) (ad_anchor_certificate a) (ad_endpoint a) state.

Definition take_ownership (stated_len : Z) (staged : list Z) : Io (Result Installed Refusal) :=
  try? (region, state) <- read_back sha256 verify "install-record-absent";
  io! snapshot <- take_snapshot staged;
  match read_package stated_len snapshot state with
  | Err e => IoDone (Err (install_refusal e))
  | Ok adoption =>
      let endpoint := ad_endpoint adoption in
      let anchor_fingerprint := ad_anchor_fingerprint adoption in
      let state := Adoption_take_ownership adoption state in
      let certificate := st_device_certificate state in
      let anchor := st_anchor_certificate state in
      try? _ <- commit sha256 region state Parity as establish_refusal;
      IoDone (Ok {| in_endpoint := endpoint; in_certificate := certificate; in_anchor := anchor;
                    in_anchor_fingerprint := anchor_fingerprint; in_generation := st_generation state |})
  end.
End Install.
