(* ===== verification/StoreDevice.v ===== *)
(** * A block device that fails and loses power

    The meaning of an [Io] tree. The device holds a medium of sectors and the writes
    it was handed since its last flush; it may refuse, fail, answer short, answer for
    another request or not answer at all, and the power may go at any moment. At a
    power cut every sector holds what it held at the last flush or what one of the
    writes behind it put there, each sector on its own (sectors are written whole).
    A completion judged good says the device took the write; a flush judged good
    that everything taken before it is on the medium. [always] is the proof rule: a
    predicate that holds at every moment of every run. *)
From S2P Require Import Prelude Layout Store StoreRecord StoreMedium.

(** ** Media *)
Definition Medium : Type := nat → list Z.
Definition medium_ok (m : Medium) : Prop := ∀ s, length (m s) = SECTOR_SIZE.
Definition sectors (m : Medium) (start n : nat) : list Z := concat (m <$> seq start n).

Record Put := { pt_sector : nat; pt_bytes : list Z; pt_taken : bool }.
Definition covers (p : Put) (s : nat) : bool :=
  (pt_sector p <=? s)%nat && ((s - pt_sector p) * SECTOR_SIZE <? length (pt_bytes p))%nat.
Definition put (p : Put) (m : Medium) : Medium := λ s,
  if covers p s then slice (pt_bytes p) ((s - pt_sector p) * SECTOR_SIZE) SECTOR_SIZE else m s.
Definition view (puts : list Put) (m : Medium) : Medium := foldl (λ m p, put p m) m puts.

(** What the medium may hold, sector by sector. *)
Definition scattered (base : Medium) (puts : list Put) (m : Medium) : Prop :=
  ∀ s, ∃ k, m s = view (take k puts) base s.

(** ** The device *)
Record World := { wd_mem : Mem; wd_base : Medium; wd_puts : list Put }.
#[export] Instance World_eta : Eta World := λ w,
  {| wd_mem := wd_mem w; wd_base := wd_base w; wd_puts := wd_puts w |}.

(** A completion that is this request's, good, and for the whole length. *)
Definition honoured (operation : Operation) (span : option IoSpan) (answer : Answer) : bool :=
  match answer with
  | Taken token (Some c) =>
      bool_decide (cp_token c = token) && bool_decide (cp_operation c = operation) && bool_decide (cp_outcome c = Outcome_Ok)
      && match span with Some span => cp_bytes c =? is_len span | None => true end
  | _ => false
  end.

(** What a read shows: every write behind it was taken, or some was not. *)
Definition shows (w : World) (m : Medium) : Prop :=
  if forallb pt_taken (wd_puts w) then m = view (wd_puts w) (wd_base w) else scattered (wd_base w) (wd_puts w) m.

Definition dma_in (span : IoSpan) (bytes : list Z) (w : World) : World :=
  w <| wd_mem ::= λ mem, mem <| md_window ::= λ window, splice window (Z.to_nat (IoSpan_offset span)) bytes |> |>.
Definition span_sectors (span : IoSpan) : nat := Z.to_nat (is_len span / SECTOR).

Inductive device (w : World) : Operation → nat → option IoSpan → Answer → World → Prop :=
| device_refuses operation sector span : device w operation sector span NotTaken w
| device_reads sector span answer m :
    honoured Read (Some span) answer → shows w m →
    device w Read sector (Some span) answer (dma_in span (sectors m sector (span_sectors span)) w)
| device_misreads sector span answer bytes :
    honoured Read (Some span) answer = false → length bytes = Z.to_nat (is_len span) →
    device w Read sector (Some span) answer (dma_in span bytes w)
| device_writes sector span answer :
    answer ≠ NotTaken →
    device w Write sector (Some span) answer
      (w <| wd_puts ::= λ puts, puts ++ [{| pt_sector := sector; pt_bytes := staging (md_window (wd_mem w)) span;
                                            pt_taken := honoured Write (Some span) answer |}] |>)
| device_flushes sector answer m :
    honoured Flush None answer → shows w m →
    device w Flush sector None answer (w <| wd_base := m |> <| wd_puts := [] |>)
| device_flush_fails sector answer : honoured Flush None answer = false → device w Flush sector None answer w.

(** ** Runs: to the end, or until the power goes *)
Inductive run {A} : Io A → World → World → option A → Prop :=
| run_done a w : run (IoDone a) w w (Some a)
| run_cut io w : run io w w None
| run_local edit k w w' r :
    run (k (edit (wd_mem w))) (w <| wd_mem ::= edit |>) w' r → run (IoLocal edit k) w w' r
| run_request operation sector span k w answer w1 w' r :
    device w operation sector span answer w1 → run (k answer) w1 w' r → run (IoRequest operation sector span k) w w' r.

Definition powered (mem : Mem) (m : Medium) : World := {| wd_mem := mem; wd_base := m; wd_puts := [] |}.
Definition mem_ok (mem : Mem) : Prop := Z.of_nat (length (md_window mem)) = BLK_IO_REGION_SIZE.

(** ** A device that honours everything *)
Definition good_token : Token := {| tk_slot := 0; tk_generation := 0 |}.
Definition good_answer (operation : Operation) (span : option IoSpan) : Answer :=
  Taken good_token (Some {| cp_token := good_token; cp_operation := operation; cp_outcome := Outcome_Ok;
                            cp_bytes := match span with Some span => is_len span | None => 0 end |}).
Definition good_world (operation : Operation) (sector : nat) (span : option IoSpan) (w : World) : World :=
  match operation, span with
  | Read, Some span => dma_in span (sectors (view (wd_puts w) (wd_base w)) sector (span_sectors span)) w
  | Write, Some span =>
      w <| wd_puts ::= λ puts, puts ++ [{| pt_sector := sector; pt_bytes := staging (md_window (wd_mem w)) span; pt_taken := true |}] |>
  | Flush, _ => w <| wd_base := view (wd_puts w) (wd_base w) |> <| wd_puts := [] |>
  | _, _ => w
  end.
Fixpoint serve {A} (io : Io A) (w : World) : A * World :=
  match io with
  | IoDone a => (a, w)
  | IoLocal edit k => serve (k (edit (wd_mem w))) (w <| wd_mem ::= edit |>)
  | IoRequest operation sector span k => serve (k (good_answer operation span)) (good_world operation sector span w)
  end.

(** ** The proof rule

    [P] holds of the medium and the writes behind it at every moment, and [Q] of the
    answer. *)
Fixpoint always {A} (P : Medium → list Put → Prop) (io : Io A) (Q : A → World → Prop) (w : World) : Prop :=
  P (wd_base w) (wd_puts w) ∧
  match io with
  | IoDone a => Q a w
  | IoLocal edit k => always P (k (edit (wd_mem w))) Q (w <| wd_mem ::= edit |>)
  | IoRequest operation sector span k =>
      ∀ answer w', device w operation sector span answer w' → always P (k answer) Q w'
  end.

Lemma always_sound {A} P (io : Io A) Q w w' r :
  run io w w' r → always P io Q w →
  P (wd_base w') (wd_puts w') ∧ (∀ a, r = Some a → Q a w').
Proof.
  induction 1 as [a w|io w|edit k w w' r Hrun IH|operation sector span k w answer w1 w' r Hd Hrun IH]; simpl.
  - intros [HP HQ]. split; [done|]. by intros ? [= <-].
  - intros Ha. split; [by destruct io, Ha|done].
  - intros [_ Ha]. auto.
  - intros [_ Ha]. apply IH, (Ha _ _ Hd).
Qed.

Lemma always_bind {A B} P (io : Io A) (f : A → Io B) Q w :
  always P io (λ a w, always P (f a) Q w) w → always P (io_bind io f) Q w.
Proof.
  revert w. induction io as [a|edit k IH|operation sector span k IH]; intros w; simpl.
  - by intros [_ H].
  - intros [HP H]. split; [done|]. by apply IH.
  - intros [HP H]. split; [done|]. intros answer w' Hd. apply IH, (H _ _ Hd).
Qed.

Lemma always_mono {A} P (io : Io A) (Q Q' : A → World → Prop) w :
  always P io Q w → (∀ a w, P (wd_base w) (wd_puts w) → Q a w → Q' a w) → always P io Q' w.
Proof.
  intros H HQ. revert w H. induction io as [a|edit k IH|operation sector span k IH]; intros w; simpl.
  - intros [HP H]. auto.
  - intros [HP H]. split; [done|]. by apply IH.
  - intros [HP H]. split; [done|]. intros answer w' Hd. apply IH, (H _ _ Hd).
Qed.

(** [?]: where the step errs the rest is not run. *)
Lemma always_try {A B E F} P (from : E → F) (io : Io (Result A E)) (f : A → Io (Result B F)) Q w :
  always P io (λ r w, match r with Ok a => always P (f a) Q w | Err e => Q (Err (from e)) w end) w →
  always P (io_try from io f) Q w.
Proof.
  intros H. apply always_bind. eapply always_mono; [exact H|]. intros [a|e] w' HP HQ; simpl in *; auto.
Qed.


(** Runs compose. *)
Lemma run_bind {A B} (io : Io A) (f : A → Io B) w w1 w2 a r :
  run io w w1 (Some a) → run (f a) w1 w2 r → run (io_bind io f) w w2 r.
Proof.
  intros H Hf. remember (Some a) as o eqn:Eo. revert Eo. induction H; intros Eo; simplify_eq/=; [done| |].
  - apply run_local. auto.
  - eapply run_request; [done|]. auto.
Qed.

Lemma run_bind_cut {A B} (io : Io A) (f : A → Io B) w w1 : run io w w1 None → run (io_bind io f) w w1 None.
Proof.
  intros H. remember None as o eqn:Eo. revert Eo. induction H; intros Eo; simplify_eq/=.
  - apply run_cut.
  - apply run_local. auto.
  - eapply run_request; [done|]. auto.
Qed.

(** ** Sectors *)
Lemma length_sectors m start n : medium_ok m → length (sectors m start n) = (n * SECTOR_SIZE)%nat.
Proof.
  intros Hm. unfold sectors. revert start. induction n as [|n IH]; intros start; simpl; [done|].
  rewrite length_app, Hm, IH. done.
Qed.

Lemma sectors_app m start n k : sectors m start (n + k) = sectors m start n ++ sectors m (start + n) k.
Proof. unfold sectors. by rewrite seq_app, fmap_app, concat_app. Qed.

Lemma sectors_ext m m' start n : (∀ s, (start ≤ s < start + n)%nat → m s = m' s) → sectors m start n = sectors m' start n.
Proof.
  intros H. unfold sectors. f_equal. apply list_fmap_ext. intros i s Hs.
  apply lookup_seq in Hs as [-> ?]. apply H. lia.
Qed.

Lemma covers_false p s n : length (pt_bytes p) = (n * SECTOR_SIZE)%nat →
  ¬ (pt_sector p ≤ s < pt_sector p + n)%nat → covers p s = false.
Proof. intros Hl Hs. unfold covers. apply andb_false_iff. rewrite Nat.leb_gt, Nat.ltb_ge, Hl. unfold SECTOR_SIZE. lia. Qed.

Lemma covers_true p s n : length (pt_bytes p) = (n * SECTOR_SIZE)%nat →
  (pt_sector p ≤ s < pt_sector p + n)%nat → covers p s = true.
Proof. intros Hl Hs. unfold covers. rewrite andb_true_iff, Nat.leb_le, Nat.ltb_lt, Hl. unfold SECTOR_SIZE. lia. Qed.

(** A write of [n] sectors shows those sectors and touches no other. *)
Lemma put_elsewhere p m n a k :
  length (pt_bytes p) = (n * SECTOR_SIZE)%nat → (a + k ≤ pt_sector p ∨ pt_sector p + n ≤ a)%nat →
  sectors (put p m) a k = sectors m a k.
Proof.
  intros Hl Hd. apply sectors_ext. intros s Hs. unfold put. rewrite (covers_false p s n) by lia. done.
Qed.

Lemma put_ok p m n : length (pt_bytes p) = (n * SECTOR_SIZE)%nat → medium_ok m → medium_ok (put p m).
Proof.
  intros Hl Hm s. unfold put. destruct (covers p s) eqn:E; [|apply Hm]. apply length_slice.
  unfold covers in E. apply andb_true_iff in E as [_ E%Nat.ltb_lt]. revert E. rewrite Hl. unfold SECTOR_SIZE. lia.
Qed.

Lemma put_here p m n : length (pt_bytes p) = (n * SECTOR_SIZE)%nat → sectors (put p m) (pt_sector p) n = pt_bytes p.
Proof.
  intros Hl. rewrite <- (take_ge (pt_bytes p) (n * SECTOR_SIZE)) by lia.
  assert (∀ k, (k ≤ n)%nat → sectors (put p m) (pt_sector p) k = take (k * SECTOR_SIZE) (pt_bytes p)) as H; [|by apply H].
  induction k as [|k IH]; intros Hk; [done|]. replace (S k) with (k + 1)%nat by lia.
  rewrite sectors_app, IH by lia. unfold sectors; simpl. rewrite app_nil_r.
  unfold put. rewrite (covers_true p _ n) by lia. unfold slice.
  replace (pt_sector p + k - pt_sector p)%nat with k by lia.
  replace ((k + 1) * SECTOR_SIZE)%nat with (k * SECTOR_SIZE + SECTOR_SIZE)%nat by lia.
  by rewrite take_take_drop.
Qed.

(** One write behind the medium: each sector is as it was or as written. *)
Lemma scattered_none base m : scattered base [] m → ∀ s, m s = base s.
Proof. intros H s. destruct (H s) as [k ->]. by rewrite take_nil. Qed.

Lemma scattered_one base p m : scattered base [p] m → ∀ s, m s = base s ∨ m s = put p base s.
Proof.
  intros H s. destruct (H s) as [[|k] ->]; [by left|right]. simpl. by rewrite take_nil.
Qed.

Lemma scattered_one_else base p m n : scattered base [p] m → length (pt_bytes p) = (n * SECTOR_SIZE)%nat →
  ∀ a k, (a + k ≤ pt_sector p ∨ pt_sector p + n ≤ a)%nat → sectors m a k = sectors base a k.
Proof.
  intros H Hl a k Hd. apply sectors_ext. intros s Hs. destruct (scattered_one _ _ _ H s) as [->| ->]; [done|].
  unfold put. by rewrite (covers_false p s n) by lia.
Qed.

Lemma scattered_ok base p m n : scattered base [p] m → length (pt_bytes p) = (n * SECTOR_SIZE)%nat → medium_ok base → medium_ok m.
Proof.
  intros H Hl Hb s. destruct (scattered_one _ _ _ H s) as [->| ->]; [apply Hb|by apply (put_ok p base n)].
Qed.

(** ** Spans *)
Lemma length_staging window span :
  (Z.to_nat (IoSpan_offset span) + Z.to_nat (is_len span) ≤ length window)%nat →
  length (staging window span) = Z.to_nat (is_len span).
Proof. intros. unfold staging. rewrite length_take, length_drop. lia. Qed.

Lemma staging_splice window span bytes :
  (Z.to_nat (IoSpan_offset span) + Z.to_nat (is_len span) ≤ length window)%nat →
  length bytes = Z.to_nat (is_len span) →
  staging (splice window (Z.to_nat (IoSpan_offset span)) bytes) span = bytes.
Proof.
  intros H Hb. unfold staging, splice. rewrite drop_app_le, drop_ge, app_nil_l by (rewrite length_take; lia).
  rewrite take_app_le by lia. apply take_ge. lia.
Qed.

Lemma always_weaken {A} (P P' : Medium → list Put → Prop) (io : Io A) Q w :
  always P io Q w → (∀ base puts, P base puts → P' base puts) → always P' io Q w.
Proof.
  intros H HP. revert w H. induction io as [a|edit k IH|operation sector span k IH]; intros w; simpl.
  - intros [HPw H]. auto.
  - intros [HPw H]. split; [auto|]. by apply IH.
  - intros [HPw H]. split; [auto|]. intros answer w' Hd. apply IH, (H _ _ Hd).
Qed.

(** ** The rules of the requests *)
Definition at_ (mem : Mem) (base : Medium) (puts : list Put) : World := {| wd_mem := mem; wd_base := base; wd_puts := puts |}.

Lemma judge_rule P step operation span token c Q w :
  P (wd_base w) (wd_puts w) → (∀ error, Q (Err (EStep step error)) w) →
  (honoured operation (Some span) (Taken token (Some c)) = true →
   ∀ completed, Q (Ok tt) (at_ {| md_window := md_window (wd_mem w); md_completed := completed |} (wd_base w) (wd_puts w))) →
  always P (judge step operation token c (is_len span)) Q w.
Proof.
  intros HP He Hok. unfold judge, honoured in *.
  destruct (bool_decide (cp_token c = token)), (bool_decide (cp_operation c = operation)),
    (bool_decide (cp_outcome c = Outcome_Ok)), (cp_bytes c =? is_len span); simpl in *; split; auto.
Qed.

Lemma read_rule P step sector span mem m Q :
  P m [] → (∀ error mem', Q (Err (EStep step error)) (at_ mem' m [])) →
  (∀ mem', md_window mem' = splice (md_window mem) (Z.to_nat (IoSpan_offset span)) (sectors m sector (span_sectors span)) →
           Q (Ok tt) (at_ mem' m [])) →
  always P (transfer step Read sector span) Q (at_ mem m []).
Proof.
  intros HP He Hok. split; [done|]. intros answer w' Hd. inversion Hd; subst; simpl.
  - split; [done|apply He].
  - destruct answer as [|token [c|]]; [done| |done]. 
    replace m0 with m in * by (by unfold shows in *; simpl in *).
    apply judge_rule; [done|intros e; apply He|]. intros _ completed. by apply Hok.
  - destruct answer as [|token [c|]]; [split; [done|apply He]| |split; [done|apply He]].
    apply judge_rule; [done|intros e; apply He|]. congruence.
Qed.

Lemma write_rule P step sector span mem m puts Q :
  let p taken := {| pt_sector := sector; pt_bytes := staging (md_window mem) span; pt_taken := taken |} in
  P m puts → (∀ taken, P m (puts ++ [p taken])) →
  (∀ error, Q (Err (EStep step error)) (at_ mem m puts)) →
  (∀ error taken, Q (Err (EStep step error)) (at_ mem m (puts ++ [p taken]))) →
  (∀ mem', md_window mem' = md_window mem → Q (Ok tt) (at_ mem' m (puts ++ [p true]))) →
  always P (transfer step Write sector span) Q (at_ mem m puts).
Proof.
  intros p HP HP' He He' Hok. split; [done|]. intros answer w' Hd. inversion Hd; subst; simpl.
  - split; [done|apply He].
  - destruct answer as [|token [c|]]; [done| |split; [apply HP'|apply He']].
    apply judge_rule; [apply HP'|intros e; apply He'|]. intros Hh completed.
    specialize (Hok {| md_window := md_window mem; md_completed := completed |} eq_refl).
    unfold p in Hok. rewrite <- Hh in Hok. exact Hok.
Qed.

Lemma barrier_rule P mem m puts Q :
  forallb pt_taken puts = true → P m puts → P (view puts m) [] →
  (∀ error, Q (Err (EStep Barrier error)) (at_ mem m puts)) →
  Q (Ok tt) (at_ mem (view puts m) []) →
  always P barrier Q (at_ mem m puts).
Proof.
  intros Ht HP HP' He Hok. split; [done|]. intros answer w' Hd.
  assert (∀ token c, honoured Flush None (Taken token (Some c)) = true →
    bool_decide (cp_token c = token) = true ∧ bool_decide (cp_operation c = Flush) = true
    ∧ bool_decide (cp_outcome c = Outcome_Ok) = true) as Hh.
  { intros token c. simpl. rewrite andb_true_r, !andb_true_iff. tauto. }
  inversion Hd as [| | | |sector answer' m' Hhon Hshow|sector answer' Hhon]; subst; simpl.
  - split; [done|apply He].
  - unfold shows in Hshow. simpl in Hshow. rewrite Ht in Hshow. subst m'.
    destruct answer as [|token [c|]]; [done| |done].
    destruct (Hh token c) as (-> & -> & ->); [by destruct (honoured _ _ _)|]. by split.
  - destruct answer as [|token [c|]]; [split; [done|apply He]| |split; [done|apply He]].
    simpl in Hhon. destruct (bool_decide (cp_token c = token)), (bool_decide (cp_operation c = Flush)),
      (bool_decide (cp_outcome c = Outcome_Ok)); simpl in *; split; auto; done.
Qed.

Lemma stage_rule P span edit mem m puts Q :
  P m puts →
  (∀ mem', md_window mem' = splice (md_window mem) (Z.to_nat (IoSpan_offset span)) (edit (staging (md_window mem) span)) →
           Q tt (at_ mem' m puts)) →
  always P (io_stage span edit) Q (at_ mem m puts).
Proof. intros HP HQ. split; [done|]. split; [done|]. by apply HQ. Qed.

Lemma staging_rule P span mem m puts Q :
  P m puts → Q (staging (md_window mem) span) (at_ mem m puts) → always P (io_staging span) Q (at_ mem m puts).
Proof. intros HP HQ. split; [done|]. split; [done|]. by destruct mem. Qed.

Lemma done_rule {A} P (a : A) mem m puts (Q : A → World → Prop) :
  P m puts → Q a (at_ mem m puts) → always P (IoDone a) Q (at_ mem m puts).
Proof. by split. Qed.
