(* ===== verification/StoreCrash.v ===== *)
(** * The record and the running document survive a power cut

    What a medium durably holds ([durable]), how a state may evolve ([evolves]), and
    that the two requests which change the record carry one state to the next
    atomically on a device that fails anywhere and loses power at any moment. *)
From S2P Require Import Prelude Layout Store StoreRecord StoreMedium StoreDevice.

Section Crash.
Context (sha256 : list Z → list Z).
Context (sha256_digest : ∀ m, length (sha256 m) = DIGEST_LEN ∧ bytes_ok (sha256 m)).

(** ** What a medium durably holds *)

(** The copy a generation's parity selects, and the other one. *)
Definition copy_sector (s : State) : nat := if st_generation s mod 2 =? 0 then STATE_A_SECTOR else STATE_B_SECTOR.
Definition other_sector (s : State) : nat := if st_generation s mod 2 =? 0 then STATE_B_SECTOR else STATE_A_SECTOR.
Definition copy_at (m : Medium) (start : nat) : list Z := sectors m start STATE_COPY_SECTORS.
Definition record_at (m : Medium) : list Z := sectors m STATE_A_SECTOR (2 * STATE_COPY_SECTORS).

(** The bytes a slot's entry is about. *)
Definition slot_document (m : Medium) (slot : SlotIndex) (entry : SlotEntry) : list Z :=
  take (Z.to_nat (se_len entry)) (sectors m (slot_sector slot) SLOT_SECTORS).
Definition running_held (m : Medium) (s : State) : Prop :=
  ∀ slot entry, running_slot s = Some (slot, entry) →
    document_matches sha256 entry (slot_document m slot entry) = Ok tt.

Record durable (m : Medium) (s : State) : Prop := {
  du_medium : medium_ok m;
  du_state : state_ok s;
  du_read : checked_state sha256 (record_at m) = Some s;
  du_copy : copy_at m (copy_sector s) = compose sha256 s;
  du_running : running_held m s
}.

(** What a power cut leaves: every sector old or new, and a copy of the record that
    is a mixture of sectors of different writes fails its digest. *)
Definition power_cut (base : Medium) (puts : list Put) (m : Medium) : Prop :=
  scattered base puts m
  ∧ ∀ start, start = STATE_A_SECTOR ∨ start = STATE_B_SECTOR → decode_copy sha256 (copy_at m start) ≠ None →
      ∃ k, copy_at m start = copy_at (view (take k puts) base) start.

(** ** The two copies *)
Lemma record_at_copies m : record_at m = copy_at m STATE_A_SECTOR ++ copy_at m STATE_B_SECTOR.
Proof using Type. apply (sectors_app m 0 8 8). Qed.

Lemma length_copy_at m start : medium_ok m → length (copy_at m start) = STATE_COPY_BYTES.
Proof using Type. intros. unfold copy_at. by rewrite length_sectors. Qed.

Lemma decode_record m :
  medium_ok m →
  decode_state sha256 (record_at m)
  = match decode_copy sha256 (copy_at m STATE_A_SECTOR), decode_copy sha256 (copy_at m STATE_B_SECTOR) with
    | Some first, Some second =>
        Some (if StateImage_generation first <? StateImage_generation second then second else first)
    | Some only, None | None, Some only => Some only
    | None, None => None
    end.
Proof using Type.
  intros Hm. unfold decode_state. rewrite record_at_copies, <- (length_copy_at m STATE_A_SECTOR Hm).
  by rewrite take_app_length, drop_app_length.
Qed.

Definition image_of (s : State) : StateImage :=
  {| im_state := s; im_slot_count := Z.of_nat SLOT_COUNT; im_slot_sectors := Z.of_nat SLOT_SECTORS |}.

Lemma copy_decodes m s start : state_ok s → copy_at m start = compose sha256 s →
  decode_copy sha256 (copy_at m start) = Some (image_of s).
Proof using sha256_digest. intros Hs ->. by apply decode_compose. Qed.

Lemma parity_step s s' : st_generation s' = st_generation s + 1 →
  copy_sector s' = other_sector s ∧ other_sector s' = copy_sector s.
Proof using Type.
  intros E. unfold copy_sector, other_sector. rewrite E.
  assert ((st_generation s + 1) mod 2 = 1 - st_generation s mod 2) as -> by (Z.div_mod_to_equations; lia).
  assert (st_generation s mod 2 = 0 ∨ st_generation s mod 2 = 1) as [->| ->] by (Z.div_mod_to_equations; lia); done.
Qed.

Lemma sectors_of_parity s : (copy_sector s = STATE_A_SECTOR ∧ other_sector s = STATE_B_SECTOR)
  ∨ (copy_sector s = STATE_B_SECTOR ∧ other_sector s = STATE_A_SECTOR).
Proof using Type. unfold copy_sector, other_sector. destruct (_ =? 0); auto. Qed.

(** The newer of two copies is the state. *)
Lemma newer_copy_read m s s' :
  medium_ok m → state_ok s → state_ok s' → st_generation s' = st_generation s + 1 →
  copy_at m (copy_sector s) = compose sha256 s → copy_at m (copy_sector s') = compose sha256 s' →
  checked_state sha256 (record_at m) = Some s'.
Proof using sha256_digest.
  intros Hm Hs Hs' Hg Hc Hc'. destruct (parity_step s s' Hg) as [Ep _]. rewrite Ep in Hc'.
  unfold checked_state. rewrite decode_record by done.
  destruct (sectors_of_parity s) as [[E1 E2]|[E1 E2]]; rewrite E1 in Hc; rewrite E2 in Hc';
    rewrite (copy_decodes m s _ Hs Hc), (copy_decodes m s' _ Hs' Hc'); unfold StateImage_generation; simpl;
    rewrite Hg.
  - by rewrite (proj2 (Z.ltb_lt _ _)) by lia.
  - by rewrite (proj2 (Z.ltb_ge _ _)) by lia.
Qed.

(** One copy that decodes is the state. *)
Lemma only_copy_read m s :
  medium_ok m → state_ok s → copy_at m (copy_sector s) = compose sha256 s →
  decode_copy sha256 (copy_at m (other_sector s)) = None →
  checked_state sha256 (record_at m) = Some s.
Proof using sha256_digest.
  intros Hm Hs Hc Ho. unfold checked_state. rewrite decode_record by done.
  destruct (sectors_of_parity s) as [[E1 E2]|[E1 E2]]; rewrite E1 in Hc; rewrite E2 in Ho;
    by rewrite (copy_decodes m s _ Hs Hc), Ho.
Qed.

Lemma durable_same m m' s : durable m s → medium_ok m' → record_at m' = record_at m →
  (∀ slot, sl_running (st_slots s) = Some slot → sectors m' (slot_sector slot) SLOT_SECTORS = sectors m (slot_sector slot) SLOT_SECTORS) →
  durable m' s.
Proof using Type.
  intros [Hm Hs Hr Hc Hrun] Hm' Erec Eslot. split; [done|done|by rewrite Erec| |].
  - rewrite <- Hc. rewrite !record_at_copies in Erec.
    apply app_inj_1 in Erec as [EA EB]; [|by rewrite !length_copy_at].
    by destruct (sectors_of_parity s) as [[-> _]|[-> _]].
  - intros slot entry Hre. unfold slot_document. rewrite Eslot; [by apply Hrun|].
    unfold running_slot in Hre. destruct (sl_running (st_slots s)) as [slot'|]; simpl in Hre; [|done].
    destruct (Slots_entry _ _); simpl in Hre; by simplify_eq.
Qed.

(** ** Writing a document into a slot nothing names *)
Definition slot_put (slot : SlotIndex) (p : Put) : Prop :=
  pt_sector p = slot_sector slot ∧ ∃ n, (n ≤ SLOT_SECTORS)%nat ∧ length (pt_bytes p) = (n * SECTOR_SIZE)%nat.

Lemma slot_apart s slot slot' : (slot' < SLOT_COUNT)%nat → sl_running s = Some slot' → ¬ named s slot →
  (slot_sector slot' + SLOT_SECTORS ≤ slot_sector slot ∨ slot_sector slot + SLOT_SECTORS ≤ slot_sector slot')%nat.
Proof using Type.
  intros ? Hr Hn. assert (slot ≠ slot') by (intros ->; apply Hn; by left).
  unfold slot_sector, SLOT_SECTORS. lia.
Qed.

Lemma running_in_array s slot : slots_ok s → sl_running s = Some slot → (slot < SLOT_COUNT)%nat.
Proof using Type. intros (_ & _ & Hr & _) E. rewrite E in Hr. apply Hr. Qed.

Lemma slot_put_apart s slot p m m' :
  durable m s → ¬ named (st_slots s) slot → slot_put slot p → medium_ok m' →
  (∀ n a k, length (pt_bytes p) = (n * SECTOR_SIZE)%nat → (a + k ≤ pt_sector p ∨ pt_sector p + n ≤ a)%nat →
     sectors m' a k = sectors m a k) →
  durable m' s.
Proof using Type.
  intros Hd Hn (Hsec & n & Hn' & Hl) Hm' Helse. apply (durable_same m); [done|done| |].
  - apply (Helse n); [done|]. left. rewrite Hsec. unfold slot_sector, SLOTS_START_SECTOR, STATE_A_SECTOR, STATE_COPY_SECTORS. lia.
  - intros slot' Hr. apply (Helse n); [done|].
    pose proof (running_in_array _ _ (so_slots _ (du_state _ _ Hd)) Hr) as Hlt.
    destruct (slot_apart _ slot slot' Hlt Hr Hn); lia.
Qed.

Lemma slot_put_cut m s slot p m' :
  durable m s → ¬ named (st_slots s) slot → slot_put slot p → power_cut m [p] m' → durable m' s.
Proof using Type.
  intros Hd Hn Hp [Hsc _]. pose proof Hp as (_ & n & _ & Hl). apply (slot_put_apart s slot p m); try done.
  - by apply (scattered_ok m p m' n), (du_medium _ _ Hd).
  - intros n' a k Hl'. by apply (scattered_one_else m p m' n').
Qed.

Lemma slot_put_flushed m s slot p : durable m s → ¬ named (st_slots s) slot → slot_put slot p → durable (put p m) s.
Proof using Type.
  intros Hd Hn Hp. pose proof Hp as (_ & n & _ & Hl). apply (slot_put_apart s slot p m); try done.
  - by apply (put_ok p m n), (du_medium _ _ Hd).
  - intros n' a k Hl'. by apply (put_elsewhere p m n').
Qed.

(** ** Writing the next record *)
Definition record_put (s : State) (taken : bool) : Put :=
  {| pt_sector := copy_sector s; pt_bytes := compose sha256 s; pt_taken := taken |}.

Lemma record_put_length s taken : state_ok s →
  length (pt_bytes (record_put s taken)) = (STATE_COPY_SECTORS * SECTOR_SIZE)%nat.
Proof using sha256_digest. intros Hs. apply (compose_shape sha256 sha256_digest s Hs). Qed.

Lemma running_held_same m m' s :
  (∀ slot, sectors m' (slot_sector slot) SLOT_SECTORS = sectors m (slot_sector slot) SLOT_SECTORS) →
  running_held m s → running_held m' s.
Proof using Type. intros E H slot entry Hr. unfold slot_document. rewrite E. by apply H. Qed.

Lemma record_before_slots s slot : (copy_sector s + STATE_COPY_SECTORS ≤ slot_sector slot)%nat.
Proof using Type.
  unfold slot_sector. destruct (sectors_of_parity s) as [[-> _]|[-> _]];
    unfold STATE_B_SECTOR, STATE_A_SECTOR, STATE_COPY_SECTORS, SLOTS_START_SECTOR, SLOT_SECTORS; lia.
Qed.

Lemma record_apart s s' : st_generation s' = st_generation s + 1 →
  (copy_sector s + STATE_COPY_SECTORS ≤ copy_sector s' ∨ copy_sector s' + STATE_COPY_SECTORS ≤ copy_sector s)%nat.
Proof using Type.
  intros Hg. destruct (parity_step _ _ Hg) as [-> _]. destruct (sectors_of_parity s) as [[-> ->]|[-> ->]];
    unfold STATE_B_SECTOR, STATE_A_SECTOR, STATE_COPY_SECTORS; lia.
Qed.

Lemma record_put_flushed m s s' taken :
  durable m s → state_ok s' → st_generation s' = st_generation s + 1 → running_held m s' →
  durable (put (record_put s' taken) m) s'.
Proof using sha256_digest.
  intros Hd Hs' Hg Hrun. set (p := record_put s' taken). pose proof (record_put_length s' taken Hs') as Hl. fold p in Hl.
  assert (medium_ok (put p m)) as Hm by (by apply (put_ok p m STATE_COPY_SECTORS), (du_medium _ _ Hd)).
  assert (copy_at (put p m) (copy_sector s') = compose sha256 s') as Hc' by (by apply (put_here p m STATE_COPY_SECTORS)).
  assert (copy_at (put p m) (copy_sector s) = compose sha256 s) as Hc.
  { rewrite <- (du_copy _ _ Hd). apply (put_elsewhere p m STATE_COPY_SECTORS); [done|apply (record_apart s s' Hg)]. }
  split; [done|done|by apply (newer_copy_read _ s); try apply Hd|done|].
  apply (running_held_same m); [|done]. intros slot. apply (put_elsewhere p m STATE_COPY_SECTORS); [done|].
  right. apply record_before_slots.
Qed.

(** A cut during the write of the next record leaves the old state or the new one. *)
Lemma record_put_cut m s s' taken m' :
  durable m s → state_ok s' → st_generation s' = st_generation s + 1 → running_held m s' →
  power_cut m [record_put s' taken] m' → durable m' s ∨ durable m' s'.
Proof using sha256_digest.
  intros Hd Hs' Hg Hrun [Hsc Htorn]. pose proof (record_put_flushed m s s' taken Hd Hs' Hg Hrun) as Hd'.
  set (p := record_put s' taken) in *. pose proof (record_put_length s' taken Hs') as Hl. fold p in Hl.
  pose proof (scattered_ok m p m' _ Hsc Hl (du_medium _ _ Hd)) as Hm'.
  assert (∀ slot, sectors m' (slot_sector slot) SLOT_SECTORS = sectors m (slot_sector slot) SLOT_SECTORS) as Hslots.
  { intros slot. apply (scattered_one_else m p m' _ Hsc Hl). right. apply record_before_slots. }
  assert (copy_at m' (copy_sector s) = copy_at m (copy_sector s)) as Hkept.
  { apply (scattered_one_else m p m' _ Hsc Hl), (record_apart s s' Hg). }
  destruct (parity_step s s' Hg) as [Ep _].
  destruct (decide (decode_copy sha256 (copy_at m' (copy_sector s')) = None)) as [Hnone|Hsome].
  - left. split; [done|apply Hd| |by rewrite Hkept, (du_copy _ _ Hd)|by apply (running_held_same m), Hd].
    apply only_copy_read; [done|apply Hd|by rewrite Hkept, (du_copy _ _ Hd)|by rewrite <- Ep].
  - destruct (Htorn (copy_sector s')) as [k Hk]; [destruct (sectors_of_parity s') as [[-> _]|[-> _]]; auto|done|].
    destruct k as [|k]; simpl in Hk.
    + left. apply (durable_same m); [done|done| |by intros slot _]. rewrite !record_at_copies.
      rewrite Ep in Hk. by destruct (sectors_of_parity s) as [[E1 E2]|[E1 E2]]; rewrite E1 in Hkept; rewrite E2 in Hk;
        rewrite Hkept, Hk.
    + right. rewrite take_nil in Hk. simpl in Hk. rewrite (du_copy _ _ Hd') in Hk.
      split; [done|done| |done|by apply (running_held_same m)].
      apply (newer_copy_read _ s); [done|apply Hd|done|done|by rewrite Hkept, (du_copy _ _ Hd)|done].
Qed.

Lemma quiet_cut m s m' : durable m s → power_cut m [] m' → durable m' s.
Proof using Type.
  intros Hd [Hsc _]. pose proof (scattered_none _ _ Hsc) as E.
  assert (∀ a n, sectors m' a n = sectors m a n) as Es by (intros; apply sectors_ext; auto).
  apply (durable_same m); [done|intros s0; rewrite E; apply Hd|apply Es|intros; apply Es].
Qed.
End Crash.
