(* ===== verification/StoreRequests.v ===== *)
(** * The two requests that change the record

    Rules for the routines of [StoreMedium] over the device of [StoreDevice], and the
    refinement of an atomic state machine: whatever the device does and whenever the
    power goes, a request takes the state a medium holds to one its successor may be,
    or leaves it. *)
From stdpp Require Import strings.
From S2P Require Import Prelude Layout Store StoreRecord StoreMedium StoreDevice StoreCrash.
#[local] Open Scope list_scope.
#[local] Open Scope Z_scope.

Section Requests.
Context (sha256 : list Z → list Z).
Context (sha256_digest : ∀ m, length (sha256 m) = DIGEST_LEN ∧ bytes_ok (sha256 m)).

(** The package reader, and what it documents of a package it accepts: certificates
    that are there, and an endpoint somebody can dial. *)
Context (package_read : list Z → list Z → Result Package (string * RefusalDetail)).
Definition package_sound : Prop := ∀ archive key p, package_read archive key = Ok p →
  pk_device_certificate p ≠ [] ∧ bytes_ok (pk_device_certificate p)
  ∧ pk_trust_anchor p ≠ [] ∧ bytes_ok (pk_trust_anchor p)
  ∧ length (pk_address p) = 4%nat ∧ bytes_ok (pk_address p) ∧ is_u16 (pk_port p)
  ∧ StoredEndpoint_is_absent {| sp_address := pk_address p; sp_port := pk_port p |} = false.

(** ** How a state evolves *)
Inductive Demand :=
| RecordConfig (generation stated_len : Z) (staged : list Z)
| Install (stated_len : Z) (staged : list Z).

Inductive evolves (s : State) : Demand → State → Prop :=
| evolves_records generation stated_len staged slot :
    Slots_newest_generation (st_slots s) < generation →
    0 < stated_len ≤ DOCUMENT_BYTES → stated_len ≤ Z.of_nat (length staged) →
    (slot < SLOT_COUNT)%nat → ¬ named (st_slots s) slot →
    evolves s (RecordConfig generation stated_len staged)
      (State_record_document slot
         {| se_generation := generation; se_len := stated_len; se_digest := sha256 (take (Z.to_nat stated_len) staged) |}
         true s)
| evolves_adopts stated_len staged package adoption :
    st_onboarding s = Unowned → stated_len ≤ Z.of_nat (length staged) →
    package_read (take (Z.to_nat stated_len) staged) (st_public s) = Ok package →
    adoption_of sha256 package = Ok adoption →
    evolves s (Install stated_len staged) (Adoption_take_ownership adoption s).

(** A stated length and a generation are words; the peer's region is copied whole. *)
Definition demand_ok (d : Demand) : Prop :=
  match d with
  | RecordConfig generation stated_len staged =>
      is_u64 generation ∧ is_u32 stated_len ∧ Z.of_nat (length staged) = MAX_INSTALL_ARCHIVE
  | Install stated_len staged => is_u32 stated_len ∧ Z.of_nat (length staged) = MAX_INSTALL_ARCHIVE
  end.

Lemma newest_nonneg s : 0 ≤ Slots_newest_generation s.
Proof using Type. unfold Slots_newest_generation. induction (se_generation <$> _); simpl; lia. Qed.

Lemma place_ok s slot entry :
  slots_ok s → entry_ok entry → (slot < SLOT_COUNT)%nat → slots_ok (Slots_place slot entry true s).
Proof using Type.
  intros (Hl & Hf & Hr & Hc & Hne) He Hs. unfold Slots_place. simpl. unfold slots_ok; simpl. split_all.
  - by rewrite length_insert.
  - by apply Forall_insert.
  - done.
  - unfold Slots_entry. simpl. rewrite list_lookup_insert_eq by lia. by eexists.
  - done.
  - done.
Qed.

Lemma inserts_front (l : list Z) n : (length l ≤ n)%nat → list_inserts 0 l (replicate n 0) = l ++ replicate (n - length l) 0.
Proof using Type.
  intros H. replace n with (length l + (n - length l))%nat at 1 by lia. rewrite replicate_add.
  apply list_inserts_0_r. by rewrite length_replicate.
Qed.

Lemma certificate_new_ok der c : bytes_ok der → der ≠ [] → StoredCertificate_new der = Ok c → certificate_ok c ∧ sc_len c ≠ 0%nat.
Proof using Type.
  intros Hb Hne. unfold StoredCertificate_new. destruct (Nat.ltb_spec MAX_STORED_CERTIFICATE (length der)) as [|Hle]; [done|].
  intros E. assert (c = {| sc_bytes := list_inserts 0 der (replicate MAX_STORED_CERTIFICATE 0); sc_len := length der |}) as -> by congruence.
  unfold certificate_ok. cbn [sc_len sc_bytes]. rewrite inserts_front by done. split_all.
  - rewrite length_app, length_replicate. lia.
  - apply bytes_ok_app. split; [done|apply bytes_ok_zeros].
  - done.
  - by rewrite drop_app_length.
  - by destruct der.
Qed.

Lemma evolves_ok s d s' : package_sound → state_ok s → st_generation s < u64_max → demand_ok d → evolves s d s' →
  state_ok s' ∧ st_generation s' = st_generation s + 1.
Proof using sha256_digest.
  intros Hpk Hs Hmax Hdem Hev. pose proof Hs as [Hg Hid Hsec Hpub Hadr Hport Hdc Hac Hsl Hown].
  assert (saturating_add 64 (st_generation s) 1 = st_generation s + 1) as E by (clear sha256_digest; ints).
  destruct Hev as [generation stated_len staged slot Hnew Hlen Hin Hslot Hn|stated_len staged package adoption Hun Hin Hread Hof];
    unfold State_record_document, Adoption_take_ownership, State_adopt, State_advance; simpl; rewrite E; (split; [|done]).
  - destruct Hdem as (Hgen & _ & _). constructor; simpl; try done; [clear sha256_digest; ints|].
    apply place_ok; [done| |done]. pose proof (newest_nonneg (st_slots s)). unfold entry_ok; cbn [se_generation se_len se_digest].
    split_all; try apply sha256_digest; try lia. apply Hgen.
  - destruct (Hpk _ _ _ Hread) as (Hd0 & Hd & Ha0 & Ha & Hal & Hab & Hp & Habs).
    unfold adoption_of, storage, result_bind in Hof.
    destruct (StoredCertificate_new (pk_device_certificate package)) as [c1|] eqn:E1; [|done].
    destruct (StoredCertificate_new (pk_trust_anchor package)) as [c2|] eqn:E2; [|done]. injection Hof as <-.
    apply certificate_new_ok in E1 as [? ?]; [|done|done]. apply certificate_new_ok in E2 as [? ?]; [|done|done].
    constructor; simpl; try done. clear sha256_digest. ints.
Qed.

(** The new version runs; nothing of the identity or the ownership moves. *)
Lemma record_running slot entry s : slots_ok (st_slots s) → (slot < SLOT_COUNT)%nat →
  running_slot (State_record_document slot entry true s) = Some (slot, entry).
Proof using Type.
  intros (Hl & _) Hs. unfold running_slot. simpl. unfold Slots_entry. simpl. by rewrite list_lookup_insert_eq by lia.
Qed.

(** ** Spans and windows *)
Lemma inserts_all (l k : list Z) : length l = length k → list_inserts 0 l k = l.
Proof using Type. intros H. rewrite <- (app_nil_r l) at 1. by apply list_inserts_0_l. Qed.

Lemma whole_record_eq : whole_record = {| is_sector := 0; is_len := 8192 |}.
Proof using Type. reflexivity. Qed.

Lemma mem_ok_splice mem mem' span bytes :
  mem_ok mem → md_window mem' = splice (md_window mem) (Z.to_nat (IoSpan_offset span)) bytes →
  (Z.to_nat (IoSpan_offset span) + length bytes ≤ length (md_window mem))%nat → mem_ok mem'.
Proof using Type. unfold mem_ok. intros Hm -> Hl. by rewrite length_splice. Qed.

Lemma region_length : Z.of_nat BOTH_COPIES = 8192.
Proof using Type. reflexivity. Qed.

Lemma record_at_length m : medium_ok m → length (record_at m) = BOTH_COPIES.
Proof using Type. intros. unfold record_at. by rewrite length_sectors. Qed.

(** ** Reading *)
Context (verify : State → Result (list Z) IdentityError).

Lemma read_state_rule P mem m Q :
  mem_ok mem → medium_ok m → P m [] → (∀ e mem', Q (Err e) (at_ mem' m [])) →
  (∀ mem', mem_ok mem' → Q (Ok (record_at m)) (at_ mem' m [])) →
  always P (read_state (replicate BOTH_COPIES 0)) Q (at_ mem m []).
Proof using Type.
  intros Hmem Hm HP He Hok. unfold read_state. rewrite whole_record_eq. apply always_try, read_rule; [done|auto|].
  intros mem' Hw. apply always_bind, staging_rule; [done|].
  pose proof (record_at_length m Hm) as Hl. pose proof region_length as Hr.
  assert (Z.of_nat (length (md_window mem)) = 262144) as Hwl by exact Hmem.
  change (sectors m STATE_A_SECTOR (span_sectors _)) with (record_at m) in Hw.
  rewrite Hw, staging_splice by (rewrite ?Hl; simpl; lia).
  apply done_rule; [done|]. rewrite inserts_all by (by rewrite length_replicate).
  apply Hok. eapply mem_ok_splice; [exact Hmem|exact Hw|]. rewrite Hl. simpl. lia.
Qed.

Lemma read_back_rule P mem m s absent Q :
  durable sha256 m s → mem_ok mem → P m [] → (∀ e mem', Q (Err e) (at_ mem' m [])) →
  (∀ mem', mem_ok mem' → Q (Ok (record_at m, s)) (at_ mem' m [])) →
  always P (read_back sha256 verify absent) Q (at_ mem m []).
Proof using Type.
  intros Hd Hmem HP He Hok. unfold read_back. apply always_try, read_state_rule; [done|apply Hd|done|auto|].
  intros mem' Hmem'. apply done_rule; [done|].
  pose proof (du_read _ _ _ Hd) as Hr. unfold checked_state in Hr.
  destruct (decode_state sha256 (record_at m)) as [image|]; simpl in Hr; [|done].
  destruct (StateImage_check image) as [s'|]; [|done]. injection Hr as ->.
  destruct (verify s); auto.
Qed.

Lemma snapshot_rule P mem m puts staged Q :
  mem_ok mem → Z.of_nat (length staged) = MAX_INSTALL_ARCHIVE → P m puts →
  (∀ mem', mem_ok mem' → staging (md_window mem') SNAPSHOT_SPAN = staged → Q staged (at_ mem' m puts)) →
  always P (take_snapshot staged) Q (at_ mem m puts).
Proof using Type.
  intros Hmem Hst HP Hok. unfold take_snapshot. apply always_bind, stage_rule; [done|]. intros mem' Hw.
  apply staging_rule; [done|]. assert (Z.of_nat (length (md_window mem)) = 262144) as Hwl by exact Hmem.
  change MAX_INSTALL_ARCHIVE with 131072 in Hst.
  assert (length (staging (md_window mem) SNAPSHOT_SPAN) = length staged) as Hls.
  { rewrite length_staging; change (Z.to_nat (IoSpan_offset SNAPSHOT_SPAN)) with (Z.to_nat 131072);
      change (is_len SNAPSHOT_SPAN) with 131072; lia. }
  rewrite inserts_all in Hw by done.
  assert (staging (md_window mem') SNAPSHOT_SPAN = staged) as E.
  { rewrite Hw. apply staging_splice; change (Z.to_nat (IoSpan_offset SNAPSHOT_SPAN)) with (Z.to_nat 131072);
      change (is_len SNAPSHOT_SPAN) with 131072; lia. }
  rewrite E. apply Hok; [|done]. eapply mem_ok_splice; [exact Hmem|exact Hw|].
  change (Z.to_nat (IoSpan_offset SNAPSHOT_SPAN)) with (Z.to_nat 131072). lia.
Qed.

(** ** Writing a document *)
Definition document_sectors (len : Z) : Z := (len + SECTOR - 1) / SECTOR.

Lemma document_sectors_range len : 0 < len ≤ DOCUMENT_BYTES →
  1 ≤ document_sectors len ≤ 128 ∧ len ≤ document_sectors len * 512.
Proof using Type.
  unfold document_sectors, DOCUMENT_BYTES. change SECTOR with 512. intros. Z.div_mod_to_equations. lia.
Qed.

Lemma document_span_eq at_sector len :
  0 < len ≤ DOCUMENT_BYTES → 0 ≤ at_sector ≤ 256 →
  document_span (at_sector * 512) len = Ok {| is_sector := at_sector; is_len := document_sectors len * 512 |}.
Proof using Type.
  intros Hlen Ha. destruct (document_sectors_range len Hlen) as [Hs _]. unfold document_span. fold (document_sectors len).
  change SECTOR with 512. unfold DOCUMENT_BYTES in *.
  replace (_ || _) with false by lia. cbv zeta. change u32_max with 4294967295.
  replace (document_sectors len * 512 <=? 4294967295) with true by lia.
  unfold IoSpan_at_offset, IoSector_new, IoSpan_new. change SECTOR with 512. change IO_SECTORS with 512.
  change BLK_IO_REGION_SIZE with 262144. rewrite Z.mod_mul, Z.div_mul by lia. simpl.
  replace (at_sector <? 512) with true by lia. simpl.
  replace (document_sectors len * 512 =? 0) with false by lia.
  by replace (at_sector * 512 + document_sectors len * 512 <=? 262144) with true by lia.
Qed.

Definition document_put (slot : SlotIndex) (document : list Z) (taken : bool) : Put :=
  let len := Z.of_nat (length document) in
  {| pt_sector := slot_sector slot;
     pt_bytes := document ++ replicate (Z.to_nat (document_sectors len * 512) - length document) 0;
     pt_taken := taken |}.

Lemma document_put_length slot document taken : 0 < Z.of_nat (length document) ≤ DOCUMENT_BYTES →
  length (pt_bytes (document_put slot document taken))
  = (Z.to_nat (document_sectors (Z.of_nat (length document))) * SECTOR_SIZE)%nat.
Proof using Type.
  intros Hlen. pose proof (document_sectors_range _ Hlen). simpl. rewrite length_app, length_replicate.
  unfold SECTOR_SIZE. lia.
Qed.

Lemma document_put_slot slot document taken : 0 < Z.of_nat (length document) ≤ DOCUMENT_BYTES →
  slot_put slot (document_put slot document taken).
Proof using Type.
  intros Hlen. split; [done|]. exists (Z.to_nat (document_sectors (Z.of_nat (length document)))).
  split; [|by apply document_put_length]. pose proof (document_sectors_range _ Hlen). unfold SLOT_SECTORS. lia.
Qed.

Lemma write_document_rule P mem m slot staged document Q :
  mem_ok mem → staging (md_window mem) SNAPSHOT_SPAN = staged → take (length document) staged = document →
  0 < Z.of_nat (length document) ≤ DOCUMENT_BYTES →
  P m [] → (∀ taken, P m [document_put slot document taken]) → P (put (document_put slot document true) m) [] →
  (∀ step error w, Q (Err (EStep step error)) w) →
  (∀ mem', mem_ok mem' → Q (Ok tt) (at_ mem' (put (document_put slot document true) m) [])) →
  always P (write_document slot (Z.of_nat (length document))) Q (at_ mem m []).
Proof using Type.
  intros Hmem Hsnap Hdoc Hlen HP HPw HPd He Hok. pose proof (document_sectors_range _ Hlen) as [Hn Hcover].
  unfold write_document. change SNAPSHOT_AT with (256 * 512). rewrite document_span_eq by (done || lia).
  set (n := document_sectors (Z.of_nat (length document))) in *.
  set (span := {| is_sector := 256; is_len := n * 512 |}).
  assert (Z.of_nat (length (md_window mem)) = 262144) as Hwl by exact Hmem.
  assert (IoSpan_offset span = 131072) as Hoff by reflexivity.
  assert (staging (md_window mem) span = take (Z.to_nat (n * 512)) staged) as Hst.
  { rewrite <- Hsnap. unfold staging. change (IoSpan_offset SNAPSHOT_SPAN) with 131072. rewrite Hoff.
    change (is_len SNAPSHOT_SPAN) with 131072. rewrite take_take, Nat.min_l by lia. done. }
  assert (length staged = Z.to_nat 131072) as Hsl.
  { rewrite <- Hsnap, length_staging; change (IoSpan_offset SNAPSHOT_SPAN) with 131072; change (is_len SNAPSHOT_SPAN) with 131072; lia. }
  set (bytes := pt_bytes (document_put slot document true)).
  assert (length bytes = Z.to_nat (n * 512)) as Hbl.
  { unfold bytes. rewrite document_put_length by done. fold n. unfold SECTOR_SIZE. lia. }
  apply always_bind, stage_rule; [done|]. intros mem' Hw.
  rewrite Hst, length_take, take_take, Nat2Z.id, Hsl, !Nat.min_l, Hdoc in Hw by lia.
  change (document ++ _) with bytes in Hw.
  assert (staging (md_window mem') span = bytes) as Hst'.
  { rewrite Hw. apply staging_splice; rewrite ?Hoff; simpl is_len; lia. }
  assert (mem_ok mem') as Hmem' by (eapply mem_ok_splice; [exact Hmem|exact Hw|rewrite Hoff, Hbl; lia]).
  apply always_try, write_rule; cbv zeta; rewrite ?Hst'; try done; try (intros; apply He).
  intros mem'' Hw''. apply barrier_rule; [done|apply (HPw true)|apply HPd|intros; apply He|].
  apply Hok. unfold mem_ok. by rewrite Hw''.
Qed.

(** ** Committing the record *)
Definition both_put (s : State) (taken : bool) : Put :=
  {| pt_sector := STATE_A_SECTOR; pt_bytes := compose sha256 s ++ compose sha256 s; pt_taken := taken |}.
Definition copies_put (copies : Copies) (s : State) (taken : bool) : Put :=
  match copies with Parity => record_put sha256 s taken | Both => both_put s taken end.

Definition whole : IoSpan := {| is_sector := 0; is_len := 8192 |}.

(** A commit stages an image, then transfers the copies it was asked for out of it. *)
Lemma commit_staged region s copies :
  state_ok s → length region = BOTH_COPIES →
  ∃ image span,
    commit sha256 region s copies
    = (io! _ <- io_stage whole (λ staged, list_inserts 0 image staged);
       try? _ <- transfer Step_Write Write (pt_sector (copies_put copies s true)) span;
       try? _ <- barrier; IoDone (Ok image))
    ∧ length image = Z.to_nat 8192
    ∧ ∀ window, Z.of_nat (length window) = 262144 → staging (splice window 0 image) span = pt_bytes (copies_put copies s true).
Proof using sha256_digest.
  intros Hs Hreg. assert (length (compose sha256 s) = Z.to_nat 4096) as Hcl by apply (compose_shape sha256 sha256_digest s Hs).
  assert (length region = Z.to_nat 8192) as Hreg' by exact Hreg.
  assert (∀ (image window : list Z) sector len, length image = Z.to_nat 8192 → Z.of_nat (length window) = 262144 → 0 ≤ sector → 0 ≤ len → sector * 512 + len ≤ 8192 →
    staging (splice window 0 image) {| is_sector := sector; is_len := len |} = take (Z.to_nat len) (drop (Z.to_nat (sector * 512)) image)) as Hst.
  { intros image window sector len Hi Hw ? ? ?. unfold staging, splice, IoSpan_offset. simpl is_sector. simpl is_len. change SECTOR with 512.
    simpl take at 2. simpl app. rewrite drop_app_le by lia. apply take_app_le. rewrite length_drop. lia. }
  unfold commit, encode_state, copies_put, record_put, copy_sector. change STATE_COPY_BYTES with (Z.to_nat 4096).
  destruct copies; [destruct (st_generation s mod 2 =? 0)|]; cbn [sw_sector sw_sectors]; do 2 eexists; (split; [reflexivity|]).
  - split; [rewrite length_app, length_drop; lia|]. intros window Hw.
    match goal with |- staging _ ?span = _ => change span with {| is_sector := 0; is_len := 4096 |} end.
    rewrite Hst by (rewrite ?length_app, ?length_drop; lia).
    change (Z.to_nat (0 * 512)) with 0%nat. rewrite drop_0, take_app_le by lia. simpl pt_bytes. apply take_ge. lia.
  - split; [rewrite length_app, length_take; lia|]. intros window Hw.
    match goal with |- staging _ ?span = _ => change span with {| is_sector := 8; is_len := 4096 |} end.
    rewrite Hst by (rewrite ?length_app, ?length_take; lia).
    change (Z.to_nat (8 * 512)) with (Z.to_nat 4096).
    rewrite drop_app_le, drop_ge, app_nil_l by (rewrite length_take; lia). simpl pt_bytes. apply take_ge. lia.
  - split; [rewrite length_app; lia|]. intros window Hw.
    match goal with |- staging _ ?span = _ => change span with {| is_sector := 0; is_len := 8192 |} end.
    rewrite Hst by (rewrite ?length_app; lia).
    change (Z.to_nat (0 * 512)) with 0%nat. rewrite drop_0. simpl pt_bytes. apply take_ge. rewrite length_app. lia.
Qed.

Lemma whole_inserted image mem : mem_ok mem → length image = Z.to_nat 8192 →
  list_inserts 0 image (staging (md_window mem) whole) = image.
Proof using Type.
  intros Hmem Hi. assert (Z.of_nat (length (md_window mem)) = 262144) as Hwl by exact Hmem.
  apply inserts_all. rewrite length_staging; simpl; lia.
Qed.

Lemma commit_rule P mem m s copies region Q :
  mem_ok mem → state_ok s → length region = BOTH_COPIES →
  P m [] → (∀ taken, P m [copies_put copies s taken]) → P (put (copies_put copies s true) m) [] →
  (∀ step error w, Q (Err (EStep step error)) w) →
  (∀ image mem', Q (Ok image) (at_ mem' (put (copies_put copies s true) m) [])) →
  always P (commit sha256 region s copies) Q (at_ mem m []).
Proof using sha256_digest.
  intros Hmem Hs Hreg HP HPw HPd He Hok. destruct (commit_staged region s copies Hs Hreg) as (image & span & -> & Hi & Hst).
  apply always_bind, stage_rule; [done|]. intros mem' Hw. rewrite whole_inserted in Hw by done.
  assert (staging (md_window mem') span = pt_bytes (copies_put copies s true)) as Hst' by (rewrite Hw; by apply Hst).
  assert (∀ taken, {| pt_sector := pt_sector (copies_put copies s true); pt_bytes := pt_bytes (copies_put copies s true); pt_taken := taken |}
    = copies_put copies s taken) as Hp by (by destruct copies).
  apply always_try, write_rule; cbv zeta; rewrite ?Hst'; try done; try (intros; apply He).
  - intros taken. rewrite Hp. apply HPw.
  - intros mem'' Hw''. rewrite Hp. apply always_try, barrier_rule; [by destruct copies|apply HPw|apply HPd|intros; apply He|].
    apply done_rule; [apply HPd|]. apply Hok.
Qed.

(** ** The requests *)

(** What a power cut leaves behind demand [d] in state [s]. *)
Definition kept (d : Demand) (s : State) (base : Medium) (puts : list Put) : Prop :=
  ∀ m', power_cut sha256 base puts m' → ∃ s', (s' = s ∨ evolves s d s') ∧ durable sha256 m' s'.
Definition answered {A} (d : Demand) (s : State) (r : Result A Refusal) (w : World) : Prop :=
  match r with Ok _ => ∃ s', evolves s d s' ∧ wd_puts w = [] ∧ durable sha256 (wd_base w) s' | Err _ => True end.

Lemma kept_quiet d s m : durable sha256 m s → kept d s m [].
Proof using Type. intros Hd m' Hc. exists s. split; [by left|]. by eapply quiet_cut. Qed.

Lemma commit_kept {A} d m s s' mem region (k : list Z → Io (Result A Refusal)) :
  package_sound → demand_ok d → durable sha256 m s → st_generation s < u64_max → evolves s d s' → running_held sha256 m s' →
  mem_ok mem → length region = BOTH_COPIES → (∀ image, ∃ a, k image = IoDone (Ok a)) →
  always (kept d s) (io_try establish_refusal (commit sha256 region s' Parity) k) (answered d s) (at_ mem m []).
Proof using sha256_digest.
  intros Hpk Hdem Hd Hmax Hev Hrun Hmem Hreg Hk. destruct (evolves_ok _ _ _ Hpk (du_state _ _ _ Hd) Hmax Hdem Hev) as [Hs' Hg].
  pose proof (record_put_flushed sha256 sha256_digest m s s' true Hd Hs' Hg Hrun) as Hd'.
  assert (kept d s (put (record_put sha256 s' true) m) []) as Hkd.
  { intros m' Hc. exists s'. split; [by right|]. by eapply quiet_cut. }
  apply always_try, commit_rule; try done; [by apply kept_quiet| |].
  - intros taken m' Hc. destruct (record_put_cut sha256 sha256_digest m s s' taken m' Hd Hs' Hg Hrun Hc); eauto.
  - intros image mem'. destruct (Hk image) as [a ->]. apply done_rule; [done|]. by exists s'.
Qed.

Lemma slot_document_put m slot document taken entry :
  medium_ok m → 0 < Z.of_nat (length document) ≤ DOCUMENT_BYTES → se_len entry = Z.of_nat (length document) →
  slot_document (put (document_put slot document taken) m) slot entry = document.
Proof using Type.
  intros Hm Hlen E. unfold slot_document. rewrite E, Nat2Z.id.
  set (p := document_put slot document taken). pose proof (document_put_length slot document taken Hlen) as Hl. fold p in Hl.
  pose proof (document_sectors_range _ Hlen) as [Hn Hc]. set (n := Z.to_nat (document_sectors (Z.of_nat (length document)))) in *.
  replace SLOT_SECTORS with (n + (SLOT_SECTORS - n))%nat by (unfold SLOT_SECTORS; lia).
  rewrite sectors_app. change (slot_sector slot) with (pt_sector p) at 1. rewrite put_here by done.
  rewrite take_app_le by (rewrite Hl; unfold SECTOR_SIZE; lia). unfold p. simpl. by rewrite take_app_length.
Qed.

Lemma place_document_rule m s mem generation stated_len staged :
  let d := RecordConfig generation stated_len staged in
  package_sound → demand_ok d → durable sha256 m s → st_generation s < u64_max → mem_ok mem →
  always (kept d s) (place_document sha256 verify generation stated_len staged) (answered d s) (at_ mem m []).
Proof using sha256_digest.
  intros d Hpk Hdem Hd Hmax Hmem. pose proof Hdem as (Hgen & Hst & Hl). pose proof (kept_quiet d s m Hd) as Hkq.
  unfold place_document. apply always_try. apply (read_back_rule _ mem m s); try done.
  intros mem1 Hmem1. apply always_bind, snapshot_rule; try done. intros mem2 Hmem2 Hsnap.
  destruct (Z.ltb_spec (Z.of_nat (length staged)) stated_len) as [|Hin]; [by apply done_rule|].
  unfold staged_entry. set (document := take (Z.to_nat stated_len) staged).
  assert (Z.of_nat (length document) = stated_len) as Hdl by (unfold document; rewrite length_take; unfold in_u in Hst; lia).
  rewrite Hdl. destruct (Z.eqb_spec stated_len 0); [by apply done_rule|].
  destruct (Z.ltb_spec DOCUMENT_BYTES stated_len); [by apply done_rule|].
  destruct (Z.eqb_spec generation 0); [by apply done_rule|].
  destruct (Z.leb_spec generation (Slots_newest_generation (st_slots s))); [by apply done_rule|].
  destruct (next_for_reuse_some (st_slots s) (so_slots _ (du_state _ _ _ Hd))) as (reuse & -> & Hslot & Hnamed).
  cbn [se_len]. rewrite <- Hdl. assert (0 < Z.of_nat (length document) ≤ DOCUMENT_BYTES) as Hdlen by (unfold in_u in Hst; lia).
  pose proof (document_put_slot (Reuse_slot reuse) document true Hdlen) as Hsp.
  pose proof (slot_put_flushed sha256 m s _ _ Hd Hnamed Hsp) as Hd1.
  apply always_try, (write_document_rule _ mem2 m _ staged document); try done.
  - unfold document. rewrite length_take. f_equal. lia.
  - intros taken m' Hc. exists s. split; [by left|].
    eapply (slot_put_cut sha256 m s); [done|exact Hnamed|by apply document_put_slot|exact Hc].
  - by apply kept_quiet.
  - intros mem3 Hmem3. apply commit_kept; try done; [| |by rewrite (record_at_length m (du_medium _ _ _ Hd))|by eauto].
    + rewrite Hdl. apply evolves_records; unfold in_u in *; try done; lia.
    + intros slot entry. rewrite (record_running (Reuse_slot reuse)) by (try apply Hd; done). intros [= <- <-].
      unfold document_matches. rewrite slot_document_put by (try apply Hd; done). cbn [se_len se_digest].
      by rewrite Z.eqb_refl, bool_decide_true.
Qed.

Lemma take_ownership_rule m s mem stated_len staged :
  let d := Install stated_len staged in
  package_sound → demand_ok d → durable sha256 m s → st_generation s < u64_max → mem_ok mem →
  always (kept d s) (take_ownership sha256 verify package_read stated_len staged) (answered d s) (at_ mem m []).
Proof using sha256_digest.
  intros d Hpk Hdem Hd Hmax Hmem. pose proof Hdem as (Hst & Hl). pose proof (kept_quiet d s m Hd) as Hkq.
  unfold take_ownership. apply always_try. apply (read_back_rule _ mem m s); try done.
  intros mem1 Hmem1. apply always_bind, snapshot_rule; try done. intros mem2 Hmem2 Hsnap.
  unfold read_package. destruct (st_onboarding s) eqn:Hun; [|by apply done_rule].
  destruct (Z.ltb_spec (Z.of_nat (length staged)) stated_len) as [|Hin]; [by apply done_rule|].
  destruct (package_read _ _) as [package|[cause detail]] eqn:Hread; [|by apply done_rule].
  destruct (adoption_of sha256 package) as [adoption|e] eqn:Hof; [|by apply done_rule].
  apply commit_kept; try done; [|apply Hd|by rewrite (record_at_length m (du_medium _ _ _ Hd))|by eauto].
  by apply (evolves_adopts s stated_len staged package adoption).
Qed.

Definition handle (d : Demand) : Io (Result unit Refusal) :=
  match d with
  | RecordConfig generation stated_len staged =>
      try? _ <- place_document sha256 verify generation stated_len staged; IoDone (Ok tt)
  | Install stated_len staged =>
      try? _ <- take_ownership sha256 verify package_read stated_len staged; IoDone (Ok tt)
  end.

Lemma handle_rule m s mem d :
  package_sound → demand_ok d → durable sha256 m s → st_generation s < u64_max → mem_ok mem →
  always (kept d s) (handle d) (answered d s) (at_ mem m []).
Proof using sha256_digest.
  intros Hpk Hdem Hd Hmax Hmem. destruct d; apply always_try; eapply always_mono;
    try by first [apply place_document_rule|apply take_ownership_rule].
  all: intros [a|e] w HP HQ; [by split|done].
Qed.

(** C8. The store's requests are atomic. Take a medium that durably holds a state; let
    the domain record a configuration document or take ownership out of a package, let
    the device refuse, fail, answer short or not at all at any request, and let the
    power go at any moment, during the request or after it. Then the medium durably
    holds a state still: the record decodes, the copy of its generation's parity is
    its encoding, and its running document is on the medium and matches its digest.
    It is the old state or the one successor the demand names, and the successor
    where the request was answered well. A copy of the record torn between two writes
    is assumed to fail its digest, and the generation to be below its ceiling. *)
Theorem requests_are_atomic m s mem d w r m' :
  package_sound → demand_ok d → durable sha256 m s → st_generation s < u64_max → mem_ok mem →
  run (handle d) (powered mem m) w r → power_cut sha256 (wd_base w) (wd_puts w) m' →
  ∃ s', durable sha256 m' s' ∧ match r with Some (Ok _) => evolves s d s' | _ => s' = s ∨ evolves s d s' end.
Proof using sha256_digest.
  intros Hpk Hdem Hd Hmax Hmem Hrun Hcut.
  destruct (always_sound _ _ _ _ _ _ Hrun (handle_rule m s mem d Hpk Hdem Hd Hmax Hmem)) as [HP HQ].
  destruct r as [[[]|e]|].
  - destruct (HQ _ eq_refl) as (s' & Hev & Hp & Hd'). exists s'. split; [|done]. rewrite Hp in Hcut. by eapply quiet_cut.
  - destruct (HP _ Hcut) as (s' & ? & ?). eauto.
  - destruct (HP _ Hcut) as (s' & ? & ?). eauto.
Qed.

(** Whatever a demand does to a state, the identity stays; a document leaves the
    ownership as it was. *)
Lemma evolves_identity s d s' : evolves s d s' →
  st_device_id s' = st_device_id s ∧ st_secret s' = st_secret s ∧ st_public s' = st_public s
  ∧ match d with
    | RecordConfig _ _ _ => st_onboarding s' = st_onboarding s ∧ st_endpoint s' = st_endpoint s
        ∧ st_device_certificate s' = st_device_certificate s ∧ st_anchor_certificate s' = st_anchor_certificate s
    | Install _ _ => st_onboarding s = Unowned ∧ st_onboarding s' = Onboarded ∧ st_slots s' = st_slots s
    end.
Proof using Type. by destruct 1. Qed.
End Requests.
