(* ===== verification/StoreBoot.v ===== *)
(** * What a boot makes of the medium

    A boot over a durable state establishes that state and writes nothing; a boot that
    finds a factory-reset request gives up the request before it gives up anything
    else; a mint makes its state durable, where it is not interrupted. *)
From stdpp Require Import strings.
From S2P Require Import Prelude Layout Store StoreRecord StoreMedium StoreDevice StoreCrash StoreRequests.
#[local] Open Scope list_scope.
#[local] Open Scope Z_scope.

(** ** The device that honours everything *)
Lemma serve_bind {A B} (io : Io A) (f : A → Io B) w : serve (io_bind io f) w = serve (f (serve io w).1) (serve io w).2.
Proof. revert w. induction io as [a|edit k IH|operation sector span k IH]; intros w; simpl; auto. Qed.

Lemma serve_try {A B E F} (from : E → F) (io : Io (Result A E)) (f : A → Io (Result B F)) w a w' :
  serve io w = (Ok a, w') → serve (io_try from io f) w = serve (f a) w'.
Proof. intros H. unfold io_try. by rewrite serve_bind, H. Qed.

Lemma serve_read step sector span mem m :
  ∃ mem', serve (transfer step Read sector span) (at_ mem m []) = (Ok tt, at_ mem' m [])
    ∧ md_window mem' = splice (md_window mem) (Z.to_nat (IoSpan_offset span)) (sectors m sector (span_sectors span)).
Proof.
  eexists. split; [simpl; unfold judge; simpl; rewrite Z.eqb_refl; reflexivity|reflexivity].
Qed.

Lemma serve_staging span mem m puts : serve (io_staging span) (at_ mem m puts) = (staging (md_window mem) span, at_ mem m puts).
Proof. by destruct mem. Qed.

Section Boot.
Context (sha256 : list Z → list Z).
Context (sha256_digest : ∀ m, length (sha256 m) = DIGEST_LEN ∧ bytes_ok (sha256 m)).
Context (public_of : list Z → option (list Z)).
Context (verify : State → Result (list Z) IdentityError).

(** ** A boot over a durable state *)
Definition running_document (s : State) : option (Result RunningDocument Refusal) :=
  (λ '(slot, entry), Ok {| rd_generation := se_generation entry; rd_slot := Z.of_nat slot; rd_bytes := se_len entry |})
  <$> running_slot s.
Definition established (s : State) (fingerprint : list Z) (configuration : option (Result RunningDocument Refusal)) : Established :=
  {| es_device := device_word (st_device_id s); es_fingerprint := fingerprint; es_generation := st_generation s;
     es_onboarding := st_onboarding s; es_key := DeviceKey_of public_of s; es_endpoint := st_endpoint s;
     es_minted := false; es_reset := None; es_recorded := Slots_newest_generation (st_slots s);
     es_configuration := configuration |}.

(** One step of a boot that only reads: every run of it leaves the medium, and the
    device that honours everything gets the answer. *)
Definition reads_as {A} (m : Medium) (io : Io (Result A EstablishError)) (a : A) : Prop :=
  ∀ mem, mem_ok mem →
    (∃ mem', mem_ok mem' ∧ serve io (at_ mem m []) = (Ok a, at_ mem' m []))
    ∧ always (λ base puts, base = m ∧ puts = []) io
        (λ r w, ∃ mem', w = at_ mem' m [] ∧ match r with Ok a' => a' = a ∧ mem_ok mem' | Err e => ∃ step error, e = EStep step error end)
        (at_ mem m []).

Lemma reads_span {A} (m : Medium) step sector sector_at len (f : list Z → Result A EstablishError) a :
  medium_ok m → 0 ≤ sector_at → 0 ≤ len → (sector_at + len) * 512 ≤ 262144 →
  f (sectors m sector (Z.to_nat len)) = Ok a →
  let span := {| is_sector := sector_at; is_len := len * 512 |} in
  reads_as m (io_try id (transfer step Read sector span) (λ _, io_bind (io_staging span) (λ staged, IoDone (f staged)))) a.
Proof using Type.
  intros Hm Hs Hl Hb Hf span mem Hmem.
  assert (span_sectors span = Z.to_nat len) as Hn.
  { unfold span_sectors, span. simpl is_len. change SECTOR with 512. by rewrite Z.div_mul. }
  assert (Z.of_nat (length (md_window mem)) = 262144) as Hwl by exact Hmem.
  assert (∀ window, window = splice (md_window mem) (Z.to_nat (IoSpan_offset span)) (sectors m sector (span_sectors span)) →
    staging window span = sectors m sector (Z.to_nat len) ∧ length window = length (md_window mem)) as Hwin.
  { intros window ->. rewrite Hn. pose proof (length_sectors m sector (Z.to_nat len) Hm) as Hsl.
    unfold IoSpan_offset, span, SECTOR, SECTOR_SIZE in *. simpl is_sector in *. simpl is_len in *. split.
    - apply staging_splice; simpl is_len; unfold IoSpan_offset, SECTOR, SECTOR_SIZE; simpl; lia.
    - apply length_splice. lia. }
  split.
  - destruct (serve_read step sector span mem m) as (mem' & Hsv & Hw). destruct (Hwin _ Hw) as [Hst Hlen].
    exists mem'. split; [unfold mem_ok; by rewrite Hlen|].
    rewrite (serve_try _ _ _ _ _ _ Hsv). rewrite serve_bind, serve_staging. simpl. by rewrite Hst, Hf.
  - apply always_try, read_rule; [done|by eauto|]. intros mem' Hw. destruct (Hwin _ Hw) as [Hst Hlen].
    apply always_bind, staging_rule; [done|]. apply done_rule; [done|]. rewrite Hst, Hf.
    exists mem'. split; [done|]. split; [done|]. unfold mem_ok. by rewrite Hlen.
Qed.

Lemma read_state_reads m : medium_ok m → reads_as m (read_state (replicate BOTH_COPIES 0)) (record_at m).
Proof using Type.
  intros Hm. apply (reads_span m Step_Read STATE_A_SECTOR 0 16 (λ staged, Ok (list_inserts 0 staged (replicate BOTH_COPIES 0))));
    [done|lia|lia|lia|].
  change (sectors m STATE_A_SECTOR (Z.to_nat 16)) with (record_at m).
  by rewrite inserts_all by (rewrite length_replicate; by apply record_at_length).
Qed.

Lemma read_reset_reads m : medium_ok m → reads_as m read_reset (ResetRequest_read (m RESET_REQUEST_SECTOR)).
Proof using Type.
  intros Hm. apply (reads_span m ResetRead RESET_REQUEST_SECTOR 0 1
    (λ staged, Ok (ResetRequest_read (list_inserts 0 staged (replicate RESET_REQUEST_BYTES 0))))); [done|lia|lia|lia|].
  unfold sectors. change (Z.to_nat 1) with 1%nat. cbn [seq fmap list_fmap concat]. rewrite app_nil_r.
  by rewrite inserts_all by (by rewrite length_replicate, Hm).
Qed.

Lemma verify_document_reads m slot entry :
  medium_ok m → entry_ok entry → document_matches sha256 entry (slot_document m slot entry) = Ok tt →
  reads_as m (verify_document sha256 slot entry) tt.
Proof using Type.
  intros Hm (_ & Hlen & _) Hmatch. unfold verify_document. change 0 with (0 * 512) at 1.
  rewrite document_span_eq by (done || lia). pose proof (document_sectors_range _ Hlen) as [Hn Hc].
  set (n := document_sectors (se_len entry)) in *.
  pose proof (length_sectors m (slot_sector slot) (Z.to_nat n) Hm) as Hl. unfold SECTOR_SIZE in Hl.
  apply (reads_span m SlotRead (slot_sector slot) 0 n (λ window,
    match document_matches sha256 entry
      (if (Z.to_nat (se_len entry) <=? length window)%nat then take (Z.to_nat (se_len entry)) window else []) with
    | Ok _ => Ok tt | Err e => Err (Other (Document e)) end)); [done|lia|lia|lia|].
  rewrite (proj2 (Nat.leb_le _ _)) by lia.
  replace (take _ _) with (slot_document m slot entry); [by rewrite Hmatch|].
  unfold slot_document. replace SLOT_SECTORS with (Z.to_nat n + (SLOT_SECTORS - Z.to_nat n))%nat by (unfold SLOT_SECTORS; lia).
  rewrite sectors_app. apply take_app_le. lia.
Qed.

(** A step that reads, then the rest. *)
Lemma reads_then {A B} m (io : Io (Result A EstablishError)) a (f : A → Io (Result B EstablishError)) (Q : Result B EstablishError → World → Prop) mem b :
  reads_as m io a → mem_ok mem →
  (∀ step error mem', Q (Err (EStep step error)) (at_ mem' m [])) →
  (∀ mem', mem_ok mem' →
     (∃ w, serve (f a) (at_ mem' m []) = (Ok b, w)) ∧ always (λ base puts, base = m ∧ puts = []) (f a) Q (at_ mem' m [])) →
  (∃ w, serve (io_try id io f) (at_ mem m []) = (Ok b, w))
  ∧ always (λ base puts, base = m ∧ puts = []) (io_try id io f) Q (at_ mem m []).
Proof using Type.
  intros Hio Hmem He Hf. destruct (Hio mem Hmem) as [(mem' & Hmem' & Hsv) Hal]. split.
  - rewrite (serve_try _ _ _ _ _ _ Hsv). apply Hf, Hmem'.
  - apply always_try. eapply always_mono; [exact Hal|]. intros [a'|e] w _ (mem1 & -> & H1).
    + destruct H1 as [-> Hm1]. by apply Hf.
    + destruct H1 as (step & error & ->). apply He.
Qed.

Lemma running_entry_ok s slot entry : state_ok s → running_slot s = Some (slot, entry) → entry_ok entry.
Proof using Type.
  intros Hs H. unfold running_slot in H. destruct (sl_running (st_slots s)) as [slot'|]; simpl in H; [|done].
  unfold Slots_entry in H. destruct (sl_entries (st_slots s) !! slot') as [[e|]|] eqn:E; simpl in H; simplify_eq.
  destruct (so_slots _ Hs) as (_ & Hf & _). exact (Forall_lookup_1 _ _ _ _ Hf E).
Qed.

(** C9. A boot recovers what the medium durably holds. Over a medium holding a state
    whose identity verifies and no reset request, a device that honours its requests
    establishes exactly that state: its name, generation, ownership, endpoint and
    newest version, nothing minted, and the running document verified against its
    digest. Whatever the device does, a boot writes nothing to such a medium, every
    answer it gives is that state (its document possibly unread), and every refusal
    is a transfer of the device's that failed. *)
Theorem boot_recovers m s mem capacity minted fingerprint :
  durable sha256 m s → mem_ok mem → Z.of_nat STORE_SECTORS ≤ capacity → verify s = Ok fingerprint →
  ResetRequest_read (m RESET_REQUEST_SECTOR) = Absent →
  (∃ w, serve (establish sha256 public_of verify capacity minted) (powered mem m)
        = (Ok (established s fingerprint (running_document s)), w))
  ∧ ∀ w r, run (establish sha256 public_of verify capacity minted) (powered mem m) w r →
      wd_base w = m ∧ wd_puts w = []
      ∧ match r with
        | Some (Ok e) => ∃ c, e = established s fingerprint c
            ∧ (c = running_document s ∨ ∃ step error, c = Some (Err (transfer_refusal step error)))
        | Some (Err e) => ∃ step error, e = EStep step error
        | None => True
        end.
Proof using Type.
  intros Hd Hmem Hcap Hver Habs. pose proof (du_medium _ _ _ Hd) as Hm.
  set (Q := λ (r : Result Established EstablishError) (w : World),
    match r with
    | Ok e => ∃ c, e = established s fingerprint c
            ∧ (c = running_document s ∨ ∃ step error, c = Some (Err (transfer_refusal step error)))
    | Err e => ∃ step error, e = EStep step error
    end).
  assert ((∃ w, serve (establish sha256 public_of verify capacity minted) (powered mem m)
                = (Ok (established s fingerprint (running_document s)), w))
    ∧ always (λ base puts, base = m ∧ puts = []) (establish sha256 public_of verify capacity minted) Q (powered mem m)) as [Hs Ha].
  { unfold establish. rewrite (proj2 (Z.ltb_ge _ _)) by done.
    apply (reads_then m _ _ _ _ mem _ (read_state_reads m Hm)); [done|intros ???; hnf; by eauto|]. intros mem1 Hmem1.
    apply (reads_then m _ _ _ _ mem1 _ (read_reset_reads m Hm)); [done|intros ???; hnf; by eauto|]. intros mem2 Hmem2.
    rewrite Habs. simpl ResetRequest_is_requested. cbv iota.
    pose proof (du_read _ _ _ Hd) as Hr. unfold checked_state in Hr.
    destruct (decode_state sha256 (record_at m)) as [image|]; simpl in Hr; [|done].
    destruct (StateImage_check image) as [s'|]; [|done]. injection Hr as ->. rewrite Hver.
    unfold running_document. destruct (running_slot s) as [[slot entry]|] eqn:Hrun.
    - destruct (verify_document_reads m slot entry Hm (running_entry_ok _ _ _ (du_state _ _ _ Hd) Hrun)
        (du_running _ _ _ Hd _ _ Hrun) mem2 Hmem2) as [(mem3 & Hmem3 & Hsv) Hal]. split.
      + rewrite !serve_bind, Hsv. by eexists.
      + apply always_bind, always_bind. eapply always_mono; [exact Hal|]. intros r w _ (mem4 & -> & H4).
        apply done_rule; [done|]. apply done_rule; [done|]. destruct r as [[]|e].
        * eexists. split; [done|]. left. unfold running_document. by rewrite Hrun.
        * destruct H4 as (step & error & ->). eexists. split; [done|]. right. by eauto.
    - split; [by eexists|]. apply always_bind, done_rule; [done|]. apply done_rule; [done|].
      eexists. split; [done|]. left. unfold running_document. by rewrite Hrun. }
  split; [done|]. intros w r Hrun. destruct (always_sound _ _ _ _ _ _ Hrun Ha) as [[-> ->] HQ].
  split; [done|]. split; [done|]. destruct r as [[e|e]|]; [apply (HQ _ eq_refl)|apply (HQ _ eq_refl)|done].
Qed.
End Boot.
