(* ===== verification/StoreLive.v ===== *)
(** * A device that works is served

    Runs of the device that honours everything: they are runs ([serve_run]), and over
    them every acceptable request is answered, and its successor durable. *)
From stdpp Require Import strings.
From S2P Require Import Prelude Layout Store StoreRecord StoreMedium StoreDevice StoreCrash StoreRequests StoreBoot.
#[local] Open Scope list_scope.
#[local] Open Scope Z_scope.

(** A transfer names a span and a flush none. *)
Fixpoint io_wf {A} (io : Io A) : Prop :=
  match io with
  | IoDone _ => True
  | IoLocal edit k => ∀ mem, io_wf (k mem)
  | IoRequest operation sector span k =>
      match operation, span with Read, Some _ | Write, Some _ | Flush, None => True | _, _ => False end
      ∧ ∀ answer, io_wf (k answer)
  end.

Create HintDb io_wf.

Lemma io_wf_bind {A B} (io : Io A) (f : A → Io B) : io_wf io → (∀ a, io_wf (f a)) → io_wf (io_bind io f).
Proof.
  intros Hio Hf. induction io as [a|edit k IH|operation sector span k IH]; simpl in *; [done|by auto|].
  destruct Hio. by auto.
Qed.

Lemma io_wf_try {A B E F} (from : E → F) (io : Io (Result A E)) (f : A → Io (Result B F)) :
  io_wf io → (∀ a, io_wf (f a)) → io_wf (io_try from io f).
Proof. intros Hio Hf. apply io_wf_bind; [done|]. by intros []. Qed.

Lemma io_wf_transfer step operation sector span : operation ≠ Flush → io_wf (transfer step operation sector span).
Proof.
  intros Ho. split; [by destruct operation|]. intros [|token [c|]]; simpl; try done. unfold judge. by repeat case_match.
Qed.

Lemma io_wf_barrier : io_wf barrier.
Proof. split; [done|]. intros [|token [c|]]; simpl; try done. by repeat case_match. Qed.

Lemma io_wf_done {A} (a : A) : io_wf (IoDone a).
Proof. done. Qed.
Lemma io_wf_stage span edit : io_wf (io_stage span edit).
Proof. done. Qed.
Lemma io_wf_staging span : io_wf (io_staging span).
Proof. done. Qed.
#[export] Hint Resolve io_wf_barrier io_wf_done io_wf_stage io_wf_staging : io_wf.
#[export] Hint Extern 1 (io_wf (transfer _ _ _ _)) => apply io_wf_transfer; discriminate : io_wf.

Ltac io_wf :=
  cbv zeta; repeat
    match goal with
    | |- ∀ _, _ => intro
    | |- io_wf (io_try _ _ _) => apply io_wf_try
    | |- io_wf (io_bind _ _) => apply io_wf_bind
    | |- io_wf (match ?x with _ => _ end) => destruct x
    | |- io_wf _ => solve [auto 2 with io_wf nocore]
    end.

Lemma io_wf_read_state region : io_wf (read_state region).
Proof. unfold read_state. io_wf. Qed.
Lemma io_wf_commit sha256 region state copies : io_wf (commit sha256 region state copies).
Proof. unfold commit. io_wf. Qed.
Lemma io_wf_write_document slot len : io_wf (write_document slot len).
Proof. unfold write_document. io_wf. Qed.
Lemma io_wf_verify_document sha256 slot entry : io_wf (verify_document sha256 slot entry).
Proof. unfold verify_document. io_wf. Qed.
Lemma io_wf_read_reset : io_wf read_reset.
Proof. unfold read_reset. io_wf. Qed.
Lemma io_wf_clear_reset : io_wf clear_reset.
Proof. unfold clear_reset. io_wf. Qed.
Lemma io_wf_overwrite_loop fuel sector : io_wf (overwrite_loop fuel sector).
Proof. revert sector. induction fuel as [|fuel IH]; intros sector; simpl overwrite_loop; io_wf; auto. Qed.
#[export] Hint Resolve io_wf_overwrite_loop : io_wf.
Lemma io_wf_overwrite_store : io_wf overwrite_store.
Proof. unfold overwrite_store. io_wf. Qed.
Lemma io_wf_take_snapshot staged : io_wf (take_snapshot staged).
Proof. unfold take_snapshot. io_wf. Qed.
Lemma io_wf_read_back sha256 verify absent : io_wf (read_back sha256 verify absent).
Proof. unfold read_back. apply io_wf_try; [apply io_wf_read_state|]. io_wf. Qed.
#[export] Hint Resolve io_wf_read_state io_wf_commit io_wf_write_document io_wf_verify_document io_wf_read_reset
  io_wf_clear_reset io_wf_overwrite_store io_wf_take_snapshot io_wf_read_back : io_wf.

Lemma serve_run {A} (io : Io A) w :
  io_wf io → forallb pt_taken (wd_puts w) = true → run io w (serve io w).2 (Some (serve io w).1).
Proof.
  revert w. induction io as [a|edit k IH|operation sector span k IH]; intros w Hwf Ht; simpl in *.
  - apply run_done.
  - apply run_local, IH; [apply Hwf|done].
  - destruct Hwf as [Hop Hk]. assert (honoured operation span (good_answer operation span) = true) as Hh.
    { unfold honoured, good_answer. simpl. rewrite !bool_decide_true by done. destruct span; simpl; [apply Z.eqb_refl|done]. }
    eapply run_request; [|apply IH; [apply Hk|]].
    + destruct operation, span as [span|]; try done; simpl.
      * apply device_reads; [by apply Is_true_true|]. unfold shows. by rewrite Ht.
      * rewrite <- Hh. by apply device_writes.
      * apply device_flushes; [by apply Is_true_true|]. unfold shows. by rewrite Ht.
    + destruct operation, span as [span|]; try done; simpl. by rewrite forallb_app, Ht.
Qed.

(** ** The steps of the good device *)
Lemma serve_write step sector span mem m puts :
  ∃ w, serve (transfer step Write sector span) (at_ mem m puts) = (Ok tt, w).
Proof. eexists. simpl. unfold judge. simpl. rewrite Z.eqb_refl. reflexivity. Qed.

Lemma serve_ok_write {A E} (from : EstablishError → E) step sector span (f : unit → Io (Result A E)) w :
  (∀ w, ∃ a w', serve (f tt) w = (Ok a, w')) → ∃ a w', serve (io_try from (transfer step Write sector span) f) w = (Ok a, w').
Proof.
  intros Hf. destruct w as [mem m puts]. destruct (serve_write step sector span mem m puts) as [w' Hw].
  rewrite (serve_try _ _ _ _ _ _ Hw). apply Hf.
Qed.

Lemma serve_barrier w : ∃ w', serve barrier w = (Ok tt, w').
Proof. eexists. reflexivity. Qed.

Section Live.
Context (sha256 : list Z → list Z).
Context (sha256_digest : ∀ m, length (sha256 m) = DIGEST_LEN ∧ bytes_ok (sha256 m)).
Context (verify : State → Result (list Z) IdentityError).
Context (package_read : list Z → list Z → Result Package (string * RefusalDetail)).

Lemma io_wf_handle d : io_wf (handle sha256 package_read verify d).
Proof using Type.
  destruct d; unfold handle, place_document, take_ownership; io_wf.
Qed.

Lemma serve_commit region s copies w : state_ok s → length region = BOTH_COPIES →
  ∃ image w', serve (commit sha256 region s copies) w = (Ok image, w').
Proof using sha256_digest.
  intros Hs Hreg. destruct (commit_staged sha256 sha256_digest region s copies Hs Hreg) as (image & span & -> & _).
  rewrite serve_bind. apply serve_ok_write. intros w1. destruct (serve_barrier w1) as [w2 Hb].
  rewrite (serve_try _ _ _ _ _ _ Hb). simpl. by eauto.
Qed.

Lemma serve_write_document slot len w : 0 < len ≤ DOCUMENT_BYTES → ∃ w', serve (write_document slot len) w = (Ok tt, w').
Proof using Type.
  intros Hlen. unfold write_document. change SNAPSHOT_AT with (256 * 512). rewrite document_span_eq by (done || lia).
  rewrite serve_bind. destruct (serve_ok_write id SlotWrite (slot_sector slot)
    {| is_sector := 256; is_len := document_sectors len * 512 |} (λ _, barrier)
    (serve (io_stage {| is_sector := 256; is_len := document_sectors len * 512 |}
       (λ window, take (Z.to_nat len) window ++ replicate (length window - Z.to_nat len) 0)) w).2) as ([] & w' & Hw); [|by eauto].
  intros w1. destruct (serve_barrier w1). by eauto.
Qed.

Lemma serve_read_back m s mem fingerprint absent : durable sha256 m s → mem_ok mem → verify s = Ok fingerprint →
  ∃ mem', mem_ok mem' ∧ serve (read_back sha256 verify absent) (at_ mem m []) = (Ok (record_at m, s), at_ mem' m []).
Proof using Type.
  intros Hd Hmem Hv. destruct (read_state_reads m (du_medium _ _ _ Hd) mem Hmem) as [(mem' & Hmem' & Hsv) _].
  exists mem'. split; [done|]. unfold read_back. rewrite (serve_try _ _ _ _ _ _ Hsv). simpl.
  pose proof (du_read _ _ _ Hd) as Hr. unfold checked_state in Hr.
  destruct (decode_state sha256 (record_at m)) as [image|]; simpl in Hr; [|done].
  destruct (StateImage_check image) as [s'|]; [|done]. injection Hr as ->. by rewrite Hv.
Qed.

Lemma serve_snapshot mem m staged : mem_ok mem → Z.of_nat (length staged) = MAX_INSTALL_ARCHIVE →
  ∃ w, serve (take_snapshot staged) (at_ mem m []) = (staged, w).
Proof using Type.
  intros Hmem Hl. pose proof (serve_run (take_snapshot staged) (at_ mem m []) (io_wf_take_snapshot staged) eq_refl) as Hrun.
  pose proof (snapshot_rule (λ _ _, True) mem m [] staged (λ a _, a = staged) Hmem Hl I (λ mem' _ _, eq_refl)) as Ha.
  destruct (serve (take_snapshot staged) (at_ mem m [])) as [a w]. exists w. f_equal.
  by apply (always_sound _ _ _ _ _ _ Hrun Ha).
Qed.

(** What a demand must be for the rules to admit it. *)
Definition acceptable (s : State) (d : Demand) : Prop :=
  match d with
  | RecordConfig generation stated_len _ =>
      Slots_newest_generation (st_slots s) < generation ∧ 0 < stated_len ≤ DOCUMENT_BYTES
  | Install stated_len staged =>
      st_onboarding s = Unowned ∧ stated_len ≤ Z.of_nat (length staged)
      ∧ ∃ package adoption, package_read (take (Z.to_nat stated_len) staged) (st_public s) = Ok package
                            ∧ adoption_of sha256 package = Ok adoption
  end.

Lemma serve_place m s mem generation stated_len staged fingerprint :
  package_sound package_read → durable sha256 m s → st_generation s < u64_max → mem_ok mem → verify s = Ok fingerprint →
  demand_ok (RecordConfig generation stated_len staged) → acceptable s (RecordConfig generation stated_len staged) →
  ∃ a w, serve (place_document sha256 verify generation stated_len staged) (at_ mem m []) = (Ok a, w).
Proof using sha256_digest.
  intros Hpk Hd Hmax Hmem Hv Hdem [Hnew Hlen]. pose proof Hdem as (Hgen & Hst & Hl). unfold place_document.
  destruct (serve_read_back m s mem fingerprint "config-record-absent" Hd Hmem Hv) as (mem1 & Hmem1 & Hrb).
  rewrite (serve_try _ _ _ _ _ _ Hrb), serve_bind. destruct (serve_snapshot mem1 m staged Hmem1 Hl) as [w2 ->]. cbn [fst snd].
  change MAX_INSTALL_ARCHIVE with 131072 in Hl. change DOCUMENT_BYTES with 65536 in *.
  rewrite (proj2 (Z.ltb_ge _ _)) by lia. unfold staged_entry.
  assert (Z.of_nat (length (take (Z.to_nat stated_len) staged)) = stated_len) as -> by (rewrite length_take; lia).
  change DOCUMENT_BYTES with 65536. pose proof (newest_nonneg (st_slots s)).
  rewrite (proj2 (Z.eqb_neq stated_len 0)), (proj2 (Z.ltb_ge 65536 stated_len)), (proj2 (Z.eqb_neq generation 0)),
    (proj2 (Z.leb_gt generation _)) by lia.
  destruct (next_for_reuse_some (st_slots s) (so_slots _ (du_state _ _ _ Hd))) as (reuse & -> & Hslot & Hnamed).
  cbn [se_len]. destruct (serve_write_document (Reuse_slot reuse) stated_len w2 Hlen) as [w3 Hw].
  rewrite (serve_try _ _ _ _ _ _ Hw).
  destruct (evolves_ok sha256 sha256_digest package_read s _ _ Hpk (du_state _ _ _ Hd) Hmax Hdem
    (evolves_records sha256 package_read s generation stated_len staged (Reuse_slot reuse) Hnew Hlen ltac:(lia) Hslot Hnamed)) as [Hs' _].
  destruct (serve_commit (record_at m) _ Parity w3 Hs' (record_at_length m (du_medium _ _ _ Hd))) as (image & w4 & Hc).
  rewrite (serve_try _ _ _ _ _ _ Hc). simpl. by eauto.
Qed.

Lemma serve_install m s mem stated_len staged fingerprint :
  package_sound package_read → durable sha256 m s → st_generation s < u64_max → mem_ok mem → verify s = Ok fingerprint →
  demand_ok (Install stated_len staged) → acceptable s (Install stated_len staged) →
  ∃ a w, serve (take_ownership sha256 verify package_read stated_len staged) (at_ mem m []) = (Ok a, w).
Proof using sha256_digest.
  intros Hpk Hd Hmax Hmem Hv Hdem (Hun & Hin & package & adoption & Hread & Hof). pose proof Hdem as (Hst & Hl). unfold take_ownership.
  destruct (serve_read_back m s mem fingerprint "install-record-absent" Hd Hmem Hv) as (mem1 & Hmem1 & Hrb).
  rewrite (serve_try _ _ _ _ _ _ Hrb), serve_bind. destruct (serve_snapshot mem1 m staged Hmem1 Hl) as [w2 ->]. cbn [fst snd].
  unfold read_package. rewrite Hun, (proj2 (Z.ltb_ge _ _)), Hread, Hof by lia.
  destruct (evolves_ok sha256 sha256_digest package_read s _ _ Hpk (du_state _ _ _ Hd) Hmax Hdem
    (evolves_adopts sha256 package_read s stated_len staged package adoption Hun Hin Hread Hof)) as [Hs' _].
  destruct (serve_commit (record_at m) _ Parity w2 Hs' (record_at_length m (du_medium _ _ _ Hd))) as (image & w4 & Hc).
  rewrite (serve_try _ _ _ _ _ _ Hc). simpl. by eauto.
Qed.

Lemma handle_runs m s mem d fingerprint :
  package_sound package_read → demand_ok d → durable sha256 m s → st_generation s < u64_max → mem_ok mem →
  verify s = Ok fingerprint → acceptable s d →
  ∃ w, serve (handle sha256 package_read verify d) (powered mem m) = (Ok tt, w)
    ∧ run (handle sha256 package_read verify d) (powered mem m) w (Some (Ok tt)).
Proof using sha256_digest.
  intros Hpk Hdem Hd Hmax Hmem Hv Hacc.
  assert (∃ w, serve (handle sha256 package_read verify d) (powered mem m) = (Ok tt, w)) as [w Hw].
  { destruct d; unfold handle; [destruct (serve_place m s mem generation stated_len staged fingerprint) as (a & w & Hsv)
      |destruct (serve_install m s mem stated_len staged fingerprint) as (a & w & Hsv)]; try done;
      rewrite (serve_try _ _ _ _ _ _ Hsv); by eexists. }
  exists w. split; [done|].
  pose proof (serve_run (handle sha256 package_read verify d) (powered mem m) (io_wf_handle d) eq_refl) as Hrun.
  by rewrite Hw in Hrun.
Qed.

(** C15. A device that works is served. Over a medium that durably holds a state whose
    identity verifies, and a device that honours its requests, every demand the rules
    admit is answered well: a document past every recorded version and within a slot,
    a package for an appliance nobody owns. When it is answered nothing is left behind
    a flush, and the medium durably holds the state the demand names. *)
Theorem good_device_completes m s mem d fingerprint :
  package_sound package_read → demand_ok d → durable sha256 m s → st_generation s < u64_max → mem_ok mem →
  verify s = Ok fingerprint → acceptable s d →
  ∃ w s', serve (handle sha256 package_read verify d) (powered mem m) = (Ok tt, w)
    ∧ wd_puts w = [] ∧ evolves sha256 package_read s d s' ∧ durable sha256 (wd_base w) s'.
Proof using sha256_digest.
  intros Hpk Hdem Hd Hmax Hmem Hv Hacc. destruct (handle_runs m s mem d fingerprint) as (w & Hw & Hrun); try done.
  destruct (always_sound _ _ _ _ _ _ Hrun (handle_rule sha256 sha256_digest package_read verify m s mem d Hpk Hdem Hd Hmax Hmem)) as [_ HQ].
  destruct (HQ _ eq_refl) as (s' & Hev & Hp & Hd'). by exists w, s'.
Qed.
End Live.
