(* ===== verification/StoreReset.v ===== *)
(** * Minting and the factory reset

    A mint writes both copies behind one barrier; a factory reset gives up its request
    and makes that durable before it destroys anything, then overwrites the whole
    layout, then mints. *)
From stdpp Require Import strings.
From S2P Require Import Prelude Layout Store StoreRecord StoreMedium StoreDevice StoreCrash StoreRequests StoreBoot StoreLive.
#[local] Open Scope list_scope.
#[local] Open Scope Z_scope.

Definition zeros : list Z := replicate SECTOR_SIZE 0.

(** ** Writes of zeroes *)
Definition zero_put (p : Put) : Prop := ∃ n, pt_bytes p = replicate (n * SECTOR_SIZE) 0.

Lemma slice_zeros a k n : (a + k ≤ n)%nat → slice (replicate n 0) a k = replicate k 0.
Proof. intros. unfold slice. rewrite drop_replicate, take_replicate. f_equal. lia. Qed.

Lemma put_zero p m s : zero_put p → put p m s = if covers p s then zeros else m s.
Proof.
  intros [n Hn]. unfold put. destruct (covers p s) eqn:E; [|done]. rewrite Hn. apply slice_zeros.
  unfold covers in E. apply andb_true_iff in E as [_ E%Nat.ltb_lt]. revert E. rewrite Hn, length_replicate.
  unfold SECTOR_SIZE. lia.
Qed.

Lemma view_snoc puts p m : view (puts ++ [p]) m = put p (view puts m).
Proof. unfold view. by rewrite foldl_app. Qed.

Lemma view_zeros puts m s : Forall zero_put puts → m s = zeros → view puts m s = zeros.
Proof.
  intros Hz Hm. induction puts as [|p puts IH] using rev_ind; [done|].
  apply Forall_app in Hz as [Hz Hp]. rewrite Forall_singleton in Hp. rewrite view_snoc, put_zero by done.
  destruct (covers p s); [done|]. by apply IH.
Qed.

Lemma view_covered puts m s p : Forall zero_put puts → p ∈ puts → covers p s → view puts m s = zeros.
Proof.
  intros Hz Hin Hc. induction puts as [|q puts IH] using rev_ind; [by apply not_elem_of_nil in Hin|].
  apply Forall_app in Hz as [Hz Hq]. rewrite Forall_singleton in Hq. rewrite view_snoc, put_zero by done.
  destruct (covers q s) eqn:E; [done|]. apply IH; [done|]. apply elem_of_app in Hin as [|Hin]; [done|].
  apply list_elem_of_singleton in Hin as ->. by rewrite E in Hc.
Qed.

Lemma view_ok puts m : Forall zero_put puts → medium_ok m → medium_ok (view puts m).
Proof.
  intros Hz Hm. induction puts as [|p puts IH] using rev_ind; [done|].
  apply Forall_app in Hz as [Hz Hp]. rewrite Forall_singleton in Hp. rewrite view_snoc.
  destruct Hp as [n Hn]. apply (put_ok p _ n); [by rewrite Hn, length_replicate|by apply IH].
Qed.

Lemma overwrite_span k : 1 ≤ k ≤ 512 → IoSpan_at_offset 0 (sectors_bytes k) = Some {| is_sector := 0; is_len := k * 512 |}.
Proof.
  intros Hk. unfold sectors_bytes, IoSpan_at_offset, IoSector_new, IoSpan_new. change SECTOR with 512.
  change IO_SECTORS with 512. change BLK_IO_REGION_SIZE with 262144. change u32_max with 4294967295.
  replace (saturating_mul 64 k 512) with (k * 512) by (unfold saturating_mul; change (2 ^ 64) with 18446744073709551616; lia).
  cbv zeta. replace (k * 512 <=? 4294967295) with true by lia.
  change (0 mod 512 =? 0) with true. change (0 / 512 <? 512) with true. cbn [negb mbind option_bind].
  replace (k * 512 =? 0) with false by lia. change (0 / 512) with 0.
  by replace (0 * 512 + k * 512 <=? 262144) with true by lia.
Qed.

Section Reset.
Context (sha256 : list Z → list Z).
Context (sha256_digest : ∀ m, length (sha256 m) = DIGEST_LEN ∧ bytes_ok (sha256 m)).
Context (public_of : list Z → option (list Z)).
Context (verify : State → Result (list Z) IdentityError).

(** ** The overwrite *)
Definition zero_window (mem : Mem) : Prop := md_window mem = replicate (Z.to_nat 262144) 0.

Lemma zero_staging mem k : zero_window mem → 0 ≤ k ≤ 512 →
  staging (md_window mem) {| is_sector := 0; is_len := k * 512 |} = replicate (Z.to_nat k * SECTOR_SIZE) 0.
Proof using Type.
  intros Hz Hk. unfold staging. rewrite Hz. simpl is_len. change (Z.to_nat (IoSpan_offset _)) with 0%nat.
  rewrite drop_0, take_replicate. f_equal. unfold SECTOR_SIZE. lia.
Qed.

(** The writes so far are taken, of zeroes, and reach up to [sector]. *)
Record erasing (puts : list Put) (sector : Z) : Prop := {
  er_taken : forallb pt_taken puts = true;
  er_zero : Forall zero_put puts;
  er_reach : ∀ s, Z.of_nat s < sector → ∃ p, p ∈ puts ∧ covers p s
}.

Lemma overwrite_loop_rule P m fuel sector puts mem Q :
  (∀ puts, Forall zero_put puts → P m puts) → (∀ step error w, Q (Err (EStep step error)) w) →
  (∀ mem' puts', zero_window mem' → erasing puts' (Z.of_nat STORE_SECTORS) → Q (Ok tt) (at_ mem' m puts')) →
  zero_window mem → erasing puts sector → 0 ≤ sector ≤ Z.of_nat STORE_SECTORS →
  (Z.of_nat STORE_SECTORS ≤ sector + Z.of_nat fuel) →
  always P (overwrite_loop fuel sector) Q (at_ mem m puts).
Proof using Type.
  intros HP He Hok. revert sector puts mem. induction fuel as [|fuel IH]; intros sector puts mem Hz Her Hs Hf; simpl overwrite_loop.
  - apply done_rule; [apply HP, Her|]. apply Hok; [done|]. by replace (Z.of_nat STORE_SECTORS) with sector by lia.
  - change (Z.of_nat STORE_SECTORS) with 1048 in *. destruct (Z.ltb_spec sector 1048) as [Hlt|].
    2: { apply done_rule; [apply HP, Her|]. apply Hok; [done|]. by replace 1048 with sector by lia. }
    set (k := Z.min (saturating_sub 1048 sector) OVERWRITE_SECTORS).
    assert (1 ≤ k ≤ 512 ∧ sector + k ≤ 1048) as [Hk Hsk].
    { unfold k, saturating_sub. change OVERWRITE_SECTORS with 512. lia. }
    rewrite overwrite_span by done.
    apply always_try, write_rule; cbv zeta; rewrite ?zero_staging by (done || lia).
    + apply HP, Her.
    + intros taken. apply HP, Forall_app. split; [apply Her|]. apply Forall_singleton. by eexists.
    + intros; apply He.
    + intros; apply He.
    + intros mem' Hw. assert (saturating_add 64 sector k = sector + k) as ->
        by (unfold saturating_add; change (2 ^ 64) with 18446744073709551616; lia).
      set (p := {| pt_sector := Z.to_nat sector; pt_bytes := replicate (Z.to_nat k * SECTOR_SIZE) 0; pt_taken := true |}).
      apply IH; [by unfold zero_window; rewrite Hw| |lia|lia]. destruct Her as [Ht Hzz Hr]. split.
      * rewrite forallb_app, Ht. done.
      * apply Forall_app. split; [done|]. apply Forall_singleton. by eexists.
      * intros s Hss. destruct (decide (Z.of_nat s < sector)) as [Hl|Hl].
        -- destruct (Hr s Hl) as (q & Hq & Hc). exists q. split; [|done]. apply elem_of_app. by left.
        -- exists p. split; [apply elem_of_app; right; by apply list_elem_of_singleton|].
           apply Is_true_true, (covers_true p s (Z.to_nat k)); simpl; [by rewrite length_replicate|lia].
Qed.

Lemma zeroed_window mem mem' : mem_ok mem →
  md_window mem' = splice (md_window mem) 0 (replicate (length (staging (md_window mem) {| is_sector := 0; is_len := 262144 |})) 0) →
  zero_window mem'.
Proof using Type.
  intros Hmem Hw. assert (Z.of_nat (length (md_window mem)) = 262144) as Hl by exact Hmem. unfold zero_window. rewrite Hw.
  rewrite length_staging by (simpl is_len; change (Z.to_nat (IoSpan_offset _)) with 0%nat; lia). simpl is_len.
  unfold splice. rewrite length_replicate, drop_ge by lia. simpl take. by rewrite app_nil_r.
Qed.

(** What the layout holds once it is overwritten. *)
Definition erased (m : Medium) : Prop := medium_ok m ∧ (∀ s, (s < STORE_SECTORS)%nat → m s = zeros).

Lemma overwrite_store_rule P m mem Q :
  mem_ok mem → medium_ok m → (∀ puts, Forall zero_put puts → P m puts) →
  (∀ m', erased m' → P m' []) → (∀ step error w, Q (Err (EStep step error)) w) →
  (∀ mem' m', zero_window mem' → erased m' → Q (Ok tt) (at_ mem' m' [])) →
  always P overwrite_store Q (at_ mem m []).
Proof using Type.
  intros Hmem Hm HP HPe He Hok. unfold overwrite_store.
  change (IoSpan_at_offset 0 BLK_IO_REGION_SIZE) with (Some {| is_sector := 0; is_len := 262144 |}). cbv iota.
  apply always_bind, stage_rule; [by apply HP|]. intros mem1 Hw.
  apply (zeroed_window mem) in Hw; [|done].
  apply always_try, overwrite_loop_rule; try done; [|by split; try done; intros s Hs; lia].
  intros mem2 puts Hz [Ht Hzz Hr].
  assert (erased (view puts m)) as Her.
  { split; [by apply view_ok|]. intros s Hs. destruct (Hr s) as (p & Hp & Hc); [lia|]. by apply (view_covered puts m s p). }
  apply barrier_rule; [done|by apply HP|by apply HPe|intros; apply He|by apply Hok].
Qed.

(** ** The mint *)
Lemma both_put_length s taken : state_ok s →
  length (pt_bytes (both_put sha256 s taken)) = ((2 * STATE_COPY_SECTORS) * SECTOR_SIZE)%nat.
Proof using sha256_digest.
  intros Hs. simpl. rewrite length_app, (proj1 (compose_shape sha256 sha256_digest s Hs)). done.
Qed.

Lemma both_put_durable m s taken : medium_ok m → state_ok s → running_slot s = None → durable sha256 (put (both_put sha256 s taken) m) s.
Proof using sha256_digest.
  intros Hm Hs Hrun. set (p := both_put sha256 s taken). pose proof (both_put_length s taken Hs) as Hl. fold p in Hl.
  assert (medium_ok (put p m)) as Hm' by (by eapply put_ok).
  assert (record_at (put p m) = compose sha256 s ++ compose sha256 s) as Hr by (by apply (put_here p m (2 * STATE_COPY_SECTORS))).
  rewrite record_at_copies in Hr. apply app_inj_1 in Hr as [HA HB];
    [|by rewrite length_copy_at, (proj1 (compose_shape sha256 sha256_digest s Hs))].
  split; [done|done| | |by intros slot entry; rewrite Hrun].
  - unfold checked_state. rewrite decode_record by done. rewrite (copy_decodes sha256 sha256_digest _ _ _ Hs HA).
    rewrite (copy_decodes sha256 sha256_digest _ _ _ Hs HB). by rewrite Z.ltb_irrefl.
  - by destruct (sectors_of_parity s) as [[-> _]|[-> _]].
Qed.

(** ** The factory reset *)
Definition clear_put (taken : bool) : Put := {| pt_sector := RESET_REQUEST_SECTOR; pt_bytes := zeros; pt_taken := taken |}.

Lemma clear_reset_rule P mem m Q :
  mem_ok mem → P m [] → (∀ taken, P m [clear_put taken]) → P (put (clear_put true) m) [] →
  (∀ step error w, Q (Err (EStep step error)) w) →
  (∀ mem', mem_ok mem' → Q (Ok tt) (at_ mem' (put (clear_put true) m) [])) →
  always P clear_reset Q (at_ mem m []).
Proof using Type.
  intros Hmem HP HPw HPd He Hok. unfold clear_reset.
  change (IoSpan_at_offset 0 (Z.of_nat RESET_REQUEST_BYTES)) with (Some {| is_sector := 0; is_len := 512 |}). cbv iota.
  assert (Z.of_nat (length (md_window mem)) = 262144) as Hwl by exact Hmem.
  apply always_bind, stage_rule; [done|]. intros mem' Hw.
  rewrite length_staging in Hw by (simpl; lia). change (Z.to_nat (is_len _)) with SECTOR_SIZE in Hw. fold zeros in Hw.
  assert (mem_ok mem') as Hmem' by (eapply mem_ok_splice; [exact Hmem|exact Hw|change (length zeros) with 512%nat; change (Z.to_nat (IoSpan_offset _)) with 0%nat; lia]).
  assert (staging (md_window mem') {| is_sector := 0; is_len := 512 |} = zeros) as Hst
    by (rewrite Hw; apply staging_splice; [simpl; lia|done]).
  apply always_try, write_rule; cbv zeta; rewrite ?Hst; try done; try (intros; apply He).
  intros mem'' Hw''. apply barrier_rule; [done|apply (HPw true)|apply HPd|intros; apply He|].
  apply Hok. unfold mem_ok. by rewrite Hw''.
Qed.

(** Nothing but the request's sector has changed, or the request is gone. *)
Definition request_first (m : Medium) (base : Medium) (puts : list Put) : Prop :=
  ∀ m', scattered base puts m' →
    (∀ s, s ≠ RESET_REQUEST_SECTOR → m' s = m s) ∨ m' RESET_REQUEST_SECTOR = zeros.

Lemma request_in_layout : (2 * STATE_COPY_SECTORS ≤ RESET_REQUEST_SECTOR < STORE_SECTORS)%nat.
Proof using Type. split; apply Nat.leb_le; reflexivity. Qed.

Lemma zeros_absent : ResetRequest_read zeros = Absent.
Proof using Type. vm_compute. reflexivity. Qed.

Lemma request_first_quiet m : request_first m m [].
Proof using Type. intros m' Hsc. left. intros s _. by apply scattered_none. Qed.

Lemma request_first_clearing m taken : request_first m m [clear_put taken].
Proof using Type.
  intros m' Hsc. left. intros s Hs. destruct (scattered_one _ _ _ Hsc s) as [->| ->]; [done|].
  unfold put. rewrite (covers_false _ s 1); [done|done|cbn [clear_put pt_sector]; lia].
Qed.

Lemma request_first_gone m base puts : base RESET_REQUEST_SECTOR = zeros →
  Forall (λ p, zero_put p ∨ covers p RESET_REQUEST_SECTOR = false) puts → request_first m base puts.
Proof using Type.
  intros Hb Hp m' Hsc. right. destruct (Hsc RESET_REQUEST_SECTOR) as [k ->].
  apply (Forall_take _ k) in Hp. induction (take k puts) as [|p ps IH] using rev_ind; [done|].
  apply Forall_app in Hp as [Hps Hp]. rewrite Forall_singleton in Hp. rewrite view_snoc. destruct Hp as [Hz|Hc].
  - rewrite put_zero by done. destruct (covers _ _); [done|]. by apply IH.
  - unfold put. rewrite Hc. by apply IH.
Qed.

(** A mint's state is one of this build's with no document in it. *)
Definition minted_ok (minted : Result (State * list Z) StartupError) : Prop :=
  ∀ state fingerprint, minted = Ok (state, fingerprint) → state_ok state ∧ running_slot state = None.

Definition reset_done (m : Medium) (minted : Result (State * list Z) StartupError) (r : Result Established EstablishError) (w : World) : Prop :=
  match r with
  | Ok e => ∃ state fingerprint, minted = Ok (state, fingerprint) ∧ es_minted e = true
      ∧ es_reset e = Some (Cleared_of (checked_state sha256 (record_at m)))
      ∧ wd_puts w = [] ∧ durable sha256 (wd_base w) state
      ∧ ∀ s, (2 * STATE_COPY_SECTORS ≤ s < STORE_SECTORS)%nat → wd_base w s = zeros
  | Err (Other error) => minted = Err error ∧ wd_puts w = [] ∧ erased (wd_base w)
  | Err (EStep _ _) => True
  end.

Lemma mint_rule m z mem minted region cleared :
  minted_ok minted → mem_ok mem → erased z → length region = BOTH_COPIES →
  cleared = Cleared_of (checked_state sha256 (record_at m)) →
  always (request_first m)
    (try? e <- mint_identity sha256 public_of region minted; IoDone (Ok (e <| es_reset := Some cleared |>)))
    (reset_done m minted) (at_ mem z []).
Proof using sha256_digest.
  intros Hmint Hmem [Hzok Hz] Hreg ->. assert (z RESET_REQUEST_SECTOR = zeros) as Hz16 by (apply Hz, request_in_layout).
  unfold mint_identity. destruct minted as [[state fingerprint]|error].
  2: { apply always_try, done_rule; [by apply request_first_gone|]. by split_all. }
  destruct (Hmint _ _ eq_refl) as [Hs Hrun]. set (p := both_put sha256 state true).
  assert (∀ taken s, (2 * STATE_COPY_SECTORS ≤ s)%nat → covers (both_put sha256 state taken) s = false) as Hcov.
  { intros taken s Hge. apply (covers_false _ s (2 * STATE_COPY_SECTORS)); [by apply both_put_length|simpl pt_sector; unfold STATE_A_SECTOR; lia]. }
  assert (∀ s, (2 * STATE_COPY_SECTORS ≤ s)%nat → put p z s = z s) as Hput by (intros s Hge; unfold put, p; by rewrite Hcov).
  assert (request_first m (put p z) []) as HPd by (apply request_first_gone; [rewrite Hput; [done|apply request_in_layout]|done]).
  apply always_try, always_try, commit_rule; try done.
  - by apply request_first_gone.
  - intros taken. apply request_first_gone; [done|]. apply Forall_singleton. right. apply Hcov, request_in_layout.
  - intros image mem'. apply done_rule; [done|]. apply done_rule; [done|]. exists state, fingerprint. split_all; try done.
    + by apply both_put_durable.
    + intros s Hs'. simpl wd_base. fold p. rewrite Hput by lia. apply Hz. lia.
Qed.


(** A working device carries a reset through. *)
Lemma serve_overwrite_loop fuel sector w : 0 ≤ sector → ∃ w', serve (overwrite_loop fuel sector) w = (Ok tt, w').
Proof using Type.
  revert sector w. induction fuel as [|fuel IH]; intros sector w Hs; simpl overwrite_loop; [by eexists|].
  change (Z.of_nat STORE_SECTORS) with 1048. destruct (Z.ltb_spec sector 1048); [|by eexists].
  rewrite overwrite_span by (unfold saturating_sub; change OVERWRITE_SECTORS with 512; lia).
  destruct (serve_ok_write (A := unit) id Overwrite (Z.to_nat sector)
    {| is_sector := 0; is_len := Z.min (saturating_sub 1048 sector) OVERWRITE_SECTORS * 512 |}
    (λ _, overwrite_loop fuel (saturating_add 64 sector (Z.min (saturating_sub 1048 sector) OVERWRITE_SECTORS))) w) as ([] & w' & Hw);
    [|by eauto].
  intros w1. exists tt. apply IH. unfold saturating_add, saturating_sub. change OVERWRITE_SECTORS with 512.
  change (2 ^ 64) with 18446744073709551616. lia.
Qed.

Lemma serve_overwrite_store w : ∃ w', serve overwrite_store w = (Ok tt, w').
Proof using Type.
  unfold overwrite_store. change (IoSpan_at_offset 0 BLK_IO_REGION_SIZE) with (Some {| is_sector := 0; is_len := 262144 |}).
  cbv iota. rewrite serve_bind. match goal with |- ∃ _, serve _ ?w1 = _ => destruct (serve_overwrite_loop STORE_SECTORS 0 w1) as [w2 Hw] end; [lia|].
  rewrite (serve_try _ _ _ _ _ _ Hw). apply serve_barrier.
Qed.

Lemma serve_clear_reset w : ∃ w', serve clear_reset w = (Ok tt, w').
Proof using Type.
  unfold clear_reset. change (IoSpan_at_offset 0 (Z.of_nat RESET_REQUEST_BYTES)) with (Some {| is_sector := 0; is_len := 512 |}).
  cbv iota. rewrite serve_bind.
  match goal with |- ∃ _, serve (io_try ?from (transfer ?step Write ?sector ?span) ?f) ?w1 = _ =>
    destruct (serve_ok_write (A := unit) from step sector span f w1) as ([] & w2 & Hw); [|by eauto] end.
  intros w1. exists tt. apply serve_barrier.
Qed.

Lemma io_wf_establish capacity minted : io_wf (establish sha256 public_of verify capacity minted).
Proof using Type. unfold establish, mint_identity, factory_reset. io_wf. Qed.

Lemma reset_runs m mem capacity state fingerprint :
  medium_ok m → mem_ok mem → Z.of_nat STORE_SECTORS ≤ capacity → state_ok state →
  ResetRequest_read (m RESET_REQUEST_SECTOR) = Requested →
  ∃ w e, run (establish sha256 public_of verify capacity (Ok (state, fingerprint))) (powered mem m) w (Some (Ok e)).
Proof using sha256_digest.
  intros Hm Hmem Hcap Hs Hreq.
  assert (∃ w e, serve (establish sha256 public_of verify capacity (Ok (state, fingerprint))) (powered mem m) = (Ok e, w)) as (w & e & Hsv).
  { unfold establish. rewrite (proj2 (Z.ltb_ge _ _)) by done.
    destruct (read_state_reads m Hm mem Hmem) as [(mem1 & Hmem1 & H1) _]. rewrite (serve_try _ _ _ _ _ _ H1).
    destruct (read_reset_reads m Hm mem1 Hmem1) as [(mem2 & Hmem2 & H2) _]. rewrite (serve_try _ _ _ _ _ _ H2).
    rewrite Hreq. simpl ResetRequest_is_requested. cbv iota.
    assert (∃ a w1, a.2 = replicate (length (record_at m)) 0
      ∧ serve (factory_reset sha256 (record_at m)) (at_ mem2 m []) = (Ok a, w1)) as ([cleared region] & w1 & Hr & H3).
    { unfold factory_reset. destruct (serve_clear_reset (at_ mem2 m [])) as [w1 Hw1]. rewrite (serve_try _ _ _ _ _ _ Hw1).
      destruct (serve_overwrite_store w1) as [w2 Hw2]. rewrite (serve_try _ _ _ _ _ _ Hw2).
      exists (Cleared_of (checked_state sha256 (record_at m)), replicate (length (record_at m)) 0), w2. split; reflexivity. }
    simpl in Hr. rewrite (serve_try _ _ _ _ _ _ H3). subst region. unfold mint_identity.
    destruct (serve_commit sha256 sha256_digest (replicate (length (record_at m)) 0) state Both w1 Hs) as (image & w2 & H4);
      [rewrite length_replicate; by apply record_at_length|].
    erewrite serve_try; [|rewrite (serve_try _ _ _ _ _ _ H4); reflexivity]. simpl. by eauto. }
  exists w, e. pose proof (serve_run _ (powered mem m) (io_wf_establish capacity (Ok (state, fingerprint))) eq_refl) as Hrun.
  by rewrite Hsv in Hrun.
Qed.

(** ** A mint that was interrupted *)

(** A commit whose write reached the device when the power went. *)
Lemma commit_cut region s copies mem m :
  mem_ok mem → state_ok s → length region = BOTH_COPIES →
  ∃ w, run (commit sha256 region s copies) (powered mem m) w None
    ∧ wd_base w = m ∧ wd_puts w = [copies_put sha256 copies s false].
Proof using sha256_digest.
  intros Hmem Hs Hreg. destruct (commit_staged sha256 sha256_digest region s copies Hs Hreg) as (image & span & -> & Hi & Hst).
  eexists. split; [eapply run_bind|].
  - apply run_local, run_done.
  - apply run_bind_cut. eapply run_request; [|apply run_cut]. apply (device_writes _ _ _ (Taken good_token None)). done.
  - split; [done|]. simpl. rewrite (whole_inserted image mem) by done. change (Z.to_nat (IoSpan_offset whole)) with 0%nat.
    rewrite Hst by exact Hmem. by destruct copies.
Qed.

(** The medium on which [n] sectors from the first were written when the power went. *)
Definition torn_at (n : nat) (p : Put) (m : Medium) : Medium := λ s, if (s <? n)%nat then put p m s else m s.

Lemma torn_scattered n p m : scattered m [p] (torn_at n p m).
Proof using Type.
  intros s. unfold torn_at. destruct (s <? n)%nat; [exists 1%nat|exists 0%nat]; done.
Qed.

Lemma torn_written n p m a k : (a + k ≤ n)%nat → sectors (torn_at n p m) a k = sectors (put p m) a k.
Proof using Type. intros H. apply sectors_ext. intros s Hs. unfold torn_at. by rewrite (proj2 (Nat.ltb_lt _ _)) by lia. Qed.
Lemma torn_kept n p m a k : (n ≤ a)%nat → sectors (torn_at n p m) a k = sectors m a k.
Proof using Type. intros H. apply sectors_ext. intros s Hs. unfold torn_at. by rewrite (proj2 (Nat.ltb_ge _ _)) by lia. Qed.

(** C34. A mint interrupted between its two copies leaves a record that the next change of
    it destroys. The mint writes both copies in one transfer; where the power goes
    once the first is down, the record of generation 1 is read, and acted on, out of
    the first copy alone, but the parity of generation 2 selects that very copy. A
    second power cut, in the write of the first sector of the change, leaves neither:
    the identity is gone. The last hypothesis is that the torn copy fails its digest. *)
Theorem interrupted_mint_loses_identity m mem region s s' :
  medium_ok m → mem_ok mem → length region = BOTH_COPIES →
  decode_copy sha256 (copy_at m STATE_B_SECTOR) = None →
  state_ok s → state_ok s' → st_generation s = 1 → st_generation s' = 2 →
  decode_copy sha256 (take SECTOR_SIZE (compose sha256 s') ++ drop SECTOR_SIZE (compose sha256 s)) = None →
  ∃ w1 m1 w2 m2,
    run (commit sha256 region s Both) (powered mem m) w1 None ∧ power_cut sha256 (wd_base w1) (wd_puts w1) m1
    ∧ checked_state sha256 (record_at m1) = Some s
    ∧ run (commit sha256 region s' Parity) (powered mem m1) w2 None ∧ power_cut sha256 (wd_base w2) (wd_puts w2) m2
    ∧ decode_state sha256 (record_at m2) = None.
Proof using sha256_digest.
  intros Hm Hmem Hreg HB Hs Hs' Hg Hg' Htorn.
  destruct (commit_cut region s Both mem m Hmem Hs Hreg) as (w1 & Hrun1 & Eb1 & Ep1). simpl in Ep1.
  set (p1 := both_put sha256 s false) in *. set (m1 := torn_at STATE_COPY_SECTORS p1 m).
  destruct (commit_cut region s' Parity mem m1 Hmem Hs' Hreg) as (w2 & Hrun2 & Eb2 & Ep2). simpl in Ep2.
  set (p2 := record_put sha256 s' false) in *. set (m2 := torn_at 1 p2 m1).
  pose proof (both_put_length s false Hs) as Hl1. fold p1 in Hl1.
  pose proof (record_put_length sha256 sha256_digest s' false Hs') as Hl2. fold p2 in Hl2.
  assert (pt_sector p2 = STATE_A_SECTOR) as Hsec2 by (unfold p2, record_put, copy_sector; simpl; by rewrite Hg').
  destruct (compose_shape sha256 sha256_digest s Hs) as [Hlc _]. destruct (compose_shape sha256 sha256_digest s' Hs') as [Hlc' _].
  assert (copy_at m1 STATE_B_SECTOR = copy_at m STATE_B_SECTOR) as EB1 by (by apply torn_kept).
  assert (copy_at (put p1 m) STATE_A_SECTOR = compose sha256 s) as EA.
  { pose proof (put_here p1 m _ Hl1) as H. change (sectors (put p1 m) (pt_sector p1) (2 * STATE_COPY_SECTORS)) with (record_at (put p1 m)) in H.
    rewrite record_at_copies in H. apply app_inj_1 in H as [H _]; [done|].
    rewrite length_copy_at by (by eapply put_ok). done. }
  assert (copy_at m1 STATE_A_SECTOR = compose sha256 s) as EA1 by (rewrite <- EA; by apply torn_written).
  assert (medium_ok m1) as Hm1 by (by eapply (scattered_ok m p1 m1), Hm; [apply torn_scattered|exact Hl1]).
  assert (copy_at m2 STATE_B_SECTOR = copy_at m STATE_B_SECTOR) as EB2.
  { rewrite <- EB1. apply torn_kept. unfold STATE_B_SECTOR, STATE_A_SECTOR, STATE_COPY_SECTORS. lia. }
  assert (copy_at m2 STATE_A_SECTOR = take SECTOR_SIZE (compose sha256 s') ++ drop SECTOR_SIZE (compose sha256 s)) as EA2.
  { pose proof (put_here p2 m1 _ Hl2) as H. rewrite Hsec2 in H. change (pt_bytes p2) with (compose sha256 s') in H.
    rewrite <- H, <- EA1. unfold copy_at. change STATE_COPY_SECTORS with (1 + 7)%nat. rewrite !(sectors_app _ STATE_A_SECTOR 1 7).
    unfold m2 at 1 2. rewrite torn_written by (unfold STATE_A_SECTOR; lia). rewrite torn_kept by (unfold STATE_A_SECTOR; lia).
    assert (medium_ok (put p2 m1)) by (by eapply put_ok).
    rewrite take_app_le, take_ge by (rewrite length_sectors by done; lia).
    f_equal. rewrite drop_app_le, drop_ge by (rewrite length_sectors by done; lia). done. }
  assert (medium_ok m2) as Hm2 by (by eapply (scattered_ok m1 p2 m2), Hm1; [apply torn_scattered|exact Hl2]).
  exists w1, m1, w2, m2. rewrite Eb1, Ep1, Eb2, Ep2. split_all; try done.
  - split; [apply torn_scattered|]. intros start [-> | ->] Hdec; [exists 1%nat; simpl; by rewrite EA1, EA|exists 0%nat; by rewrite EB1].
  - unfold checked_state. rewrite decode_record by done. rewrite (copy_decodes sha256 sha256_digest _ _ _ Hs EA1), EB1, HB. done.
  - split; [apply torn_scattered|]. intros start [-> | ->]; [by rewrite EA2, Htorn|by rewrite EB2, HB].
  - rewrite decode_record by done. by rewrite EA2, Htorn, EB2, HB.
Qed.
End Reset.
