(* ===== verification/StoreExamples.v ===== *)
(** * The store on a concrete appliance

    A hash that is not SHA-256 but has its shape, a package reader and a verifier that
    accept, one minted state on a blank medium; the theorems of the store applied to
    them. *)
From stdpp Require Import strings.
From S2P Require Import Prelude Layout Store StoreRecord StoreMedium StoreDevice StoreCrash StoreRequests StoreBoot StoreLive StoreReset.
#[local] Open Scope list_scope.
#[local] Open Scope Z_scope.

Definition toy_hash (m : list Z) : list Z := foldl (λ h b, (h * 31 + b) mod 256) 7 m :: replicate 31 0.

Lemma bytes_ok_dec l : forallb (λ b, (0 <=? b) && (b <? 256)) l = true → bytes_ok l.
Proof.
  rewrite forallb_forall. intros H. apply Forall_forall. intros b Hb%list_elem_of_In. apply H in Hb. unfold in_u. change (2 ^ 8) with 256. lia.
Qed.

Lemma toy_digest m : length (toy_hash m) = DIGEST_LEN ∧ bytes_ok (toy_hash m).
Proof.
  split; [done|]. unfold toy_hash. constructor; [|by apply bytes_ok_dec].
  destruct m as [|b m] using rev_ind; [done|]. rewrite foldl_app. simpl. unfold in_u. change (2 ^ 8) with 256. apply Z.mod_pos_bound. lia.
Qed.

Definition toy_package : Package :=
  {| pk_device_certificate := [48; 1]; pk_trust_anchor := [48; 2]; pk_anchor_spki := [48]; pk_address := [10; 0; 0; 1]; pk_port := 443 |}.
Definition toy_reader (archive key : list Z) : Result Package (string * RefusalDetail) := Ok toy_package.
Definition toy_verify (s : State) : Result (list Z) IdentityError := Ok (replicate 32 9).

Lemma toy_sound : package_sound toy_reader.
Proof. intros archive key p [= <-]. split_all; try done; by apply bytes_ok_dec. Qed.

Definition minted : State :=
  State_minted (replicate 16 1) (replicate 32 2) (replicate 65 4)
    {| sc_bytes := 48 :: replicate 767 0; sc_len := 1 |}.

Lemma minted_state_ok : state_ok minted.
Proof.
  constructor; unfold certificate_ok, slots_ok; split_all;
    first [done | by apply bytes_ok_dec | by apply Nat.leb_le | by repeat constructor].
Qed.

Definition blank : Medium := λ _, zeros.
Definition minted_medium : Medium := put (both_put toy_hash minted true) blank.

Lemma minted_durable : durable toy_hash minted_medium minted.
Proof. apply both_put_durable; [exact toy_digest|done|exact minted_state_ok|done]. Qed.

Definition idle : Mem :=
  {| md_window := replicate (Z.to_nat 262144) 0; md_completed := {| bc_reads := 0; bc_read_bytes := 0; bc_writes := 0; bc_write_bytes := 0 |} |}.
Lemma idle_ok : mem_ok idle.
Proof. unfold mem_ok, idle. cbn [md_window]. by rewrite length_replicate, Z2Nat.id by lia. Qed.

Definition document : Demand := RecordConfig 3 100 (replicate (Z.to_nat 131072) 7).
Lemma document_ok : demand_ok document.
Proof. unfold demand_ok, document. by rewrite length_replicate, Z2Nat.id by lia. Qed.
Lemma document_acceptable : acceptable toy_hash toy_reader minted document.
Proof. done. Qed.

(** The blank record does not decode; the minted one does. *)
Example blank_is_fresh : decode_state toy_hash (record_at blank) = None.
Proof. vm_compute. reflexivity. Qed.

Lemma state_record_exact_witness :
  length (compose toy_hash minted) = STATE_COPY_BYTES
  ∧ ∃ im, decode_copy toy_hash (compose toy_hash minted) = Some im ∧ StateImage_check im = Ok minted.
Proof.
  assert (length (compose toy_hash minted) = STATE_COPY_BYTES) as Hl by apply (compose_shape toy_hash toy_digest minted minted_state_ok).
  split; [exact Hl|]. apply (proj2 (state_record_exact toy_hash toy_digest (compose toy_hash minted) minted Hl
    (proj1 (proj2 (compose_shape toy_hash toy_digest minted minted_state_ok))))).
  split; [exact minted_state_ok|reflexivity].
Defined.

Lemma good_device_completes_witness :
  ∃ w s', serve (handle toy_hash toy_reader toy_verify document) (powered idle minted_medium) = (Ok tt, w)
    ∧ wd_puts w = [] ∧ evolves toy_hash toy_reader minted document s' ∧ durable toy_hash (wd_base w) s'.
Proof.
  apply (good_device_completes toy_hash toy_digest toy_verify toy_reader minted_medium minted idle document (replicate 32 9)
    toy_sound document_ok minted_durable eq_refl idle_ok eq_refl document_acceptable).
Defined.

(** The run of a working device, and the power gone behind it. *)
Lemma document_run : ∃ w, run (handle toy_hash toy_reader toy_verify document) (powered idle minted_medium) w (Some (Ok tt))
  ∧ power_cut toy_hash (wd_base w) (wd_puts w) (wd_base w).
Proof.
  destruct (handle_runs toy_hash toy_digest toy_verify toy_reader minted_medium minted idle document (replicate 32 9)
    toy_sound document_ok minted_durable eq_refl idle_ok eq_refl document_acceptable) as (w & _ & Hrun).
  exists w. split; [exact Hrun|]. split; [intros s; by exists 0%nat|]. intros start Hs _. by exists 0%nat.
Qed.

Lemma requests_are_atomic_witness :
  ∃ w s', run (handle toy_hash toy_reader toy_verify document) (powered idle minted_medium) w (Some (Ok tt))
    ∧ durable toy_hash (wd_base w) s' ∧ evolves toy_hash toy_reader minted document s'.
Proof.
  destruct document_run as (w & Hrun & Hcut).
  destruct (requests_are_atomic toy_hash toy_digest toy_reader toy_verify minted_medium minted idle document w _ _
    toy_sound document_ok minted_durable eq_refl idle_ok Hrun Hcut) as (s' & Hd & Hev).
  exists w, s'. split; [exact Hrun|]. split; [exact Hd|exact Hev].
Defined.

Lemma layout_fits : Z.of_nat STORE_SECTORS ≤ 2048.
Proof. vm_compute. discriminate. Qed.

Lemma no_request : ResetRequest_read (minted_medium RESET_REQUEST_SECTOR) = Absent.
Proof. vm_compute. reflexivity. Qed.

Lemma boot_recovers_witness :
  ∃ w, serve (establish toy_hash (λ _, None) toy_verify 2048 (Err GeneratorStalled)) (powered idle minted_medium)
       = (Ok (established (λ _, None) minted (replicate 32 9) None), w).
Proof.
  destruct (boot_recovers toy_hash (λ _, None) toy_verify minted_medium minted idle 2048 (Err GeneratorStalled) (replicate 32 9)
    minted_durable idle_ok layout_fits eq_refl no_request) as [Hserve _]. exact Hserve.
Defined.

(** A blank medium on which somebody asked for a reset. *)
Definition asked : Medium := λ s, if decide (s = RESET_REQUEST_SECTOR) then reset_token else zeros.
Lemma asked_ok : medium_ok asked.
Proof. intros s. unfold asked. destruct (decide _); reflexivity. Qed.

Definition resetting : Io (Result Established EstablishError) :=
  establish toy_hash (λ _, None) toy_verify 2048 (Ok (minted, [])).
Lemma reset_is_asked : ResetRequest_read (asked RESET_REQUEST_SECTOR) = Requested.
Proof. vm_compute. reflexivity. Qed.


(** The change that destroys an interrupted mint. *)
Definition changed : State :=
  State_record_document 0%nat {| se_generation := 3; se_len := 100; se_digest := toy_hash [] |} true minted.
Lemma changed_state_ok : state_ok changed.
Proof.
  constructor; unfold certificate_ok; split_all; try first [done | by apply bytes_ok_dec | by apply Nat.leb_le].
  apply place_ok; [apply minted_state_ok| |by apply Nat.leb_le]. unfold entry_ok. split_all; try done. by apply bytes_ok_dec.
Qed.

Lemma interrupted_mint_loses_identity_witness :
  ∃ m1 w2 m2, checked_state toy_hash (record_at m1) = Some minted
    ∧ run (commit toy_hash (replicate BOTH_COPIES 0) changed Parity) (powered idle m1) w2 None
    ∧ power_cut toy_hash (wd_base w2) (wd_puts w2) m2 ∧ decode_state toy_hash (record_at m2) = None.
Proof.
  destruct (interrupted_mint_loses_identity toy_hash toy_digest blank idle (replicate BOTH_COPIES 0) minted changed)
    as (w1 & m1 & w2 & m2 & _ & _ & Hread & Hrun & Hcut & Hlost).
  - intros s. reflexivity.
  - exact idle_ok.
  - apply length_replicate.
  - vm_compute. reflexivity.
  - exact minted_state_ok.
  - exact changed_state_ok.
  - reflexivity.
  - reflexivity.
  - vm_compute. reflexivity.
  - exists m1, w2, m2. split; [exact Hread|]. split; [exact Hrun|]. split; [exact Hcut|exact Hlost].
Defined.
