(* ===== verification/Channel.v ===== *)
(** * The controller channel: frames and their decoder

    Models [datad/crates/channel]: the vocabulary of frames ([frame.rs]) and the codec
    ([codec.rs]), an encoder over a sink that writes or counts, and an incremental
    decoder over a buffer of one frame. *)
From S2P Require Import Prelude.

Definition HEADER_LEN : nat := 8.
Definition MAX_PAYLOAD_LEN : Z := 2 ^ 20.
Definition MAX_FRAME_LEN : Z := Z.of_nat HEADER_LEN + MAX_PAYLOAD_LEN.
Definition VERSION : Z := 1.
Definition APPLIANCE_HELLO_LEN : Z := 2.
Definition SERVER_HELLO_LEN : Z := 2 + 8 + 8.
Definition MAX_DOCUMENT_BYTES : Z := 64 * 1024.

(** ** The vocabulary *)
Inductive Side := Appliance | Server.
#[export] Instance Side_eq_dec : EqDecision Side.
Proof. solve_decision. Defined.

Inductive Ring := Log | Capture.
Definition Ring_to_byte (r : Ring) : Z := match r with Log => 0 | Capture => 1 end.
Definition Ring_from_byte (byte : Z) : option Ring :=
  if byte =? 0 then Some Log else if byte =? 1 then Some Capture else None.

Inductive RangeStatus := Data | Overwritten | MediumRefused.
Definition RangeStatus_to_byte (s : RangeStatus) : Z := match s with Data => 0 | Overwritten => 1 | MediumRefused => 2 end.
Definition RangeStatus_from_byte (byte : Z) : option RangeStatus :=
  if byte =? 0 then Some Data else if byte =? 1 then Some Overwritten else if byte =? 2 then Some MediumRefused else None.
Definition RangeStatus_ends_the_answer (s : RangeStatus) : bool := match s with Data => false | _ => true end.

Inductive FrameType :=
| FT_Hello | FT_UpRecords | FT_UpCapture | FT_Ack | FT_DownConfigStage
| FT_UpConfigValidateResult | FT_DownConfigCommit | FT_DownCommitConfirm | FT_DownRangeRead | FT_UpRangeData.
#[export] Instance FrameType_eq_dec : EqDecision FrameType.
Proof. solve_decision. Defined.
Definition FrameType_to_byte (t : FrameType) : Z :=
  match t with
  | FT_Hello => 1 | FT_UpRecords => 2 | FT_UpCapture => 3 | FT_Ack => 4 | FT_DownConfigStage => 5
  | FT_UpConfigValidateResult => 6 | FT_DownConfigCommit => 7 | FT_DownCommitConfirm => 8
  | FT_DownRangeRead => 9 | FT_UpRangeData => 10
  end.
Definition FrameType_from_byte (byte : Z) : option FrameType :=
  if byte =? 1 then Some FT_Hello else if byte =? 2 then Some FT_UpRecords else if byte =? 3 then Some FT_UpCapture else
  if byte =? 4 then Some FT_Ack else if byte =? 5 then Some FT_DownConfigStage else
  if byte =? 6 then Some FT_UpConfigValidateResult else if byte =? 7 then Some FT_DownConfigCommit else
  if byte =? 8 then Some FT_DownCommitConfirm else if byte =? 9 then Some FT_DownRangeRead else
  if byte =? 10 then Some FT_UpRangeData else None.
Definition FrameType_may_travel_from (t : FrameType) (side : Side) : bool :=
  match t with
  | FT_Hello => true
  | FT_UpRecords | FT_UpCapture | FT_UpConfigValidateResult | FT_UpRangeData => bool_decide (side = Appliance)
  | FT_Ack | FT_DownConfigStage | FT_DownConfigCommit | FT_DownCommitConfirm | FT_DownRangeRead =>
      bool_decide (side = Server)
  end.
Definition FrameType_payload_floor (t : FrameType) (side : Side) : Z :=
  match t with
  | FT_Hello => match side with Appliance => APPLIANCE_HELLO_LEN | Server => SERVER_HELLO_LEN end
  | FT_UpRecords | FT_UpCapture => 8
  | FT_Ack => 16
  | FT_DownConfigStage => 0
  | FT_UpConfigValidateResult => 1
  | FT_DownConfigCommit => 10
  | FT_DownCommitConfirm => 8
  | FT_DownRangeRead => 17
  | FT_UpRangeData => 10
  end.

Inductive Hello := HelloAppliance | HelloServer (log capture : Z).
Definition Hello_side (h : Hello) : Side := match h with HelloAppliance => Appliance | HelloServer _ _ => Server end.

Inductive Frame :=
| FrameHello (hello : Hello)
| UpRecords (position : Z) (bytes : list Z)
| UpCapture (position : Z) (bytes : list Z)
| Ack (log capture : Z)
| DownConfigStage (document : list Z)
| UpConfigValidateResult (line : list Z)
| DownConfigCommit (generation confirm_deadline_secs : Z)
| DownCommitConfirm (generation : Z)
| DownRangeRead (ring : Ring) (start length : Z)
| UpRangeData (ring : Ring) (status : RangeStatus) (position : Z) (bytes : list Z).
Definition Frame_frame_type (f : Frame) : FrameType :=
  match f with
  | FrameHello _ => FT_Hello
  | UpRecords _ _ => FT_UpRecords
  | UpCapture _ _ => FT_UpCapture
  | Ack _ _ => FT_Ack
  | DownConfigStage _ => FT_DownConfigStage
  | UpConfigValidateResult _ => FT_UpConfigValidateResult
  | DownConfigCommit _ _ => FT_DownConfigCommit
  | DownCommitConfirm _ => FT_DownCommitConfirm
  | DownRangeRead _ _ _ => FT_DownRangeRead
  | UpRangeData _ _ _ _ => FT_UpRangeData
  end.

Inductive Violation :=
| ReservedNonZero (at_ byte : Z)
| UnknownType (byte : Z)
| PayloadTooLong (stated : Z)
| WrongDirection (frame : FrameType) (sender : Side)
| FirstFrameNotHello (frame : FrameType)
| VersionMismatch (theirs : Z)
| PayloadLength (frame : FrameType) (len needed : Z)
| UnknownRing (byte : Z)
| UnknownRangeStatus (byte : Z)
| BytesOnEndedRange (status : RangeStatus) (len : Z)
| ConfigDocumentTooLong (len : Z)
| ResultLineNotPrintable (at_ byte : Z).

(** ** The encoder *)
Definition FIRST_PRINTABLE : Z := 0x20.
Definition LAST_PRINTABLE : Z := 0x7E.

Inductive EncodeRefusal :=
| EncodeWrongDirection (frame : FrameType) (sender : Side)
| EncodePayloadTooLong (len : Z)
| EncodeConfigDocumentTooLong (len : Z)
| EmptyResultLine
| EncodeResultLineNotPrintable (at_ byte : Z)
| EncodeBytesOnEndedRange (status : RangeStatus) (len : Z)
| OutputTooSmall (needed room : Z).

(** [None] is [NoRoom]. *)
Class Sink (T : Type) := sink_put : list Z → T → option T.
Definition put_u8 {T} `{Sink T} (value : Z) : T → option T := sink_put [value].
Definition put_u16 {T} `{Sink T} (value : Z) : T → option T := sink_put (be_bytes 2 value).
Definition put_u64 {T} `{Sink T} (value : Z) : T → option T := sink_put (be_bytes 8 value).

Record Filled := { fd_out : list Z; fd_at : nat }.
#[export] Instance Filled_sink : Sink Filled := λ bytes self,
  let end_ := (fd_at self + length bytes)%nat in
  if (end_ <=? length (fd_out self))%nat
  then Some {| fd_out := splice (fd_out self) (fd_at self) bytes; fd_at := end_ |} else None.

Record Counted := { ct_len : Z }.
#[export] Instance Counted_sink : Sink Counted := λ bytes self,
  Some {| ct_len := saturating_add 64 (ct_len self) (Z.of_nat (length bytes)) |}.

Definition write_payload {T} `{Sink T} (frame : Frame) (sink : T) : option T :=
  match frame with
  | FrameHello HelloAppliance => put_u16 VERSION sink
  | FrameHello (HelloServer log capture) =>
      sink ← put_u16 VERSION sink; sink ← put_u64 log sink; put_u64 capture sink
  | UpRecords position bytes | UpCapture position bytes => sink ← put_u64 position sink; sink_put bytes sink
  | Ack log capture => sink ← put_u64 log sink; put_u64 capture sink
  | DownConfigStage document => sink_put document sink
  | UpConfigValidateResult line => sink_put line sink
  | DownConfigCommit generation confirm_deadline_secs =>
      sink ← put_u64 generation sink; put_u16 confirm_deadline_secs sink
  | DownCommitConfirm generation => put_u64 generation sink
  | DownRangeRead ring start length =>
      sink ← put_u8 (Ring_to_byte ring) sink; sink ← put_u64 start sink; put_u64 length sink
  | UpRangeData ring status position bytes =>
      sink ← put_u8 (Ring_to_byte ring) sink; sink ← put_u8 (RangeStatus_to_byte status) sink;
      sink ← put_u64 position sink; sink_put bytes sink
  end.

Definition payload_len (frame : Frame) : Z :=
  match write_payload frame {| ct_len := 0 |} with Some counted => ct_len counted | None => 0 end.
Definition encoded_len (frame : Frame) : Z := saturating_add 64 (Z.of_nat HEADER_LEN) (payload_len frame).

(** [.enumerate().find(..)]. *)
Fixpoint first_unprintable_from (at_ : Z) (line : list Z) : option (Z * Z) :=
  match line with
  | [] => None
  | byte :: line =>
      if (FIRST_PRINTABLE <=? byte) && (byte <=? LAST_PRINTABLE) then first_unprintable_from (at_ + 1) line
      else Some (at_, byte)
  end.
Definition first_unprintable (line : list Z) : option (Z * Z) := first_unprintable_from 0 line.

(** The contradictions the types leave expressible. *)
Definition encode_contradiction (frame : Frame) : option EncodeRefusal :=
  match frame with
  | DownConfigStage document =>
      if MAX_DOCUMENT_BYTES <? Z.of_nat (length document)
      then Some (EncodeConfigDocumentTooLong (Z.of_nat (length document))) else None
  | UpConfigValidateResult line =>
      match line with
      | [] => Some EmptyResultLine
      | _ => match first_unprintable line with
             | Some (at_, byte) => Some (EncodeResultLineNotPrintable at_ byte)
             | None => None
             end
      end
  | UpRangeData _ status _ bytes =>
      if RangeStatus_ends_the_answer status && negb (bool_decide (bytes = []))
      then Some (EncodeBytesOnEndedRange status (Z.of_nat (length bytes))) else None
  | _ => None
  end.

(** The answer, and the caller's output. *)
Definition encode (sender : Side) (frame : Frame) (out : list Z) : Result Z EncodeRefusal * list Z :=
  let kind := Frame_frame_type frame in
  let travels := match frame with
                 | FrameHello hello => bool_decide (Hello_side hello = sender)
                 | _ => FrameType_may_travel_from kind sender
                 end in
  if negb travels then (Err (EncodeWrongDirection kind sender), out) else
  match encode_contradiction frame with
  | Some refusal => (Err refusal, out)
  | None =>
  let payload := payload_len frame in
  if negb ((payload <=? u32_max) && (payload <=? MAX_PAYLOAD_LEN)) then (Err (EncodePayloadTooLong payload), out) else
  let needed := saturating_add 64 (Z.of_nat HEADER_LEN) payload in
  let room := Z.of_nat (length out) in
  match split_first_chunk HEADER_LEN out with
  | None => (Err (OutputTooSmall needed room), out)
  | Some (header, rest) =>
  if Z.of_nat (length rest) <? payload then (Err (OutputTooSmall needed room), out) else
  match write_payload frame {| fd_out := take (Z.to_nat payload) rest; fd_at := 0 |} with
  | None => (Err (OutputTooSmall needed room), out)
  | Some filled =>
      (Ok needed,
       be_bytes 4 payload ++ [FrameType_to_byte kind; 0; 0; 0] ++ fd_out filled ++ drop (Z.to_nat payload) rest)
  end
  end
  end.

(** ** Reading a header and a payload *)
Definition u8_at (bytes : list Z) : option (Z * list Z) :=
  match bytes with [] => None | head :: rest => Some (head, rest) end.
Definition u16_at (bytes : list Z) : option (Z * list Z) :=
  '(head, rest) ← split_first_chunk 2 bytes; Some (from_be head, rest).
Definition u64_at (bytes : list Z) : option (Z * list Z) :=
  '(head, rest) ← split_first_chunk 8 bytes; Some (from_be head, rest).

Definition read_header (header : list Z) (sender : Side) (greeted : bool) : Result (FrameType * Z) Violation :=
  let kind := byte_at header 4 in
  if negb (byte_at header 5 =? 0) then Err (ReservedNonZero 0 (byte_at header 5)) else
  if negb (byte_at header 6 =? 0) then Err (ReservedNonZero 1 (byte_at header 6)) else
  if negb (byte_at header 7 =? 0) then Err (ReservedNonZero 2 (byte_at header 7)) else
  match FrameType_from_byte kind with
  | None => Err (UnknownType kind)
  | Some frame =>
  let len := from_be (take 4 header) in
  if MAX_PAYLOAD_LEN <? len then Err (PayloadTooLong len) else
  if negb (FrameType_may_travel_from frame sender) then Err (WrongDirection frame sender) else
  if negb greeted && negb (bool_decide (frame = FT_Hello)) then Err (FirstFrameNotHello frame) else
  if bool_decide (frame = FT_DownConfigStage) && (MAX_DOCUMENT_BYTES <? len) then Err (ConfigDocumentTooLong len) else
  Ok (frame, len)
  end.

(** [.ok_or_else(shape)?] and [if !rest.is_empty()]. *)
Definition ok_or {A E} (e : E) (o : option A) : Result A E := match o with Some a => Ok a | None => Err e end.
Definition ended {A E} (e : E) (rest : list Z) (a : A) : Result A E := match rest with [] => Ok a | _ => Err e end.

Definition decode_payload (frame : FrameType) (sender : Side) (payload : list Z) : Result Frame Violation :=
  let shape := PayloadLength frame (Z.of_nat (length payload)) (FrameType_payload_floor frame sender) in
  match frame with
  | FT_Hello =>
      try! (version, rest) <- ok_or shape (u16_at payload);
      if negb (version =? VERSION) then Err (VersionMismatch version) else
      match sender with
      | Appliance => ended shape rest (FrameHello HelloAppliance)
      | Server =>
          try! (log, rest) <- ok_or shape (u64_at rest);
          try! (capture, rest) <- ok_or shape (u64_at rest);
          ended shape rest (FrameHello (HelloServer log capture))
      end
  | FT_UpRecords => try! (position, bytes) <- ok_or shape (u64_at payload); Ok (UpRecords position bytes)
  | FT_UpCapture => try! (position, bytes) <- ok_or shape (u64_at payload); Ok (UpCapture position bytes)
  | FT_Ack =>
      try! (log, rest) <- ok_or shape (u64_at payload);
      try! (capture, rest) <- ok_or shape (u64_at rest);
      ended shape rest (Ack log capture)
  | FT_DownConfigStage => Ok (DownConfigStage payload)
  | FT_UpConfigValidateResult =>
      match payload with
      | [] => Err shape
      | _ => match first_unprintable payload with
             | Some (at_, byte) => Err (ResultLineNotPrintable at_ byte)
             | None => Ok (UpConfigValidateResult payload)
             end
      end
  | FT_DownConfigCommit =>
      try! (generation, rest) <- ok_or shape (u64_at payload);
      try! (confirm_deadline_secs, rest) <- ok_or shape (u16_at rest);
      ended shape rest (DownConfigCommit generation confirm_deadline_secs)
  | FT_DownCommitConfirm =>
      try! (generation, rest) <- ok_or shape (u64_at payload);
      ended shape rest (DownCommitConfirm generation)
  | FT_DownRangeRead =>
      try! (selector, rest) <- ok_or shape (u8_at payload);
      try! ring <- ok_or (UnknownRing selector) (Ring_from_byte selector);
      try! (start, rest) <- ok_or shape (u64_at rest);
      try! (length, rest) <- ok_or shape (u64_at rest);
      ended shape rest (DownRangeRead ring start length)
  | FT_UpRangeData =>
      try! (selector, rest) <- ok_or shape (u8_at payload);
      try! ring <- ok_or (UnknownRing selector) (Ring_from_byte selector);
      try! (code, rest) <- ok_or shape (u8_at rest);
      try! status <- ok_or (UnknownRangeStatus code) (RangeStatus_from_byte code);
      try! (position, bytes) <- ok_or shape (u64_at rest);
      if RangeStatus_ends_the_answer status && negb (bool_decide (bytes = []))
      then Err (BytesOnEndedRange status (Z.of_nat (length bytes)))
      else Ok (UpRangeData ring status position bytes)
  end.

(** ** The decoder *)
Inductive Decoded := Partial | Framed (frame : Frame) | Violated (violation : Violation).

Record FrameDecoder := {
  fd_sender : Side;
  fd_held : list Z;
  fd_held_len : nat;
  fd_handed : bool;
  fd_greeted : bool;
  fd_violation : option Violation
}.
#[export] Instance FrameDecoder_eta : Eta FrameDecoder := λ d,
  {| fd_sender := fd_sender d; fd_held := fd_held d; fd_held_len := fd_held_len d; fd_handed := fd_handed d;
     fd_greeted := fd_greeted d; fd_violation := fd_violation d |}.

Definition FrameDecoder_new (sender : Side) (held : list Z) : FrameDecoder :=
  {| fd_sender := sender; fd_held := held; fd_held_len := 0; fd_handed := false; fd_greeted := false; fd_violation := None |}.

Definition FrameDecoder_header (d : FrameDecoder) : option (list Z) :=
  if (fd_held_len d <? HEADER_LEN)%nat then None else Some (take HEADER_LEN (fd_held d)).

Definition FrameDecoder_wanted (d : FrameDecoder) : Z :=
  match FrameDecoder_header d with
  | None => Z.of_nat HEADER_LEN
  | Some header =>
      match read_header header (fd_sender d) (fd_greeted d) with
      | Ok (_, len) => Z.of_nat HEADER_LEN + len
      | Err _ => Z.of_nat HEADER_LEN
      end
  end.

Definition FrameDecoder_discard (d : FrameDecoder) : FrameDecoder :=
  if fd_handed d then d <| fd_handed := false |> <| fd_held_len := 0%nat |> else d.

Definition FrameDecoder_release (d : FrameDecoder) : list Z := fd_held d.

(** The zip of what is wanted, what there is room for and what was offered. *)
Definition FrameDecoder_take (bytes : list Z) (d : FrameDecoder) : nat * FrameDecoder :=
  let wanted := Z.to_nat (saturating_sub (FrameDecoder_wanted d) (Z.of_nat (fd_held_len d))) in
  if (length (fd_held d) <? fd_held_len d)%nat then (0%nat, d) else
  let taken := take (length (fd_held d) - fd_held_len d) (take wanted bytes) in
  (length taken,
   d <| fd_held ::= λ held, splice held (fd_held_len d) taken |> <| fd_held_len ::= λ n, (n + length taken)%nat |>).

(** [for _ in 0..2], the first step then the second where the first took something. *)
Definition FrameDecoder_absorb (bytes : list Z) (d : FrameDecoder) : nat * FrameDecoder :=
  let d := FrameDecoder_discard d in
  match fd_violation d with
  | Some _ => (0%nat, d)
  | None =>
      let '(first, d) := FrameDecoder_take bytes d in
      if (first =? 0)%nat then (0%nat, d) else
      let '(second, d) := FrameDecoder_take (drop first bytes) d in
      ((first + second)%nat, d)
  end.

Definition FrameDecoder_violated (violation : Violation) (d : FrameDecoder) : Decoded * FrameDecoder :=
  (Violated violation, d <| fd_violation := Some violation |>).

Definition FrameDecoder_next_frame (d : FrameDecoder) : Decoded * FrameDecoder :=
  let d := FrameDecoder_discard d in
  match fd_violation d with
  | Some violation => (Violated violation, d)
  | None =>
  match FrameDecoder_header d with
  | None => (Partial, d)
  | Some header =>
  match read_header header (fd_sender d) (fd_greeted d) with
  | Err violation => FrameDecoder_violated violation d
  | Ok (frame_type, len) =>
      let end_ := (HEADER_LEN + Z.to_nat len)%nat in
      if (fd_held_len d <? end_)%nat then (Partial, d) else
      if (length (fd_held d) <? end_)%nat then (Partial, d) else
      match decode_payload frame_type (fd_sender d) (take (Z.to_nat len) (drop HEADER_LEN (fd_held d))) with
      | Ok frame => (Framed frame, d <| fd_greeted := true |> <| fd_handed := true |>)
      | Err violation => FrameDecoder_violated violation d
      end
  end
  end
  end.
