(* ===== verification/ChannelCodec.v ===== *)
(** * The controller channel: the codec is exact

    What [encode] writes and what [read_header] and [decode_payload] accept, related in both
    directions: a frame has one encoding, the far end reads that and nothing else as the
    frame, and the frames the encoder refuses are the ones no bytes decode to. *)
From S2P Require Import Prelude Channel.

(** ** The reference: one frame off the front of a stream *)
Inductive Parsed := Short | Bad (violation : Violation) | Good (frame : Frame) (rest : list Z).

Definition parse_one (sender : Side) (greeted : bool) (stream : list Z) : Parsed :=
  match split_first_chunk HEADER_LEN stream with
  | None => Short
  | Some (header, rest) =>
  match read_header header sender greeted with
  | Err violation => Bad violation
  | Ok (kind, len) =>
  match split_first_chunk (Z.to_nat len) rest with
  | None => Short
  | Some (payload, rest) =>
  match decode_payload kind sender payload with
  | Ok frame => Good frame rest
  | Err violation => Bad violation
  end
  end
  end
  end.

(** The widths the Rust types give a frame's fields. *)
Definition frame_ok (f : Frame) : Prop :=
  match f with
  | FrameHello HelloAppliance => True
  | FrameHello (HelloServer log capture) | Ack log capture => is_u64 log ∧ is_u64 capture
  | UpRecords position bytes | UpCapture position bytes | UpRangeData _ _ position bytes => is_u64 position ∧ bytes_ok bytes
  | DownConfigStage bytes | UpConfigValidateResult bytes => bytes_ok bytes
  | DownConfigCommit generation secs => is_u64 generation ∧ is_u16 secs
  | DownCommitConfirm generation => is_u64 generation
  | DownRangeRead _ start length => is_u64 start ∧ is_u64 length
  end.

(** ** The payload: the walk as a list of pieces *)
Definition pieces (f : Frame) : list (list Z) :=
  match f with
  | FrameHello HelloAppliance => [be_bytes 2 VERSION]
  | FrameHello (HelloServer log capture) => [be_bytes 2 VERSION; be_bytes 8 log; be_bytes 8 capture]
  | UpRecords position bytes | UpCapture position bytes => [be_bytes 8 position; bytes]
  | Ack log capture => [be_bytes 8 log; be_bytes 8 capture]
  | DownConfigStage bytes | UpConfigValidateResult bytes => [bytes]
  | DownConfigCommit generation secs => [be_bytes 8 generation; be_bytes 2 secs]
  | DownCommitConfirm generation => [be_bytes 8 generation]
  | DownRangeRead ring start length => [[Ring_to_byte ring]; be_bytes 8 start; be_bytes 8 length]
  | UpRangeData ring status position bytes =>
      [[Ring_to_byte ring]; [RangeStatus_to_byte status]; be_bytes 8 position; bytes]
  end.
Definition payload_bytes (f : Frame) : list Z := concat (pieces f).
Definition frame_bytes (f : Frame) : list Z :=
  be_bytes 4 (Z.of_nat (length (payload_bytes f))) ++ [FrameType_to_byte (Frame_frame_type f); 0; 0; 0] ++ payload_bytes f.

Definition travels (sender : Side) (f : Frame) : bool :=
  match f with
  | FrameHello hello => bool_decide (Hello_side hello = sender)
  | _ => FrameType_may_travel_from (Frame_frame_type f) sender
  end.
Definition sendable (sender : Side) (f : Frame) : Prop :=
  travels sender f = true ∧ encode_contradiction f = None ∧ Z.of_nat (length (payload_bytes f)) ≤ MAX_PAYLOAD_LEN.

Fixpoint put_all {T} `{Sink T} (ps : list (list Z)) (sink : T) : option T :=
  match ps with [] => Some sink | p :: ps => sink_put p sink ≫= put_all ps end.

Lemma write_payload_pieces {T} `{Sink T} f (sink : T) : write_payload f sink = put_all (pieces f) sink.
Proof.
  assert (R : ∀ o : option T, (o ≫= λ x, Some x) = o) by by intros [].
  destruct f as [[]| | | | | | | | |]; simpl; unfold put_u8, put_u16, put_u64; rewrite ?R; try done;
    repeat (apply option_bind_ext; [intros; rewrite ?R|]; [|done]); done.
Qed.

Lemma put_all_counted ps n :
  n ≤ u64_max →
  put_all ps {| ct_len := n |} = Some {| ct_len := Z.min (n + Z.of_nat (length (concat ps))) u64_max |}.
Proof.
  revert n. induction ps as [|p ps IH]; intros n Hn; simpl; [do 2 f_equal; lia|].
  unfold sink_put, Counted_sink. simpl. rewrite IH by ints. rewrite length_app. do 2 f_equal. ints.
Qed.

Lemma payload_len_eq f : payload_len f = Z.min (Z.of_nat (length (payload_bytes f))) u64_max.
Proof. unfold payload_len. rewrite write_payload_pieces, put_all_counted by ints. cbn [ct_len]. unfold payload_bytes. ints. Qed.

Lemma put_all_filled ps done_ out :
  length out = length (concat ps) →
  put_all ps {| fd_out := done_ ++ out; fd_at := length done_ |} =
  Some {| fd_out := done_ ++ concat ps; fd_at := length (done_ ++ concat ps) |}.
Proof.
  revert done_ out. induction ps as [|p ps IH]; intros done_ out Hlen; simpl in *.
  - apply nil_length_inv in Hlen as ->. by rewrite app_nil_r.
  - rewrite length_app in Hlen. unfold sink_put, Filled_sink. simpl. rewrite length_app.
    rewrite (proj2 (Nat.leb_le _ _)) by lia. simpl.
    replace (splice _ _ _) with ((done_ ++ p) ++ drop (length p) out).
    2:{ unfold splice. by rewrite take_app_length, drop_app_add, <- app_assoc. }
    rewrite <- length_app, IH by (rewrite length_drop; lia). by rewrite <- app_assoc.
Qed.

Lemma write_payload_filled f out :
  length out = length (payload_bytes f) →
  write_payload f {| fd_out := out; fd_at := 0 |} =
  Some {| fd_out := payload_bytes f; fd_at := length (payload_bytes f) |}.
Proof. intros H. rewrite write_payload_pieces. exact (put_all_filled _ [] _ H). Qed.

(** ** The encoder *)
Lemma length_frame_bytes f : length (frame_bytes f) = (HEADER_LEN + length (payload_bytes f))%nat.
Proof. unfold frame_bytes. rewrite !length_app, length_be_bytes. done. Qed.

Lemma encoded_len_eq f :
  Z.of_nat (length (payload_bytes f)) ≤ MAX_PAYLOAD_LEN → encoded_len f = Z.of_nat (length (frame_bytes f)).
Proof.
  intros H. unfold encoded_len. rewrite payload_len_eq, length_frame_bytes. unfold HEADER_LEN, MAX_PAYLOAD_LEN in *. ints.
Qed.

Lemma encode_sendable sender f out :
  sendable sender f →
  encode sender f out =
    if (length (frame_bytes f) <=? length out)%nat
    then (Ok (encoded_len f), frame_bytes f ++ drop (length (frame_bytes f)) out)
    else (Err (OutputTooSmall (encoded_len f) (Z.of_nat (length out))), out).
Proof.
  intros (Ht & Hc & Hl). unfold encode. fold (travels sender f). rewrite Ht. simpl negb. cbv iota. rewrite Hc.
  fold (encoded_len f). rewrite length_frame_bytes.
  assert (payload_len f = Z.of_nat (length (payload_bytes f))) as ->.
  { rewrite payload_len_eq. unfold MAX_PAYLOAD_LEN in Hl. ints. }
  rewrite (proj2 (andb_true_iff _ _)) by (unfold MAX_PAYLOAD_LEN, u32_max in *; lia). cbv iota.
  destruct (split_first_chunk HEADER_LEN out) as [[header rest]|] eqn:Es.
  - apply split_first_chunk_Some in Es as [-> Hh]. rewrite length_app, Hh, Nat2Z.id.
    destruct (_ <? _) eqn:Hr.
    + rewrite (proj2 (Nat.leb_gt _ _)) by lia. done.
    + rewrite (proj2 (Nat.leb_le _ _)) by lia.
      rewrite write_payload_filled by (rewrite length_take; lia). cbn [fd_out].
      assert (∀ n, drop (HEADER_LEN + n) (header ++ rest) = drop n rest) as -> by (intros; rewrite <- Hh; apply drop_app_add).
      unfold frame_bytes. by rewrite <- !app_assoc.
  - apply split_first_chunk_None in Es. rewrite (proj2 (Nat.leb_gt _ _)) by lia. done.
Qed.

Lemma encode_unsendable sender f out :
  ¬ sendable sender f →
  ∃ refusal, encode sender f out = (Err refusal, out) ∧ (∀ needed room, refusal ≠ OutputTooSmall needed room).
Proof.
  intros Hs. unfold encode. fold (travels sender f). destruct (travels sender f) eqn:Ht; simpl; [|eauto].
  destruct (encode_contradiction f) as [r|] eqn:Hc.
  { eexists. split; [done|]. intros ??. destruct f; simpl in Hc; repeat case_match; by simplify_eq. }
  rewrite payload_len_eq. destruct (_ && _) eqn:E; simpl; [|eauto].
  destruct Hs. repeat split; [done..|]. unfold MAX_PAYLOAD_LEN, u32_max, u64_max in *. lia.
Qed.

(** ** The fields *)
Lemma u8_at_Some l x rest : u8_at l = Some (x, rest) ↔ l = [x] ++ rest.
Proof. destruct l; simpl; split; intros; by simplify_eq/=. Qed.

Lemma word_at_Some n l x rest :
  bytes_ok l →
  ('(head, rest) ← split_first_chunk n l; Some (from_be head, rest)) = Some (x, rest) ↔
  l = be_bytes n x ++ rest ∧ in_u (8 * Z.of_nat n) x.
Proof.
  intros Hl. split.
  - intros H. apply bind_Some in H as ([head rest'] & Hs & [= <- <-]).
    apply split_first_chunk_Some in Hs as [-> <-]. apply bytes_ok_app in Hl as [Hh _].
    rewrite be_bytes_from_be by done. split; [done|]. by apply from_be_range.
  - intros [-> Hx]. rewrite (proj2 (split_first_chunk_Some n _ (be_bytes n x) rest)) by (split; [done|apply length_be_bytes]).
    simpl. by rewrite from_be_be_bytes.
Qed.
Lemma u16_at_Some l x rest : bytes_ok l → u16_at l = Some (x, rest) ↔ l = be_bytes 2 x ++ rest ∧ is_u16 x.
Proof. apply word_at_Some. Qed.
Lemma u64_at_Some l x rest : bytes_ok l → u64_at l = Some (x, rest) ↔ l = be_bytes 8 x ++ rest ∧ is_u64 x.
Proof. apply word_at_Some. Qed.

Lemma Ring_byte byte ring : Ring_from_byte byte = Some ring ↔ byte = Ring_to_byte ring.
Proof. unfold Ring_from_byte. destruct ring; simpl; cases; split; intros; simplify_eq; try done; lia. Qed.
Lemma RangeStatus_byte byte status : RangeStatus_from_byte byte = Some status ↔ byte = RangeStatus_to_byte status.
Proof. unfold RangeStatus_from_byte. destruct status; simpl; cases; split; intros; simplify_eq; try done; lia. Qed.
Lemma FrameType_byte byte kind : FrameType_from_byte byte = Some kind ↔ byte = FrameType_to_byte kind.
Proof. unfold FrameType_from_byte. destruct kind; simpl; cases; split; intros; simplify_eq; try done; lia. Qed.

Lemma ok_or_Ok {A E} (e : E) (o : option A) a : ok_or e o = Ok a ↔ o = Some a.
Proof. destruct o; simpl; split; congruence. Qed.
Lemma ended_Ok {A E} (e : E) rest (a b : A) : ended e rest a = Ok b ↔ rest = [] ∧ a = b.
Proof. destruct rest; simpl; split; [intros [= ->]|intros [_ ->]| |intros [? _]]; done. Qed.
(** What [decode_payload] accepts of a frame beside its bytes. *)
Definition readable (sender : Side) (f : Frame) : Prop :=
  match f with
  | FrameHello hello => Hello_side hello = sender
  | UpConfigValidateResult _ | UpRangeData _ _ _ _ => encode_contradiction f = None
  | _ => True
  end.

Lemma u16_at_put x rest : is_u16 x → u16_at (be_bytes 2 x ++ rest) = Some (x, rest).
Proof. intros. unfold u16_at. erewrite (proj2 (split_first_chunk_Some 2 _ _ _)) by (by split; [|apply length_be_bytes]). simpl. by rewrite from_be_be_bytes. Qed.
Lemma u64_at_put x rest : is_u64 x → u64_at (be_bytes 8 x ++ rest) = Some (x, rest).
Proof. intros. unfold u64_at. erewrite (proj2 (split_first_chunk_Some 8 _ _ _)) by (by split; [|apply length_be_bytes]). simpl. by rewrite from_be_be_bytes. Qed.

(** Read the fields of a decoded payload back, one at a time. *)
Ltac read_fields :=
  repeat match goal with
  | H : result_bind _ _ = Ok _ |- _ => apply result_bind_Ok in H as (? & ? & H)
  | H : ok_or _ _ = Ok _ |- _ => apply ok_or_Ok in H
  | H : ended _ _ _ = Ok _ |- _ => apply ended_Ok in H as [-> <-]
  | x : (_ * _)%type |- _ => destruct x
  | H : bytes_ok (_ ++ _) |- _ => apply bytes_ok_app in H as [_ H]
  | H : u8_at _ = Some _ |- _ => apply u8_at_Some in H as ->
  | H : u16_at _ = Some _ |- _ => apply u16_at_Some in H as [-> ?]; [|assumption]
  | H : u64_at _ = Some _ |- _ => apply u64_at_Some in H as [-> ?]; [|assumption]
  | H : Ring_from_byte _ = Some _ |- _ => apply Ring_byte in H as ->
  | H : RangeStatus_from_byte _ = Some _ |- _ => apply RangeStatus_byte in H as ->
  end.

Lemma decode_payload_sound kind sender payload f :
  bytes_ok payload → decode_payload kind sender payload = Ok f →
  Frame_frame_type f = kind ∧ payload = payload_bytes f ∧ frame_ok f ∧ readable sender f.
Proof.
  intros Hok H. unfold payload_bytes.
  destruct kind; cbn [decode_payload] in H.
  1: { read_fields. destruct (z =? VERSION) eqn:Hv; [|done]. apply Z.eqb_eq in Hv as ->. simpl in H.
       destruct sender; read_fields; simpl; rewrite ?app_nil_r; done. }
  all: read_fields; repeat (case_match; try done); simplify_eq; simpl; rewrite ?app_nil_r; split_all; try done.
  all: repeat case_match; simplify_eq; done.
Qed.

Lemma u16_at_last x : is_u16 x → u16_at (be_bytes 2 x) = Some (x, []).
Proof. intros. rewrite <- (app_nil_r (be_bytes 2 x)). by apply u16_at_put. Qed.
Lemma u64_at_last x : is_u64 x → u64_at (be_bytes 8 x) = Some (x, []).
Proof. intros. rewrite <- (app_nil_r (be_bytes 8 x)). by apply u64_at_put. Qed.

Lemma decode_payload_complete sender f :
  frame_ok f → readable sender f → decode_payload (Frame_frame_type f) sender (payload_bytes f) = Ok f.
Proof.
  intros Hok Hr. unfold payload_bytes. destruct f as [[]| | | | | | | | |]; cbn in Hok, Hr; subst;
    cbn [Frame_frame_type pieces concat decode_payload Hello_side app]; rewrite ?app_nil_r; destruct_and?.
  all: repeat (rewrite ?(proj2 (Ring_byte _ _) eq_refl), ?(proj2 (RangeStatus_byte _ _) eq_refl),
                 ?u16_at_put, ?u64_at_put, ?u16_at_last, ?u64_at_last by (done || ints);
               cbn [result_bind ok_or ended u8_at negb Z.eqb VERSION Pos.eqb]); try done.
  all: repeat case_match; simplify_eq; done.
Qed.

(** ** The header *)
Definition header_bytes (kind : FrameType) (len : Z) : list Z := be_bytes 4 len ++ [FrameType_to_byte kind; 0; 0; 0].
Definition header_ok (sender : Side) (greeted : bool) (kind : FrameType) (len : Z) : Prop :=
  0 ≤ len ≤ MAX_PAYLOAD_LEN ∧ FrameType_may_travel_from kind sender = true ∧ (greeted = true ∨ kind = FT_Hello) ∧
  (kind = FT_DownConfigStage → len ≤ MAX_DOCUMENT_BYTES).

Lemma read_header_sound header sender greeted kind len :
  length header = HEADER_LEN → bytes_ok header → read_header header sender greeted = Ok (kind, len) →
  header = header_bytes kind len ∧ header_ok sender greeted kind len.
Proof.
  intros Hlen Hok. apply (Forall_take _ 4) in Hok.
  assert (length (take 4 header) = 4%nat) as H4 by (rewrite length_take; unfold HEADER_LEN in Hlen; lia).
  assert (Hd : drop 4 header = [byte_at header 4; byte_at header 5; byte_at header 6; byte_at header 7]).
  { destruct header as [|? [|? [|? [|? [|? [|? [|? [|? [|]]]]]]]]]; simplify_eq/=; done. }
  unfold read_header. intros H.
  destruct (byte_at header 5 =? 0) eqn:E5; [|done]. destruct (byte_at header 6 =? 0) eqn:E6; [|done].
  destruct (byte_at header 7 =? 0) eqn:E7; [|done]. simpl in H.
  destruct (FrameType_from_byte (byte_at header 4)) as [k|] eqn:Ek; [|done]. apply FrameType_byte in Ek.
  destruct (MAX_PAYLOAD_LEN <? _) eqn:Em; [done|]. destruct (FrameType_may_travel_from k sender) eqn:Et; [|done].
  destruct (negb greeted && _) eqn:Eg; [done|]. destruct (bool_decide (k = _) && _) eqn:Es; [done|]. simpl in H. simplify_eq.
  pose proof (from_be_range _ Hok) as Hr. unfold header_bytes.
  rewrite <- (take_drop 4 header) at 1. rewrite Hd, Ek.
  assert (be_bytes 4 (from_be (take 4 header)) = take 4 header) as -> by (rewrite <- H4 at 1; by apply be_bytes_from_be).
  split; [repeat f_equal; lia|]. repeat split; [lia..|done| |].
  - destruct greeted; [by left|right]. simpl in Eg. by apply negb_false_iff, bool_decide_eq_true in Eg.
  - intros ->. rewrite bool_decide_true in Es by done. simpl in Es. lia.
Qed.

Lemma read_header_complete sender greeted kind len :
  header_ok sender greeted kind len → read_header (header_bytes kind len) sender greeted = Ok (kind, len).
Proof.
  intros (Hl & Ht & Hg & Hs). unfold read_header, header_bytes.
  assert (H4 := length_be_bytes 4 len).
  assert (∀ i, byte_at (be_bytes 4 len ++ [FrameType_to_byte kind; 0; 0; 0]) (4 + i) = byte_at [FrameType_to_byte kind; 0; 0; 0] i) as Hb.
  { intros i. unfold byte_at. rewrite app_nth2 by lia. f_equal. lia. }
  pose proof (Hb 0%nat) as H0. pose proof (Hb 1%nat) as H1. pose proof (Hb 2%nat) as H2. pose proof (Hb 3%nat) as H3.
  cbn [Nat.add] in *. rewrite H0, H1, H2, H3. unfold byte_at. cbn [nth negb Z.eqb]. rewrite (proj2 (FrameType_byte _ _) eq_refl).
  rewrite take_app_le, take_ge by lia. rewrite from_be_be_bytes by (unfold MAX_PAYLOAD_LEN in Hl; simpl; lia).
  rewrite (proj2 (Z.ltb_ge _ _)) by lia. rewrite Ht. simpl.
  replace (negb greeted && _) with false.
  2:{ destruct Hg as [->| ->]; [done|]. by rewrite bool_decide_true, andb_false_r. }
  replace (bool_decide _ && _) with false; [done|]. symmetry. apply andb_false_iff.
  destruct (decide (kind = FT_DownConfigStage)) as [->|]; [right; specialize (Hs eq_refl); lia|left; by apply bool_decide_false].
Qed.

(** ** One frame *)
Lemma readable_sendable sender greeted f :
  readable sender f → header_ok sender greeted (Frame_frame_type f) (Z.of_nat (length (payload_bytes f))) → sendable sender f.
Proof.
  intros Hr (Hl & Ht & _ & Hs). repeat split; [|  |lia].
  - destruct f; simpl in *; try done. by apply bool_decide_true.
  - destruct f; simpl in *; try done. rewrite (proj2 (Z.ltb_ge _ _)); [done|].
    specialize (Hs eq_refl). unfold payload_bytes in Hs. simpl in Hs. by rewrite app_nil_r in Hs.
Qed.

Lemma sendable_readable sender f :
  sendable sender f →
  readable sender f ∧ header_ok sender true (Frame_frame_type f) (Z.of_nat (length (payload_bytes f))).
Proof.
  intros (Ht & Hc & Hl). split.
  - destruct f; simpl in *; try done. by apply bool_decide_eq_true in Ht.
  - repeat split; [lia..| |by left|].
    + by destruct f.
    + intros Hk. destruct f; try done. simpl in Hc. case_match eqn:E; [done|]. apply Z.ltb_ge in E.
      unfold payload_bytes. simpl. by rewrite app_nil_r.
Qed.

Lemma frame_bytes_header f :
  frame_bytes f = header_bytes (Frame_frame_type f) (Z.of_nat (length (payload_bytes f))) ++ payload_bytes f.
Proof. unfold frame_bytes, header_bytes. by rewrite <- app_assoc. Qed.

Lemma length_header_bytes kind len : length (header_bytes kind len) = HEADER_LEN.
Proof. unfold header_bytes. by rewrite length_app, length_be_bytes. Qed.

Lemma parse_one_sound sender greeted stream f rest :
  bytes_ok stream → parse_one sender greeted stream = Good f rest →
  stream = frame_bytes f ++ rest ∧ frame_ok f ∧ sendable sender f ∧ (greeted = true ∨ Frame_frame_type f = FT_Hello).
Proof.
  intros Hok H. unfold parse_one in H.
  destruct (split_first_chunk HEADER_LEN stream) as [[header body]|] eqn:E1; [|done].
  apply split_first_chunk_Some in E1 as [-> Hh]. apply bytes_ok_app in Hok as [Hok Hbody].
  destruct (read_header header sender greeted) as [[kind len]|] eqn:E2; [|done].
  apply read_header_sound in E2 as [-> Hhdr]; [|done..].
  destruct (split_first_chunk _ body) as [[payload rest']|] eqn:E3; [|done].
  apply split_first_chunk_Some in E3 as [-> Hp]. apply bytes_ok_app in Hbody as [Hpay _].
  destruct (decode_payload _ _ _) as [f'|] eqn:E4; [|done]. simplify_eq.
  apply decode_payload_sound in E4 as (<- & -> & Hf & Hr); [|done].
  destruct Hhdr as (Hl & Hrest). assert (len = Z.of_nat (length (payload_bytes f))) as -> by lia.
  rewrite frame_bytes_header, <- app_assoc. split_all; [done..| |by apply Hrest].
  by eapply readable_sendable.
Qed.

Lemma parse_one_complete sender greeted f rest :
  frame_ok f → sendable sender f → greeted = true ∨ Frame_frame_type f = FT_Hello →
  parse_one sender greeted (frame_bytes f ++ rest) = Good f rest.
Proof.
  intros Hf Hs Hg. apply sendable_readable in Hs as [Hr (Hl & Ht & _ & Hd)].
  unfold parse_one. rewrite frame_bytes_header, <- app_assoc.
  erewrite (proj2 (split_first_chunk_Some HEADER_LEN _ _ _)) by (split; [done|apply length_header_bytes]).
  rewrite read_header_complete by done. rewrite Nat2Z.id.
  erewrite (proj2 (split_first_chunk_Some _ _ (payload_bytes f) rest)) by done.
  by rewrite decode_payload_complete.
Qed.

(** C18. The channel's codec is exact. For every frame of the machine's widths and every
    output a caller offers: a success has filled the first [encoded_len] bytes and no
    other, those bytes followed by anything are read back as that frame with the rest
    untouched, and they are the only bytes that are; the refusal for want of room means
    there was too little; and every other refusal is a frame that no bytes decode to. A
    refusal leaves the output as it was. *)
Theorem frame_codec_exact sender f out :
  frame_ok f →
  match encode sender f out with
  | (Ok n, out') =>
      n = encoded_len f ∧ n ≤ Z.of_nat (length out) ∧ drop (Z.to_nat n) out' = drop (Z.to_nat n) out ∧
      length out' = length out ∧
      (∀ rest, parse_one sender true (take (Z.to_nat n) out' ++ rest) = Good f rest) ∧
      (∀ stream rest, bytes_ok stream → parse_one sender true stream = Good f rest →
         stream = take (Z.to_nat n) out' ++ rest)
  | (Err (OutputTooSmall needed room), out') =>
      out' = out ∧ needed = encoded_len f ∧ room = Z.of_nat (length out) ∧ room < needed
  | (Err _, out') =>
      out' = out ∧ (∀ greeted stream rest, bytes_ok stream → parse_one sender greeted stream ≠ Good f rest)
  end.
Proof.
  intros Hf. destruct (decide (sendable sender f)) as [Hs|Hs].
  - rewrite encode_sendable by done. assert (Hl := encoded_len_eq f (proj2 (proj2 Hs))). rewrite Hl.
    destruct (_ <=? _)%nat eqn:E; [apply Nat.leb_le in E|apply Nat.leb_gt in E; split_all; done || lia]. rewrite Nat2Z.id, take_app_length, drop_app_length.
    split_all; [done|lia|done| | |].
    + rewrite length_app, length_drop. lia.
    + intros rest. apply parse_one_complete; auto.
    + intros stream rest Hok Hp. by apply parse_one_sound in Hp as [-> _].
  - destruct (encode_unsendable _ _ out Hs) as (refusal & -> & Hn).
    destruct refusal; try (by destruct (Hn needed room)); (split; [done|]);
      intros ??? Hok Hp; apply parse_one_sound in Hp as (_ & _ & ? & _); done.
Qed.
