(* ===== verification/ChannelStream.v ===== *)
(** * The controller channel: the decoder reads the stream

    The incremental decoder against a reference that has the whole stream in hand: however
    the peer's bytes are cut into deliveries, the frames read, the rule broken and the bytes
    left waiting are those of [parse_stream] on the bytes put end to end. Nothing a peer
    sends makes the decoder hold more than one frame, or anything behind a refused header. *)
From S2P Require Import Prelude Channel ChannelCodec.

(** ** The reference *)
Inductive Ending := Waiting (greeted : bool) (rest : list Z) | Broken (violation : Violation).

Fixpoint parse_frames (fuel : nat) (sender : Side) (greeted : bool) (stream : list Z) : list Frame * Ending :=
  match fuel with
  | 0%nat => ([], Waiting greeted stream)
  | S fuel =>
  match parse_one sender greeted stream with
  | Short => ([], Waiting greeted stream)
  | Bad violation => ([], Broken violation)
  | Good frame rest =>
      let '(frames, ending) := parse_frames fuel sender true rest in (frame :: frames, ending)
  end
  end.
Definition parse_stream (sender : Side) (greeted : bool) (stream : list Z) : list Frame * Ending :=
  parse_frames (S (length stream)) sender greeted stream.

(** ** The reading loop of a session: offer what is in hand, take every frame that is
    whole, stop when nothing is left. *)

(** A frame handed out empties the buffer, so the second look is the last. *)
Fixpoint next_frames (fuel : nat) (d : FrameDecoder) : list Frame * bool * FrameDecoder :=
  match fuel with
  | 0%nat => ([], false, d)
  | S fuel =>
  match FrameDecoder_next_frame d with
  | (Partial, d) => ([], false, d)
  | (Violated _, d) => ([], true, d)
  | (Framed frame, d) => let '(frames, broken, d) := next_frames fuel d in (frame :: frames, broken, d)
  end
  end.

Fixpoint read_frames (fuel : nat) (plaintext : list Z) (d : FrameDecoder) : list Frame * FrameDecoder :=
  match fuel, plaintext with
  | 0%nat, _ | _, [] => ([], d)
  | S fuel, _ =>
      let '(taken, d) := FrameDecoder_absorb plaintext d in
      let '(frames, broken, d) := next_frames 2 d in
      if broken || (taken =? 0)%nat then (frames, d) else
      let '(more, d) := read_frames fuel (drop taken plaintext) d in (frames ++ more, d)
  end.

Fixpoint read_deliveries (deliveries : list (list Z)) (d : FrameDecoder) : list Frame * FrameDecoder :=
  match deliveries with
  | [] => ([], d)
  | plaintext :: deliveries =>
      match fd_violation d with
      | Some _ => ([], d)
      | None =>
          let '(frames, d) := read_frames (S (length plaintext)) plaintext d in
          let '(more, d) := read_deliveries deliveries d in (frames ++ more, d)
      end
  end.

(** ** The reference's own laws *)
Lemma parse_one_app sender greeted stream more :
  match parse_one sender greeted stream with
  | Short => True
  | Bad violation => parse_one sender greeted (stream ++ more) = Bad violation
  | Good frame rest => parse_one sender greeted (stream ++ more) = Good frame (rest ++ more)
  end.
Proof.
  assert (Hs : ∀ n (l hd tl : list Z), split_first_chunk n l = Some (hd, tl) →
                 split_first_chunk n (l ++ more) = Some (hd, tl ++ more)).
  { intros n l hd tl H. apply split_first_chunk_Some in H as [-> <-].
    apply split_first_chunk_Some. by rewrite <- app_assoc. }
  unfold parse_one. destruct (split_first_chunk HEADER_LEN stream) as [[header body]|] eqn:E; [|done].
  rewrite (Hs _ _ _ _ E). destruct (read_header _ _ _) as [[kind len]|]; [|done].
  destruct (split_first_chunk _ body) as [[payload rest]|] eqn:E2; [|done]. rewrite (Hs _ _ _ _ E2).
  by destruct (decode_payload _ _ _).
Qed.

Lemma parse_one_shorter sender greeted stream frame rest :
  parse_one sender greeted stream = Good frame rest → (length rest < length stream)%nat.
Proof.
  unfold parse_one. intros H. destruct (split_first_chunk HEADER_LEN stream) as [[header body]|] eqn:E; [|done].
  apply split_first_chunk_Some in E as [-> Hh]. destruct (read_header _ _ _) as [[kind len]|]; [|done].
  destruct (split_first_chunk _ body) as [[payload rest']|] eqn:E2; [|done].
  apply split_first_chunk_Some in E2 as [-> _]. destruct (decode_payload _ _ _); [|done]. simplify_eq.
  rewrite !length_app. unfold HEADER_LEN in *. lia.
Qed.

Lemma parse_frames_fuel n m sender greeted stream :
  (length stream < n)%nat → (length stream < m)%nat →
  parse_frames n sender greeted stream = parse_frames m sender greeted stream.
Proof.
  revert m greeted stream. induction n as [|n IH]; intros [|m] greeted stream Hn Hm; try lia. simpl.
  destruct (parse_one _ _ _) as [| |frame rest] eqn:E; [done..|]. apply parse_one_shorter in E.
  by rewrite (IH m) by lia.
Qed.

Lemma parse_stream_eq sender greeted stream :
  parse_stream sender greeted stream =
  match parse_one sender greeted stream with
  | Short => ([], Waiting greeted stream)
  | Bad violation => ([], Broken violation)
  | Good frame rest => let '(frames, ending) := parse_stream sender true rest in (frame :: frames, ending)
  end.
Proof.
  unfold parse_stream at 1. simpl. destruct (parse_one _ _ _) as [| |frame rest] eqn:E; [done..|].
  apply parse_one_shorter in E. unfold parse_stream. by rewrite (parse_frames_fuel _ (S (length rest))) by lia.
Qed.

(** Reading on from where an earlier reading stopped. *)
Lemma parse_stream_app sender greeted stream more :
  parse_stream sender greeted (stream ++ more) =
  match parse_stream sender greeted stream with
  | (frames, Broken violation) => (frames, Broken violation)
  | (frames, Waiting greeted rest) =>
      let '(frames', ending) := parse_stream sender greeted (rest ++ more) in (frames ++ frames', ending)
  end.
Proof.
  remember (length stream) as n eqn:Hn. revert greeted stream Hn.
  induction (lt_wf n) as [n _ IH]; intros greeted stream ->.
  rewrite (parse_stream_eq _ _ stream). pose proof (parse_one_app sender greeted stream more) as Happ.
  destruct (parse_one sender greeted stream) as [|v|frame rest] eqn:E.
  - by destruct (parse_stream _ _ _).
  - by rewrite parse_stream_eq, Happ.
  - rewrite parse_stream_eq, Happ. rewrite (IH (length rest)); [|by eapply parse_one_shorter|done].
    destruct (parse_stream sender true rest) as [frames []]; [|done]. by destruct (parse_stream _ _ _).
Qed.

(** ** What the decoder holds *)
Definition wanted_of (sender : Side) (greeted : bool) (pending : list Z) : nat :=
  match split_first_chunk HEADER_LEN pending with
  | None => HEADER_LEN
  | Some (header, _) =>
      match read_header header sender greeted with
      | Ok (_, len) => HEADER_LEN + Z.to_nat len
      | Err _ => HEADER_LEN
      end
  end.

Record decoder_ok (d : FrameDecoder) (pending : list Z) : Prop := {
  ok_room : length (fd_held d) = Z.to_nat MAX_FRAME_LEN;
  ok_total : (fd_held_len d ≤ Z.to_nat MAX_FRAME_LEN)%nat;
  ok_len : fd_held_len (FrameDecoder_discard d) = length pending;
  ok_held : take (length pending) (fd_held d) = pending;
  ok_wanted : (length pending ≤ wanted_of (fd_sender d) (fd_greeted d) pending)%nat;
  ok_bytes : bytes_ok pending
}.

Lemma wanted_of_bounds sender greeted pending :
  (HEADER_LEN ≤ wanted_of sender greeted pending ≤ Z.to_nat MAX_FRAME_LEN)%nat.
Proof.
  unfold wanted_of. destruct (split_first_chunk _ _) as [[header ?]|]; [|unfold MAX_FRAME_LEN, MAX_PAYLOAD_LEN, HEADER_LEN; lia].
  destruct (read_header _ _ _) as [[kind len]|] eqn:E; [|unfold MAX_FRAME_LEN, MAX_PAYLOAD_LEN, HEADER_LEN; lia].
  assert (len ≤ MAX_PAYLOAD_LEN).
  { unfold read_header in E. repeat case_match; simplify_eq; lia. }
  unfold MAX_FRAME_LEN, MAX_PAYLOAD_LEN, HEADER_LEN in *. lia.
Qed.

Lemma wanted_of_app sender greeted pending more :
  (HEADER_LEN ≤ length pending)%nat → wanted_of sender greeted (pending ++ more) = wanted_of sender greeted pending.
Proof.
  intros H. unfold wanted_of. destruct (split_first_chunk HEADER_LEN pending) as [[header rest]|] eqn:E.
  - apply split_first_chunk_Some in E as [-> Hh].
    by rewrite (proj2 (split_first_chunk_Some HEADER_LEN ((header ++ rest) ++ more) header (rest ++ more))) by (by rewrite <- app_assoc).
  - apply split_first_chunk_None in E. lia.
Qed.

Lemma read_header_len header sender greeted kind len :
  bytes_ok header → read_header header sender greeted = Ok (kind, len) → 0 ≤ len.
Proof.
  intros Hok H. assert (len = from_be (take 4 header)) as -> by (unfold read_header in H; repeat case_match; by simplify_eq).
  by apply from_be_range, Forall_take.
Qed.

(** A buffer short of what it wants is a frame not whole, and a full one is not. *)
Lemma parse_one_wanted sender greeted pending :
  bytes_ok pending → (length pending ≤ wanted_of sender greeted pending)%nat →
  match parse_one sender greeted pending with
  | Short => (length pending < wanted_of sender greeted pending)%nat
  | Bad _ => length pending = wanted_of sender greeted pending
  | Good _ rest => length pending = wanted_of sender greeted pending ∧ rest = []
  end.
Proof.
  intros Hok. unfold parse_one, wanted_of. destruct (split_first_chunk HEADER_LEN pending) as [[header rest]|] eqn:E.
  2:{ by apply split_first_chunk_None in E. }
  apply split_first_chunk_Some in E as [-> Hh]. rewrite length_app. destruct (read_header _ _ _) as [[kind len]|]; [|lia].
  destruct (split_first_chunk _ rest) as [[payload tail]|] eqn:E.
  2:{ apply split_first_chunk_None in E. lia. }
  apply split_first_chunk_Some in E as [-> Hp]. rewrite length_app.
  destruct (decode_payload _ _ _); [|lia]. intros. assert (length tail = 0%nat) by lia. destruct tail; [|done]. split; [|done].
  rewrite Hh, Hp. apply f_equal, Nat.add_0_r.
Qed.

Lemma decoder_new_ok sender held :
  length held = Z.to_nat MAX_FRAME_LEN → decoder_ok (FrameDecoder_new sender held) [].
Proof. intros. constructor; try done; [simpl; lia..|constructor]. Qed.

Lemma discard_ok d pending : decoder_ok d pending → decoder_ok (FrameDecoder_discard d) pending.
Proof.
  intros Hd. unfold FrameDecoder_discard. destruct (fd_handed d) eqn:E; [|done].
  destruct Hd as [Hr Ht Hl Hh Hw Hb]. unfold FrameDecoder_discard in Hl. rewrite E in Hl. constructor; try done. simpl. lia.
Qed.

Lemma discard_handed d : fd_handed (FrameDecoder_discard d) = false.
Proof. unfold FrameDecoder_discard. by destruct (fd_handed d) eqn:E. Qed.

Lemma discard_fields d :
  fd_sender (FrameDecoder_discard d) = fd_sender d ∧ fd_greeted (FrameDecoder_discard d) = fd_greeted d ∧
  fd_violation (FrameDecoder_discard d) = fd_violation d.
Proof. unfold FrameDecoder_discard. by destruct (fd_handed d). Qed.

Section Held.
  Context (d : FrameDecoder) (pending : list Z) (Hd : decoder_ok d pending) (Hfresh : fd_handed d = false).

Lemma held_length : fd_held_len d = length pending.
Proof. pose proof (ok_len _ _ Hd) as H. unfold FrameDecoder_discard in H. by rewrite Hfresh in H. Qed.

Lemma header_pending :
  FrameDecoder_header d = (fst <$> split_first_chunk HEADER_LEN pending).
Proof.
  unfold FrameDecoder_header, split_first_chunk. rewrite held_length.
  destruct (_ <? _)%nat eqn:E; [done|]. simpl. f_equal.
  apply Nat.ltb_ge in E. rewrite <- (ok_held _ _ Hd) at 1. rewrite take_take. f_equal. lia.
Qed.

Lemma wanted_pending : FrameDecoder_wanted d = Z.of_nat (wanted_of (fd_sender d) (fd_greeted d) pending).
Proof.
  unfold FrameDecoder_wanted, wanted_of. rewrite header_pending.
  destruct (split_first_chunk HEADER_LEN pending) as [[header rest]|] eqn:E; [|done]. change (fst <$> Some (header, rest)) with (Some header). cbv iota beta.
  destruct (read_header _ _ _) as [[kind len]|] eqn:Er; [|done].
  apply split_first_chunk_Some in E as [-> _]. apply read_header_len in Er; [unfold HEADER_LEN; lia|].
  apply ok_bytes, bytes_ok_app in Hd. apply Hd.
Qed.
End Held.

(** The fields a reading leaves alone. *)
Definition alike (d d' : FrameDecoder) : Prop :=
  fd_sender d' = fd_sender d ∧ fd_greeted d' = fd_greeted d ∧ fd_violation d' = fd_violation d.

Lemma take_splice {A} (l piece : list A) n :
  (n + length piece ≤ length l)%nat → take (n + length piece) (splice l n piece) = take n l ++ piece.
Proof. intros. unfold splice. rewrite app_assoc, take_app_le, take_ge; rewrite ?length_app, ?length_take; auto with lia. Qed.

Lemma take_spec d pending bytes :
  decoder_ok d pending → fd_handed d = false → bytes_ok bytes →
  let n := Nat.min (wanted_of (fd_sender d) (fd_greeted d) pending - length pending) (length bytes) in
  ∃ d', FrameDecoder_take bytes d = (n, d') ∧ decoder_ok d' (pending ++ take n bytes) ∧ alike d d' ∧ fd_handed d' = false.
Proof.
  intros Hd Hf Hb n. pose proof (wanted_of_bounds (fd_sender d) (fd_greeted d) pending) as Hw.
  pose proof (held_length _ _ Hd Hf) as Hl. pose proof (ok_room _ _ Hd) as Hroom. pose proof (ok_wanted _ _ Hd) as Hle.
  assert (length (take n bytes) = n) as Hn by (rewrite length_take; lia).
  assert ((if (length (fd_held d) <? fd_held_len d)%nat then (0%nat, d) else
    (length (take n bytes), d <| fd_held ::= λ held, splice held (fd_held_len d) (take n bytes) |>
      <| fd_held_len ::= λ m, (m + length (take n bytes))%nat |>)) = FrameDecoder_take bytes d) as <-.
  { unfold FrameDecoder_take. rewrite (wanted_pending _ _ Hd Hf), Hl, Hroom. unfold saturating_sub.
    destruct (_ <? _)%nat; [done|]. rewrite !take_take.
    replace (_ `min` Z.to_nat _)%nat with (wanted_of (fd_sender d) (fd_greeted d) pending - length pending)%nat by lia.
    assert (take (wanted_of (fd_sender d) (fd_greeted d) pending - length pending) bytes = take n bytes) as ->; [|done].
    subst n. destruct (decide (length bytes ≤ wanted_of (fd_sender d) (fd_greeted d) pending - length pending)%nat).
    - rewrite Nat.min_r by done. by rewrite !take_ge.
    - by rewrite Nat.min_l by lia. }
  rewrite (proj2 (Nat.ltb_ge _ _)) by lia. rewrite Hn. eexists. split; [done|].
  assert (length (pending ++ take n bytes) = (length pending + n)%nat) as Hpn by (rewrite length_app; lia).
  split; [|done]. constructor.
  - simpl. rewrite length_splice; lia.
  - simpl. lia.
  - unfold FrameDecoder_discard. simpl. rewrite Hf. simpl. rewrite Hpn. by rewrite Hl.
  - simpl. rewrite Hpn, Hl. rewrite <- Hn at 1. rewrite take_splice by lia. by rewrite (ok_held _ _ Hd).
  - cbn [fd_sender fd_greeted assign]. rewrite Hpn. destruct (decide (HEADER_LEN ≤ length pending)%nat).
    + rewrite wanted_of_app by done. lia.
    + pose proof (wanted_of_bounds (fd_sender d) (fd_greeted d) (pending ++ take n bytes)).
      assert (wanted_of (fd_sender d) (fd_greeted d) pending = HEADER_LEN) as E.
      { unfold wanted_of. by rewrite (proj2 (split_first_chunk_None _ _)) by lia. }
      simpl. rewrite E in *. lia.
  - apply bytes_ok_app. split; [apply (ok_bytes _ _ Hd)|by apply Forall_take].
Qed.

Lemma absorb_spec d pending bytes :
  decoder_ok d pending → fd_violation d = None → bytes_ok bytes →
  ∃ n d', FrameDecoder_absorb bytes d = (n, d') ∧ decoder_ok d' (pending ++ take n bytes) ∧ alike d d' ∧
    fd_handed d' = false ∧ (n ≤ length bytes)%nat ∧
    (n = length bytes ∨
     length (pending ++ take n bytes) = wanted_of (fd_sender d) (fd_greeted d) (pending ++ take n bytes)) ∧
    ((length pending < wanted_of (fd_sender d) (fd_greeted d) pending)%nat → bytes ≠ [] → n ≠ 0%nat).
Proof.
  intros Hd Hv Hb. destruct (discard_fields d) as (Hs & Hg & Hv'). apply discard_ok in Hd.
  unfold FrameDecoder_absorb. rewrite Hv', Hv.
  destruct (take_spec _ _ bytes Hd (discard_handed d) Hb) as (d1 & E1 & Hd1 & (Hs1 & Hg1 & Hv1) & Hf1).
  rewrite E1, Hs, Hg in *. remember (Nat.min _ _) as n1 eqn:Hn1e in *.
  assert (length (take n1 bytes) = n1) as Hn1 by (rewrite length_take; lia).
  pose proof (ok_wanted _ _ Hd) as Hle. rewrite Hs, Hg in Hle.
  destruct (n1 =? 0)%nat eqn:E0.
  - apply Nat.eqb_eq in E0. exists 0%nat, d1. rewrite E0 in *. rewrite take_0, app_nil_r in *.
    split_all; unfold alike; split_all; try (congruence || lia).
    intros ? Hne. destruct bytes; [done|]. simpl in *. lia.
  - apply Nat.eqb_neq in E0.
    assert (bytes_ok (drop n1 bytes)) as Hb2 by by apply Forall_drop.
    destruct (take_spec _ _ _ Hd1 Hf1 Hb2) as (d2 & E2 & Hd2 & (Hs2 & Hg2 & Hv2) & Hf2).
    rewrite E2, Hs1, Hg1, length_drop, length_app, Hn1 in *. remember (Nat.min _ _) as n2 eqn:Hn2e in E2 |- *. rewrite <- Hn2e in Hd2.
    rewrite <- app_assoc, take_take_drop in Hd2.
    exists (n1 + n2)%nat, d2. split_all; unfold alike; split_all; try (done || congruence || lia).
    destruct (decide (n1 + n2 = length bytes)%nat) as [|Hn]; [by left|right].
    pose proof (wanted_of_bounds (fd_sender d) (fd_greeted d) pending) as Hw.
    pose proof (ok_wanted _ _ Hd1) as Hle1. rewrite Hs1, Hg1, length_app in Hle1.
    rewrite <- take_take_drop, app_assoc, length_app, wanted_of_app; rewrite length_app, ?length_take, ?length_drop in *; lia.
Qed.

Lemma violated_ok d pending violation : decoder_ok d pending → decoder_ok (d <| fd_violation := Some violation |>) pending.
Proof.
  intros [Hr Ht Hl Hh Hw Hb]. unfold FrameDecoder_discard in Hl. constructor; try done.
  unfold FrameDecoder_discard. simpl. by destruct (fd_handed d).
Qed.

Lemma next_frame_spec d pending :
  decoder_ok d pending → fd_violation d = None →
  let '(decoded, d') := FrameDecoder_next_frame d in
  fd_sender d' = fd_sender d ∧
  match parse_one (fd_sender d) (fd_greeted d) pending with
  | Short => decoded = Partial ∧ decoder_ok d' pending ∧ alike d d'
  | Bad violation => decoded = Violated violation ∧ decoder_ok d' pending ∧ fd_violation d' = Some violation
  | Good frame rest =>
      decoded = Framed frame ∧ rest = [] ∧ decoder_ok d' [] ∧ fd_greeted d' = true ∧ fd_violation d' = None
  end.
Proof.
  intros Hd Hv. pose proof (parse_one_wanted _ (fd_greeted d) _ (ok_bytes _ _ Hd) (ok_wanted _ _ Hd)) as Hp.
  destruct (discard_fields d) as (Hs & Hg & Hv'). apply discard_ok in Hd.
  unfold FrameDecoder_next_frame. rewrite Hv', Hv, (header_pending _ _ Hd (discard_handed d)), Hs, Hg.
  pose proof (held_length _ _ Hd (discard_handed d)) as Hl.
  unfold parse_one in *. destruct (split_first_chunk HEADER_LEN pending) as [[header rest]|] eqn:E1; simpl; [|by rewrite Hs].
  destruct (read_header header _ _) as [[kind len]|v] eqn:E2; simpl; [|split; [exact Hs|]; split_all; try done; exact (violated_ok _ _ v Hd)].
  apply split_first_chunk_Some in E1 as [-> Hh]. rewrite length_app in Hl.
  destruct (split_first_chunk _ rest) as [[payload tail]|] eqn:E3.
  2:{ apply split_first_chunk_None in E3. rewrite (proj2 (Nat.ltb_lt _ _)) by (unfold HEADER_LEN in *; lia). by rewrite Hs. }
  apply split_first_chunk_Some in E3 as [-> Hpay]. rewrite length_app in Hl.
  pose proof (ok_held _ _ Hd) as Hh'. pose proof (ok_room _ _ Hd) as Hroom.
  assert ((length (header ++ payload ++ tail) ≤ length (fd_held (FrameDecoder_discard d)))%nat) as Hfit.
  { rewrite <- Hh' at 1. rewrite length_take. lia. }
  rewrite !length_app in Hfit.
  rewrite (proj2 (Nat.ltb_ge _ _)) by (unfold HEADER_LEN in *; lia).
  rewrite (proj2 (Nat.ltb_ge _ _)) by (unfold HEADER_LEN in *; lia).
  assert (take (Z.to_nat len) (drop HEADER_LEN (fd_held (FrameDecoder_discard d))) = payload) as Hpl.
  { rewrite <- (take_drop (length (header ++ payload ++ tail)) (fd_held _)), Hh', <- !app_assoc.
    by rewrite drop_app_length', take_app_length'. }
  change (take (Z.to_nat len) _) with (take (Z.to_nat len) (drop HEADER_LEN (fd_held (FrameDecoder_discard d)))).
  rewrite Hpl. destruct (decode_payload kind _ payload) as [frame|v] eqn:E4; simpl; [|split; [exact Hs|]; split_all; try done; exact (violated_ok _ _ v Hd)].
  split; [done|]. destruct Hp as [_ ->]. split_all; try (done || (simpl; congruence)). constructor; try done; [exact (ok_total _ _ Hd)|simpl; lia|constructor].
Qed.

(** ** The loop *)
Definition leaves (d : FrameDecoder) (ending : Ending) : Prop :=
  match ending with
  | Waiting greeted rest =>
      fd_violation d = None ∧ fd_greeted d = greeted ∧ decoder_ok d rest ∧ parse_one (fd_sender d) greeted rest = Short
  | Broken violation => fd_violation d = Some violation
  end.

Lemma parse_one_nil sender greeted : parse_one sender greeted [] = Short.
Proof. done. Qed.

Lemma next_frames_spec d pending :
  decoder_ok d pending → fd_violation d = None →
  let '(frames, broken, d') := next_frames 2 d in
  fd_sender d' = fd_sender d ∧
  match parse_one (fd_sender d) (fd_greeted d) pending with
  | Short => frames = [] ∧ broken = false ∧ decoder_ok d' pending ∧ alike d d'
  | Bad violation => frames = [] ∧ broken = true ∧ fd_violation d' = Some violation
  | Good frame rest =>
      frames = [frame] ∧ broken = false ∧ rest = [] ∧ decoder_ok d' [] ∧ fd_greeted d' = true ∧ fd_violation d' = None
  end.
Proof.
  intros Hd Hv. cbn [next_frames]. pose proof (next_frame_spec _ _ Hd Hv) as H.
  destruct (FrameDecoder_next_frame d) as [decoded d1]. destruct H as [Hs H].
  destruct (parse_one _ _ pending) as [|v|frame rest].
  - by destruct H as (-> & ? & ?).
  - by destruct H as (-> & ? & ?).
  - destruct H as (-> & -> & Hd1 & Hg & Hv1). pose proof (next_frame_spec _ _ Hd1 Hv1) as H.
    destruct (FrameDecoder_next_frame d1) as [decoded d2]. rewrite parse_one_nil in H.
    destruct H as (Hs2 & -> & Hd2 & ? & ? & ?). split; [congruence|]. split_all; (done || congruence).
Qed.

Lemma read_frames_spec fuel plaintext d pending :
  decoder_ok d pending → fd_violation d = None → parse_one (fd_sender d) (fd_greeted d) pending = Short →
  bytes_ok plaintext → (length plaintext < fuel)%nat →
  let '(frames, d') := read_frames fuel plaintext d in
  let '(frames', ending) := parse_stream (fd_sender d) (fd_greeted d) (pending ++ plaintext) in
  frames = frames' ∧ fd_sender d' = fd_sender d ∧ leaves d' ending.
Proof.
  revert plaintext d pending. induction fuel as [|fuel IH]; intros plaintext d pending Hd Hv Hshort Hb Hfuel; [lia|].
  destruct plaintext as [|b0 plaintext'].
  { rewrite app_nil_r, parse_stream_eq, Hshort. simpl. done. }
  set (plaintext := b0 :: plaintext') in *. cbn [read_frames]. fold plaintext.
  destruct (absorb_spec _ _ _ Hd Hv Hb) as (n & d1 & -> & Hd1 & (Hs1 & Hg1 & Hv1) & _ & Hn & Hall & Hprog).
  pose proof (parse_one_wanted _ _ _ (ok_bytes _ _ Hd) (ok_wanted _ _ Hd)) as Hless. rewrite Hshort in Hless.
  specialize (Hprog Hless ltac:(done)).
  pose proof (parse_one_wanted _ _ _ (ok_bytes _ _ Hd1) (ok_wanted _ _ Hd1)) as Hwant. rewrite Hs1, Hg1 in Hwant.
  pose proof (next_frames_spec _ _ Hd1 ltac:(congruence)) as H. rewrite Hs1, Hg1 in H.
  destruct (next_frames 2 d1) as [[frames broken] d2]. destruct H as [Hs2 H].
  replace (pending ++ plaintext) with ((pending ++ take n plaintext) ++ drop n plaintext) by (by rewrite <- app_assoc, take_drop).
  rewrite parse_stream_eq.
  pose proof (parse_one_app (fd_sender d) (fd_greeted d) (pending ++ take n plaintext) (drop n plaintext)) as Happ.
  destruct (parse_one _ _ (pending ++ take n plaintext)) as [|v|frame rest] eqn:E.
  - destruct H as (-> & -> & Hd2 & Ha). destruct Hall as [->|Hall]; [|lia].
    rewrite (proj2 (Nat.eqb_neq _ _)) by done. rewrite drop_ge, app_nil_r, E by done. simpl.
    destruct fuel; [simpl in Hfuel; lia|]. cbn. destruct Ha as (Hs & Hg & Hv2). rewrite <- Hs2 in E. split_all; (done || congruence).
  - destruct H as (-> & -> & Hv2). rewrite Happ. done.
  - destruct H as (-> & -> & -> & Hd2 & Hg2 & Hv2). rewrite Happ. simpl app. rewrite (proj2 (Nat.eqb_neq _ _)) by done. cbn [orb].
    specialize (IH (drop n plaintext) d2 [] Hd2 Hv2 (parse_one_nil _ _) (Forall_drop _ _ _ Hb) ltac:(rewrite length_drop; lia)).
    destruct (read_frames fuel _ d2) as [more d3]. rewrite Hs2, Hg2 in IH. simpl app in IH.
    destruct (parse_stream _ true _) as [frames' ending]. destruct IH as (-> & ? & ?). done.
Qed.

Lemma read_deliveries_broken deliveries d v : fd_violation d = Some v → read_deliveries deliveries d = ([], d).
Proof. intros H. destruct deliveries; [done|]. simpl. by rewrite H. Qed.

Lemma read_deliveries_spec deliveries d pending :
  decoder_ok d pending → fd_violation d = None → parse_one (fd_sender d) (fd_greeted d) pending = Short →
  Forall bytes_ok deliveries →
  let '(frames, d') := read_deliveries deliveries d in
  let '(frames', ending) := parse_stream (fd_sender d) (fd_greeted d) (pending ++ concat deliveries) in
  frames = frames' ∧ leaves d' ending.
Proof.
  revert d pending. induction deliveries as [|plaintext deliveries IH]; intros d pending Hd Hv Hshort Hb.
  { simpl. rewrite app_nil_r, parse_stream_eq, Hshort. done. }
  apply Forall_cons in Hb as [Hb Hbs]. cbn [read_deliveries concat]. rewrite Hv.
  pose proof (read_frames_spec (S (length plaintext)) plaintext d pending Hd Hv Hshort Hb (Nat.lt_succ_diag_r _)) as H.
  destruct (read_frames _ plaintext d) as [frames d1].
  rewrite app_assoc, parse_stream_app. destruct (parse_stream _ _ (pending ++ plaintext)) as [frames' [greeted rest|v]].
  - destruct H as (-> & Hs & Hv1 & Hg & Hd1 & Hshort1). rewrite <- Hg in Hshort1. specialize (IH d1 rest Hd1 Hv1 Hshort1 Hbs).
    destruct (read_deliveries deliveries d1) as [more d2]. rewrite Hs, Hg in IH.
    destruct (parse_stream _ greeted _) as [more' ending]. by destruct IH as (-> & ?).
  - destruct H as (-> & Hs & Hv1). simpl in Hv1. rewrite (read_deliveries_broken _ _ _ Hv1). by rewrite app_nil_r.
Qed.

(** However a peer's bytes are cut into deliveries, the session reads what is in them put
    end to end: the same frames in the same order, the same broken rule, and otherwise the
    same bytes of an unfinished frame waiting in the decoder. *)
Theorem deliveries_read_as_one_stream sender held deliveries :
  length held = Z.to_nat MAX_FRAME_LEN → Forall bytes_ok deliveries →
  let '(frames, d) := read_deliveries deliveries (FrameDecoder_new sender held) in
  let '(frames', ending) := parse_stream sender false (concat deliveries) in
  frames = frames' ∧
  match ending with
  | Waiting greeted rest =>
      fd_violation d = None ∧ fd_greeted d = greeted ∧
      take (fd_held_len (FrameDecoder_discard d)) (fd_held d) = rest
  | Broken violation => fd_violation d = Some violation
  end.
Proof.
  intros Hheld Hb. pose proof (read_deliveries_spec deliveries _ [] (decoder_new_ok sender held Hheld) eq_refl eq_refl Hb) as H.
  destruct (read_deliveries _ _) as [frames d]. simpl app in H. simpl fd_sender in H. simpl fd_greeted in H.
  destruct (parse_stream _ _ _) as [frames' [greeted rest|]]; [|done].
  destruct H as (-> & ? & ? & Hd & _). rewrite (ok_len _ _ Hd), (ok_held _ _ Hd). done.
Qed.

(** ** From one end to the other *)

(** Every frame into an output of its own length. *)
Fixpoint send_all (sender : Side) (frames : list Frame) : option (list Z) :=
  match frames with
  | [] => Some []
  | frame :: frames =>
      match encode sender frame (replicate (Z.to_nat (encoded_len frame)) 0) with
      | (Ok written, out) => rest ← send_all sender frames; Some (take (Z.to_nat written) out ++ rest)
      | (Err _, _) => None
      end
  end.

Lemma frame_bytes_ok f : frame_ok f → bytes_ok (frame_bytes f).
Proof.
  assert (∀ n x, bytes_ok (be_bytes n x)) as Hw by (intros; apply be_bytes_ok).
  assert (∀ k, is_u8 (FrameType_to_byte k) ∧ is_u8 0) as Hk by (intros []; split; simpl; ints).
  assert (∀ r, is_u8 (Ring_to_byte r)) as Hr by (intros []; simpl; ints).
  assert (∀ st, is_u8 (RangeStatus_to_byte st)) as Hst by (intros []; simpl; ints).
  intros Hf. unfold frame_bytes, payload_bytes. unfold bytes_ok in *. rewrite !Forall_app.
  split_all; [done|repeat constructor; apply (Hk FT_Hello) || apply Hk|].
  destruct f as [[]| | | | | | | | |]; cbn [pieces concat frame_ok] in *; destruct_and?;
    rewrite ?app_nil_r, ?Forall_app, ?Forall_cons; split_all; auto using Forall_nil_2.
Qed.

Lemma send_all_bytes sender frames stream :
  Forall frame_ok frames → send_all sender frames = Some stream →
  stream = concat (frame_bytes <$> frames) ∧ Forall (sendable sender) frames.
Proof.
  revert stream. induction frames as [|f frames IH]; intros stream Hf H; simpl in H; [by simplify_eq|].
  apply Forall_cons in Hf as [Hf Hfs]. destruct (decide (sendable sender f)) as [Hs|Hs].
  - rewrite encode_sendable in H by done. assert (Hl := encoded_len_eq f (proj2 (proj2 Hs))). rewrite Hl, Nat2Z.id, length_replicate in H.
    rewrite Nat.leb_refl, Nat2Z.id, take_app_length in H.
    apply bind_Some in H as (rest & Hr & [= <-]). destruct (IH rest) as [-> ?]; auto.
  - destruct (encode_unsendable _ _ (replicate (Z.to_nat (encoded_len f)) 0) Hs) as (e & E & _). by rewrite E in H.
Qed.

Lemma parse_stream_frames sender greeted frames :
  Forall frame_ok frames → Forall (sendable sender) frames →
  greeted = true ∨ (∀ f, head frames = Some f → Frame_frame_type f = FT_Hello) →
  parse_stream sender greeted (concat (frame_bytes <$> frames)) =
    (frames, Waiting (greeted || negb (bool_decide (frames = []))) []).
Proof.
  intros Hf. revert greeted. induction Hf as [|f frames Hf Hfs IH]; intros greeted Hs Hg.
  - simpl. rewrite parse_stream_eq, parse_one_nil. by destruct greeted.
  - apply Forall_cons in Hs as [Hs Hss]. rewrite parse_stream_eq, fmap_cons. cbn [concat]. rewrite parse_one_complete; [|done..|].
    2:{ destruct Hg as [|Hg]; [by left|right; by apply Hg]. }
    rewrite IH by auto. by destruct greeted.
Qed.

(** C17. What one end sends is what the other acts on. Frames encoded one after another, a
    greeting first, and cut into deliveries in any way at all are read as exactly those
    frames in that order, with no rule broken and nothing left over. *)
Theorem frames_survive_the_channel sender held frames deliveries :
  length held = Z.to_nat MAX_FRAME_LEN → Forall frame_ok frames →
  (∀ f, head frames = Some f → Frame_frame_type f = FT_Hello) →
  send_all sender frames = Some (concat deliveries) →
  ∃ d, read_deliveries deliveries (FrameDecoder_new sender held) = (frames, d) ∧ fd_violation d = None ∧
       fd_held_len (FrameDecoder_discard d) = 0%nat.
Proof.
  intros Hheld Hf Hhello Hsend. apply send_all_bytes in Hsend as [Hcat Hs]; [|done].
  assert (Forall bytes_ok deliveries) as Hb.
  { apply Forall_concat. rewrite Hcat. apply Forall_concat, Forall_fmap. eapply Forall_impl; [exact Hf|].
    intros f. apply frame_bytes_ok. }
  pose proof (read_deliveries_spec deliveries _ [] (decoder_new_ok sender held Hheld) eq_refl eq_refl Hb) as H.
  simpl app in H. simpl fd_sender in H. simpl fd_greeted in H. rewrite Hcat, parse_stream_frames in H by auto.
  destruct (read_deliveries _ _) as [frames' d]. destruct H as (-> & Hv & _ & Hd & _). exists d.
  split_all; [done..|]. exact (ok_len _ _ Hd).
Qed.

(** ** Any calls at all *)
Inductive Call := Absorb (bytes : list Z) | NextFrame.
Definition call_ok (call : Call) : Prop := match call with Absorb bytes => bytes_ok bytes | NextFrame => True end.
Definition run_call (d : FrameDecoder) (call : Call) : FrameDecoder :=
  match call with
  | Absorb bytes => (FrameDecoder_absorb bytes d).2
  | NextFrame => (FrameDecoder_next_frame d).2
  end.

Lemma absorb_violated d v bytes :
  fd_violation d = Some v → FrameDecoder_absorb bytes d = (0%nat, FrameDecoder_discard d).
Proof. intros H. unfold FrameDecoder_absorb. destruct (discard_fields d) as (_ & _ & ->). by rewrite H. Qed.

Lemma next_frame_violated d v :
  fd_violation d = Some v → FrameDecoder_next_frame d = (Violated v, FrameDecoder_discard d).
Proof. intros H. unfold FrameDecoder_next_frame. destruct (discard_fields d) as (_ & _ & ->). by rewrite H. Qed.

Lemma run_call_ok d call :
  call_ok call → (∃ pending, decoder_ok d pending) →
  (∃ pending, decoder_ok (run_call d call) pending) ∧ fd_sender (run_call d call) = fd_sender d ∧
  (∀ v, fd_violation d = Some v → fd_violation (run_call d call) = Some v).
Proof.
  intros Hc [pending Hd]. destruct (fd_violation d) as [v|] eqn:Hv.
  - assert (run_call d call = FrameDecoder_discard d) as ->.
    { destruct call; simpl; [by rewrite (absorb_violated _ v)|by rewrite (next_frame_violated _ v)]. }
    destruct (discard_fields d) as (Hs & _ & Hv'). split; [eauto using discard_ok|]. split; [done|]. congruence.
  - split; [|split; [|done]]; destruct call as [bytes|]; simpl.
    + destruct (absorb_spec _ _ _ Hd Hv Hc) as (n & d' & -> & ? & _). eauto.
    + pose proof (next_frame_spec _ _ Hd Hv) as H. destruct (FrameDecoder_next_frame d) as [decoded d'].
      destruct H as [_ H]. simpl. destruct (parse_one _ _ _); [destruct H as (_ & ? & _)|destruct H as (_ & ? & _)|destruct H as (_ & _ & ? & _)]; eauto.
    + destruct (absorb_spec _ _ _ Hd Hv Hc) as (n & d' & -> & _ & (? & _) & _). done.
    + pose proof (next_frame_spec _ _ Hd Hv) as H. destruct (FrameDecoder_next_frame d) as [decoded d']. apply H.
Qed.

Lemma run_calls_ok calls d :
  Forall call_ok calls → (∃ pending, decoder_ok d pending) →
  (∃ pending, decoder_ok (foldl run_call d calls) pending) ∧ fd_sender (foldl run_call d calls) = fd_sender d ∧
  (∀ v, fd_violation d = Some v → fd_violation (foldl run_call d calls) = Some v).
Proof.
  intros Hc. revert d. induction Hc as [|call calls Hc _ IH]; intros d Hd; [done|]. simpl.
  destruct (run_call_ok d call Hc Hd) as (Hd1 & Hs1 & Hv1). destruct (IH _ Hd1) as (Hd2 & Hs2 & Hv2).
  split; [done|]. split; [congruence|]. auto.
Qed.

(** C19. A hostile peer is bounded. Whatever is called in whatever order with whatever bytes,
    the decoder holds at most one frame and nothing behind a header it refuses; the first
    rule broken stays the answer and no byte is taken after it; and while no whole frame is
    in hand an offer of any bytes is taken in part, so the reading pair terminates. *)
Theorem hostile_peer_is_bounded sender held calls more :
  length held = Z.to_nat MAX_FRAME_LEN → Forall call_ok calls → Forall call_ok more →
  let d := foldl run_call (FrameDecoder_new sender held) calls in
  Z.of_nat (fd_held_len d) ≤ MAX_FRAME_LEN ∧
  (∀ header v, fd_handed d = false → FrameDecoder_header d = Some header →
     read_header header sender (fd_greeted d) = Err v → fd_held_len d = HEADER_LEN) ∧
  (∀ v, fd_violation d = Some v →
     let d' := foldl run_call d more in
     (FrameDecoder_next_frame d').1 = Violated v ∧ ∀ bytes, (FrameDecoder_absorb bytes d').1 = 0%nat) ∧
  (∀ bytes, bytes_ok bytes → bytes ≠ [] → (FrameDecoder_next_frame d).1 = Partial →
     (FrameDecoder_absorb bytes (FrameDecoder_next_frame d).2).1 ≠ 0%nat).
Proof.
  intros Hheld Hc Hm d.
  destruct (run_calls_ok calls _ Hc (ex_intro _ [] (decoder_new_ok sender held Hheld))) as ([pending Hd] & Hs & _).
  fold d in Hd, Hs. simpl in Hs. split_all.
  - pose proof (ok_total _ _ Hd). unfold MAX_FRAME_LEN, MAX_PAYLOAD_LEN, HEADER_LEN in *. lia.
  - intros header v Hf Hh Hr. pose proof (ok_wanted _ _ Hd) as Hw. rewrite (held_length _ _ Hd Hf). unfold wanted_of in Hw.
    rewrite (header_pending _ _ Hd Hf) in Hh. destruct (split_first_chunk _ _) as [[h rest]|] eqn:E; simplify_eq/=.
    rewrite Hs, Hr in Hw. apply split_first_chunk_Some in E as [-> Hl]. rewrite length_app in *. lia.
  - intros v Hv d'. destruct (run_calls_ok more d Hm (ex_intro _ _ Hd)) as (_ & _ & Hv').
    specialize (Hv' v Hv). fold d' in Hv'. rewrite (next_frame_violated _ _ Hv').
    split; [done|]. intros. by rewrite (absorb_violated _ _ _ Hv').
  - intros bytes Hb Hne Hp. destruct (fd_violation d) as [v|] eqn:Hv.
    { by rewrite (next_frame_violated _ _ Hv) in Hp. }
    pose proof (parse_one_wanted _ _ _ (ok_bytes _ _ Hd) (ok_wanted _ _ Hd)) as Hw.
    pose proof (next_frame_spec _ _ Hd Hv) as H. destruct (FrameDecoder_next_frame d) as [decoded d'].
    destruct H as [Hs' H]. simpl in Hp |- *. subst decoded.
    destruct (parse_one _ _ _); [|by destruct H as [? _]..]. destruct H as (_ & Hd' & _ & Hg & Hv').
    destruct (absorb_spec d' pending bytes Hd') as (n & d2 & E & _ & _ & _ & _ & _ & Hpos); [congruence|done|].
    rewrite E. simpl. apply Hpos; [congruence|done].
Qed.

(** ** Witnesses *)
Definition greeting : list Frame := [FrameHello (HelloServer 7 9); DownCommitConfirm 3].
Definition blank_buffer : list Z := replicate (Z.to_nat MAX_FRAME_LEN) 0.

Lemma frame_codec_exact_witness :
  frame_ok (DownRangeRead Capture 4096 512) ∧
  parse_one Server true (take 25 (encode Server (DownRangeRead Capture 4096 512) (replicate 30 7)).2 ++ [1; 2])
    = Good (DownRangeRead Capture 4096 512) [1; 2].
Proof.
  assert (frame_ok (DownRangeRead Capture 4096 512)) as Hok by (split; ints). split; [exact Hok|].
  destruct (frame_codec_exact Server (DownRangeRead Capture 4096 512) (replicate 30 7) Hok) as (_ & _ & _ & _ & H & _).
  exact (H [1; 2]).
Defined.

Definition cuts : list (list Z) := [[0; 0; 0]; [18; 1; 0; 0; 0; 0; 1; 0; 0; 0; 0; 0; 0; 0; 7; 0; 0; 0; 0; 0; 0]; [0; 9; 0; 0; 0; 8; 8];
  [0; 0; 0]; []; [0; 0; 0; 0; 0; 0; 0; 3]].

Lemma blank_buffer_length : length blank_buffer = Z.to_nat MAX_FRAME_LEN.
Proof. apply length_replicate. Qed.

Lemma frames_survive_the_channel_witness :
  send_all Server greeting = Some (concat cuts) ∧
  ∃ d, read_deliveries cuts (FrameDecoder_new Server blank_buffer) = (greeting, d) ∧ fd_violation d = None ∧
       fd_held_len (FrameDecoder_discard d) = 0%nat.
Proof.
  split; [reflexivity|]. apply frames_survive_the_channel; [apply blank_buffer_length| | |reflexivity].
  - repeat constructor; ints.
  - intros f [= <-]. reflexivity.
Defined.

Lemma hostile_peer_is_bounded_witness :
  call_ok (Absorb [255; 0; 0; 0; 2; 0; 0; 0; 5]) ∧
  Z.of_nat (fd_held_len (foldl run_call (FrameDecoder_new Server blank_buffer) [Absorb [255; 0; 0; 0; 2; 0; 0; 0; 5]; NextFrame])) ≤ MAX_FRAME_LEN.
Proof.
  assert (call_ok (Absorb [255; 0; 0; 0; 2; 0; 0; 0; 5])) as Hc by (repeat constructor; ints). split; [exact Hc|].
  apply (hostile_peer_is_bounded Server blank_buffer [Absorb [255; 0; 0; 0; 2; 0; 0; 0; 5]; NextFrame] []);
    [apply blank_buffer_length|constructor; [exact Hc|constructor; [exact I|constructor]]|constructor].
Defined.
