(* ===== verification/PackageEndpoint.v ===== *)
(** * The onboarding package: its endpoint member

    Models [datad/crates/package/src/endpoint.rs]: the one line that names where the
    appliance answers to. The parser is exact: a member is read as an endpoint precisely
    when it is that endpoint's one spelling, with or without a line feed at its end. *)
From S2P Require Import Prelude.

(** ** Slices *)

(** [slice.split_at_checked(n)]. *)
Definition split_at_checked {A} (n : Z) (l : list A) : option (list A * list A) :=
  if Z.of_nat (length l) <? n then None else Some (take (Z.to_nat n) l, drop (Z.to_nat n) l).

(** [.iter().position(|byte| *byte == wanted)], with the slice cut there: what is before
    the byte and what is after it. *)
Fixpoint split_once (wanted : Z) (l : list Z) : option (list Z * list Z) :=
  match l with
  | [] => None
  | byte :: l =>
      if byte =? wanted then Some ([], l)
      else '(before, after) ← split_once wanted l; Some (byte :: before, after)
  end.

Definition contains (wanted : Z) (l : list Z) : bool := existsb (λ byte, byte =? wanted) l.

(** ** The parser *)
Definition MEMBER_BOUND : Z := 32.
Definition OCTETS : nat := 4.
Definition OCTET_DIGITS : Z := 3.
Definition PORT_DIGITS : Z := 5.

Record Endpoint := { ep_address : list Z; ep_port : Z }.

Inductive EndpointError :=
| Empty | NotAscii | OverBound (len bound : Z) | MissingColon | TooManyColons | TrailingBytes
| AddressHasTooFewOctets (octets : Z) | AddressHasTooManyOctets | OctetIsEmpty | OctetIsNotDecimal | OctetHasLeadingZero
| OctetOutOfRange | AddressIsUnspecified | AddressIsLoopback | AddressIsMulticast | AddressIsBroadcast | AddressIsReserved
| PortIsEmpty | PortIsNotDecimal | PortHasLeadingZero | PortOutOfRange.

Inductive NumberFault := NF_Empty | NF_NotDecimal | NF_LeadingZero | NF_OutOfRange.
Definition NumberFault_as_octet (f : NumberFault) : EndpointError :=
  match f with
  | NF_Empty => OctetIsEmpty | NF_NotDecimal => OctetIsNotDecimal
  | NF_LeadingZero => OctetHasLeadingZero | NF_OutOfRange => OctetOutOfRange
  end.
Definition NumberFault_as_port (f : NumberFault) : EndpointError :=
  match f with
  | NF_Empty => PortIsEmpty | NF_NotDecimal => PortIsNotDecimal
  | NF_LeadingZero => PortHasLeadingZero | NF_OutOfRange => PortOutOfRange
  end.

Definition map_err {T E F} (f : E → F) (r : Result T E) : Result T F :=
  match r with Ok x => Ok x | Err e => Err (f e) end.

(** [byte.checked_sub(b'0').filter(|digit| *digit < base)]. *)
Definition digit_of (base byte : Z) : option Z :=
  if (48 <=? byte) && (byte - 48 <? base) then Some (byte - 48) else None.

Fixpoint decimal_loop (value : Z) (text : list Z) : Result Z NumberFault :=
  match text with
  | [] => Ok value
  | byte :: text =>
      match digit_of 10 byte with
      | None => Err NF_NotDecimal
      | Some digit =>
          let shifted := value * 10 in
          if u32_max <? shifted then Err NF_OutOfRange else
          if u32_max <? shifted + digit then Err NF_OutOfRange else
          decimal_loop (shifted + digit) text
      end
  end.
Definition decimal (text : list Z) (digits : Z) : Result Z NumberFault :=
  match text with
  | [] => Err NF_Empty
  | first :: _ =>
      if digits <? Z.of_nat (length text) then Err NF_OutOfRange else
      if (first =? 48) && (1 <? Z.of_nat (length text)) then Err NF_LeadingZero else
      decimal_loop 0 text
  end.

Definition port (text : list Z) : Result Z EndpointError :=
  try! value <- map_err NumberFault_as_port (decimal text PORT_DIGITS);
  if (value <=? u16_max) && negb (value =? 0) then Ok value else Err PortOutOfRange.

(** One turn per octet and the turn that finds a fifth; [octets] holds the ones filled. *)
Fixpoint address_loop (turns : nat) (octets : list Z) (rest : list Z) : Result (list Z) EndpointError :=
  match turns with
  | 0%nat => Ok octets
  | S turns =>
      let '(digits, tail) := match split_once 46 rest with
                             | Some (head, after) => (head, Some after)
                             | None => (rest, None)
                             end in
      try! value <- map_err NumberFault_as_octet (decimal digits OCTET_DIGITS);
      if u8_max <? value then Err OctetOutOfRange else
      if (OCTETS <=? length octets)%nat then Err AddressHasTooManyOctets else
      match tail with
      | Some after => address_loop turns (octets ++ [value]) after
      | None => Ok (octets ++ [value])
      end
  end.
Definition address (text : list Z) : Result (list Z) EndpointError :=
  try! octets <- address_loop (S OCTETS) [] text;
  if (length octets =? OCTETS)%nat then Ok octets else Err (AddressHasTooFewOctets (Z.of_nat (length octets))).

Definition dialable (address : list Z) : Result unit EndpointError :=
  let first := byte_at address 0 in
  let second := byte_at address 1 in
  let third := byte_at address 2 in
  let fourth := byte_at address 3 in
  if (first =? 0) && (second =? 0) && (third =? 0) && (fourth =? 0) then Err AddressIsUnspecified else
  if first =? 127 then Err AddressIsLoopback else
  if (first =? 255) && (second =? 255) && (third =? 255) && (fourth =? 255) then Err AddressIsBroadcast else
  if Z.land first 0xf0 =? 224 then Err AddressIsMulticast else
  if Z.land first 0xf0 =? 240 then Err AddressIsReserved else
  Ok tt.

(** [member.split_last()] where the last byte is a line feed. *)
Definition line_of (member : list Z) : list Z :=
  match reverse member with byte :: head => if byte =? 10 then reverse head else member | [] => member end.

Definition parse (member : list Z) : Result Endpoint EndpointError :=
  if MEMBER_BOUND <? Z.of_nat (length member) then Err (OverBound (Z.of_nat (length member)) MEMBER_BOUND) else
  if bool_decide (member = []) then Err Empty else
  if negb (forallb (λ byte, byte <? 128) member) then Err NotAscii else
  let line := line_of member in
  if contains 10 line then Err TrailingBytes else
  match split_once 58 line with
  | None => Err MissingColon
  | Some (address_text, port_text) =>
  if contains 58 port_text then Err TooManyColons else
  try! address <- address address_text;
  try! _ <- dialable address;
  try! port <- port port_text;
  Ok {| ep_address := address; ep_port := port |}
  end.

(** ** The one spelling *)

(** A number in at most [k] decimal digits. *)
Fixpoint spell (k : nat) (n : Z) : list Z :=
  match k with
  | 0%nat => []
  | S k => if n <? 10 then [48 + n] else spell k (n / 10) ++ [48 + n mod 10]
  end.

Fixpoint quad_text (octets : list Z) : list Z :=
  match octets with
  | [] => []
  | [octet] => spell 3 octet
  | octet :: octets => spell 3 octet ++ 46 :: quad_text octets
  end.

Definition endpoint_text (e : Endpoint) : list Z := quad_text (ep_address e) ++ 58 :: spell 5 (ep_port e).

(** An address a host answers at, and a port to dial. *)
Definition endpoint_ok (e : Endpoint) : Prop :=
  length (ep_address e) = OCTETS ∧ bytes_ok (ep_address e) ∧ dialable (ep_address e) = Ok tt ∧ 0 < ep_port e ≤ u16_max.

(** ** Slices *)
Lemma split_at_checked_Some {A} n (l hd tl : list A) :
  0 ≤ n → split_at_checked n l = Some (hd, tl) ↔ l = hd ++ tl ∧ Z.of_nat (length hd) = n.
Proof.
  intros Hn. unfold split_at_checked. case_match eqn:E.
  - split; [done|]. intros [-> ?]. rewrite length_app in E. lia.
  - split.
    + intros [= <- <-]. rewrite take_drop, length_take. split; [done|lia].
    + intros [-> <-]. by rewrite Nat2Z.id, take_app_length, drop_app_length.
Qed.

Lemma split_once_Some w l before after :
  split_once w l = Some (before, after) ↔ l = before ++ w :: after ∧ w ∉ before.
Proof.
  revert before. induction l as [|b l IH]; intros before; simpl.
  - split; [done|]. intros [H _]. by destruct before.
  - destruct (b =? w) eqn:E.
    + apply Z.eqb_eq in E as ->. split.
      * intros [= <- <-]. split; [done|apply not_elem_of_nil].
      * intros [H Hn]. destruct before as [|c before]; simplify_eq/=; [done|]. destruct Hn. left.
    + apply Z.eqb_neq in E. split.
      * intros H. apply bind_Some in H as ([b' a'] & H & [= <- <-]). apply IH in H as [-> Hn].
        split; [done|]. rewrite not_elem_of_cons. auto.
      * intros [H Hn]. destruct before as [|c before]; simplify_eq/=. rewrite not_elem_of_cons in Hn.
        destruct (IH before) as [_ ->]; [done|]. by destruct Hn.
Qed.

Lemma split_once_None w l : split_once w l = None ↔ w ∉ l.
Proof.
  induction l as [|b l IH]; simpl; [split; [intros _; apply not_elem_of_nil|done]|].
  rewrite not_elem_of_cons. destruct (b =? w) eqn:E.
  - apply Z.eqb_eq in E as ->. split; [done|]. by intros [? _].
  - apply Z.eqb_neq in E. destruct (split_once w l) as [[]|] eqn:H.
    + split; [done|]. intros [_ Hn]. by apply IH in Hn.
    + split; [|done]. intros _. split; [auto|by apply IH].
Qed.

Lemma contains_false w l : contains w l = false ↔ w ∉ l.
Proof.
  unfold contains. induction l as [|b l IH]; simpl; [split; [intros _; apply not_elem_of_nil|done]|].
  rewrite not_elem_of_cons, orb_false_iff, IH, Z.eqb_neq. split; intros [? ?]; auto.
Qed.

(** ** Decimal numbers *)
Definition is_digit (byte : Z) : Prop := 48 ≤ byte < 58.
Definition value_of (text : list Z) : Z := foldl (λ value byte, value * 10 + (byte - 48)) 0 text.

Lemma value_of_snoc text byte : value_of (text ++ [byte]) = value_of text * 10 + (byte - 48).
Proof. unfold value_of. by rewrite foldl_app. Qed.

Lemma value_of_bounds text : Forall is_digit text → 0 ≤ value_of text < 10 ^ Z.of_nat (length text).
Proof.
  intros H. induction text as [|byte text IH] using rev_ind; [done|].
  apply Forall_app in H as [H Hb]. rewrite Forall_singleton in Hb. unfold is_digit in Hb. specialize (IH H).
  rewrite value_of_snoc, length_app, Nat2Z.inj_add, Z.pow_add_r by lia. change (Z.of_nat (length [byte])) with 1. rewrite Z.pow_1_r.
  lia.
Qed.

Lemma digit_of_Some base byte digit : digit_of base byte = Some digit ↔ byte = 48 + digit ∧ 0 ≤ digit < base.
Proof. unfold digit_of. case_match eqn:E; split; intros H; simplify_eq; try lia. do 2 f_equal; lia. Qed.

Lemma decimal_loop_Ok text value v :
  0 ≤ value → (value + 1) * 10 ^ Z.of_nat (length text) ≤ u32_max →
  decimal_loop value text = Ok v ↔ Forall is_digit text ∧ v = foldl (λ value byte, value * 10 + (byte - 48)) value text.
Proof.
  revert value. induction text as [|byte text IH]; intros value H0 Hmax; simpl.
  - split; [intros [= ->]; auto|intros [_ ->]; done].
  - simpl length in Hmax. rewrite Nat2Z.inj_succ, Z.pow_succ_r in Hmax by lia.
    assert (0 < 10 ^ Z.of_nat (length text)) by (apply Z.pow_pos_nonneg; lia).
    destruct (digit_of 10 byte) as [digit|] eqn:E.
    + apply digit_of_Some in E as [-> Hd]. rewrite (proj2 (Z.ltb_ge _ _)) by nia. rewrite (proj2 (Z.ltb_ge _ _)) by nia.
      rewrite IH by nia. rewrite Forall_cons. replace (48 + digit - 48) with digit by lia. unfold is_digit. intuition lia.
    + split; [done|]. intros [[Hb _]%Forall_cons _]. unfold is_digit in Hb.
      destruct (digit_of_Some 10 byte (byte - 48)) as [_ Hx]. rewrite Hx in E by lia. done.
Qed.

(** No leading zero but in the single digit zero. *)
Definition unpadded (text : list Z) : Prop := head text = Some 48 → length text = 1%nat.

Lemma unpadded_positive text byte :
  text ≠ [] → Forall is_digit text → unpadded (text ++ [byte]) → 0 < value_of text.
Proof.
  intros Hne Hd Hu. destruct text as [|first text]; [done|]. clear Hne.
  assert (first ≠ 48) as Hf.
  { intros ->. specialize (Hu eq_refl). simpl in Hu. rewrite length_app in Hu. simpl in Hu. lia. }
  clear Hu. induction text as [|b text IH] using rev_ind.
  - rewrite Forall_singleton in Hd. unfold is_digit in Hd. cbn. lia.
  - rewrite app_comm_cons in *. apply Forall_app in Hd as [Hd Hb]. rewrite Forall_singleton in Hb. unfold is_digit in Hb.
    rewrite value_of_snoc. specialize (IH Hd). lia.
Qed.

Lemma spell_value k text :
  Forall is_digit text → text ≠ [] → unpadded text → (length text ≤ k)%nat → spell k (value_of text) = text.
Proof.
  revert text. induction k as [|k IH]; intros text Hd Hne Hu Hk; [destruct text; simpl in *; [done|lia]|].
  destruct text as [|byte text _] using rev_ind; [done|]. clear Hne. apply Forall_app in Hd as [Hd Hb].
  rewrite Forall_singleton in Hb. unfold is_digit in Hb. rewrite length_app in Hk. simpl in Hk. rewrite value_of_snoc. simpl.
  destruct (decide (text = [])) as [->|Hne].
  - cbn. rewrite (proj2 (Z.ltb_lt _ _)) by lia. f_equal. lia.
  - pose proof (unpadded_positive _ _ Hne Hd Hu). rewrite (proj2 (Z.ltb_ge _ _)) by lia.
    replace ((value_of text * 10 + (byte - 48)) / 10) with (value_of text) by (Z.div_mod_to_equations; lia).
    replace ((value_of text * 10 + (byte - 48)) mod 10) with (byte - 48) by (Z.div_mod_to_equations; lia).
    rewrite IH; [do 2 f_equal; lia|done|done| |lia].
    intros Hh. destruct text as [|first text]; [done|]. specialize (Hu Hh). rewrite length_app in Hu. simpl in *. lia.
Qed.

Lemma spell_ok k n :
  0 ≤ n < 10 ^ Z.of_nat k → k ≠ 0%nat →
  Forall is_digit (spell k n) ∧ spell k n ≠ [] ∧ unpadded (spell k n) ∧ (length (spell k n) ≤ k)%nat ∧ value_of (spell k n) = n.
Proof.
  revert n. induction k as [|k IH]; intros n Hn Hk; [done|]. simpl. case_match eqn:E.
  - cbn. split_all; [|done|done|lia|lia]. apply Forall_singleton. unfold is_digit. lia.
  - rewrite Nat2Z.inj_succ, Z.pow_succ_r in Hn by lia.
    assert (k ≠ 0%nat) as Hk0 by (intros ->; simpl in Hn; lia).
    destruct (IH (n / 10)) as (H1 & H2 & H3 & H4 & H5); [Z.div_mod_to_equations; lia|done|]. split_all.
    + apply Forall_app. split; [done|]. apply Forall_singleton. unfold is_digit. Z.div_mod_to_equations. lia.
    + by destruct (spell k (n / 10)).
    + intros Hh. destruct (spell k (n / 10)) as [|first text] eqn:Es; [done|]. specialize (H3 Hh).
      destruct text; [|done]. simpl in Hh. injection Hh as ->. cbn in H5. Z.div_mod_to_equations. lia.
    + rewrite length_app. simpl. lia.
    + rewrite value_of_snoc, H5. Z.div_mod_to_equations. lia.
Qed.

Lemma decimal_exact k text v :
  (0 < k ≤ 5)%nat → decimal text (Z.of_nat k) = Ok v ↔ text = spell k v ∧ 0 ≤ v < 10 ^ Z.of_nat k.
Proof.
  intros Hk.
  assert (∀ n, (n ≤ 5)%nat → 1 ≤ 10 ^ Z.of_nat n ≤ 100000) as Hpow.
  { intros n Hn. do 6 (destruct n as [|n]; [simpl; lia|]). lia. }
  assert (Hloop : (length text ≤ 5)%nat → decimal_loop 0 text = Ok v ↔ Forall is_digit text ∧ v = value_of text).
  { intros Hl. apply decimal_loop_Ok; [lia|]. specialize (Hpow _ Hl). unfold u32_max. lia. }
  split.
  - intros H. unfold decimal in H. destruct text as [|first text']; [done|]. set (text := first :: text') in *.
    destruct (_ <? _) eqn:El; [done|]. destruct (_ && _) eqn:Ez; [done|]. apply Hloop in H as [Hd ->]; [|lia].
    pose proof (value_of_bounds _ Hd). split.
    + symmetry. apply spell_value; [done|done| |lia]. intros [= ->]. unfold text in *. simpl in *. lia.
    + split; [lia|]. eapply Z.lt_le_trans; [apply H|]. apply Z.pow_le_mono_r; lia.
  - intros [-> Hv]. destruct (spell_ok k v Hv) as (H1 & H2 & H3 & H4 & H5); [lia|].
    unfold decimal. destruct (spell k v) as [|first text'] eqn:E; [done|].
    rewrite (proj2 (Z.ltb_ge _ _)) by lia.
    destruct (first =? 48) eqn:Ef.
    + apply Z.eqb_eq in Ef as ->. rewrite (H3 eq_refl). apply Hloop; [lia|auto].
    + apply Hloop; [lia|auto].
Qed.

(** ** The address *)
Lemma map_err_Ok {T E F} (f : E → F) (r : Result T E) v : map_err f r = Ok v ↔ r = Ok v.
Proof. destruct r; simpl; split; congruence. Qed.

Lemma spell_digits k n : 0 ≤ n < 10 ^ Z.of_nat k → Forall is_digit (spell k n).
Proof. destruct k; [constructor|]. intros. by apply spell_ok. Qed.

Lemma not_in_digits w text : ¬ is_digit w → Forall is_digit text → w ∉ text.
Proof. intros Hw Hd Hin. by apply (proj1 (Forall_forall _ _) Hd) in Hin. Qed.

Lemma octet_exact digits v :
  (∃ value, decimal digits OCTET_DIGITS = Ok value ∧ (u8_max <? value) = false ∧ value = v) ↔ digits = spell 3 v ∧ is_u8 v.
Proof.
  split.
  - intros (value & H & Hm & ->). apply (decimal_exact 3) in H as [-> Hv]; [|lia]. split; [done|]. unfold u8_max in Hm. ints.
  - intros [-> Hv]. exists v. split_all; [|unfold u8_max; ints|done]. apply (decimal_exact 3); [lia|]. split; [done|]. simpl. ints.
Qed.

Lemma quad_text_cons octet octets :
  octets ≠ [] → quad_text (octet :: octets) = spell 3 octet ++ 46 :: quad_text octets.
Proof. by destruct octets. Qed.

Lemma u8_digits v : is_u8 v → Forall is_digit (spell 3 v).
Proof. intros Hv. apply spell_digits. simpl. ints. Qed.

Lemma address_loop_sound turns octets rest out :
  (length octets + S turns = S OCTETS)%nat → address_loop (S turns) octets rest = Ok out →
  ∃ vs, out = octets ++ vs ∧ vs ≠ [] ∧ Forall (in_u 8) vs ∧ rest = quad_text vs.
Proof.
  revert octets rest. induction turns as [|turns IH]; intros octets rest Hlen H; cbn [address_loop] in H.
  all: destruct (split_once 46 rest) as [[head after]|] eqn:Es; apply result_bind_Ok in H as (v & Hv & H);
    apply map_err_Ok in Hv; destruct (u8_max <? v) eqn:Eu; try done;
    destruct (_ <=? _)%nat eqn:El; try done; try (apply Nat.leb_gt in El; unfold OCTETS in *; lia);
    destruct (proj1 (octet_exact _ v) (ex_intro _ v (conj Hv (conj Eu eq_refl)))) as [-> Hu].
  2:{ injection H as <-. exists [v]. split_all; [done..|by apply Forall_singleton|done]. }
  apply split_once_Some in Es as [-> _]. apply IH in H as (vs & -> & Hne & Hvs & ->); [|rewrite length_app; simpl; lia].
  exists (v :: vs). rewrite <- app_assoc. split_all; [done..|by constructor|]. by rewrite quad_text_cons.
Qed.

Lemma address_loop_complete vs turns octets :
  vs ≠ [] → Forall (in_u 8) vs → (length octets + length vs ≤ OCTETS)%nat → (length vs ≤ turns)%nat →
  address_loop turns octets (quad_text vs) = Ok (octets ++ vs).
Proof.
  revert turns octets. induction vs as [|v vs IH]; intros turns octets Hne Hvs Hlen Ht; [done|]. clear Hne.
  apply Forall_cons in Hvs as [Hv Hvs]. destruct turns as [|turns]; [simpl in Ht; lia|]. cbn [address_loop].
  destruct (proj2 (octet_exact (spell 3 v) v) (conj eq_refl Hv)) as (value & Hd & Hu & ->).
  assert (46 ∉ spell 3 v) as Hdot by (apply not_in_digits; [unfold is_digit; lia|by apply u8_digits]).
  simpl length in *. destruct (decide (vs = [])) as [->|Hne].
  - cbn [quad_text]. rewrite (proj2 (split_once_None _ _) Hdot), Hd. cbn [map_err result_bind]. rewrite Hu.
    rewrite (proj2 (Nat.leb_gt _ _)) by (simpl in *; lia). done.
  - rewrite quad_text_cons by done. rewrite (proj2 (split_once_Some _ _ (spell 3 v) (quad_text vs))) by done.
    rewrite Hd. cbn [map_err result_bind]. rewrite Hu, (proj2 (Nat.leb_gt _ _)) by (simpl in *; lia).
    rewrite IH; [by rewrite <- app_assoc|done|done|rewrite length_app; simpl; lia|lia].
Qed.

Lemma address_exact text octets :
  address text = Ok octets ↔ text = quad_text octets ∧ length octets = OCTETS ∧ bytes_ok octets.
Proof.
  unfold address. split.
  - intros H. apply result_bind_Ok in H as (out & H & Hl). apply address_loop_sound in H as (vs & -> & _ & Hvs & ->); [|done].
    case_match eqn:E; [|done]. injection Hl as <-. apply Nat.eqb_eq in E. done.
  - intros (-> & Hl & Hok). rewrite address_loop_complete; [|by destruct octets|done|simpl; lia|lia]. simpl. by rewrite Hl.
Qed.

Lemma port_exact text v : port text = Ok v ↔ text = spell 5 v ∧ 0 < v ≤ u16_max.
Proof.
  unfold port, u16_max. rewrite result_bind_Ok. split.
  - intros (value & H & Hv). apply map_err_Ok, (decimal_exact 5) in H as [-> Hr]; [|lia]. case_match eqn:E; [|done].
    injection Hv as <-. split; [done|]. lia.
  - intros [-> Hv]. exists v. rewrite map_err_Ok. split; [apply (decimal_exact 5); [lia|]; split; [done|simpl; lia]|].
    rewrite (proj2 (andb_true_iff _ _)); [done|]. lia.
Qed.

(** ** The line *)
Lemma line_of_cases member :
  (∃ line, member = line ++ [10] ∧ line_of member = line) ∨ (line_of member = member ∧ ∀ line, member ≠ line ++ [10]).
Proof.
  unfold line_of. destruct member as [|byte member _] using rev_ind.
  - right. split; [done|]. by intros [].
  - rewrite reverse_snoc. destruct (byte =? 10) eqn:E.
    + left. exists member. rewrite reverse_involutive. apply Z.eqb_eq in E as ->. done.
    + right. split; [done|]. intros line H. apply app_inj_tail in H as [_ ->]. done.
Qed.

(** What an endpoint's line is made of. *)
Definition in_line (byte : Z) : Prop := is_digit byte ∨ byte = 46 ∨ byte = 58.

Lemma quad_text_bytes octets : bytes_ok octets → Forall (λ byte, is_digit byte ∨ byte = 46) (quad_text octets).
Proof.
  induction 1 as [|v vs Hv Hvs IH]; [constructor|]. 
  assert (Forall (λ byte, is_digit byte ∨ byte = 46) (spell 3 v)) by (eapply Forall_impl; [by apply u8_digits|auto]).
  destruct (decide (vs = [])) as [->|]; [done|]. rewrite quad_text_cons by done. apply Forall_app. split; [done|]. constructor; auto.
Qed.

Lemma length_quad_text octets : bytes_ok octets → (length (quad_text octets) ≤ 4 * length octets)%nat.
Proof.
  induction 1 as [|v vs Hv Hvs IH]; [done|].
  assert (length (spell 3 v) ≤ 3)%nat by (apply spell_ok; [simpl; ints|done]).
  destruct (decide (vs = [])) as [->|]; [simpl; simpl in *; lia|].
  rewrite quad_text_cons by done. rewrite length_app. simpl length in *. lia.
Qed.

Lemma endpoint_text_line e :
  endpoint_ok e → Forall in_line (endpoint_text e) ∧ 1 ≤ Z.of_nat (length (endpoint_text e)) ≤ 22.
Proof.
  intros (Hl & Hok & _ & Hp). unfold endpoint_text, u16_max in *.
  destruct (spell_ok 5 (ep_port e)) as (Hd & _ & _ & Hk & _); [simpl; lia|done|]. split.
  - apply Forall_app. split; [eapply Forall_impl; [by apply quad_text_bytes|]; unfold in_line; tauto|].
    constructor; [unfold in_line; tauto|]. eapply Forall_impl; [done|]. unfold in_line. tauto.
  - rewrite length_app. cbn [length]. pose proof (length_quad_text _ Hok) as Hq. rewrite Hl in Hq. unfold OCTETS in Hq. lia.
Qed.

Lemma line_of_text e : endpoint_ok e → line_of (endpoint_text e) = endpoint_text e ∧ line_of (endpoint_text e ++ [10]) = endpoint_text e.
Proof.
  intros He. destruct (endpoint_text_line e He) as [Hin _]. split.
  - destruct (line_of_cases (endpoint_text e)) as [(line & H & _)|[H _]]; [|done]. rewrite H in Hin.
    apply Forall_app in Hin as [_ Hin]. rewrite Forall_singleton in Hin. unfold in_line, is_digit in Hin. lia.
  - unfold line_of. rewrite reverse_snoc. simpl. apply reverse_involutive.
Qed.

Lemma parse_complete e member :
  endpoint_ok e → member = endpoint_text e ∨ member = endpoint_text e ++ [10] → parse member = Ok e.
Proof.
  intros He Hm. pose proof (endpoint_text_line e He) as [Hin Hlen]. pose proof (line_of_text e He) as [L1 L2].
  assert (line_of member = endpoint_text e) as Hline by (destruct Hm as [->| ->]; done).
  assert (Forall (λ byte, in_line byte ∨ byte = 10) member) as Hall.
  { destruct Hm as [->| ->]; [|apply Forall_app; split; [|repeat constructor; by right]]; (eapply Forall_impl; [done|auto]). }
  assert (1 ≤ Z.of_nat (length member) ≤ 23) by (destruct Hm as [->| ->]; rewrite ?length_app; simpl length; lia).
  unfold parse, MEMBER_BOUND. rewrite (proj2 (Z.ltb_ge _ _)) by lia.
  rewrite bool_decide_false by (intros ->; simpl in *; lia).
  rewrite (proj2 (forallb_forall _ _)).
  2:{ intros x Hx%list_elem_of_In. apply (proj1 (Forall_forall _ _) Hall) in Hx. unfold in_line, is_digit in Hx. lia. }
  cbn [negb]. rewrite Hline.
  rewrite (proj2 (contains_false _ _)).
  2:{ intros Hx. apply (proj1 (Forall_forall _ _) Hin) in Hx. unfold in_line, is_digit in Hx. lia. }
  destruct He as (Hl & Hok & Hd & Hp). unfold endpoint_text at 1.
  assert (58 ∉ quad_text (ep_address e)).
  { intros Hx. apply (proj1 (Forall_forall _ _) (quad_text_bytes _ Hok)) in Hx. unfold is_digit in Hx. lia. }
  rewrite (proj2 (split_once_Some _ _ _ _)) by done.
  rewrite (proj2 (contains_false _ _)).
  2:{ apply not_in_digits; [unfold is_digit; lia|]. apply spell_digits. unfold u16_max in Hp. simpl. lia. }
  rewrite (proj2 (address_exact _ _)) by done. cbn [result_bind]. rewrite Hd. cbn [result_bind]. rewrite (proj2 (port_exact _ _)) by done. by destruct e.
Qed.

Lemma parse_spec member e :
  parse member = Ok e ↔ endpoint_ok e ∧ (member = endpoint_text e ∨ member = endpoint_text e ++ [10]).
Proof.
  split; [|intros [He Hm]; by apply parse_complete].
  intros H. unfold parse in H. destruct (_ <? _); [done|]. destruct (bool_decide _); [done|].
  destruct (negb _); [done|]. destruct (contains 10 _); [done|].
  destruct (split_once 58 (line_of member)) as [[address_text port_text]|] eqn:Es; [|done].
  apply split_once_Some in Es as [Hline _]. destruct (contains 58 _); [done|].
  apply result_bind_Ok in H as (octets & Ha & H). apply result_bind_Ok in H as ([] & Hd & H).
  apply result_bind_Ok in H as (p & Hp & [= <-]).
  apply address_exact in Ha as (-> & Hl & Hok). apply port_exact in Hp as [-> Hp]. split; [done|].
  unfold endpoint_text. cbn [ep_address ep_port]. rewrite <- Hline.
  destruct (line_of_cases member) as [(line & -> & ->)|[-> _]]; auto.
Qed.

(** The endpoint member has one spelling. The parser answers an endpoint precisely when
    the member is its four octets and its port in plain decimal, without a leading zero,
    closed by at most one line feed, the port is not zero and the address is one a host
    can be dialled at; everything else is refused. *)
Theorem endpoint_member_exact member e :
  parse member = Ok e ↔ endpoint_ok e ∧ (member = endpoint_text e ∨ member = endpoint_text e ++ [10]).
Proof. apply parse_spec. Qed.

(** What the store's record asks of an endpoint. *)
Lemma endpoint_ok_stored e :
  endpoint_ok e →
  be32 (byte_at (ep_address e) 0) (byte_at (ep_address e) 1) (byte_at (ep_address e) 2) (byte_at (ep_address e) 3) ≠ 0 ∧
  is_u16 (ep_port e) ∧ ep_port e ≠ 0.
Proof.
  intros (_ & Hok & Hd & Hp). split_all; [|unfold u16_max in Hp; ints|lia]. intros E. unfold dialable in Hd.
  assert (∀ i, is_u8 (byte_at (ep_address e) i)) as Hb by (intros; by apply byte_at_ok).
  pose proof (Hb 0%nat). pose proof (Hb 1%nat). pose proof (Hb 2%nat). pose proof (Hb 3%nat).
  rewrite (proj2 (andb_true_iff _ _)) in Hd; [done|]. unfold_ints. lia.
Qed.
