(* ===== verification/PackageCertificate.v ===== *)
(** * The onboarding package: its certificate members

    Models [datad/crates/package/src/certificate.rs]: undoing the armour a certificate
    travels in, canonical base64 and nothing else, and the bounded DER walk that finds the
    key a certificate binds. *)
From S2P Require Import Prelude PackageEndpoint.

(** [-----BEGIN CERTIFICATE-----] and its line feed, and the closing line. *)
Definition BEGIN : list Z :=
  [45; 45; 45; 45; 45; 66; 69; 71; 73; 78; 32; 67; 69; 82; 84; 73; 70; 73; 67; 65; 84; 69; 45; 45; 45; 45; 45; 10].
Definition END_LINE : list Z :=
  [45; 45; 45; 45; 45; 69; 78; 68; 32; 67; 69; 82; 84; 73; 70; 73; 67; 65; 84; 69; 45; 45; 45; 45; 45].
Definition LINE_CHARS : Z := 64.
Definition MAX_CERTIFICATE_LEN : nat := 768.
Definition SEQUENCE : Z := 0x30.
Definition INTEGER : Z := 0x02.
Definition CONTEXT_ZERO : Z := 0xA0.

Inductive Element :=
| El_Certificate | El_TbsCertificate | El_Version | El_SerialNumber | El_SignatureAlgorithm | El_Issuer | El_Validity
| El_Subject | El_SubjectPublicKeyInfo | El_AlgorithmIdentifier | El_SubjectPublicKey | El_SignatureValue.

Inductive CertificateError :=
| MissingBeginBoundary | MissingEndBoundary | LineTooLong (len bound : Z) | NotBase64 | PaddingMisplaced | NotAWholeGroup
| NonCanonicalPadding | TrailingContent | CertificateIsEmpty | CertificateTooLong (len bound : Z)
| TruncatedDer (element : Element) | UnexpectedTag (element : Element) | IndefiniteLength (element : Element)
| NonMinimalLength (element : Element) | LengthOutOfRange (element : Element) | TrailingDer.

Record Certificate := { ce_der : list Z; ce_len : nat }.
Definition Certificate_as_bytes (c : Certificate) : list Z := take (ce_len c) (ce_der c).

(** ** The DER walk *)
Fixpoint length_loop (element : Element) (length : Z) (digits : list Z) : Result Z CertificateError :=
  match digits with
  | [] => Ok length
  | digit :: digits =>
      if u64_max <? length * 256 then Err (LengthOutOfRange element) else
      if u64_max <? length * 256 + digit then Err (LengthOutOfRange element) else
      length_loop element (length * 256 + digit) digits
  end.
Definition read_length (bytes : list Z) (element : Element) : Result (Z * list Z) CertificateError :=
  match bytes with
  | [] => Err (TruncatedDer element)
  | first :: rest =>
  if first <? 0x80 then Ok (first, rest) else
  let octets := Z.land first 0x7f in
  if octets =? 0 then Err (IndefiniteLength element) else
  match split_at_checked octets rest with
  | None => Err (TruncatedDer element)
  | Some (digits, after) =>
  if bool_decide (head digits = Some 0) then Err (NonMinimalLength element) else
  try! length <- length_loop element 0 digits;
  if length <? 0x80 then Err (NonMinimalLength element) else Ok (length, after)
  end
  end.

Definition read_tlv (bytes : list Z) (element : Element) (expected : Z) : Result (list Z * list Z) CertificateError :=
  match bytes with
  | [] => Err (TruncatedDer element)
  | tag :: after_tag =>
  if negb (tag =? expected) then Err (UnexpectedTag element) else
  try! (length, after_length) <- read_length after_tag element;
  match split_at_checked length after_length with
  | None => Err (TruncatedDer element)
  | Some (value, rest) => Ok (value, rest)
  end
  end.

Definition whole_tlv (bytes : list Z) (element : Element) (expected : Z) : Result (list Z) CertificateError :=
  try! (_, rest) <- read_tlv bytes element expected;
  let taken := (length bytes - length rest)%nat in
  if (length bytes <? taken)%nat then Err (TruncatedDer element) else Ok (take taken bytes).

Definition subject_public_key_info (der : list Z) : Result (list Z) CertificateError :=
  try! (certificate, after) <- read_tlv der El_Certificate SEQUENCE;
  if negb (bool_decide (after = [])) then Err TrailingDer else
  try! (tbs, _) <- read_tlv certificate El_TbsCertificate SEQUENCE;
  try! (_, rest) <- read_tlv tbs El_Version CONTEXT_ZERO;
  try! (_, rest) <- read_tlv rest El_SerialNumber INTEGER;
  try! (_, rest) <- read_tlv rest El_SignatureAlgorithm SEQUENCE;
  try! (_, rest) <- read_tlv rest El_Issuer SEQUENCE;
  try! (_, rest) <- read_tlv rest El_Validity SEQUENCE;
  try! (_, rest) <- read_tlv rest El_Subject SEQUENCE;
  whole_tlv rest El_SubjectPublicKeyInfo SEQUENCE.

Definition binds_key (certificate : Certificate) (appliance_key : list Z) : Result bool CertificateError :=
  try! spki <- subject_public_key_info (Certificate_as_bytes certificate);
  Ok (bool_decide (spki = appliance_key)).

(** ** The armour *)
Record Decoder := {
  de_out : list Z;
  de_at : nat;
  de_packed : Z;
  de_filled : Z;
  de_padding : Z;
  de_closed : bool
}.
#[export] Instance Decoder_eta : Eta Decoder := λ d,
  {| de_out := de_out d; de_at := de_at d; de_packed := de_packed d; de_filled := de_filled d;
     de_padding := de_padding d; de_closed := de_closed d |}.

Definition sextet (character : Z) : option Z :=
  if (65 <=? character) && (character <=? 90) then Some (character - 65) else
  if (97 <=? character) && (character <=? 122) then Some (character - 97 + 26) else
  if (48 <=? character) && (character <=? 57) then Some (character - 48 + 52) else
  if character =? 43 then Some 62 else
  if character =? 47 then Some 63 else None.

(** One turn of the copying loop: a byte past the storage is counted and not kept. *)
Definition Decoder_keep (d : Decoder) (byte : Z) : Decoder :=
  d <| de_out ::= <[de_at d := byte]> |> <| de_at ::= S |>.

Definition Decoder_flush (d : Decoder) : Result Decoder CertificateError :=
  let discarded := if de_padding d =? 0 then 0 else if de_padding d =? 1 then 0x000000ff else 0x0000ffff in
  if negb (Z.land (de_packed d) discarded =? 0) then Err NonCanonicalPadding else
  let bytes := [wrap 8 (Z.shiftr (de_packed d) 16); wrap 8 (Z.shiftr (de_packed d) 8); wrap 8 (de_packed d)] in
  let carried := Z.to_nat (saturating_sub 3 (de_padding d)) in
  let d := foldl Decoder_keep d (take carried bytes) in
  let d := if 0 <? de_padding d then d <| de_closed := true |> else d in
  Ok (d <| de_packed := 0 |> <| de_filled := 0 |>).

Definition Decoder_push (d : Decoder) (character : Z) : Result Decoder CertificateError :=
  if de_closed d then Err PaddingMisplaced else
  try! d <-
    (if character =? 61 then
       if de_filled d <? 2 then Err PaddingMisplaced else
       Ok (d <| de_padding ::= λ n, saturating_add 32 n 1 |> <| de_packed ::= λ p, wrap 32 (Z.shiftl p 6) |>)
     else
       if 0 <? de_padding d then Err PaddingMisplaced else
       match sextet character with
       | None => Err NotBase64
       | Some sextet => Ok (d <| de_packed ::= λ p, Z.lor (wrap 32 (Z.shiftl p 6)) sextet |>)
       end);
  let d := d <| de_filled ::= λ n, saturating_add 32 n 1 |> in
  if de_filled d =? 4 then Decoder_flush d else Ok d.

Definition Decoder_finish (d : Decoder) : Result nat CertificateError :=
  if negb (de_filled d =? 0) then Err NotAWholeGroup else
  if (MAX_CERTIFICATE_LEN <? de_at d)%nat
  then Err (CertificateTooLong (Z.of_nat (de_at d)) (Z.of_nat MAX_CERTIFICATE_LEN)) else
  Ok (de_at d).

(** [for character in line]. *)
Fixpoint push_line (d : Decoder) (line : list Z) : Result Decoder CertificateError :=
  match line with
  | [] => Ok d
  | character :: line => try! d <- Decoder_push d character; push_line d line
  end.

Definition split_line (bytes : list Z) : option (list Z * list Z) := split_once 10 bytes.

(** The loop over the lines: whether the closing line was met, what follows it and the
    decoder. *)
Fixpoint unarmour_loop (turns : nat) (rest : list Z) (d : Decoder) : Result (bool * list Z * Decoder) CertificateError :=
  match turns with
  | 0%nat => Ok (false, rest, d)
  | S turns =>
  match split_line rest with
  | None => Err MissingEndBoundary
  | Some (line, rest) =>
  if bool_decide (line = END_LINE) then Ok (true, rest, d) else
  if LINE_CHARS <? Z.of_nat (length line) then Err (LineTooLong (Z.of_nat (length line)) LINE_CHARS) else
  try! d <- push_line d line;
  unarmour_loop turns rest d
  end
  end.

(** [member.strip_prefix(prefix)]. *)
Definition strip_prefix (prefix l : list Z) : option (list Z) :=
  if bool_decide (take (length prefix) l = prefix) then Some (drop (length prefix) l) else None.

(** How many bytes came out, and the storage they are in. *)
Definition unarmour (member out : list Z) : Result (nat * list Z) CertificateError :=
  match strip_prefix BEGIN member with
  | None => Err MissingBeginBoundary
  | Some rest =>
  let d := {| de_out := out; de_at := 0; de_packed := 0; de_filled := 0; de_padding := 0; de_closed := false |} in
  try! (closed, rest, d) <- unarmour_loop (length member) rest d;
  if negb closed then Err MissingEndBoundary else
  if negb (forallb (λ byte, byte =? 10) rest) then Err TrailingContent else
  try! len <- Decoder_finish d;
  Ok (len, de_out d)
  end.

Definition decode (member : list Z) : Result Certificate CertificateError :=
  try! (len, der) <- unarmour member (replicate MAX_CERTIFICATE_LEN 0);
  if (len =? 0)%nat then Err CertificateIsEmpty else
  let certificate := {| ce_der := der; ce_len := len |} in
  try! _ <- subject_public_key_info (Certificate_as_bytes certificate);
  Ok certificate.
