(* ===== verification/PackageDer.v ===== *)
(** * The onboarding package: the DER walk is exact

    A tag-length-value is read precisely when it is written the one way DER writes it, so
    the key a certificate is said to bind is the element in the place that binds it. *)
From S2P Require Import Prelude PackageEndpoint PackageCertificate.

(** ** The one encoding of a length *)

(** A positive number in the fewest octets, of which there are at most [k]. *)
Fixpoint octets_of (k : nat) (n : Z) : list Z :=
  match k with
  | 0%nat => []
  | S k => if n =? 0 then [] else octets_of k (n / 256) ++ [n mod 256]
  end.
Definition der_length (n : Z) : list Z :=
  if n <? 128 then [n] else (128 + Z.of_nat (length (octets_of 8 n))) :: octets_of 8 n.
Definition tlv (tag : Z) (value : list Z) : list Z := tag :: der_length (Z.of_nat (length value)) ++ value.

Definition octets_value (digits : list Z) : Z := foldl (λ n digit, n * 256 + digit) 0 digits.

Lemma octets_value_snoc digits digit : octets_value (digits ++ [digit]) = octets_value digits * 256 + digit.
Proof. unfold octets_value. by rewrite foldl_app. Qed.

Lemma foldl_octets digits n :
  foldl (λ n digit, n * 256 + digit) n digits = n * 256 ^ Z.of_nat (length digits) + octets_value digits.
Proof.
  induction digits as [|digit digits IH] using rev_ind; [simpl; unfold octets_value; simpl; lia|].
  rewrite foldl_app, octets_value_snoc. simpl foldl. rewrite IH, length_app, Nat2Z.inj_add, Z.pow_add_r by lia.
  change (256 ^ Z.of_nat (length [digit])) with 256. lia.
Qed.

Lemma octets_value_bounds digits : bytes_ok digits → 0 ≤ octets_value digits < 256 ^ Z.of_nat (length digits).
Proof.
  induction digits as [|digit digits IH] using rev_ind; [done|]. intros [Hd Hx]%bytes_ok_app. specialize (IH Hd).
  unfold bytes_ok in Hx. rewrite Forall_singleton in Hx. rewrite octets_value_snoc, length_app, Nat2Z.inj_add, Z.pow_add_r by lia.
  change (256 ^ Z.of_nat (length [digit])) with 256. unfold in_u in Hx. change (2 ^ 8) with 256 in Hx. lia.
Qed.

(** A first octet that is not zero makes a number as long as its octets. *)
Lemma octets_value_leading digits :
  bytes_ok digits → digits ≠ [] → head digits ≠ Some 0 → 256 ^ (Z.of_nat (length digits) - 1) ≤ octets_value digits.
Proof.
  intros Hok Hne Hh. destruct digits as [|first digits]; [done|]. apply Forall_cons in Hok as [Hf Hok].
  pose proof (octets_value_bounds _ Hok). unfold octets_value. cbn [foldl]. rewrite foldl_octets.
  assert (first ≠ 0) by (intros ->; done). unfold in_u in Hf.
  replace (Z.of_nat (length (first :: digits)) - 1) with (Z.of_nat (length digits)) by (simpl; lia).
  assert (0 < 256 ^ Z.of_nat (length digits)) by (apply Z.pow_pos_nonneg; lia). nia.
Qed.

Lemma octets_of_value k digits :
  bytes_ok digits → head digits ≠ Some 0 → (length digits ≤ k)%nat → octets_of k (octets_value digits) = digits.
Proof.
  revert digits. induction k as [|k IH]; intros digits Hok Hh Hk; [by destruct digits; simpl in *; [|lia]|].
  destruct digits as [|digit digits _] using rev_ind; [done|].
  pose proof (octets_value_leading _ Hok ltac:(by destruct digits) Hh) as Hlead.
  apply bytes_ok_app in Hok as [Hok Hd]. unfold bytes_ok in Hd. rewrite Forall_singleton in Hd. unfold in_u in Hd. change (2 ^ 8) with 256 in Hd.
  assert (1 ≤ 256 ^ (Z.of_nat (length (digits ++ [digit])) - 1)).
  { rewrite length_app. simpl length. pose proof (Z.pow_pos_nonneg 256 (Z.of_nat (length digits + 1) - 1)). lia. }
  rewrite octets_value_snoc in *. cbn [octets_of]. rewrite (proj2 (Z.eqb_neq _ _)) by lia.
  replace ((octets_value digits * 256 + digit) / 256) with (octets_value digits) by (Z.div_mod_to_equations; lia).
  replace ((octets_value digits * 256 + digit) mod 256) with digit by (Z.div_mod_to_equations; lia).
  rewrite IH; [done|done| |rewrite length_app in Hk; simpl in Hk; lia].
  intros Hx. apply Hh. by destruct digits.
Qed.

Lemma octets_of_ok k n :
  0 ≤ n < 256 ^ Z.of_nat k →
  bytes_ok (octets_of k n) ∧ head (octets_of k n) ≠ Some 0 ∧ (length (octets_of k n) ≤ k)%nat ∧ octets_value (octets_of k n) = n.
Proof.
  revert n. induction k as [|k IH]; intros n Hn; cbn [octets_of].
  { simpl in Hn. split_all; [constructor|done|done|unfold octets_value; simpl; lia]. }
  rewrite Nat2Z.inj_succ, Z.pow_succ_r in Hn by lia. destruct (n =? 0) eqn:E.
  { split_all; [constructor|done|simpl; lia|unfold octets_value; simpl; lia]. }
  destruct (IH (n / 256)) as (H1 & H2 & H3 & H4); [Z.div_mod_to_equations; lia|]. split_all.
  - apply bytes_ok_app. split; [done|]. apply Forall_singleton. ints.
  - destruct (octets_of k (n / 256)) as [|first digits] eqn:Eo; [|done]. unfold octets_value in H4. simpl in H4.
    intros [= Hx]. Z.div_mod_to_equations. lia.
  - rewrite length_app. simpl. lia.
  - rewrite octets_value_snoc, H4. Z.div_mod_to_equations. lia.
Qed.

Lemma length_loop_Ok element n digits v :
  bytes_ok digits → 0 ≤ n →
  length_loop element n digits = Ok v ↔
  v = n * 256 ^ Z.of_nat (length digits) + octets_value digits ∧ (digits = [] ∨ v ≤ u64_max).
Proof.
  revert n. induction digits as [|digit digits IH]; intros n Hok Hn; cbn [length_loop].
  - unfold octets_value. simpl. split; [intros [= ->]; split; [lia|auto]|intros [-> _]; f_equal; lia].
  - apply Forall_cons in Hok as [Hd Hok]. unfold in_u in Hd. pose proof (octets_value_bounds _ Hok).
    assert (1 ≤ 256 ^ Z.of_nat (length digits)) by (pose proof (Z.pow_pos_nonneg 256 (Z.of_nat (length digits))); lia).
    assert (n * 256 ^ Z.of_nat (length (digit :: digits)) + octets_value (digit :: digits)
            = (n * 256 + digit) * 256 ^ Z.of_nat (length digits) + octets_value digits) as ->.
    { unfold octets_value at 1. cbn [foldl length]. rewrite foldl_octets, Nat2Z.inj_succ, Z.pow_succ_r by lia. lia. }
    destruct (u64_max <? n * 256) eqn:E1; [split; [done|]; intros [-> [?|?]]; [done|nia]|].
    destruct (u64_max <? n * 256 + digit) eqn:E2; [split; [done|]; intros [-> [?|?]]; [done|nia]|].
    rewrite IH by (done || lia). split; (intros [-> Hm]; split; [done|]; right).
    + destruct Hm as [->|?]; [|done]. unfold octets_value. simpl. lia.
    + by destruct Hm.
Qed.

(** ** A length and what it prefixes *)
Lemma read_length_sound bytes element n after :
  bytes_ok bytes → read_length bytes element = Ok (n, after) → bytes = der_length n ++ after ∧ 0 ≤ n ≤ u64_max.
Proof.
  intros Hok H. destruct bytes as [|first rest]; [done|]. apply Forall_cons in Hok as [Hf Hok]. unfold in_u in Hf. change (2 ^ 8) with 256 in Hf.
  unfold read_length in H. destruct (first <? 0x80) eqn:Es.
  { injection H as <- <-. unfold der_length. rewrite Es. split; [done|]. unfold u64_max. lia. }
  assert (Z.land first 0x7f = first - 128) as Hl.
  { change 0x7f with (Z.ones 7). rewrite Z.land_ones by lia. change (2 ^ 7) with 128. Z.div_mod_to_equations. lia. }
  rewrite Hl in H. destruct (first - 128 =? 0) eqn:E0; [done|].
  destruct (split_at_checked _ rest) as [[digits after']|] eqn:Ea; [|done].
  apply split_at_checked_Some in Ea as [-> Hlen]; [|lia]. apply bytes_ok_app in Hok as [Hd _].
  destruct (bool_decide _) eqn:Eh; [done|]. apply bool_decide_eq_false in Eh.
  apply result_bind_Ok in H as (v & Hv & H). destruct (v <? 0x80) eqn:Ev; [done|]. injection H as <- <-.
  apply length_loop_Ok in Hv as [-> Hmax]; [|done|lia]. simpl Z.mul in *. rewrite Z.add_0_l in *.
  assert (digits ≠ []) as Hne by (intros ->; simpl in *; lia). destruct Hmax as [|Hmax]; [done|].
  pose proof (octets_value_leading _ Hd Hne Eh) as Hlead. pose proof (octets_value_bounds _ Hd).
  assert (length digits ≤ 8)%nat as H8.
  { destruct (decide (length digits ≤ 8)%nat) as [|Hn]; [done|exfalso].
    assert (256 ^ 8 ≤ 256 ^ (Z.of_nat (length digits) - 1)) by (apply Z.pow_le_mono_r; lia).
    change (256 ^ 8) with 18446744073709551616 in *. unfold u64_max in Hmax. lia. }
  unfold der_length. rewrite Ev, octets_of_value by done. split; [simpl; f_equal; lia|lia].
Qed.

Lemma read_length_complete n element after :
  0 ≤ n ≤ u64_max → read_length (der_length n ++ after) element = Ok (n, after).
Proof.
  intros Hn. unfold der_length. destruct (n <? 128) eqn:Es; [simpl; by rewrite Es|].
  destruct (octets_of_ok 8 n) as (Hok & Hh & Hlen & Hval).
  { change (256 ^ Z.of_nat 8) with 18446744073709551616. unfold u64_max in Hn. lia. }
  set (digits := octets_of 8 n) in *.
  assert (digits ≠ []) as Hne by (intros E; rewrite E in Hval; unfold octets_value in Hval; simpl in Hval; lia).
  assert (1 ≤ Z.of_nat (length digits)) by (destruct digits; [done|simpl; lia]).
  cbn [app read_length]. rewrite (proj2 (Z.ltb_ge _ _)) by lia.
  assert (Z.land (128 + Z.of_nat (length digits)) 0x7f = Z.of_nat (length digits)) as ->.
  { change 0x7f with (Z.ones 7). rewrite Z.land_ones by lia. change (2 ^ 7) with 128. Z.div_mod_to_equations. lia. }
  rewrite (proj2 (Z.eqb_neq _ _)) by lia. rewrite (proj2 (split_at_checked_Some _ _ digits after (Nat2Z.is_nonneg _))) by done.
  rewrite bool_decide_false by done. rewrite (proj2 (length_loop_Ok element 0 digits n Hok ltac:(lia))).
  - simpl. by rewrite Es.
  - rewrite Hval. split; [lia|right; lia].
Qed.

Lemma read_tlv_exact bytes element tag value rest :
  bytes_ok bytes → Z.of_nat (length bytes) ≤ u64_max →
  read_tlv bytes element tag = Ok (value, rest) ↔ bytes = tlv tag value ++ rest.
Proof.
  intros Hok Hmax. unfold tlv. split.
  - intros H. destruct bytes as [|first bytes]; [done|]. simpl in H. destruct (first =? tag) eqn:Et; [|done]. apply Z.eqb_eq in Et as ->.
    simpl in H. apply result_bind_Ok in H as ([n after] & Hl & H). apply Forall_cons in Hok as [_ Hok].
    apply read_length_sound in Hl as [-> Hn]; [|done]. destruct (split_at_checked n after) as [[v r]|] eqn:Es; [|done].
    injection H as <- <-. apply split_at_checked_Some in Es as [-> <-]; [|lia]. simpl. by rewrite <- app_assoc.
  - intros ->. simpl in *. rewrite Z.eqb_refl. simpl. rewrite <- app_assoc.
    rewrite !length_app in Hmax. rewrite read_length_complete by lia. simpl.
    by rewrite (proj2 (split_at_checked_Some _ _ value rest (Nat2Z.is_nonneg _))).
Qed.

(** ** The key a certificate binds *)
Definition certificate_of (version serial algorithm issuer validity subject key extensions signature : list Z) : list Z :=
  tlv SEQUENCE (tlv SEQUENCE (tlv CONTEXT_ZERO version ++ tlv INTEGER serial ++ tlv SEQUENCE algorithm ++ tlv SEQUENCE issuer ++
    tlv SEQUENCE validity ++ tlv SEQUENCE subject ++ tlv SEQUENCE key ++ extensions) ++ signature).

Lemma whole_tlv_exact bytes element tag whole :
  bytes_ok bytes → Z.of_nat (length bytes) ≤ u64_max →
  whole_tlv bytes element tag = Ok whole ↔ ∃ value rest, whole = tlv tag value ∧ bytes = tlv tag value ++ rest.
Proof.
  intros Hok Hmax. unfold whole_tlv. rewrite result_bind_Ok.
  assert (∀ value rest, take (length (tlv tag value ++ rest) - length rest) (tlv tag value ++ rest) = tlv tag value) as Ht.
  { intros. rewrite length_app, Nat.add_sub. apply take_app_length. }
  split.
  - intros ([value rest] & H & Hw). apply read_tlv_exact in H; [|done..]. exists value, rest. split; [|done].
    rewrite (proj2 (Nat.ltb_ge _ _)) in Hw by lia. injection Hw as <-. by rewrite H, Ht.
  - intros (value & rest & -> & ->). exists (value, rest). split; [by apply read_tlv_exact|].
    rewrite (proj2 (Nat.ltb_ge _ _)) by lia. by rewrite Ht.
Qed.

Lemma tlv_inner bytes tag value rest :
  bytes = tlv tag value ++ rest → bytes_ok bytes → Z.of_nat (length bytes) ≤ u64_max →
  (bytes_ok value ∧ Z.of_nat (length value) ≤ u64_max) ∧ (bytes_ok rest ∧ Z.of_nat (length rest) ≤ u64_max).
Proof.
  intros -> Hok Hmax. unfold tlv in *. simpl in *. apply Forall_cons in Hok as [_ Hok].
  rewrite <- app_assoc in Hok. apply bytes_ok_app in Hok as [_ [Hv Hr]%bytes_ok_app].
  rewrite !length_app in Hmax. split_all; (done || lia).
Qed.

(** Descend one element: the read, the bytes it names, and what their parts are. *)
Ltac descend H :=
  let v := fresh "value" in let r := fresh "rest" in let Hx := fresh "Hread" in
  apply result_bind_Ok in H as ([v r] & Hx & H);
  apply read_tlv_exact in Hx; [|done..];
  let Hv := fresh "Hv" in let Hr := fresh "Hr" in
  destruct (tlv_inner _ _ _ _ Hx ltac:(done) ltac:(done)) as [Hv Hr]; destruct Hv, Hr.

Lemma subject_key_sound der spki :
  bytes_ok der → Z.of_nat (length der) ≤ u64_max → subject_public_key_info der = Ok spki →
  ∃ version serial algorithm issuer validity subject key extensions signature,
    spki = tlv SEQUENCE key ∧ der = certificate_of version serial algorithm issuer validity subject key extensions signature.
Proof.
  intros Hok Hmax H. unfold subject_public_key_info in H. descend H.
  destruct (bool_decide _) eqn:E; [|done]. apply bool_decide_eq_true in E as ->. simpl in H.
  do 7 descend H. apply whole_tlv_exact in H as (key & extensions & -> & Hkey); [|done..].
  eexists _, _, _, _, _, _, key, extensions, _. split; [done|]. unfold certificate_of. subst. by rewrite app_nil_r.
Qed.

(** One read of a chain of reads, forwards. *)
Lemma read_tlv_bind {A} element tag value rest (k : list Z * list Z → Result A CertificateError) :
  bytes_ok (tlv tag value ++ rest) → Z.of_nat (length (tlv tag value ++ rest)) ≤ u64_max →
  result_bind (read_tlv (tlv tag value ++ rest) element tag) k = k (value, rest).
Proof. intros Hok Hmax. by rewrite (proj2 (read_tlv_exact _ element tag value rest Hok Hmax)). Qed.

Lemma subject_key_complete version serial algorithm issuer validity subject key extensions signature :
  let der := certificate_of version serial algorithm issuer validity subject key extensions signature in
  bytes_ok der → Z.of_nat (length der) ≤ u64_max → subject_public_key_info der = Ok (tlv SEQUENCE key).
Proof.
  intros der Hok Hmax. unfold subject_public_key_info, der, certificate_of in *. clear der.
  rewrite <- (app_nil_r (tlv SEQUENCE _)) in Hok, Hmax |- *. rewrite read_tlv_bind by done.
  destruct (tlv_inner _ _ _ _ eq_refl Hok Hmax) as [[Hok1 Hmax1] _]. rewrite bool_decide_true by done. simpl negb. cbv iota.
  rewrite read_tlv_bind by done. destruct (tlv_inner _ _ _ _ eq_refl Hok1 Hmax1) as [[Hok2 Hmax2] _].
  rewrite read_tlv_bind by done. destruct (tlv_inner _ _ _ _ eq_refl Hok2 Hmax2) as [_ [Hok3 Hmax3]].
  rewrite read_tlv_bind by done. destruct (tlv_inner _ _ _ _ eq_refl Hok3 Hmax3) as [_ [Hok4 Hmax4]].
  rewrite read_tlv_bind by done. destruct (tlv_inner _ _ _ _ eq_refl Hok4 Hmax4) as [_ [Hok5 Hmax5]].
  rewrite read_tlv_bind by done. destruct (tlv_inner _ _ _ _ eq_refl Hok5 Hmax5) as [_ [Hok6 Hmax6]].
  rewrite read_tlv_bind by done. destruct (tlv_inner _ _ _ _ eq_refl Hok6 Hmax6) as [_ [Hok7 Hmax7]].
  rewrite read_tlv_bind by done. destruct (tlv_inner _ _ _ _ eq_refl Hok7 Hmax7) as [_ [Hok8 Hmax8]].
  apply whole_tlv_exact; [done..|]. eauto.
Qed.

(** The walk takes a certificate's key from the one place that binds it. On any bytes, it
    answers a structure precisely when the bytes are a certificate, every length on the
    way down in DER's one minimal form, whose seventh element of the signed body is that
    structure; bytes of the key anywhere else in a certificate are never taken for it. *)
Theorem certificate_key_exact der spki :
  bytes_ok der → Z.of_nat (length der) ≤ u64_max →
  subject_public_key_info der = Ok spki ↔
  ∃ version serial algorithm issuer validity subject key extensions signature,
    spki = tlv SEQUENCE key ∧ der = certificate_of version serial algorithm issuer validity subject key extensions signature.
Proof.
  intros Hok Hmax. split; [by apply subject_key_sound|].
  intros (version & serial & algorithm & issuer & validity & subject & key & extensions & signature & -> & ->).
  by apply subject_key_complete.
Qed.

Definition small_certificate : list Z := certificate_of [2; 1; 2] [5] [6; 0] [] [] [] [6; 0; 3; 2; 0; 9] [1; 2] [3].

