(* ===== verification/PackageArmour.v ===== *)
(** * The onboarding package: the armour is exact

    A certificate member is read precisely when it is the boundary lines around the one
    base64 spelling of the certificate, broken into lines of at most 64 characters. *)
From S2P Require Import Prelude PackageEndpoint PackageCertificate.

(** ** Base64, the one spelling (RFC 4648, section 4) *)
Definition character_of (sextet : Z) : Z :=
  if sextet <? 26 then 65 + sextet else if sextet <? 52 then 97 + (sextet - 26) else
  if sextet <? 62 then 48 + (sextet - 52) else if sextet =? 62 then 43 else 47.

Definition group_of (n : Z) : list Z :=
  [character_of (n / 262144); character_of ((n / 4096) mod 64); character_of ((n / 64) mod 64); character_of (n mod 64)].

Fixpoint base64 (bytes : list Z) : list Z :=
  match bytes with
  | [] => []
  | [a] => take 2 (group_of (a * 65536)) ++ [61; 61]
  | [a; b] => take 3 (group_of (a * 65536 + b * 256)) ++ [61]
  | a :: b :: c :: bytes => group_of (a * 65536 + b * 256 + c) ++ base64 bytes
  end.

Definition armour (lines : list (list Z)) (line_feeds : nat) : list Z :=
  BEGIN ++ concat ((λ line, line ++ [10]) <$> lines) ++ END_LINE ++ [10] ++ replicate line_feeds 10.

(** ** Characters *)
Lemma sextet_Some character s : sextet character = Some s ↔ character = character_of s ∧ 0 ≤ s < 64.
Proof.
  unfold sextet, character_of. split.
  - intros H. repeat (case_match; simplify_eq); lia.
  - intros [-> Hs]. repeat case_match; try lia; f_equal; lia.
Qed.

Lemma character_not_pad s : 0 ≤ s < 64 → (character_of s =? 61) = false.
Proof. intros. unfold character_of. repeat case_match; lia. Qed.

Lemma pack_sextet packed s : 0 ≤ packed < 262144 → 0 ≤ s < 64 → Z.lor (wrap 32 (Z.shiftl packed 6)) s = packed * 64 + s.
Proof.
  intros Hp Hs. rewrite Z.shiftl_mul_pow2 by lia. change (2 ^ 6) with 64.
  unfold wrap. change (2 ^ 32) with 4294967296. rewrite Z.mod_small by lia.
  change 64 with (2 ^ 6) at 1. rewrite <- (Z.shiftl_mul_pow2 packed 6), lor_shiftl_add by lia. done.
Qed.

Lemma pack_padding packed : 0 ≤ packed < 262144 → wrap 32 (Z.shiftl packed 6) = packed * 64.
Proof.
  intros Hp. rewrite Z.shiftl_mul_pow2 by lia. change (2 ^ 6) with 64. unfold wrap. change (2 ^ 32) with 4294967296.
  apply Z.mod_small. lia.
Qed.

(** ** The storage *)
Fixpoint put_bytes (out : list Z) (at_ : nat) (bytes : list Z) : list Z :=
  match bytes with [] => out | byte :: bytes => put_bytes (<[at_ := byte]> out) (S at_) bytes end.

Lemma put_bytes_app out at_ l k : put_bytes out at_ (l ++ k) = put_bytes (put_bytes out at_ l) (at_ + length l) k.
Proof.
  revert out at_. induction l as [|byte l IH]; intros out at_; simpl; [by rewrite Nat.add_0_r|].
  rewrite IH. f_equal. lia.
Qed.

Lemma length_put_bytes out at_ bytes : length (put_bytes out at_ bytes) = length out.
Proof. revert out at_. induction bytes as [|byte bytes IH]; intros; simpl; [done|]. by rewrite IH, length_insert. Qed.

(** What fits of the bytes is at the front of the storage. *)
Lemma put_bytes_front out bytes :
  take (length bytes) (put_bytes out 0 bytes) = take (length out) bytes.
Proof.
  induction bytes as [|byte bytes IH] using rev_ind; [by rewrite !take_nil|].
  rewrite put_bytes_app. simpl put_bytes. set (stored := put_bytes out 0 bytes) in *.
  assert (length stored = length out) as Hl by apply length_put_bytes.
  rewrite length_app. simpl length. rewrite Nat.add_1_r. destruct (decide (length bytes < length out)%nat) as [Hlt|Hge].
  - rewrite (take_S_r _ _ byte) by (apply list_lookup_insert_eq; lia). rewrite take_insert_ge by lia. rewrite IH.
    rewrite !take_ge; [done|rewrite length_app; simpl; lia|lia].
  - rewrite list_insert_ge by lia. rewrite take_app_le by lia. rewrite <- IH, !take_ge; (done || lia).
Qed.

(** ** Four characters at a time *)
Abbreviation state out at_ packed filled padding closed :=
  {| de_out := out; de_at := at_; de_packed := packed; de_filled := filled; de_padding := padding; de_closed := closed |}.

Section Group.
  Context (out : list Z) (at_ : nat).

Lemma push_character packed filled s :
  0 ≤ filled < 3 → 0 ≤ packed < 262144 → 0 ≤ s < 64 →
  Decoder_push (state out at_ packed filled 0 false) (character_of s) = Ok (state out at_ (packed * 64 + s) (filled + 1) 0 false).
Proof.
  intros Hf Hp Hs. unfold Decoder_push. cbn [de_closed de_padding]. rewrite character_not_pad by done.
  change (0 <? 0) with false. rewrite (proj2 (sextet_Some _ s) (conj eq_refl Hs)). simpl. rewrite pack_sextet by done.
  replace (saturating_add 32 filled 1) with (filled + 1) by ints. by rewrite (proj2 (Z.eqb_neq _ _)) by lia.
Qed.

Lemma flush_group n padding :
  0 ≤ n < 16777216 → 0 ≤ padding ≤ 2 →
  Decoder_flush (state out at_ n 4 padding false) =
    if negb (n mod 256 ^ padding =? 0) then Err NonCanonicalPadding else
    let bytes := take (Z.to_nat (3 - padding)) [n / 65536; (n / 256) mod 256; n mod 256] in
    Ok (state (put_bytes out at_ bytes) (at_ + length bytes)%nat 0 0 padding (0 <? padding)).
Proof.
  intros Hn Hp. unfold Decoder_flush, wrap, saturating_sub. cbn [de_padding de_packed].
  rewrite !Z.shiftr_div_pow2 by lia. change (2 ^ 16) with 65536. change (2 ^ 8) with 256.
  replace ((n / 65536) mod 256) with (n / 65536) by (rewrite Z.mod_small; [done|Z.div_mod_to_equations; lia]).
  assert (padding = 0 ∨ padding = 1 ∨ padding = 2) as [->|[->| ->]] by lia.
  - rewrite Z.land_0_r. simpl. rewrite Z.mod_1_r. simpl. do 2 f_equal. lia.
  - change 255 with (Z.ones 8). simpl (if _ =? _ then _ else _). rewrite Z.land_ones by lia. change (256 ^ 1) with 256. change (2 ^ 8) with 256.
    destruct (n mod 256 =? 0); simpl; [|done]. do 2 f_equal. lia.
  - change 65535 with (Z.ones 16). simpl (if _ =? _ then _ else _). rewrite Z.land_ones by lia. change (256 ^ 2) with 65536. change (2 ^ 16) with 65536.
    destruct (n mod 65536 =? 0); simpl; [|done]. do 2 f_equal. lia.
Qed.

Lemma push_inv packed filled character d :
  0 ≤ filled < 3 → 0 ≤ packed < 262144 → Decoder_push (state out at_ packed filled 0 false) character = Ok d →
  (∃ s, character = character_of s ∧ 0 ≤ s < 64 ∧ d = state out at_ (packed * 64 + s) (filled + 1) 0 false)
  ∨ (character = 61 ∧ filled = 2 ∧ d = state out at_ (packed * 64) 3 1 false).
Proof.
  intros Hf Hp H. destruct (character =? 61) eqn:E.
  - right. unfold Decoder_push in H. cbn [de_closed de_filled] in H. rewrite E in H. apply Z.eqb_eq in E.
    destruct (filled <? 2) eqn:Ef; [done|]. assert (filled = 2) as -> by lia. simpl in H.
    rewrite pack_padding in H by done. by injection H as <-.
  - left. destruct (sextet character) as [s|] eqn:Es.
    + apply sextet_Some in Es as [-> Hs]. exists s. rewrite push_character in H by done. by injection H as <-.
    + unfold Decoder_push in H. cbn [de_closed de_padding] in H. rewrite E, Es in H. done.
Qed.

Lemma push_last_inv packed padding character d :
  0 ≤ padding ≤ 1 → 0 ≤ packed < 262144 → Decoder_push (state out at_ packed 3 padding false) character = Ok d →
  (∃ s, character = character_of s ∧ 0 ≤ s < 64 ∧ padding = 0 ∧ Decoder_flush (state out at_ (packed * 64 + s) 4 0 false) = Ok d)
  ∨ (character = 61 ∧ Decoder_flush (state out at_ (packed * 64) 4 (padding + 1) false) = Ok d).
Proof.
  intros Hf Hp H. unfold Decoder_push in H. cbn [de_closed de_filled de_padding] in H. destruct (character =? 61) eqn:E.
  - right. apply Z.eqb_eq in E. change (3 <? 2) with false in H. cbn in H. rewrite pack_padding in H by done.
    change (saturating_add 32 3 1) with 4 in H. replace (saturating_add 32 padding 1) with (padding + 1) in H by ints. done.
  - left. destruct (0 <? padding) eqn:Epad; [done|]. assert (padding = 0) as -> by lia.
    destruct (sextet character) as [s|] eqn:Es; [|done].
    apply sextet_Some in Es as [-> Hs]. exists s. cbn in H. rewrite pack_sextet in H by done. done.
Qed.

Lemma push_last_character packed s :
  0 ≤ packed < 262144 → 0 ≤ s < 64 →
  Decoder_push (state out at_ packed 3 0 false) (character_of s) = Decoder_flush (state out at_ (packed * 64 + s) 4 0 false).
Proof.
  intros Hp Hs. unfold Decoder_push. cbn [de_closed de_padding]. rewrite character_not_pad by done.
  change (0 <? 0) with false. rewrite (proj2 (sextet_Some _ s) (conj eq_refl Hs)). cbn. by rewrite pack_sextet.
Qed.

Lemma push_pad packed :
  0 ≤ packed < 262144 → Decoder_push (state out at_ packed 2 0 false) 61 = Ok (state out at_ (packed * 64) 3 1 false).
Proof. intros Hp. unfold Decoder_push. cbn. by rewrite pack_padding. Qed.

Lemma push_last_pad packed padding :
  0 ≤ packed < 262144 → 0 ≤ padding ≤ 1 →
  Decoder_push (state out at_ packed 3 padding false) 61 = Decoder_flush (state out at_ (packed * 64) 4 (padding + 1) false).
Proof.
  intros Hp Hpad. unfold Decoder_push. cbn. rewrite pack_padding by done.
  change (saturating_add 32 3 1) with 4. by replace (saturating_add 32 padding 1) with (padding + 1) by ints.
Qed.
End Group.

(** ** A group and its bytes *)
Lemma group_of_sextets s1 s2 s3 s4 :
  0 ≤ s1 < 64 → 0 ≤ s2 < 64 → 0 ≤ s3 < 64 → 0 ≤ s4 < 64 →
  group_of (((s1 * 64 + s2) * 64 + s3) * 64 + s4) = [character_of s1; character_of s2; character_of s3; character_of s4].
Proof. intros. unfold group_of. repeat f_equal; Z.div_mod_to_equations; lia. Qed.

Definition after_group (out : list Z) (at_ : nat) (bytes : list Z) : Decoder :=
  state (put_bytes out at_ bytes) (at_ + length bytes)%nat 0 0 (3 - Z.of_nat (length bytes)) (Z.of_nat (length bytes) <? 3).

Ltac each_byte := unfold bytes_ok; repeat (apply Forall_cons; split; [ints|]); apply Forall_nil_2.

Lemma group_sound out at_ c1 c2 c3 c4 rest d' :
  push_line (state out at_ 0 0 0 false) (c1 :: c2 :: c3 :: c4 :: rest) = Ok d' →
  ∃ bytes, [c1; c2; c3; c4] = base64 bytes ∧ bytes_ok bytes ∧ (1 ≤ length bytes ≤ 3)%nat ∧
    push_line (after_group out at_ bytes) rest = Ok d'.
Proof.
  cbn [push_line]. intros H. apply result_bind_Ok in H as (d1 & H1 & H). apply result_bind_Ok in H as (d2 & H2 & H).
  apply result_bind_Ok in H as (d3 & H3 & H). apply result_bind_Ok in H as (d4 & H4 & H).
  apply push_inv in H1 as [(s1 & -> & Hs1 & ->)|(_ & ? & _)]; [|done || lia..].
  apply push_inv in H2 as [(s2 & -> & Hs2 & ->)|(_ & ? & _)]; [|done || lia..].
  apply push_inv in H3 as [(s3 & -> & Hs3 & ->)|(-> & _ & ->)]; [| |lia..].
  - apply push_last_inv in H4 as [(s4 & -> & Hs4 & _ & H4)|(-> & H4)]; [| |lia..].
    + set (n := ((s1 * 64 + s2) * 64 + s3) * 64 + s4). replace ((_ + s3) * 64 + s4) with n in H4 by lia.
      rewrite flush_group in H4 by (unfold n; lia). rewrite Z.mod_1_r in H4. simpl in H4. injection H4 as <-.
      exists [n / 65536; (n / 256) mod 256; n mod 256]. split_all; [|unfold n; each_byte|simpl; lia|simpl; lia|done].
      cbn [base64]. rewrite app_nil_r, <- group_of_sextets by done. fold n. f_equal. Z.div_mod_to_equations. lia.
    + set (n := ((s1 * 64 + s2) * 64 + s3) * 64 + 0). replace ((_ + s3) * 64) with n in H4 by lia.
      rewrite flush_group in H4 by (unfold n; lia). change (256 ^ (0 + 1)) with 256 in H4.
      destruct (n mod 256 =? 0) eqn:En; [|done]. simpl in H4. injection H4 as <-.
      exists [n / 65536; (n / 256) mod 256]. split_all; [|unfold n; each_byte|simpl; lia|simpl; lia|done].
      cbn [base64]. replace (n / 65536 * 65536 + (n / 256) mod 256 * 256) with n by (Z.div_mod_to_equations; lia).
      unfold n. rewrite group_of_sextets by lia. done.
  - apply push_last_inv in H4 as [(s4 & _ & _ & ? & _)|(-> & H4)]; [lia| |lia..].
    set (n := ((s1 * 64 + s2) * 64 + 0) * 64 + 0). replace (_ * 64 * 64) with n in H4 by lia.
    rewrite flush_group in H4 by (unfold n; lia). change (256 ^ (1 + 1)) with 65536 in H4.
    destruct (n mod 65536 =? 0) eqn:En; [|done]. simpl in H4. injection H4 as <-.
    exists [n / 65536]. split_all; [|unfold n; each_byte|simpl; lia|simpl; lia|done].
    cbn [base64]. replace (n / 65536 * 65536) with n by (Z.div_mod_to_equations; lia).
    unfold n. rewrite group_of_sextets by lia. done.
Qed.

(** Three bytes, or the last one or two, forwards. *)
Lemma group_complete out at_ bytes rest :
  bytes_ok bytes → (1 ≤ length bytes ≤ 3)%nat →
  push_line (state out at_ 0 0 0 false) (base64 bytes ++ rest) = push_line (after_group out at_ bytes) rest.
Proof.
  intros Hok Hlen.
  assert (∃ a b c, bytes = [a; b; c] ∨ (bytes = [a; b] ∧ c = 0) ∨ (bytes = [a] ∧ b = 0 ∧ c = 0)) as (a & b & c & Hcases).
  { destruct bytes as [|a [|b [|c [|]]]]; simpl in *; try lia; [exists a, 0, 0|exists a, b, 0|exists a, b, c]; auto. }
  assert (is_u8 a ∧ is_u8 b ∧ is_u8 c) as (Ha & Hb & Hc).
  { unfold bytes_ok in Hok. destruct Hcases as [->|[[-> ->]|(-> & -> & ->)]]; rewrite !Forall_cons in Hok; destruct_and?; split_all; (done || ints). }
  set (n := a * 65536 + b * 256 + c).
  assert (0 ≤ n < 16777216 ∧ n / 65536 = a ∧ (n / 256) mod 256 = b ∧ n mod 256 = c) as (Hn & Hna & Hnb & Hnc) by (unfold n; ints).
  set (s1 := n / 262144). set (s2 := (n / 4096) mod 64). set (s3 := (n / 64) mod 64). set (s4 := n mod 64).
  assert (0 ≤ s1 < 64 ∧ 0 ≤ s2 < 64 ∧ 0 ≤ s3 < 64 ∧ 0 ≤ s4 < 64) as (H1 & H2 & H3 & H4) by (unfold s1, s2, s3, s4; ints).
  assert (((s1 * 64 + s2) * 64 + s3) * 64 + s4 = n) as Hpack by (unfold s1, s2, s3, s4; Z.div_mod_to_equations; lia).
  assert (∀ l, push_line (state out at_ 0 0 0 false) (character_of s1 :: character_of s2 :: l)
               = push_line (state out at_ (s1 * 64 + s2) 2 0 false) l) as Htwo.
  { intros l. cbn [push_line]. rewrite push_character by lia. cbn [result_bind]. rewrite push_character by lia. done. }
  destruct Hcases as [->|[[-> ->]|(-> & -> & ->)]]; cbn [base64 app].
  - rewrite app_nil_r. change (group_of _ ++ rest) with (character_of s1 :: character_of s2 :: character_of s3 :: character_of s4 :: rest).
    rewrite Htwo. cbn [push_line]. rewrite push_character by lia. cbn [result_bind]. rewrite push_last_character by lia.
    rewrite Hpack, flush_group by lia. rewrite Z.mod_1_r. simpl. by rewrite Hna, Hnb, Hnc.
  - replace (a * 65536 + b * 256) with n by (unfold n; lia).
    change (take 3 (group_of n) ++ [61]) with [character_of s1; character_of s2; character_of s3; 61]. cbn [app].
    rewrite Htwo. cbn [push_line]. rewrite push_character by lia. cbn [result_bind]. rewrite push_last_pad by lia.
    assert (s4 = 0) as E4 by (unfold s4; Z.div_mod_to_equations; lia). rewrite E4, Z.add_0_r in Hpack.
    rewrite Hpack, flush_group by lia. change (256 ^ (0 + 1)) with 256. rewrite Hnc. simpl. by rewrite Hna, Hnb.
  - replace (a * 65536) with n by (unfold n; lia).
    change (take 2 (group_of n) ++ [61; 61]) with [character_of s1; character_of s2; 61; 61]. cbn [app].
    rewrite Htwo. cbn [push_line]. rewrite push_pad by lia. cbn [result_bind]. rewrite push_last_pad by lia.
    assert (s3 = 0 ∧ s4 = 0) as [E3 E4] by (unfold s3, s4; Z.div_mod_to_equations; lia). rewrite E3, E4, !Z.add_0_r in Hpack.
    rewrite Hpack, flush_group by lia. change (256 ^ (1 + 1)) with 65536.
    assert (n mod 65536 = 0) as -> by (Z.div_mod_to_equations; lia). simpl. by rewrite Hna.
Qed.

(** ** The characters of a whole certificate *)
Lemma push_closed d character line : de_closed d = true → push_line d (character :: line) = Err PaddingMisplaced.
Proof. intros H. cbn [push_line]. unfold Decoder_push. by rewrite H. Qed.

Lemma push_short out at_ chars d' :
  (1 ≤ length chars ≤ 3)%nat → push_line (state out at_ 0 0 0 false) chars = Ok d' → de_filled d' ≠ 0.
Proof.
  intros Hlen H. destruct chars as [|c1 [|c2 [|c3 [|]]]]; simpl in Hlen; try lia; cbn [push_line] in H;
    repeat lazymatch type of H with
      | result_bind _ _ = Ok _ =>
          let H' := fresh in apply result_bind_Ok in H as (? & H' & H);
          apply push_inv in H' as [(? & _ & ? & ->)|(_ & ? & ->)]; [| |lia..]
      end;
    first [exfalso; lia|injection H as <-; simpl; lia].
Qed.

Lemma base64_app3 a b c bytes : base64 (a :: b :: c :: bytes) = base64 [a; b; c] ++ base64 bytes.
Proof. cbn [base64]. by rewrite app_nil_r. Qed.

Lemma length3 {A} (l : list A) : length l = 3%nat → ∃ a b c, l = [a; b; c].
Proof. destruct l as [|a [|b [|c [|]]]]; try done. eauto. Qed.

Lemma push_line_sound chars out at_ d' :
  push_line (state out at_ 0 0 0 false) chars = Ok d' → de_filled d' = 0 →
  ∃ bytes, chars = base64 bytes ∧ bytes_ok bytes ∧ de_out d' = put_bytes out at_ bytes ∧ de_at d' = (at_ + length bytes)%nat.
Proof.
  remember (length chars) as n eqn:Hn. revert chars out at_ Hn. induction (lt_wf n) as [n _ IH]; intros chars out at_ -> H Hf.
  destruct (decide (length chars < 4)%nat) as [Hs|Hs].
  { destruct chars as [|c chars]; [injection H as <-; exists []; simpl; rewrite Nat.add_0_r; by repeat constructor|].
    apply push_short in H; [done|simpl in *; lia]. }
  destruct chars as [|c1 [|c2 [|c3 [|c4 rest]]]]; simpl in Hs; try lia. clear Hs.
  apply group_sound in H as (bytes & Hg & Hok & Hlen & H).
  change (c1 :: c2 :: c3 :: c4 :: rest) with ([c1; c2; c3; c4] ++ rest). rewrite Hg.
  destruct (decide (length bytes = 3)%nat) as [H3|H3].
  - unfold after_group in H. rewrite H3 in H. destruct (IH (length rest) ltac:(simpl; lia) rest _ _ eq_refl H Hf) as (more & -> & Hmore & -> & ->).
    exists (bytes ++ more). apply length3 in H3 as (a & b & c & ->). split_all.
    + symmetry. apply base64_app3.
    + by apply bytes_ok_app.
    + by rewrite put_bytes_app.
    + simpl. lia.
  - destruct rest as [|c rest].
    + injection H as <-. exists bytes. rewrite app_nil_r. done.
    + rewrite push_closed in H; [done|]. simpl. lia.
Qed.

Lemma push_line_complete bytes out at_ :
  bytes_ok bytes →
  ∃ d', push_line (state out at_ 0 0 0 false) (base64 bytes) = Ok d' ∧ de_filled d' = 0 ∧
    de_out d' = put_bytes out at_ bytes ∧ de_at d' = (at_ + length bytes)%nat.
Proof.
  remember (length bytes) as n eqn:Hn. revert bytes out at_ Hn. induction (lt_wf n) as [n _ IH]; intros bytes out at_ -> Hok.
  destruct (decide (length bytes ≤ 3)%nat) as [Hs|Hs].
  - destruct bytes as [|b bytes]; [eexists; split; [done|]; simpl; by rewrite Nat.add_0_r|].
    exists (after_group out at_ (b :: bytes)). split; [|done].
    rewrite <- (app_nil_r (base64 (b :: bytes))). rewrite group_complete by (done || (simpl in *; lia)). done.
  - destruct bytes as [|a [|b [|c bytes]]]; simpl in Hs; try lia. clear Hs.
    change (a :: b :: c :: bytes) with ([a; b; c] ++ bytes) in Hok. apply bytes_ok_app in Hok as [H3 Hok].
    rewrite base64_app3, group_complete by (done || (simpl; lia)).
    destruct (IH (length bytes) ltac:(simpl; lia) bytes (put_bytes out at_ [a; b; c]) (at_ + 3)%nat eq_refl Hok) as (d' & E & ? & ? & ?).
    exists d'. split_all; [exact E|done| |simpl in *; lia].
    change (a :: b :: c :: bytes) with ([a; b; c] ++ bytes). by rewrite put_bytes_app.
Qed.

Lemma push_line_app d l k : push_line d (l ++ k) = result_bind (push_line d l) (λ d, push_line d k).
Proof.
  revert d. induction l as [|c l IH]; intros d; [done|]. cbn [push_line app]. destruct (Decoder_push d c); [apply IH|done].
Qed.

(** ** Lines *)
Definition line_ok (line : list Z) : Prop := (10 ∉ line) ∧ (line ≠ END_LINE) ∧ Z.of_nat (length line) ≤ LINE_CHARS.

Lemma unarmour_loop_sound turns rest d rest' d' :
  unarmour_loop turns rest d = Ok (true, rest', d') →
  ∃ lines, rest = concat ((λ line, line ++ [10]) <$> lines) ++ END_LINE ++ [10] ++ rest' ∧ Forall line_ok lines ∧
    push_line d (concat lines) = Ok d'.
Proof.
  revert rest d. induction turns as [|turns IH]; intros rest d H; [done|]. cbn [unarmour_loop] in H.
  destruct (split_line rest) as [[line tail]|] eqn:Es; [|done]. apply split_once_Some in Es as [-> Hn].
  destruct (bool_decide _) eqn:Ee; [apply bool_decide_eq_true in Ee as ->; injection H as <- <-; by exists []|].
  apply bool_decide_eq_false in Ee. destruct (_ <? _) eqn:El; [done|].
  apply result_bind_Ok in H as (d1 & Hp & H). apply IH in H as (lines & -> & Hl & Hd). exists (line :: lines). split_all.
  - cbn. by rewrite <- !app_assoc.
  - constructor; [|done]. unfold line_ok. split_all; [done..|lia].
  - cbn [concat]. by rewrite push_line_app, Hp.
Qed.

Lemma end_line_feedless : 10 ∉ END_LINE.
Proof. apply contains_false. reflexivity. Qed.

Lemma unarmour_loop_complete lines turns d rest' d' :
  (length lines < turns)%nat → Forall line_ok lines → push_line d (concat lines) = Ok d' →
  unarmour_loop turns (concat ((λ line, line ++ [10]) <$> lines) ++ END_LINE ++ [10] ++ rest') d = Ok (true, rest', d').
Proof.
  revert turns d. induction lines as [|line lines IH]; intros [|turns] d Ht Hl Hp; simpl in Ht; try lia; cbn [unarmour_loop].
  - injection Hp as <-. unfold split_line. cbn [fmap list_fmap concat app].
    rewrite (proj2 (split_once_Some _ _ END_LINE rest')) by (split; [done|apply end_line_feedless]). by rewrite bool_decide_true.
  - apply Forall_cons in Hl as [(Hn & He & Hlen) Hl]. cbn [concat] in Hp. rewrite push_line_app in Hp.
    apply result_bind_Ok in Hp as (d1 & Hp1 & Hp). rewrite fmap_cons. cbn [concat]. rewrite <- !app_assoc. unfold split_line.
    rewrite (proj2 (split_once_Some _ _ line _)) by done. rewrite bool_decide_false by done.
    rewrite (proj2 (Z.ltb_ge _ _)) by lia. rewrite Hp1. cbn [result_bind]. apply IH; [lia|done|done].
Qed.

(** ** The member *)
Lemma strip_prefix_Some prefix l rest : strip_prefix prefix l = Some rest ↔ l = prefix ++ rest.
Proof.
  unfold strip_prefix. split.
  - case_bool_decide as E; [|done]. intros [= <-]. rewrite <- E at 1. symmetry. apply take_drop.
  - intros ->. rewrite take_app_length, drop_app_length. by rewrite bool_decide_true.
Qed.

Lemma line_feeds_spec rest : forallb (λ byte, byte =? 10) rest = true ↔ rest = replicate (length rest) 10.
Proof.
  induction rest as [|byte rest IH]; [done|]. cbn [forallb length replicate]. rewrite andb_true_iff, Z.eqb_eq, IH.
  split; [intros [-> E]; by rewrite <- E|intros [= -> E]; auto].
Qed.

Definition in_base64 (character : Z) : Prop := character ≠ 10 ∧ character ≠ 45.

Lemma base64_alphabet bytes : bytes_ok bytes → Forall in_base64 (base64 bytes).
Proof.
  assert (∀ s, 0 ≤ s < 64 → in_base64 (character_of s)) as Hc.
  { intros s Hs. unfold in_base64, character_of. repeat case_match; lia. }
  assert (∀ n, 0 ≤ n < 16777216 → Forall in_base64 (group_of n)) as Hg.
  { intros n Hn. unfold group_of. repeat (apply Forall_cons; split; [apply Hc; Z.div_mod_to_equations; lia|]). apply Forall_nil_2. }
  assert (Forall in_base64 [61; 61] ∧ Forall in_base64 [61]) as [Hp2 Hp1] by (unfold in_base64; rewrite !Forall_cons; auto with lia).
  remember (length bytes) as n eqn:Hn. revert bytes Hn. induction (lt_wf n) as [n _ IH]; intros bytes -> Hok. unfold bytes_ok in Hok.
  destruct bytes as [|a [|b [|c bytes]]]; cbn [base64]; [constructor|..]; rewrite !Forall_cons in Hok; destruct_and?.
  - apply Forall_app. split; [apply Forall_take, Hg; ints|done].
  - apply Forall_app. split; [apply Forall_take, Hg; ints|done].
  - apply Forall_app. split; [apply Hg; ints|]. eapply (IH (length bytes)); [simpl; lia|done|done].
Qed.

Lemma lines_ok lines bytes :
  bytes_ok bytes → concat lines = base64 bytes → Forall (λ line, Z.of_nat (length line) ≤ LINE_CHARS) lines → Forall line_ok lines.
Proof.
  intros Hok Hc Hl. assert (Forall (Forall in_base64) lines) as Ha by (apply Forall_concat; rewrite Hc; by apply base64_alphabet).
  rewrite Forall_forall in *. intros line Hin. specialize (Hl _ Hin). specialize (Ha _ Hin).
  rewrite Forall_forall in Ha. unfold line_ok. split_all; [|intros ->|done].
  - intros H10. by destruct (Ha _ H10).
  - destruct (Ha 45) as [_ ?]; [left|done].
Qed.

Lemma unarmour_sound member out len out' :
  length out = MAX_CERTIFICATE_LEN → unarmour member out = Ok (len, out') →
  ∃ der lines feeds, member = armour lines feeds ∧ Forall (λ line, Z.of_nat (length line) ≤ LINE_CHARS) lines ∧
    concat lines = base64 der ∧ bytes_ok der ∧ len = length der ∧ (len ≤ MAX_CERTIFICATE_LEN)%nat ∧ take len out' = der.
Proof.
  intros Hout H. unfold unarmour in H. destruct (strip_prefix BEGIN member) as [rest|] eqn:Es; [|done].
  apply strip_prefix_Some in Es as ->. apply result_bind_Ok in H as ([[closed rest'] d] & Hl & H).
  destruct closed; [|done]. simpl in H. destruct (forallb _ rest') eqn:Ef; [|done]. apply line_feeds_spec in Ef. simpl in H.
  apply result_bind_Ok in H as (n & Hfin & [= <- <-]). unfold Decoder_finish in Hfin.
  destruct (de_filled d =? 0) eqn:Efill; [|done]. simpl in Hfin. apply Z.eqb_eq in Efill.
  destruct (_ <? _)%nat eqn:Emax; [done|]. injection Hfin as <-. apply Nat.ltb_ge in Emax.
  apply unarmour_loop_sound in Hl as (lines & -> & Hlines & Hp).
  apply push_line_sound in Hp as (der & Hc & Hok & Ho & Hat); [|done]. simpl in Hat.
  exists der, lines, (length rest'). unfold armour. rewrite <- Ef. split_all; try done.
  - eapply Forall_impl; [exact Hlines|]. by intros line (_ & _ & ?).
  - rewrite Ho, Hat, put_bytes_front, Hout. apply take_ge. lia.
Qed.

(** A line carries at least its own ending. *)
Lemma lines_shorter lines : Z.of_nat (length lines) ≤ Z.of_nat (length (concat ((λ line, line ++ [10]) <$> lines))).
Proof. induction lines as [|line lines IH]; [done|]. rewrite fmap_cons. cbn [concat length]. rewrite !length_app. simpl. lia. Qed.

Lemma unarmour_complete der lines feeds out :
  length out = MAX_CERTIFICATE_LEN → Forall (λ line, Z.of_nat (length line) ≤ LINE_CHARS) lines →
  concat lines = base64 der → bytes_ok der → (length der ≤ MAX_CERTIFICATE_LEN)%nat →
  ∃ out', unarmour (armour lines feeds) out = Ok (length der, out') ∧ take (length der) out' = der.
Proof.
  intros Hout Hl Hc Hok Hmax. destruct (push_line_complete der out 0 Hok) as (d & Hp & Hfill & Ho & Hat). simpl in Hat.
  exists (de_out d). split; [|rewrite Ho, put_bytes_front, Hout; by apply take_ge].
  unfold unarmour. rewrite (proj2 (strip_prefix_Some BEGIN (armour lines feeds) _) eq_refl).
  rewrite <- Hc in Hp.
  rewrite (unarmour_loop_complete lines (length (armour lines feeds)) _ (replicate feeds 10) d).
  2:{ unfold armour. rewrite !length_app. pose proof (lines_shorter lines). cbn [length]. lia. }
  2:{ by eapply lines_ok. }
  2:{ exact Hp. }
  cbn [result_bind negb]. rewrite (proj2 (line_feeds_spec (replicate feeds 10))) by (by rewrite length_replicate). cbn [negb].
  unfold Decoder_finish. rewrite Hfill, Hat. simpl. rewrite (proj2 (Nat.ltb_ge _ _)) by done. done.
Qed.

Lemma certificate_member_spec member der :
  (∃ certificate, decode member = Ok certificate ∧ Certificate_as_bytes certificate = der) ↔
  der ≠ [] ∧ bytes_ok der ∧ (length der ≤ MAX_CERTIFICATE_LEN)%nat ∧ (∃ spki, subject_public_key_info der = Ok spki) ∧
  ∃ lines feeds, member = armour lines feeds ∧ Forall (λ line, Z.of_nat (length line) ≤ LINE_CHARS) lines ∧
    concat lines = base64 der.
Proof.
  assert (length (replicate MAX_CERTIFICATE_LEN 0) = MAX_CERTIFICATE_LEN) as Hout by apply length_replicate.
  unfold decode. split.
  - intros (certificate & H & Hder). apply result_bind_Ok in H as ([len out'] & Hu & H).
    destruct (len =? 0)%nat eqn:E0; [done|]. apply result_bind_Ok in H as (spki & Hs & [= <-]).
    apply unarmour_sound in Hu as (der' & lines & feeds & -> & Hl & Hc & Hok & -> & Hmax & Ht); [|done].
    unfold Certificate_as_bytes in Hder, Hs. cbn [ce_len ce_der] in *. rewrite Ht in *. subst der'.
    split_all; eauto. intros ->. done.
  - intros (Hne & Hok & Hmax & (spki & Hs) & lines & feeds & -> & Hl & Hc).
    destruct (unarmour_complete der lines feeds _ Hout Hl Hc Hok Hmax) as (out' & -> & Ht).
    cbn [result_bind]. rewrite (proj2 (Nat.eqb_neq _ _)) by (by destruct der).
    unfold Certificate_as_bytes. cbn [ce_len ce_der]. rewrite Ht, Hs. cbn [result_bind]. eexists. split; [done|exact Ht].
Qed.

(** C23. A certificate member has one content. It is accepted precisely when it is the opening
    boundary, the one base64 spelling of the certificate broken into lines of at most 64
    characters, the closing boundary and nothing but line feeds after it, and those bytes
    are a certificate the walk reads, not empty and within the storage; what is kept is
    exactly those bytes. *)
Theorem certificate_member_exact member der :
  (∃ certificate, decode member = Ok certificate ∧ Certificate_as_bytes certificate = der) ↔
  der ≠ [] ∧ bytes_ok der ∧ (length der ≤ MAX_CERTIFICATE_LEN)%nat ∧ (∃ spki, subject_public_key_info der = Ok spki) ∧
  ∃ lines feeds, member = armour lines feeds ∧ Forall (λ line, Z.of_nat (length line) ≤ LINE_CHARS) lines ∧
    concat lines = base64 der.
Proof. apply certificate_member_spec. Qed.
