(* ===== verification/PackageArchive.v ===== *)
(** * The onboarding package: the archive

    Models [datad/crates/package/src/archive.rs]: locating the four members of a plain
    ustar archive and refusing every other one. A staged archive is exactly the four
    members' entries, each once and in any order, and a run of zero blocks. *)
From S2P Require Import Prelude PackageEndpoint.

Definition BLOCK : Z := 512.
Definition TERMINATOR : Z := 2 * BLOCK.
Definition ARCHIVE_BOUND : Z := 128 * 1024.
Definition MAX_BLOCKS : nat := Z.to_nat (ARCHIVE_BOUND / BLOCK).
Definition MAX_CHECKSUM : Z := BLOCK * 255.
Definition NAME_AT : nat := 0.
Definition NAME_LEN : nat := 100.
Definition SIZE_AT : nat := 124.
Definition SIZE_LEN : nat := 12.
Definition CHECKSUM_AT : nat := 148.
Definition CHECKSUM_LEN : nat := 8.
Definition TYPE_FLAG_AT : nat := 156.
Definition LINK_NAME_AT : nat := 157.
Definition LINK_NAME_LEN : nat := 100.
Definition USTAR_MAGIC_AT : nat := 257.
Definition MAGIC_LEN : nat := 6.
Definition USTAR_VERSION_AT : nat := 263.
Definition VERSION_LEN : nat := 2.
Definition PREFIX_AT : nat := 345.
Definition PREFIX_LEN : nat := 155.
(** [ustar] and a NUL, and [00]. *)
Definition USTAR_MAGIC : list Z := [117; 115; 116; 97; 114; 0].
Definition USTAR_VERSION : list Z := [48; 48].

Inductive Member := DeviceCertificate | TrustAnchor | ManagementEndpoint | MemberConfiguration.
#[export] Instance Member_eq_dec : EqDecision Member.
Proof. solve_decision. Defined.
Definition Member_ALL : list Member := [DeviceCertificate; TrustAnchor; ManagementEndpoint; MemberConfiguration].
(** [device-certificate.pem], [trust-anchor.pem], [management-endpoint] and
    [configuration.xml]. *)
Definition Member_name (m : Member) : list Z :=
  match m with
  | DeviceCertificate =>
      [100; 101; 118; 105; 99; 101; 45; 99; 101; 114; 116; 105; 102; 105; 99; 97; 116; 101; 46; 112; 101; 109]
  | TrustAnchor => [116; 114; 117; 115; 116; 45; 97; 110; 99; 104; 111; 114; 46; 112; 101; 109]
  | ManagementEndpoint => [109; 97; 110; 97; 103; 101; 109; 101; 110; 116; 45; 101; 110; 100; 112; 111; 105; 110; 116]
  | MemberConfiguration => [99; 111; 110; 102; 105; 103; 117; 114; 97; 116; 105; 111; 110; 46; 120; 109; 108]
  end.
Definition Member_bound (m : Member) : Z :=
  match m with
  | DeviceCertificate | TrustAnchor => 16 * 1024
  | ManagementEndpoint => 32
  | MemberConfiguration => 64 * 1024
  end.

Inductive NumericField := FieldSize | FieldChecksum.
Inductive EmptyField := LinkName | Prefix.

Inductive ArchiveError :=
| ArchiveOverBound (len bound : Z)
| NotAWholeNumberOfBlocks (len : Z)
| TruncatedHeader (at_ : Z)
| EndsWithoutTerminator
| BytesAfterEndOfArchive (at_ : Z)
| NotUstar (at_ : Z)
| ChecksumMismatch (at_ stated computed : Z)
| NotARegularFile (at_ : Z)
| FieldIsNotEmpty (at_ : Z) (field : EmptyField)
| UnknownMember (at_ : Z)
| DuplicateMember (member : Member)
| MissingMember (member : Member)
| EmptyNumericField (at_ : Z) (field : NumericField)
| NotOctal (at_ : Z) (field : NumericField)
| NumericFieldOverBound (at_ : Z) (field : NumericField)
| MemberOverBound (member : Member) (size bound : Z)
| MemberBodyTruncated (member : Member) (size : Z)
| MemberPaddingIsNotZero (member : Member).

Record Staged := {
  sg_device_certificate : list Z; sg_trust_anchor : list Z; sg_management_endpoint : list Z; sg_configuration : list Z
}.

(** ** Fields *)
Definition all_zero (bytes : list Z) : bool := forallb (λ byte, byte =? 0) bytes.

Definition field (header : list Z) (at_ width : nat) : option (list Z) :=
  if (length header <? at_ + width)%nat then None else Some (take width (drop at_ header)).

Definition ok_or {T E} (e : E) (o : option T) : Result T E := match o with Some x => Ok x | None => Err e end.

(** [u8::is_ascii_whitespace] and [trim_ascii]. *)
Definition is_ascii_whitespace (byte : Z) : bool :=
  (byte =? 32) || (byte =? 9) || (byte =? 10) || (byte =? 12) || (byte =? 13).
Fixpoint trim_start (bytes : list Z) : list Z :=
  match bytes with [] => [] | byte :: rest => if is_ascii_whitespace byte then trim_start rest else bytes end.
Definition trim_ascii (bytes : list Z) : list Z := reverse (trim_start (reverse (trim_start bytes))).

Fixpoint octal_loop (at_ : Z) (which : NumericField) (limit value : Z) (digits : list Z) : Result Z ArchiveError :=
  match digits with
  | [] => Ok value
  | byte :: digits =>
      match digit_of 8 byte with
      | None => Err (NotOctal at_ which)
      | Some digit =>
          if u64_max <? value * 8 then Err (NumericFieldOverBound at_ which) else
          if u64_max <? value * 8 + digit then Err (NumericFieldOverBound at_ which) else
          if limit <? value * 8 + digit then Err (NumericFieldOverBound at_ which) else
          octal_loop at_ which limit (value * 8 + digit) digits
      end
  end.
Definition read_octal (bytes : list Z) (at_ : Z) (which : NumericField) (limit : Z) : Result Z ArchiveError :=
  let before := match split_once 0 bytes with Some (before, _) => before | None => bytes end in
  let digits := trim_ascii before in
  match digits with
  | [] => Err (EmptyNumericField at_ which)
  | _ => octal_loop at_ which limit 0 digits
  end.

Definition member_named (name : list Z) : option Member :=
  List.find (λ member,
    let spelled := Member_name member in
    (length spelled <=? length name)%nat && bool_decide (take (length spelled) name = spelled)
    && all_zero (drop (length spelled) name)) Member_ALL.

Definition check_empty (header : list Z) (at_ : Z) (start width : nat) (which : EmptyField) : Result unit ArchiveError :=
  try! bytes <- ok_or (TruncatedHeader at_) (field header start width);
  if all_zero bytes then Ok tt else Err (FieldIsNotEmpty at_ which).

(** [.enumerate().map(..).fold(0, saturating_add)]. *)
Fixpoint checksum_from (index : nat) (sum : Z) (header : list Z) : Z :=
  match header with
  | [] => sum
  | byte :: header =>
      checksum_from (S index)
        (saturating_add 64 sum (if (CHECKSUM_AT <=? index)%nat && (index <? CHECKSUM_AT + CHECKSUM_LEN)%nat then 32 else byte))
        header
  end.
Definition check_checksum (header : list Z) (at_ : Z) : Result unit ArchiveError :=
  try! stated_field <- ok_or (TruncatedHeader at_) (field header CHECKSUM_AT CHECKSUM_LEN);
  let computed := checksum_from 0 0 header in
  try! stated <- read_octal stated_field at_ FieldChecksum MAX_CHECKSUM;
  if stated =? computed then Ok tt else Err (ChecksumMismatch at_ stated computed).

Definition read_header (header : list Z) (at_ : Z) : Result (Member * Z) ArchiveError :=
  try! magic <- ok_or (TruncatedHeader at_) (field header USTAR_MAGIC_AT MAGIC_LEN);
  try! version <- ok_or (TruncatedHeader at_) (field header USTAR_VERSION_AT VERSION_LEN);
  if negb (bool_decide (magic = USTAR_MAGIC)) || negb (bool_decide (version = USTAR_VERSION)) then Err (NotUstar at_) else
  try! _ <- check_checksum header at_;
  try! type_flag <- ok_or (TruncatedHeader at_) (field header TYPE_FLAG_AT 1);
  if negb (bool_decide (type_flag = [48])) && negb (bool_decide (type_flag = [0])) then Err (NotARegularFile at_) else
  try! _ <- check_empty header at_ LINK_NAME_AT LINK_NAME_LEN LinkName;
  try! _ <- check_empty header at_ PREFIX_AT PREFIX_LEN Prefix;
  try! name <- ok_or (TruncatedHeader at_) (field header NAME_AT NAME_LEN);
  try! member <- ok_or (UnknownMember at_) (member_named name);
  try! size_field <- ok_or (TruncatedHeader at_) (field header SIZE_AT SIZE_LEN);
  try! size <- read_octal size_field at_ FieldSize ARCHIVE_BOUND;
  let bound := Member_bound member in
  if bound <? size then Err (MemberOverBound member size bound) else Ok (member, size).

Definition check_terminator (rest : list Z) (at_ : Z) : Result unit ArchiveError :=
  match split_at_checked TERMINATOR rest with
  | None => Err EndsWithoutTerminator
  | Some (closing, after) =>
      if negb (all_zero closing) then Err EndsWithoutTerminator else
      if all_zero after then Ok tt else Err (BytesAfterEndOfArchive at_)
  end.

(** ** The walk *)

(** The four [Option]s the loop fills, by the member each is for. *)
Definition Found : Type := Member → option (list Z).
Definition found_none : Found := λ _, None.
Definition found_set (member : Member) (body : list Z) (found : Found) : Found :=
  λ m, if bool_decide (m = member) then Some body else found m.

Definition padding_width (size : Z) : Z := if size mod BLOCK =? 0 then 0 else BLOCK - size mod BLOCK.

(** Whether the closing blocks were met, and what was found. *)
Fixpoint stage_loop (turns : nat) (len : Z) (rest : list Z) (found : Found) : Result (bool * Found) ArchiveError :=
  match turns with
  | 0%nat => Ok (false, found)
  | S turns =>
  let at_ := saturating_sub len (Z.of_nat (length rest)) in
  match split_at_checked BLOCK rest with
  | None => Ok (false, found)
  | Some (header, after_header) =>
  if all_zero header then try! _ <- check_terminator rest at_; Ok (true, found) else
  try! (member, size) <- read_header header at_;
  match found member with
  | Some _ => Err (DuplicateMember member)
  | None =>
  match split_at_checked size after_header with
  | None => Err (MemberBodyTruncated member size)
  | Some (body, after_body) =>
  match split_at_checked (padding_width size) after_body with
  | None => Err (MemberBodyTruncated member size)
  | Some (padding, next) =>
  if negb (all_zero padding) then Err (MemberPaddingIsNotZero member) else
  stage_loop turns len next (found_set member body found)
  end
  end
  end
  end
  end.

Definition stage (archive : list Z) : Result Staged ArchiveError :=
  let len := Z.of_nat (length archive) in
  if ARCHIVE_BOUND <? len then Err (ArchiveOverBound len ARCHIVE_BOUND) else
  if negb (len mod BLOCK =? 0) then Err (NotAWholeNumberOfBlocks len) else
  try! (terminated, found) <- stage_loop MAX_BLOCKS len archive found_none;
  if negb terminated then Err EndsWithoutTerminator else
  try! device_certificate <- ok_or (MissingMember DeviceCertificate) (found DeviceCertificate);
  try! trust_anchor <- ok_or (MissingMember TrustAnchor) (found TrustAnchor);
  try! management_endpoint <- ok_or (MissingMember ManagementEndpoint) (found ManagementEndpoint);
  try! configuration <- ok_or (MissingMember MemberConfiguration) (found MemberConfiguration);
  Ok {| sg_device_certificate := device_certificate; sg_trust_anchor := trust_anchor;
        sg_management_endpoint := management_endpoint; sg_configuration := configuration |}.
