(* ===== verification/PackageStage.v ===== *)
(** * The onboarding package: what a staged archive is

    The walk over an archive's blocks accepts exactly the concatenation of the four members'
    entries, in any order and each once, closed by zero blocks. *)
From S2P Require Import Prelude PackageEndpoint PackageArchive.

Record Entry := { en_header : list Z; en_member : Member; en_body : list Z }.

Definition zeros (n : Z) : list Z := replicate (Z.to_nat n) 0.

(** A header block that reads as the member and the length of its body. *)
Definition entry_ok (e : Entry) : Prop :=
  Z.of_nat (length (en_header e)) = BLOCK ∧
  ∀ at_, read_header (en_header e) at_ = Ok (en_member e, Z.of_nat (length (en_body e))).
Definition entry_bytes (e : Entry) : list Z :=
  en_header e ++ en_body e ++ zeros (padding_width (Z.of_nat (length (en_body e)))).

Definition staged_member (s : Staged) (m : Member) : list Z :=
  match m with
  | DeviceCertificate => sg_device_certificate s
  | TrustAnchor => sg_trust_anchor s
  | ManagementEndpoint => sg_management_endpoint s
  | MemberConfiguration => sg_configuration s
  end.

(** ** An offset is only ever reported *)
Lemma octal_loop_at a b which limit value digits v :
  octal_loop a which limit value digits = Ok v → octal_loop b which limit value digits = Ok v.
Proof.
  revert value. induction digits as [|byte digits IH]; intros value; [done|]. cbn [octal_loop].
  destruct (digit_of 8 byte); [|done]. repeat case_match; auto; done.
Qed.

Lemma read_octal_at a b bytes which limit v : read_octal bytes a which limit = Ok v → read_octal bytes b which limit = Ok v.
Proof. unfold read_octal. case_match; [done|]. apply octal_loop_at. Qed.

Lemma ok_or_Ok' {T E} (e : E) (o : option T) x : ok_or e o = Ok x ↔ o = Some x.
Proof. destruct o; simpl; split; congruence. Qed.

Lemma check_empty_at a b header start width which :
  check_empty header a start width which = Ok tt → check_empty header b start width which = Ok tt.
Proof. unfold check_empty. destruct (field _ _ _); [|done]. cbn. by case_match. Qed.

Lemma check_checksum_at a b header : check_checksum header a = Ok tt → check_checksum header b = Ok tt.
Proof.
  unfold check_checksum. destruct (field _ _ _); [|done]. cbn [ok_or result_bind]. rewrite !result_bind_Ok.
  intros (v & H & E). exists v. split; [by eapply read_octal_at|]. by case_match.
Qed.

Lemma read_header_at a b header r : read_header header a = Ok r → read_header header b = Ok r.
Proof.
  unfold read_header. intros H.
  repeat lazymatch goal with
    | H : result_bind (ok_or _ ?o) _ = Ok _ |- _ => destruct o; [cbn [ok_or result_bind] in H |- *|done]
    | H : result_bind (check_checksum _ _) _ = Ok _ |- _ =>
        apply result_bind_Ok in H as ([] & ?%(check_checksum_at a b) & H); rewrite result_bind_Ok; exists tt; split; [done|]
    | H : result_bind (check_empty _ _ _ _ _) _ = Ok _ |- _ =>
        apply result_bind_Ok in H as ([] & ?%(check_empty_at a b) & H); rewrite result_bind_Ok; exists tt; split; [done|]
    | H : result_bind (read_octal _ _ _ _) _ = Ok _ |- _ =>
        apply result_bind_Ok in H as (? & ?%(read_octal_at a b) & H); rewrite result_bind_Ok; eexists; split; [done|]
    | H : (if ?c then Err _ else _) = Ok _ |- _ => destruct c; [done|]
    end.
  done.
Qed.

(** ** Sizes *)
Lemma octal_loop_nonneg at_ which limit value digits v : 0 ≤ value → octal_loop at_ which limit value digits = Ok v → 0 ≤ v.
Proof.
  revert value. induction digits as [|byte digits IH]; intros value Hv; cbn [octal_loop]; [by intros [= <-]|].
  destruct (digit_of 8 byte) as [digit|] eqn:E; [|done]. apply digit_of_Some in E as [_ E].
  repeat (case_match; [done|]). apply IH. lia.
Qed.

Lemma read_header_size header at_ member size : read_header header at_ = Ok (member, size) → 0 ≤ size ≤ Member_bound member.
Proof.
  unfold read_header. intros H.
  repeat lazymatch goal with
    | H : result_bind _ _ = Ok _ |- _ => apply result_bind_Ok in H as (? & ? & H)
    | H : (if ?c then Err _ else _) = Ok _ |- _ => let E := fresh "E" in destruct c eqn:E; [done|]
    end.
  injection H as -> ->. split; [|lia].
  match goal with H : read_octal _ _ FieldSize _ = Ok _ |- _ => unfold read_octal in H; case_match; [done|]; by eapply octal_loop_nonneg in H end.
Qed.

Lemma padding_width_bounds size : 0 ≤ size → 0 ≤ padding_width size < BLOCK ∧ (size + padding_width size) mod BLOCK = 0.
Proof. unfold padding_width, BLOCK. intros. case_match; Z.div_mod_to_equations; lia. Qed.

Lemma all_zero_spec bytes : all_zero bytes = true ↔ bytes = zeros (Z.of_nat (length bytes)).
Proof.
  unfold all_zero, zeros. rewrite Nat2Z.id. induction bytes as [|byte bytes IH]; [done|].
  cbn [forallb length replicate]. rewrite andb_true_iff, Z.eqb_eq, IH. split; [intros [-> E]; by rewrite <- E|intros [= -> E]; auto].
Qed.

Lemma length_zeros n : 0 ≤ n → Z.of_nat (length (zeros n)) = n.
Proof. intros. unfold zeros. rewrite length_replicate. lia. Qed.

Lemma all_zero_zeros n : 0 ≤ n → all_zero (zeros n) = true.
Proof. intros. apply all_zero_spec. by rewrite length_zeros. Qed.

Lemma zeros_app n m : 0 ≤ n → 0 ≤ m → zeros (n + m) = zeros n ++ zeros m.
Proof. intros. unfold zeros. rewrite Z2Nat.inj_add by lia. apply replicate_add. Qed.

Lemma zero_header_refused header at_ r : all_zero header = true → read_header header at_ ≠ Ok r.
Proof.
  intros Hz%all_zero_spec. rewrite Hz. generalize (Z.of_nat (length header)). intros n H. unfold read_header in H.
  apply result_bind_Ok in H as (magic & Hm & H). apply ok_or_Ok' in Hm. apply result_bind_Ok in H as (version & _ & H).
  unfold field in Hm. destruct (_ <? _)%nat eqn:E in Hm; [done|]. injection Hm as <-. unfold zeros in *. rewrite length_replicate in E.
  rewrite drop_replicate, take_replicate in H. rewrite bool_decide_false in H; [done|].
  apply Nat.ltb_ge in E. unfold USTAR_MAGIC_AT, MAGIC_LEN in *. rewrite Nat.min_l by lia. done.
Qed.

(** ** The walk *)
Fixpoint lookup_entry (m : Member) (entries : list Entry) : option (list Z) :=
  match entries with
  | [] => None
  | e :: entries => if bool_decide (m = en_member e) then Some (en_body e) else lookup_entry m entries
  end.
Definition found_with (entries : list Entry) (found : Found) (m : Member) : option (list Z) :=
  match lookup_entry m entries with Some body => Some body | None => found m end.

Lemma lookup_entry_Some m entries body :
  NoDup (en_member <$> entries) →
  lookup_entry m entries = Some body ↔ ∃ e, e ∈ entries ∧ en_member e = m ∧ en_body e = body.
Proof.
  induction entries as [|e entries IH]; intros Hnd; cbn [lookup_entry].
  - split; [done|]. by intros (e & ?%not_elem_of_nil & _).
  - rewrite fmap_cons in Hnd. apply NoDup_cons in Hnd as [Hn Hnd]. case_bool_decide as E.
    + subst m. split; [intros [= <-]; exists e; split; [left|done]|].
      intros (e' & [->|Hin]%elem_of_cons & Em & <-); [done|]. destruct Hn. rewrite <- Em. by apply list_elem_of_fmap_2.
    + rewrite IH by done. split; intros (e' & Hin & Em & Eb); exists e'; split_all; try done; [by right|].
      apply elem_of_cons in Hin as [->|Hin]; [by destruct E|done].
Qed.

Lemma check_terminator_exact rest at_ :
  check_terminator rest at_ = Ok tt ↔ ∃ n, TERMINATOR ≤ n ∧ rest = zeros n.
Proof.
  unfold check_terminator. split.
  - intros H. destruct (split_at_checked TERMINATOR rest) as [[closing after]|] eqn:E; [|done].
    apply split_at_checked_Some in E as [-> Hl]; [|done]. destruct (all_zero closing) eqn:Ec; [|done].
    destruct (all_zero after) eqn:Ea; [|done]. apply all_zero_spec in Ec, Ea.
    exists (TERMINATOR + Z.of_nat (length after)). split; [lia|]. rewrite zeros_app by (unfold TERMINATOR, BLOCK; lia).
    by rewrite <- Hl, <- Ec, <- Ea.
  - intros (n & Hn & ->). assert (0 ≤ TERMINATOR) by done.
    rewrite (proj2 (split_at_checked_Some TERMINATOR (zeros n) (zeros TERMINATOR) (zeros (n - TERMINATOR)) ltac:(done))).
    + by rewrite !all_zero_zeros by lia.
    + split; [rewrite <- zeros_app by lia; f_equal; lia|by apply length_zeros].
Qed.

Lemma stage_loop_sound turns len rest found found' :
  stage_loop turns len rest found = Ok (true, found') →
  ∃ entries n, rest = concat (entry_bytes <$> entries) ++ zeros n ∧ TERMINATOR ≤ n ∧ Forall entry_ok entries ∧
    NoDup (en_member <$> entries) ∧ (∀ e, e ∈ entries → found (en_member e) = None) ∧ ∀ m, found' m = found_with entries found m.
Proof.
  revert rest found. induction turns as [|turns IH]; intros rest found H; [done|]. cbn [stage_loop] in H.
  destruct (split_at_checked BLOCK rest) as [[header after_header]|] eqn:Eh; [|done].
  destruct (all_zero header) eqn:Ez.
  { apply result_bind_Ok in H as ([] & Hc & [= <-]). apply check_terminator_exact in Hc as (n & Hn & ->).
    exists [], n. split_all; try done; [constructor|by intros e ?%not_elem_of_nil]. }
  apply split_at_checked_Some in Eh as [-> Hlen]; [|done]. apply result_bind_Ok in H as ([member size] & Hread & H).
  pose proof (read_header_size _ _ _ _ Hread) as Hsize. destruct (found member) eqn:Ef; [done|].
  destruct (split_at_checked size after_header) as [[body after_body]|] eqn:Eb; [|done].
  apply split_at_checked_Some in Eb as [-> <-]; [|lia].
  destruct (padding_width_bounds (Z.of_nat (length body)) ltac:(lia)) as [Hpad _].
  destruct (split_at_checked (padding_width _) after_body) as [[padding next]|] eqn:Ep; [|done].
  apply split_at_checked_Some in Ep as [-> Hp]; [|lia]. destruct (all_zero padding) eqn:Epz; [|done]. apply all_zero_spec in Epz.
  apply IH in H as (entries & n & -> & Hn & Hok & Hnd & Hfree & Hfound).
  exists ({| en_header := header; en_member := member; en_body := body |} :: entries), n.
  assert (member ∉ en_member <$> entries) as Hnew.
  { intros (e & E & Hin)%list_elem_of_fmap. specialize (Hfree e Hin). unfold found_set in Hfree. by rewrite <- E, bool_decide_true in Hfree. }
  split_all; [|done| | | |].
  - rewrite fmap_cons. cbn [concat]. set (e := {| en_header := header; en_member := member; en_body := body |}).
    assert (entry_bytes e = header ++ body ++ padding) as -> by (unfold entry_bytes; cbn [e en_header en_body]; by rewrite <- Hp, <- Epz).
    by rewrite <- !app_assoc.
  - constructor; [|done]. split; [done|]. intros at_. by eapply read_header_at.
  - rewrite fmap_cons. by constructor.
  - intros e [->|Hin]%elem_of_cons; [done|]. specialize (Hfree e Hin). unfold found_set in Hfree. by case_bool_decide.
  - intros m. rewrite Hfound. unfold found_with, found_set. cbn [lookup_entry en_member en_body]. case_bool_decide as E; [|done].
    subst m. destruct (lookup_entry member entries) as [b|] eqn:El; [|done].
    apply lookup_entry_Some in El as (e & Hin & E & _); [|done]. destruct Hnew. rewrite <- E. by apply list_elem_of_fmap_2.
Qed.

Lemma stage_loop_complete entries turns len n found :
  (length entries < turns)%nat → TERMINATOR ≤ n → Forall entry_ok entries → NoDup (en_member <$> entries) →
  (∀ e, e ∈ entries → found (en_member e) = None) →
  ∃ found', stage_loop turns len (concat (entry_bytes <$> entries) ++ zeros n) found = Ok (true, found') ∧
    ∀ m, found' m = found_with entries found m.
Proof.
  revert turns found. induction entries as [|e entries IH]; intros [|turns] found Ht Hn Hok Hnd Hfree; simpl in Ht; try lia.
  - exists found. split; [|done]. cbn [fmap list_fmap concat app stage_loop].
    rewrite (proj2 (split_at_checked_Some BLOCK (zeros n) (zeros BLOCK) (zeros (n - BLOCK)) ltac:(done))).
    2:{ unfold TERMINATOR, BLOCK in *. split; [rewrite <- zeros_app by lia; f_equal; lia|by apply length_zeros]. }
    rewrite all_zero_zeros by done. rewrite (proj2 (check_terminator_exact (zeros n) _)) by eauto. done.
  - apply Forall_cons in Hok as [[Hlen Hread] Hok]. rewrite fmap_cons in Hnd. apply NoDup_cons in Hnd as [Hnew Hnd].
    pose proof (read_header_size _ _ _ _ (Hread 0)) as Hsize. destruct (padding_width_bounds _ (proj1 Hsize)) as [Hpad _].
    rewrite fmap_cons. cbn [concat].
    assert (∀ l, entry_bytes e ++ l = en_header e ++ en_body e ++ zeros (padding_width (Z.of_nat (length (en_body e)))) ++ l) as Hb
      by (intros; unfold entry_bytes; by rewrite <- !app_assoc).
    rewrite <- app_assoc, Hb. cbn [stage_loop].
    rewrite (proj2 (split_at_checked_Some BLOCK _ (en_header e) _ ltac:(done))) by (split; [reflexivity|done]).
    destruct (all_zero (en_header e)) eqn:Ez; [by destruct (zero_header_refused _ 0 (en_member e, Z.of_nat (length (en_body e))) Ez)|].
    rewrite Hread. cbn [result_bind]. rewrite (Hfree e) by left.
    rewrite (proj2 (split_at_checked_Some _ _ (en_body e) _ (proj1 Hsize))) by (split; [reflexivity|done]).
    rewrite (proj2 (split_at_checked_Some _ _ (zeros (padding_width (Z.of_nat (length (en_body e))))) _ (proj1 Hpad)))
      by (split; [reflexivity|apply length_zeros; lia]).
    rewrite all_zero_zeros by lia. cbn [negb].
    destruct (IH turns (found_set (en_member e) (en_body e) found)) as (found' & -> & Hfound); [lia|done..| |].
    { intros e' Hin. unfold found_set. rewrite bool_decide_false; [apply Hfree; by right|].
      intros E. destruct Hnew. rewrite <- E. by apply list_elem_of_fmap_2. }
    exists found'. split; [done|]. intros m. rewrite Hfound. unfold found_with, found_set. cbn [lookup_entry].
    case_bool_decide as E; [|done]. subst m. destruct (lookup_entry (en_member e) entries) as [b|] eqn:El; [|done].
    apply lookup_entry_Some in El as (e' & Hin & E & _); [|done]. destruct Hnew. rewrite <- E. by apply list_elem_of_fmap_2.
Qed.

(** ** The archive *)
Lemma entry_bytes_blocks e : entry_ok e → Z.of_nat (length (entry_bytes e)) mod BLOCK = 0 ∧ BLOCK ≤ Z.of_nat (length (entry_bytes e)).
Proof.
  intros [Hh Hr]. pose proof (read_header_size _ _ _ _ (Hr 0)) as [Hs _]. destruct (padding_width_bounds _ Hs) as [Hp Hm].
  unfold entry_bytes. rewrite !length_app, !Nat2Z.inj_add, Hh, length_zeros by lia. unfold BLOCK in *. split; [|lia].
  Z.div_mod_to_equations. lia.
Qed.

Lemma entries_length entries :
  Forall entry_ok entries → BLOCK * Z.of_nat (length entries) ≤ Z.of_nat (length (concat (entry_bytes <$> entries))).
Proof.
  induction 1 as [|e entries He _ IH]; [done|]. apply entry_bytes_blocks in He as [_ He].
  rewrite fmap_cons. cbn [concat length]. rewrite length_app. unfold BLOCK in *. lia.
Qed.

Lemma every_member m : m ∈ Member_ALL.
Proof. apply list_elem_of_In. destruct m; simpl; tauto. Qed.

Lemma Member_ALL_NoDup : NoDup Member_ALL.
Proof. apply (bool_decide_unpack (NoDup Member_ALL)). exact I. Qed.

(** C22. An archive is staged precisely when it is the entries of the four members, in some
    order and each exactly once, every body behind a header block that names it and
    padded with zeros to the block, closed by at least two zero blocks and nothing else,
    within the archive's bound; and what is staged for each member is its entry's body. *)
Theorem archive_staged_exact archive staged :
  stage archive = Ok staged ↔
  ∃ entries n,
    archive = concat (entry_bytes <$> entries) ++ zeros n ∧ TERMINATOR ≤ n ∧ Forall entry_ok entries ∧
    (en_member <$> entries) ≡ₚ Member_ALL ∧
    Z.of_nat (length archive) ≤ ARCHIVE_BOUND ∧ Z.of_nat (length archive) mod BLOCK = 0 ∧
    (∀ e, e ∈ entries → en_body e = staged_member staged (en_member e)).
Proof.
  unfold stage. split.
  - intros H. destruct (ARCHIVE_BOUND <? _) eqn:Eb; [done|]. destruct (_ mod BLOCK =? 0) eqn:Em; [|done]. cbn [negb] in H.
    apply result_bind_Ok in H as ([terminated found] & Hl & H). destruct terminated; [|done]. cbn [negb] in H.
    apply stage_loop_sound in Hl as (entries & n & -> & Hn & Hok & Hnd & _ & Hfound).
    apply result_bind_Ok in H as (b1 & H1%ok_or_Ok' & H). apply result_bind_Ok in H as (b2 & H2%ok_or_Ok' & H).
    apply result_bind_Ok in H as (b3 & H3%ok_or_Ok' & H). apply result_bind_Ok in H as (b4 & H4%ok_or_Ok' & [= <-]).
    set (staged := {| sg_device_certificate := b1; sg_trust_anchor := b2; sg_management_endpoint := b3; sg_configuration := b4 |}).
    assert (∀ m, lookup_entry m entries = Some (staged_member staged m)) as Hall.
    { intros m. assert (found m = Some (staged_member staged m)) as E by by destruct m.
      rewrite Hfound in E. unfold found_with in E. by destruct (lookup_entry m entries). }
    exists entries, n. split_all; [done..| |lia|lia|].
    + apply NoDup_Permutation; [done|apply Member_ALL_NoDup|]. intros m. split; [intros _; apply every_member|intros _].
      destruct (proj1 (lookup_entry_Some _ _ _ Hnd) (Hall m)) as (e & Hin & <- & _). by apply list_elem_of_fmap_2.
    + intros e Hin. specialize (Hall (en_member e)).
      rewrite (proj2 (lookup_entry_Some (en_member e) entries (en_body e) Hnd)) in Hall by eauto. by injection Hall.
  - intros (entries & n & -> & Hn & Hok & Hperm & Hbound & Hmod & Hbody).
    assert (NoDup (en_member <$> entries)) as Hnd by (rewrite Hperm; apply Member_ALL_NoDup).
    rewrite (proj2 (Z.ltb_ge _ _)) by done. rewrite (proj2 (Z.eqb_eq _ _) Hmod). cbn [negb].
    pose proof (entries_length _ Hok) as Hlen.
    destruct (stage_loop_complete entries MAX_BLOCKS (Z.of_nat (length (concat (entry_bytes <$> entries) ++ zeros n))) n found_none)
      as (found & -> & Hfound); try done.
    { rewrite length_app, Nat2Z.inj_add, length_zeros in Hbound by (unfold TERMINATOR, BLOCK in Hn; lia).
      unfold MAX_BLOCKS, ARCHIVE_BOUND, TERMINATOR, BLOCK in *. change (Z.to_nat (128 * 1024 / 512)) with 256%nat. lia. }
    assert (∀ m, found m = Some (staged_member staged m)) as Hall.
    { intros m. rewrite Hfound. unfold found_with.
      pose proof (every_member m) as Hin. rewrite <- Hperm in Hin. apply list_elem_of_fmap in Hin as (e & -> & Hin).
      rewrite (proj2 (lookup_entry_Some (en_member e) entries (en_body e) Hnd)) by eauto. by rewrite (Hbody e Hin). }
    cbn [result_bind negb]. rewrite !Hall. by destruct staged.
Qed.
