(* ===== verification/Package.v ===== *)
(** * The onboarding package

    Models [datad/crates/package/src/lib.rs]: the archive is staged, both certificates are
    unwrapped, the device certificate must bind the appliance's own key, the endpoint must
    be one to dial, the configuration must load and the chain must verify, in that order.
    The chain verifier and the configuration loader are parameters. *)
From S2P Require Import Prelude PackageEndpoint PackageCertificate PackageArchive.

Section Read.
Context {ConfigError : Type}.
(** [config::load], and [ChainVerifier::verify] on the device certificate and the anchor. *)
Context (config_load : list Z → Result unit ConfigError).
Context (chain_verify : list Z → list Z → bool).

Inductive PackageError :=
| ArchiveFault (error : ArchiveError)
| DeviceCertificateFault (error : CertificateError)
| TrustAnchorFault (error : CertificateError)
| DeviceKeyIsNotThisAppliance
| EndpointFault (error : EndpointError)
| ConfigurationFault (error : ConfigError)
| ChainNotVerified.

Record OnboardingPackage := {
  ob_device_certificate : Certificate; ob_trust_anchor : Certificate; ob_endpoint : Endpoint; ob_configuration : list Z
}.

Definition read (archive appliance_key : list Z) : Result OnboardingPackage PackageError :=
  try! staged <- map_err ArchiveFault (stage archive);
  try! device_certificate <- map_err DeviceCertificateFault (decode (sg_device_certificate staged));
  try! trust_anchor <- map_err TrustAnchorFault (decode (sg_trust_anchor staged));
  try! bound <- map_err DeviceCertificateFault (binds_key device_certificate appliance_key);
  if negb bound then Err DeviceKeyIsNotThisAppliance else
  try! endpoint <- map_err EndpointFault (parse (sg_management_endpoint staged));
  try! _ <- map_err ConfigurationFault (config_load (sg_configuration staged));
  if chain_verify (Certificate_as_bytes device_certificate) (Certificate_as_bytes trust_anchor)
  then Ok {| ob_device_certificate := device_certificate; ob_trust_anchor := trust_anchor; ob_endpoint := endpoint;
             ob_configuration := sg_configuration staged |}
  else Err ChainNotVerified.
End Read.
