(* ===== verification/PackageInstall.v ===== *)
(** * The onboarding package, read for the store

    Models the reading half of [datad/crates/store/src/install.rs] over the package crate,
    and discharges what the store's requests assume of their package reader. *)
From stdpp Require Import strings.
From S2P Require Import Prelude Store StoreMedium StoreRequests.
From S2P Require Import PackageEndpoint PackageCertificate PackageDer PackageArmour PackageArchive PackageStage Package.

Section Install.
Context {ConfigError : Type}.
Context (config_load : list Z → Result unit ConfigError).
Context (chain_verify : list Z → list Z → bool).
(** [spki], the appliance's public key as its [SubjectPublicKeyInfo], and the token and
    numbers a refusal is reported by. *)
Context (spki : list Z → Result (list Z) (string * RefusalDetail)).
Context (refusal : PackageError (ConfigError := ConfigError) → string * RefusalDetail).

(** The reading half of [install::read], and the anchor's key that [adoption_of] takes. *)
Definition install_read (archive public_key : list Z) : Result StoreMedium.Package (string * RefusalDetail) :=
  try! appliance_key <- spki public_key;
  try! package <- map_err refusal (read config_load chain_verify archive appliance_key);
  let anchor := Certificate_as_bytes (ob_trust_anchor package) in
  try! anchor_spki <- map_err (λ e, refusal (TrustAnchorFault e)) (subject_public_key_info anchor);
  Ok {| pk_device_certificate := Certificate_as_bytes (ob_device_certificate package); pk_trust_anchor := anchor;
        pk_anchor_spki := anchor_spki; pk_address := ep_address (ob_endpoint package); pk_port := ep_port (ob_endpoint package) |}.

(** ** What an accepted package is *)

(** The member [m] of an archive: the body of its one entry. *)
Definition carries (archive : list Z) (m : Member) (body : list Z) : Prop :=
  ∃ staged, stage archive = Ok staged ∧ staged_member staged m = body.

(** [member] is the armour of the certificate [der]. *)
Definition armours (member der : list Z) : Prop :=
  der ≠ [] ∧ bytes_ok der ∧ (length der ≤ PackageCertificate.MAX_CERTIFICATE_LEN)%nat ∧
  ∃ lines feeds, member = armour lines feeds ∧ Forall (λ line, Z.of_nat (length line) ≤ LINE_CHARS) lines ∧
    concat lines = base64 der.

Lemma decode_armours member certificate : decode member = Ok certificate → armours member (Certificate_as_bytes certificate).
Proof.
  intros H. destruct (proj1 (certificate_member_spec member _) (ex_intro _ certificate (conj H eq_refl))) as (? & ? & ? & _ & ?). done.
Qed.

Lemma read_inv archive key p :
  read config_load chain_verify archive key = Ok p →
  ∃ staged, stage archive = Ok staged ∧
    decode (sg_device_certificate staged) = Ok (ob_device_certificate p) ∧
    decode (sg_trust_anchor staged) = Ok (ob_trust_anchor p) ∧
    subject_public_key_info (Certificate_as_bytes (ob_device_certificate p)) = Ok key ∧
    parse (sg_management_endpoint staged) = Ok (ob_endpoint p) ∧
    config_load (sg_configuration staged) = Ok tt ∧
    chain_verify (Certificate_as_bytes (ob_device_certificate p)) (Certificate_as_bytes (ob_trust_anchor p)) = true.
Proof.
  intros H. unfold read in H.
  apply result_bind_Ok in H as (staged & Hs%map_err_Ok & H). apply result_bind_Ok in H as (device & Hd%map_err_Ok & H).
  apply result_bind_Ok in H as (anchor & Ha%map_err_Ok & H). apply result_bind_Ok in H as (bound & Hb%map_err_Ok & H).
  destruct bound; [|done]. cbn [negb] in H. apply result_bind_Ok in H as (endpoint & He%map_err_Ok & H).
  apply result_bind_Ok in H as ([] & Hc%map_err_Ok & H). destruct (chain_verify _ _) eqn:Hv; [|done]. injection H as <-.
  unfold binds_key in Hb. apply result_bind_Ok in Hb as (found & Hf & [= Hk]). apply bool_decide_eq_true in Hk as ->.
  exists staged. done.
Qed.

(** C20. A package the appliance takes its owner from is its own and wholly checked: the archive
    carries exactly the four members; both certificates are the armour of a bounded
    certificate; the device certificate's own key element, in the one place a certificate
    binds a key, is this appliance's; the endpoint member spells the address and port
    that are stored; the configuration member loads; and the chain verifier accepted the
    device certificate under the delivered anchor. *)
Theorem installed_package_is_checked archive public_key p :
  install_read archive public_key = Ok p →
  ∃ key device_member anchor_member endpoint_member configuration,
    spki public_key = Ok key ∧
    carries archive DeviceCertificate device_member ∧ armours device_member (pk_device_certificate p) ∧
    carries archive TrustAnchor anchor_member ∧ armours anchor_member (pk_trust_anchor p) ∧
    carries archive ManagementEndpoint endpoint_member ∧
    (let e := {| ep_address := pk_address p; ep_port := pk_port p |} in
     endpoint_ok e ∧ (endpoint_member = endpoint_text e ∨ endpoint_member = endpoint_text e ++ [10])) ∧
    carries archive MemberConfiguration configuration ∧ config_load configuration = Ok tt ∧
    chain_verify (pk_device_certificate p) (pk_trust_anchor p) = true ∧
    ∃ version serial algorithm issuer validity subject bound extensions signature,
      key = tlv SEQUENCE bound ∧
      pk_device_certificate p = certificate_of version serial algorithm issuer validity subject bound extensions signature.
Proof.
  intros H. unfold install_read in H. apply result_bind_Ok in H as (key & Hkey & H).
  apply result_bind_Ok in H as (ob & Hread%map_err_Ok & H). apply result_bind_Ok in H as (anchor_spki & _ & [= <-]).
  cbn [pk_device_certificate pk_trust_anchor pk_address pk_port].
  apply read_inv in Hread as (staged & Hs & Hd & Ha & Hk & He & Hc & Hv).
  apply decode_armours in Hd, Ha. exists key, (sg_device_certificate staged), (sg_trust_anchor staged),
    (sg_management_endpoint staged), (sg_configuration staged).
  assert (∀ m, carries archive m (staged_member staged m)) as Hcarry by (intros m; by exists staged).
  split; [done|]. split; [apply (Hcarry DeviceCertificate)|]. split; [done|]. split; [apply (Hcarry TrustAnchor)|].
  split; [done|]. split; [apply (Hcarry ManagementEndpoint)|].
  split; [apply parse_spec; rewrite He; by destruct (ob_endpoint ob)|]. split; [apply (Hcarry MemberConfiguration)|].
  split; [done|]. split; [done|]. destruct Hd as (_ & Hok & Hmax & _). apply subject_key_sound in Hk; [done|done|].
  unfold PackageCertificate.MAX_CERTIFICATE_LEN in Hmax. unfold u64_max. lia.
Qed.

(** C21. The store's contract with its package reader is kept: whatever the archive, the key,
    the verifier and the loader, an accepted package has two certificates that are not
    empty, four address bytes, a 16-bit port, and an endpoint that is not the record's
    mark for none. *)
Theorem package_reader_keeps_its_contract : package_sound install_read.
Proof.
  intros archive key p H. unfold install_read in H. apply result_bind_Ok in H as (spki_key & _ & H).
  apply result_bind_Ok in H as (ob & Hread%map_err_Ok & H). apply result_bind_Ok in H as (anchor_spki & _ & [= <-]).
  cbn [pk_device_certificate pk_trust_anchor pk_address pk_port].
  apply read_inv in Hread as (staged & _ & Hd & Ha & _ & He & _). apply decode_armours in Hd as (? & ? & _), Ha as (? & ? & _).
  apply parse_spec in He as [Hok _]. pose proof (endpoint_ok_stored _ Hok) as (Hany & Hport & Hne). destruct Hok as (Hl & Hb & _).
  split_all; try done. unfold StoredEndpoint_is_absent. cbn [sp_address sp_port]. apply orb_false_iff. split; lia.
Qed.
End Install.
