(* ===== verification/PackageExamples.v ===== *)
(** * The onboarding package: a package put together and read

    An archive of the four members, composed here the way ustar lays one out, and the
    theorems about packages on it. *)
From stdpp Require Import strings.
From S2P Require Import Prelude StoreMedium StoreRequests.
From S2P Require Import PackageEndpoint PackageCertificate PackageDer PackageArmour PackageArchive PackageStage Package PackageInstall.

Fixpoint octal_text (k : nat) (n : Z) : list Z :=
  match k with 0%nat => [] | S k => octal_text k (n / 8) ++ [48 + n mod 8] end.

Definition header_of (m : Member) (size : Z) : list Z :=
  let front := Member_name m ++ zeros (100 - Z.of_nat (length (Member_name m))) ++ replicate 24 48 ++
               octal_text 11 size ++ [0] ++ replicate 12 48 in
  let back := [48] ++ zeros 100 ++ USTAR_MAGIC ++ USTAR_VERSION ++ zeros 80 ++ zeros 155 ++ zeros 12 in
  let sum := checksum_from 0 0 (front ++ replicate 8 0 ++ back) in
  front ++ octal_text 6 sum ++ [0; 32] ++ back.

Definition device : list Z := small_certificate.
Definition anchor : list Z := certificate_of [2; 1; 2] [1] [6; 0] [] [] [] [6; 0; 3; 2; 0; 8] [] [4].
Definition pem (der : list Z) : list Z := armour [base64 der] 1.
Definition sample_endpoint : Endpoint := {| ep_address := [192; 0; 2; 10]; ep_port := 8443 |}.
Definition sample_bodies : list (Member * list Z) :=
  [(ManagementEndpoint, endpoint_text sample_endpoint ++ [10]); (TrustAnchor, pem anchor); (DeviceCertificate, pem device);
   (MemberConfiguration, [60; 47; 62])].
Definition sample_entries : list Entry :=
  (λ '(m, body), {| en_header := header_of m (Z.of_nat (length body)); en_member := m; en_body := body |}) <$> sample_bodies.
Definition sample_archive : list Z := concat (entry_bytes <$> sample_entries) ++ zeros TERMINATOR.

(** A loader that wants a document, a verifier that wants two certificates, and a key. *)
Definition loads (document : list Z) : Result unit unit := match document with [] => Err tt | _ => Ok tt end.
Definition chains (device anchor : list Z) : bool := negb (bool_decide (device = anchor)).
Definition own_spki (public_key : list Z) : Result (list Z) (string * RefusalDetail) := Ok (tlv SEQUENCE public_key).
Definition refused (_ : PackageError (ConfigError := unit)) : string * RefusalDetail := ("refused"%string, DetailNone).

Definition reader : list Z → list Z → Result StoreMedium.Package (string * RefusalDetail) :=
  install_read loads chains own_spki refused.

Example sample_is_read :
  reader sample_archive [6; 0; 3; 2; 0; 9]
  = Ok {| pk_device_certificate := device; pk_trust_anchor := anchor; pk_anchor_spki := tlv SEQUENCE [6; 0; 3; 2; 0; 8];
          pk_address := [192; 0; 2; 10]; pk_port := 8443 |}.
Proof. vm_compute. reflexivity. Qed.

(** The same archive is nobody else's package. *)
Example sample_is_not_anothers : reader sample_archive [6; 0; 3; 2; 0; 7] = Err ("refused"%string, DetailNone).
Proof. vm_compute. reflexivity. Qed.

Lemma installed_package_is_checked_witness :
  ∃ p, install_read loads chains own_spki refused sample_archive [6; 0; 3; 2; 0; 9] = Ok p
  ∧ chains (pk_device_certificate p) (pk_trust_anchor p) = true.
Proof.
  destruct (install_read loads chains own_spki refused sample_archive [6; 0; 3; 2; 0; 9]) as [p|] eqn:E.
  - exists p. split; [reflexivity|].
    destruct (installed_package_is_checked loads chains own_spki refused sample_archive [6; 0; 3; 2; 0; 9] p E)
      as (_ & _ & _ & _ & _ & _ & _ & _ & _ & _ & _ & _ & _ & _ & Hv & _).
    exact Hv.
  - pose proof sample_is_read as H. unfold reader in H. rewrite E in H. discriminate.
Defined.
