(* ===== verification/CaptureRing.v ===== *)
(** * The recording ring

    Models [datad/crates/capture-ring/src/lib.rs] and [superblock.rs]: the geometry of a
    segmented ring on a block device, where a record's bytes belong, what a reader's
    position now names, and the two-copy superblock the ring's cursors are kept in. The
    crate moves no bytes. *)
From S2P Require Import Prelude.

Definition SECTOR_SIZE : Z := 512.
Definition MIN_SEGMENT_BYTES : Z := 4096.
Definition MIN_PAYLOAD_SEGMENTS : Z := 2.

(** ** The geometry *)
Record Geometry := {
  ge_start_sector : Z; ge_sectors : Z; ge_segment_bytes : Z; ge_segment_sectors : Z; ge_segments : Z
}.
#[export] Instance Geometry_eq_dec : EqDecision Geometry.
Proof. solve_decision. Defined.

Inductive GeometryError :=
| SegmentNotSectorMultiple (bytes : Z)
| SegmentTooSmall (bytes : Z)
| ExtentNotSegmentMultiple (sectors segment_sectors : Z)
| TooFewSegments (segments : Z)
| ExtentOutsideDevice (start sectors capacity : Z)
| ExtentExceedsByteAddressing (sectors : Z).

Definition Geometry_new (start_sector sectors segment_bytes capacity_sectors : Z) : Result Geometry GeometryError :=
  if negb (segment_bytes mod SECTOR_SIZE =? 0) then Err (SegmentNotSectorMultiple segment_bytes) else
  if segment_bytes <? MIN_SEGMENT_BYTES then Err (SegmentTooSmall segment_bytes) else
  let segment_sectors := segment_bytes / SECTOR_SIZE in
  if negb (sectors mod segment_sectors =? 0) then Err (ExtentNotSegmentMultiple sectors segment_sectors) else
  let total := sectors / segment_sectors in
  if total <? MIN_PAYLOAD_SEGMENTS + 1 then Err (TooFewSegments total) else
  if u64_max <? start_sector + sectors then Err (ExtentOutsideDevice start_sector sectors capacity_sectors) else
  if capacity_sectors <? start_sector + sectors then Err (ExtentOutsideDevice start_sector sectors capacity_sectors) else
  if u64_max <? sectors * SECTOR_SIZE then Err (ExtentExceedsByteAddressing sectors) else
  Ok {| ge_start_sector := start_sector; ge_sectors := sectors; ge_segment_bytes := segment_bytes;
        ge_segment_sectors := segment_sectors; ge_segments := total - 1 |}.

Definition Geometry_payload_bytes (g : Geometry) : Z := ge_segments g * ge_segment_bytes g.
Definition Geometry_segment_sector (g : Geometry) (index : Z) : Z :=
  ge_start_sector g + (index mod ge_segments g + 1) * ge_segment_sectors g.
Definition Geometry_superblock_sector (g : Geometry) : Z := ge_start_sector g.

(** ** The ring *)
Record Cursor := { cu_sequence : Z; cu_offset : Z }.
#[export] Instance Cursor_eq_dec : EqDecision Cursor.
Proof. solve_decision. Defined.
#[export] Instance Cursor_eta : Eta Cursor := λ c, {| cu_sequence := cu_sequence c; cu_offset := cu_offset c |}.

Record Placement := { pl_sector : Z; pl_byte_offset : Z; pl_len : Z }.

Inductive Fit := Fits (placement : Placement) | Fit_SegmentFull | Fit_Oversized (needed segment_payload : Z).
(** A reservation is its placement: the ring it holds is the one threaded on. *)
Inductive Append := Placed (placement : Placement) | Append_SegmentFull | Append_Oversized (needed segment_payload : Z).
Inductive Located := Live (placement : Placement) | Overrun (gap oldest : Z) | Unwritten.

Record RingCounters := {
  rc_records_appended : Z; rc_bytes_appended : Z; rc_segments_rolled : Z; rc_wraps : Z; rc_records_oversized : Z;
  rc_reader_overruns : Z
}.
#[export] Instance RingCounters_eta : Eta RingCounters := λ c,
  {| rc_records_appended := rc_records_appended c; rc_bytes_appended := rc_bytes_appended c;
     rc_segments_rolled := rc_segments_rolled c; rc_wraps := rc_wraps c; rc_records_oversized := rc_records_oversized c;
     rc_reader_overruns := rc_reader_overruns c |}.
Definition RingCounters_zero : RingCounters :=
  {| rc_records_appended := 0; rc_bytes_appended := 0; rc_segments_rolled := 0; rc_wraps := 0; rc_records_oversized := 0;
     rc_reader_overruns := 0 |}.

Record Ring := {
  rg_geometry : Geometry; rg_prologue_len : Z; rg_cursor : Cursor; rg_write_generation : Z; rg_counters : RingCounters
}.
#[export] Instance Ring_eta : Eta Ring := λ r,
  {| rg_geometry := rg_geometry r; rg_prologue_len := rg_prologue_len r; rg_cursor := rg_cursor r;
     rg_write_generation := rg_write_generation r; rg_counters := rg_counters r |}.

Definition opening_offset (g : Geometry) (prologue_len : Z) : Z :=
  if ge_segment_bytes g <? prologue_len then ge_segment_bytes g else prologue_len.

Definition Ring_new (geometry : Geometry) (prologue_len : Z) : Ring :=
  {| rg_geometry := geometry; rg_prologue_len := prologue_len;
     rg_cursor := {| cu_sequence := 0; cu_offset := opening_offset geometry prologue_len |};
     rg_write_generation := 0; rg_counters := RingCounters_zero |}.

Definition Ring_segment_payload (r : Ring) : Z :=
  ge_segment_bytes (rg_geometry r) - opening_offset (rg_geometry r) (rg_prologue_len r).
Definition Ring_slack (r : Ring) : Z := ge_segment_bytes (rg_geometry r) - cu_offset (rg_cursor r).
Definition Ring_prologue (r : Ring) : Placement :=
  {| pl_sector := Geometry_segment_sector (rg_geometry r) (cu_sequence (rg_cursor r)); pl_byte_offset := 0;
     pl_len := opening_offset (rg_geometry r) (rg_prologue_len r) |}.
Definition Ring_readable (r : Ring) : Z * Z :=
  let newest := cu_sequence (rg_cursor r) in (saturating_sub newest (ge_segments (rg_geometry r) - 1), newest).

Definition Ring_fit (len : Z) (r : Ring) : Fit :=
  let segment_payload := Ring_segment_payload r in
  if segment_payload <? len then Fit_Oversized len segment_payload else
  if Ring_slack r <? len then Fit_SegmentFull else
  Fits {| pl_sector := Geometry_segment_sector (rg_geometry r) (cu_sequence (rg_cursor r));
          pl_byte_offset := cu_offset (rg_cursor r); pl_len := len |}.

Definition Ring_append (len : Z) (r : Ring) : Append * Ring :=
  match Ring_fit len r with
  | Fits placement => (Placed placement, r)
  | Fit_SegmentFull => (Append_SegmentFull, r)
  | Fit_Oversized needed segment_payload =>
      (Append_Oversized needed segment_payload, r <| rg_counters ::= λ c, c <| rc_records_oversized ::= bump |> |>)
  end.

Definition Reservation_commit (placement : Placement) (r : Ring) : Cursor * Ring :=
  let r := r <| rg_cursor ::= λ c, c <| cu_offset ::= Z.add (pl_len placement) |> |>
             <| rg_counters ::= λ c, c <| rc_records_appended ::= bump |>
                                       <| rc_bytes_appended ::= λ n, saturating_add 64 n (pl_len placement) |> |> in
  (rg_cursor r, r).

Definition Ring_roll (r : Ring) : Placement * Ring :=
  let r := r <| rg_cursor := {| cu_sequence := saturating_add 64 (cu_sequence (rg_cursor r)) 1;
                                cu_offset := opening_offset (rg_geometry r) (rg_prologue_len r) |} |>
             <| rg_counters ::= λ c, c <| rc_segments_rolled ::= bump |> |> in
  let r := if cu_sequence (rg_cursor r) mod ge_segments (rg_geometry r) =? 0
           then r <| rg_counters ::= λ c, c <| rc_wraps ::= bump |> |> else r in
  (Ring_prologue r, r).

Definition Ring_locate (sequence offset : Z) (r : Ring) : Located * Ring :=
  let '(oldest, newest) := Ring_readable r in
  if sequence <? oldest
  then (Overrun (oldest - sequence) oldest, r <| rg_counters ::= λ c, c <| rc_reader_overruns ::= bump |> |>) else
  if newest <? sequence then (Unwritten, r) else
  let run_end := if sequence =? newest then cu_offset (rg_cursor r) else ge_segment_bytes (rg_geometry r) in
  if run_end <=? offset then (Unwritten, r) else
  (Live {| pl_sector := Geometry_segment_sector (rg_geometry r) sequence; pl_byte_offset := offset; pl_len := run_end - offset |}, r).

(** ** The superblock's state *)
Definition MAX_READERS : nat := 4.
Record ReaderCursor := { rd_id : Z; rd_cursor : Cursor }.
#[export] Instance ReaderCursor_eq_dec : EqDecision ReaderCursor.
Proof. solve_decision. Defined.

(** The readers are the leading run of [Some] of the source's array. *)
Record RingState := { rs_geometry : Geometry; rs_write_generation : Z; rs_writer : Cursor; rs_readers : list ReaderCursor }.

Inductive RingStateError :=
| TooManyReaders (count : Z)
| DuplicateReaderId (id : Z)
| WriterOffsetOutsideSegment (offset segment_bytes : Z)
| WriterOffsetNotSectorMultiple (offset : Z)
| ReaderOffsetOutsideSegment (id offset segment_bytes : Z)
| ReaderAheadOfWriter (id sequence writer_sequence : Z)
| StartSectorMismatch (stored configured : Z)
| SectorsMismatch (stored configured : Z)
| SegmentBytesMismatch (stored configured : Z).

(** The loop over the readers, against the entries already accepted. *)
Fixpoint check_readers (segment_bytes writer_sequence : Z) (seen readers : list ReaderCursor) : Result unit RingStateError :=
  match readers with
  | [] => Ok tt
  | reader :: readers =>
      if segment_bytes <? cu_offset (rd_cursor reader)
      then Err (ReaderOffsetOutsideSegment (rd_id reader) (cu_offset (rd_cursor reader)) segment_bytes) else
      if writer_sequence <? cu_sequence (rd_cursor reader)
      then Err (ReaderAheadOfWriter (rd_id reader) (cu_sequence (rd_cursor reader)) writer_sequence) else
      if existsb (λ other, rd_id other =? rd_id reader) seen then Err (DuplicateReaderId (rd_id reader)) else
      check_readers segment_bytes writer_sequence (seen ++ [reader]) readers
  end.

Definition RingState_new (geometry : Geometry) (write_generation : Z) (writer : Cursor) (readers : list ReaderCursor) :
    Result RingState RingStateError :=
  let segment_bytes := ge_segment_bytes geometry in
  if segment_bytes <? cu_offset writer then Err (WriterOffsetOutsideSegment (cu_offset writer) segment_bytes) else
  if (MAX_READERS <? length readers)%nat then Err (TooManyReaders (Z.of_nat (length readers))) else
  try! _ <- check_readers segment_bytes (cu_sequence writer) [] readers;
  Ok {| rs_geometry := geometry; rs_write_generation := write_generation; rs_writer := writer; rs_readers := readers |}.

(** A [CheckedState] has the fields of the state it was checked from, under the configured
    geometry. *)
Record CheckedState := { ck_geometry : Geometry; ck_write_generation : Z; ck_writer : Cursor; ck_readers : list ReaderCursor }.

Definition RingState_check (s : RingState) (configured : Geometry) : Result CheckedState RingStateError :=
  if negb (ge_start_sector (rs_geometry s) =? ge_start_sector configured)
  then Err (StartSectorMismatch (ge_start_sector (rs_geometry s)) (ge_start_sector configured)) else
  if negb (ge_sectors (rs_geometry s) =? ge_sectors configured)
  then Err (SectorsMismatch (ge_sectors (rs_geometry s)) (ge_sectors configured)) else
  if negb (ge_segment_bytes (rs_geometry s) =? ge_segment_bytes configured)
  then Err (SegmentBytesMismatch (ge_segment_bytes (rs_geometry s)) (ge_segment_bytes configured)) else
  Ok {| ck_geometry := configured; ck_write_generation := rs_write_generation s; ck_writer := rs_writer s; ck_readers := rs_readers s |}.

Definition Ring_resume (checked : CheckedState) (prologue_len : Z) : Ring :=
  {| rg_geometry := ck_geometry checked; rg_prologue_len := prologue_len; rg_cursor := ck_writer checked;
     rg_write_generation := ck_write_generation checked; rg_counters := RingCounters_zero |}.

Definition Ring_checkpoint (at_ : Cursor) (readers : list ReaderCursor) (r : Ring) : Result RingState RingStateError * Ring :=
  let generation := saturating_add 64 (rg_write_generation r) 1 in
  match RingState_new (rg_geometry r) generation at_ readers with
  | Ok state => (Ok state, r <| rg_write_generation := generation |>)
  | Err e => (Err e, r)
  end.
