(* ===== verification/CaptureSuperblock.v ===== *)
(** * The recording ring's superblock

    Models the codec of [datad/crates/capture-ring/src/superblock.rs]: two sector-sized copies of
    a ring's state, each under its own CRC. *)
From S2P Require Import Prelude Layout CaptureRing.

Definition SUPERBLOCK_MAGIC : Z := from_le [76; 70; 87; 67; 65; 80; 82; 71].
Definition SUPERBLOCK_VERSION : Z := 1.
Definition SUPERBLOCK_COPY_BYTES : nat := 512.
Definition SUPERBLOCK_COPIES : nat := 2.
Definition SUPERBLOCK_BYTES : nat := SUPERBLOCK_COPY_BYTES * SUPERBLOCK_COPIES.

Definition MAGIC_AT : nat := 0.
Definition VERSION_AT : nat := 8.
Definition READER_COUNT_AT : nat := 12.
Definition GENERATION_AT : nat := 16.
Definition START_SECTOR_AT : nat := 24.
Definition SECTORS_AT : nat := 32.
Definition SEGMENT_BYTES_AT : nat := 40.
Definition WRITER_SEQUENCE_AT : nat := 48.
Definition WRITER_OFFSET_AT : nat := 56.
Definition READERS_AT : nat := 64.
Definition READER_BYTES : nat := 24.
Definition READER_ID_AT : nat := 0.
Definition READER_SEQUENCE_AT : nat := 8.
Definition READER_OFFSET_AT : nat := 16.
Definition CRC_AT : nat := SUPERBLOCK_COPY_BYTES - 4.

(** ** The CRC *)
Definition CRC32_POLYNOMIAL : Z := 0xEDB88320.

(** One turn of the loop over bits, and the loop. *)
Definition crc_bit (remainder : Z) : Z :=
  if Z.land remainder 1 =? 0 then Z.shiftr remainder 1 else Z.lxor (Z.shiftr remainder 1) CRC32_POLYNOMIAL.
Fixpoint crc_bits (bits : nat) (remainder : Z) : Z :=
  match bits with
  | O => remainder
  | S bits => crc_bits bits (crc_bit remainder)
  end.
Definition CRC32_TABLE : list Z := (λ index, crc_bits 8 (Z.of_nat index)) <$> seq 0 256.

Fixpoint crc32_loop (remainder : Z) (bytes : list Z) : Z :=
  match bytes with
  | [] => remainder
  | byte :: bytes =>
      let slot := Z.to_nat (Z.land (Z.lxor remainder byte) 0xFF) in
      crc32_loop (Z.lxor (Z.shiftr remainder 8) (nth slot CRC32_TABLE 0)) bytes
  end.
Definition crc32 (bytes : list Z) : Z := Z.lxor (crc32_loop u32_max bytes) u32_max.

(** ** Encoding *)
Definition write_u32 (image : list Z) (at_ : nat) (value : Z) : list Z := list_inserts at_ (le_bytes 4 value) image.
Definition write_u64 (image : list Z) (at_ : nat) (value : Z) : list Z := list_inserts at_ (le_bytes 8 value) image.
Definition read_u32 (copy : list Z) (at_ : nat) : Z := from_le (slice copy at_ 4).
Definition read_u64 (copy : list Z) (at_ : nat) : Z := from_le (slice copy at_ 8).

Inductive Copies := Parity | Both.
Record SuperblockWrite := { sw_at : nat; sw_len : nat }.

Fixpoint write_readers (image : list Z) (index : nat) (readers : list ReaderCursor) : list Z :=
  match readers with
  | [] => image
  | reader :: readers =>
      let at_ := (READERS_AT + index * READER_BYTES)%nat in
      let image := write_u32 image (at_ + READER_ID_AT) (rd_id reader) in
      let image := write_u64 image (at_ + READER_SEQUENCE_AT) (cu_sequence (rd_cursor reader)) in
      let image := write_u64 image (at_ + READER_OFFSET_AT) (cu_offset (rd_cursor reader)) in
      write_readers image (S index) readers
  end.

(** The image of one copy. *)
Definition encode_copy (state : RingState) : list Z :=
  let image := replicate SUPERBLOCK_COPY_BYTES 0 in
  let image := write_u64 image MAGIC_AT SUPERBLOCK_MAGIC in
  let image := write_u32 image VERSION_AT SUPERBLOCK_VERSION in
  let image := write_u32 image READER_COUNT_AT (Z.of_nat (length (rs_readers state))) in
  let image := write_u64 image GENERATION_AT (rs_write_generation state) in
  let image := write_u64 image START_SECTOR_AT (ge_start_sector (rs_geometry state)) in
  let image := write_u64 image SECTORS_AT (ge_sectors (rs_geometry state)) in
  let image := write_u64 image SEGMENT_BYTES_AT (ge_segment_bytes (rs_geometry state)) in
  let image := write_u64 image WRITER_SEQUENCE_AT (cu_sequence (rs_writer state)) in
  let image := write_u64 image WRITER_OFFSET_AT (cu_offset (rs_writer state)) in
  let image := write_readers image 0 (rs_readers state) in
  write_u32 image CRC_AT (crc32 (take CRC_AT image)).

(** [out] is the region of [SUPERBLOCK_BYTES] bytes. *)
Definition encode_superblock (out : list Z) (state : RingState) (copies : Copies) : SuperblockWrite * list Z :=
  let image := encode_copy state in
  match copies with
  | Both => ({| sw_at := 0; sw_len := SUPERBLOCK_BYTES |}, image ++ image)
  | Parity =>
      let copy := Z.to_nat (rs_write_generation state mod Z.of_nat SUPERBLOCK_COPIES) in
      ({| sw_at := copy * SUPERBLOCK_COPY_BYTES; sw_len := SUPERBLOCK_COPY_BYTES |},
       if (copy =? 0)%nat then image ++ drop SUPERBLOCK_COPY_BYTES out else take SUPERBLOCK_COPY_BYTES out ++ image)
  end.

(** ** Decoding *)
Definition stored_geometry (copy : list Z) : option Geometry :=
  let start_sector := read_u64 copy START_SECTOR_AT in
  let sectors := read_u64 copy SECTORS_AT in
  let segment_bytes := read_u64 copy SEGMENT_BYTES_AT in
  if u64_max <? start_sector + sectors then None else
  match Geometry_new start_sector sectors segment_bytes (start_sector + sectors) with
  | Ok geometry => Some geometry
  | Err _ => None
  end.

Fixpoint read_readers (copy : list Z) (index count : nat) : option (list ReaderCursor) :=
  match count with
  | O => Some []
  | S count =>
      let at_ := (READERS_AT + index * READER_BYTES)%nat in
      if negb (read_u32 copy (at_ + READER_ID_AT + 4) =? 0) then None else
      let reader := {| rd_id := read_u32 copy (at_ + READER_ID_AT);
                       rd_cursor := {| cu_sequence := read_u64 copy (at_ + READER_SEQUENCE_AT);
                                       cu_offset := read_u64 copy (at_ + READER_OFFSET_AT) |} |} in
      readers ← read_readers copy (S index) count;
      Some (reader :: readers)
  end.

Definition decode_copy (copy : list Z) : option RingState :=
  if negb (read_u64 copy MAGIC_AT =? SUPERBLOCK_MAGIC) then None else
  if negb (read_u32 copy VERSION_AT =? SUPERBLOCK_VERSION) then None else
  if negb (read_u32 copy CRC_AT =? crc32 (take CRC_AT copy)) then None else
  let reader_count := Z.to_nat (read_u32 copy READER_COUNT_AT) in
  if (MAX_READERS <? reader_count)%nat then None else
  let named_end := (READERS_AT + reader_count * READER_BYTES)%nat in
  if negb (forallb (λ byte, byte =? 0) (slice copy named_end (CRC_AT - named_end))) then None else
  geometry ← stored_geometry copy;
  let writer := {| cu_sequence := read_u64 copy WRITER_SEQUENCE_AT; cu_offset := read_u64 copy WRITER_OFFSET_AT |} in
  readers ← read_readers copy 0 reader_count;
  match RingState_new geometry (read_u64 copy GENERATION_AT) writer readers with
  | Ok state => Some state
  | Err _ => None
  end.

Definition decode_superblock (bytes : list Z) : option RingState :=
  match decode_copy (take SUPERBLOCK_COPY_BYTES bytes), decode_copy (drop SUPERBLOCK_COPY_BYTES bytes) with
  | Some first, Some second => Some (if rs_write_generation first <? rs_write_generation second then second else first)
  | Some only, None => Some only
  | None, Some only => Some only
  | None, None => None
  end.
