(* ===== verification/CaptureCrc.v ===== *)
(** * The superblock's CRC

    The table-driven loop of [superblock.rs] against the bitwise division it stands for, and
    what the division guarantees: a change confined to four consecutive bytes always changes
    the register ([state_burst]). *)
From S2P Require Import Prelude Layout CaptureRing CaptureSuperblock.

(** ** Words of bounded width as bits *)
Lemma in_u_land w x : 0 ≤ w → in_u w x ↔ Z.land x (Z.ones w) = x.
Proof.
  intros Hw. rewrite Z.land_ones by done. unfold in_u. split.
  - intros. by apply Z.mod_small.
  - intros <-. apply Z.mod_pos_bound. lia.
Qed.

Lemma in_u_lxor w x y : 0 ≤ w → in_u w x → in_u w y → in_u w (Z.lxor x y).
Proof.
  intros Hw Hx%in_u_land Hy%in_u_land; [|done|done]. apply in_u_land; [done|]. apply Z.bits_inj'. intros n Hn.
  rewrite Z.land_spec, Z.lxor_spec. rewrite <- Hx, <- Hy at 1. rewrite <- Hx at 2. rewrite <- Hy at 2. rewrite !Z.land_spec.
  by destruct (Z.testbit x n), (Z.testbit y n), (Z.testbit (Z.ones w) n).
Qed.

Lemma lxor_cancel a b c : Z.lxor a b = Z.lxor a c → b = c.
Proof.
  intros H. apply (f_equal (Z.lxor a)) in H. by rewrite <- !Z.lxor_assoc, !Z.lxor_nilpotent, !Z.lxor_0_l in H.
Qed.

(** ** The division, bit by bit *)
Lemma crc_bit_odd r : crc_bit r = Z.lxor (Z.shiftr r 1) (if Z.odd r then CRC32_POLYNOMIAL else 0).
Proof.
  unfold crc_bit. change (Z.land r 1) with (Z.land r (Z.ones 1)). rewrite Z.land_ones by lia. change (2 ^ 1) with 2. rewrite Zmod_odd. destruct (Z.odd r); [done|].
  by rewrite Z.lxor_0_r.
Qed.

Lemma crc_bit_xor x y : crc_bit (Z.lxor x y) = Z.lxor (crc_bit x) (crc_bit y).
Proof.
  rewrite !crc_bit_odd, Z.shiftr_lxor. rewrite <- !Z.bit0_odd, Z.lxor_spec.
  apply Z.bits_inj'. intros n _. rewrite !Z.lxor_spec.
  by destruct (Z.testbit x 0), (Z.testbit y 0); cbn [xorb];
    rewrite ?Z.bits_0; destruct (Z.testbit CRC32_POLYNOMIAL n), (Z.testbit (Z.shiftr x 1) n), (Z.testbit (Z.shiftr y 1) n).
Qed.

Lemma crc_bits_xor n x y : crc_bits n (Z.lxor x y) = Z.lxor (crc_bits n x) (crc_bits n y).
Proof. revert x y. induction n as [|n IH]; intros x y; [done|]. cbn [crc_bits]. by rewrite crc_bit_xor, IH. Qed.

Lemma crc_bits_add n m x : crc_bits (n + m) x = crc_bits m (crc_bits n x).
Proof. revert x. induction n as [|n IH]; intros x; [done|]. apply IH. Qed.

Lemma crc_bits_high n y : crc_bits n (Z.shiftl y (Z.of_nat n)) = y.
Proof.
  revert y. induction n as [|n IH]; intros y; [by rewrite Z.shiftl_0_r|]. cbn [crc_bits].
  assert (crc_bit (Z.shiftl y (Z.of_nat (S n))) = Z.shiftl y (Z.of_nat n)) as ->; [|done].
  rewrite crc_bit_odd. replace (Z.of_nat (S n)) with (Z.of_nat n + 1) by lia. rewrite <- Z.shiftl_shiftl by lia.
  rewrite Z.shiftr_shiftl_r, Z.sub_diag, Z.shiftr_0_r by lia. rewrite <- Z.bit0_odd, Z.shiftl_spec_low by lia. apply Z.lxor_0_r.
Qed.

Lemma crc_bit_range x : is_u32 x → is_u32 (crc_bit x).
Proof.
  unfold is_u32. intros Hx. rewrite crc_bit_odd. apply in_u_lxor; [done| |].
  - unfold in_u in *. rewrite Z.shiftr_div_pow2 by lia. change (2 ^ 1) with 2. ints.
  - destruct (Z.odd x); done.
Qed.
Lemma crc_bits_range n x : is_u32 x → is_u32 (crc_bits n x).
Proof. revert x. induction n as [|n IH]; intros x Hx; [done|]. by apply IH, crc_bit_range. Qed.

(** The polynomial's leading bit says which way a step went, so no two words share a
    successor. *)
Lemma crc_bit_top x : is_u32 x → Z.testbit (crc_bit x) 31 = Z.odd x.
Proof.
  intros Hx. rewrite crc_bit_odd, Z.lxor_spec, Z.shiftr_spec by lia.
  assert (Z.testbit x (31 + 1) = false) as -> by (apply Z.bits_above_log2; [apply Hx|]; destruct (Z.eq_dec x 0) as [->|];
    [cbn; lia|apply Z.log2_lt_pow2; unfold is_u32, in_u in Hx; lia]).
  by destruct (Z.odd x).
Qed.

Lemma crc_bit_inj x y : is_u32 x → is_u32 y → crc_bit x = crc_bit y → x = y.
Proof.
  intros Hx Hy H. assert (Z.odd x = Z.odd y) as Ho by (by rewrite <- !crc_bit_top, H).
  rewrite !crc_bit_odd, Ho, !(Z.lxor_comm (Z.shiftr _ 1)) in H. apply lxor_cancel in H.
  rewrite <- !Z.div2_spec in H. rewrite (Z.div2_odd x), (Z.div2_odd y). by rewrite H, Ho.
Qed.

Lemma crc_bits_inj n x y : is_u32 x → is_u32 y → crc_bits n x = crc_bits n y → x = y.
Proof.
  revert x y. induction n as [|n IH]; intros x y Hx Hy H; [done|].
  by apply crc_bit_inj, IH; try apply crc_bit_range.
Qed.

(** ** The table *)
Definition crc_step (r byte : Z) : Z := crc_bits 8 (Z.lxor r byte).
Definition crc_state (r : Z) (bytes : list Z) : Z := foldl crc_step r bytes.

Lemma table_step r byte :
  is_u8 byte → Z.lxor (Z.shiftr r 8) (nth (Z.to_nat (Z.land (Z.lxor r byte) 0xFF)) CRC32_TABLE 0) = crc_step r byte.
Proof.
  intros Hb. unfold crc_step. set (x := Z.lxor r byte). change 0xFF with (Z.ones 8).
  assert (0 ≤ Z.land x (Z.ones 8) < 256) as Hl by (rewrite Z.land_ones by lia; apply Z.mod_pos_bound; lia).
  assert (nth (Z.to_nat (Z.land x (Z.ones 8))) CRC32_TABLE 0 = crc_bits 8 (Z.land x (Z.ones 8))) as ->.
  { apply nth_lookup_Some with (d := 0). unfold CRC32_TABLE. rewrite list_lookup_fmap, lookup_seq_lt by lia. cbn [fmap option_fmap option_map].
    by rewrite Nat.add_0_l, Z2Nat.id by lia. }
  assert (x = Z.lxor (Z.shiftl (Z.shiftr x 8) 8) (Z.land x (Z.ones 8))) as E.
  { apply Z.bits_inj'. intros n Hn. rewrite Z.lxor_spec, Z.land_spec, Z.shiftl_spec by lia.
    destruct (Z.lt_ge_cases n 8).
    - rewrite Z.ones_spec_low, andb_true_r, (Z.testbit_neg_r _ (n - 8)) by lia. done.
    - rewrite Z.ones_spec_high, andb_false_r, Z.shiftr_spec, Z.sub_add by lia. by rewrite xorb_false_r. }
  rewrite E at 2. rewrite crc_bits_xor. change 8 with (Z.of_nat 8) at 3. rewrite crc_bits_high. f_equal.
  unfold x. rewrite Z.shiftr_lxor. rewrite (Z.shiftr_div_pow2 byte), (Z.div_small byte) by (unfold is_u8, in_u in Hb; lia).
  by rewrite Z.lxor_0_r.
Qed.

Lemma crc32_loop_state r bytes : bytes_ok bytes → crc32_loop r bytes = crc_state r bytes.
Proof.
  intros H. revert r. induction H as [|byte bytes Hb _ IH]; intros r; [done|]. cbn [crc32_loop]. cbv zeta.
  by rewrite table_step, IH.
Qed.

Lemma crc_step_range r byte : is_u32 r → is_u8 byte → is_u32 (crc_step r byte).
Proof. intros Hr Hb. apply crc_bits_range, in_u_lxor; [done|done|]. unfold is_u8, in_u in *. lia. Qed.
Lemma crc_state_range r bytes : is_u32 r → bytes_ok bytes → is_u32 (crc_state r bytes).
Proof.
  intros Hr H. revert r Hr. induction H as [|byte bytes Hb _ IH]; intros r Hr; [done|]. by apply IH, crc_step_range.
Qed.
Lemma crc32_range bytes : bytes_ok bytes → is_u32 (crc32 bytes).
Proof. intros H. unfold crc32. rewrite crc32_loop_state by done. apply in_u_lxor; [done| |done]. by apply crc_state_range. Qed.

(** ** Bursts *)
Lemma from_le_cons byte bytes : is_u8 byte → from_le (byte :: bytes) = Z.lxor byte (Z.shiftl (from_le bytes) 8).
Proof.
  intros Hb. cbn [from_le]. rewrite Z.lxor_comm. rewrite Z.add_comm. change 256 with (2 ^ 8).
  rewrite Z.mul_comm, <- Z.shiftl_mul_pow2 by lia.
  apply Z.add_nocarry_lxor. apply Z.bits_inj'. intros n Hn. rewrite Z.land_spec, Z.bits_0, Z.shiftl_spec by lia.
  destruct (Z.lt_ge_cases n 8); [by rewrite (Z.testbit_neg_r _ (n - 8)) by lia|].
  rewrite (Z.bits_above_log2 byte), andb_false_r; [done|apply Hb|]. unfold is_u8, in_u in Hb.
  destruct (Z.eq_dec byte 0) as [->|]; [cbn; lia|]. apply Z.lt_le_trans with 8; [|done]. apply Z.log2_lt_pow2; lia.
Qed.

Lemma crc_state_word r bytes :
  bytes_ok bytes → crc_state r bytes = crc_bits (8 * length bytes) (Z.lxor r (from_le bytes)).
Proof.
  intros H. revert r. induction H as [|byte bytes Hb _ IH]; intros r; [by cbn; rewrite Z.lxor_0_r|].
  cbn [crc_state foldl length]. fold (crc_state (crc_step r byte) bytes). rewrite IH.
  replace (8 * S (length bytes))%nat with (8 + 8 * length bytes)%nat by lia. rewrite crc_bits_add. f_equal.
  rewrite from_le_cons, <- Z.lxor_assoc, crc_bits_xor by done. change (Z.shiftl (from_le bytes) 8) with (Z.shiftl (from_le bytes) (Z.of_nat 8)). by rewrite crc_bits_high.
Qed.

Lemma crc_state_inj r r' bytes : is_u32 r → is_u32 r' → bytes_ok bytes → crc_state r bytes = crc_state r' bytes → r = r'.
Proof.
  intros Hr Hr' H. revert r r' Hr Hr'. induction H as [|byte bytes Hb _ IH]; intros r r' Hr Hr' E; [done|].
  apply IH in E; [|by apply crc_step_range..]. assert (is_u32 byte) by (unfold is_u8, is_u32, in_u in *; lia).
  apply crc_bits_inj in E; [|by apply in_u_lxor..]. rewrite !(Z.lxor_comm _ byte) in E. by apply lxor_cancel in E.
Qed.

Lemma state_burst r pre w w' post :
  is_u32 r → bytes_ok pre → bytes_ok w → bytes_ok w' → bytes_ok post → length w = length w' → (length w ≤ 4)%nat →
  crc_state r (pre ++ w ++ post) = crc_state r (pre ++ w' ++ post) → w = w'.
Proof.
  intros Hr Hp Hw Hw' Ht Hl H4 E. unfold crc_state in E. rewrite !foldl_app in E. fold (crc_state r pre) in E.
  set (q := crc_state r pre) in E. assert (is_u32 q) as Hq by by apply crc_state_range.
  fold (crc_state q w) (crc_state q w') in E.
  apply crc_state_inj in E; [|by apply crc_state_range..|done]. rewrite !crc_state_word, <- Hl in E by done.
  assert (∀ l, bytes_ok l → (length l ≤ 4)%nat → is_u32 (from_le l)) as Hrange.
  { intros l Hok Hll. pose proof (from_le_range l Hok) as R. unfold is_u32, in_u. split; [lia|]. eapply Z.lt_le_trans; [apply R|].
    apply Z.pow_le_mono_r; lia. }
  apply crc_bits_inj in E; [|apply in_u_lxor; [done|done|apply Hrange; [done|lia]]..]. apply lxor_cancel in E.
  rewrite <- (le_bytes_from_le w), <- (le_bytes_from_le w') by done. by rewrite E, Hl.
Qed.

(** A body followed by its checksum leaves one residue in the register. *)
Definition crc_residue : Z := crc_bits 32 u32_max.

Lemma crc_checks bytes sum :
  bytes_ok bytes → bytes_ok sum → length sum = 4%nat →
  from_le sum = crc32 bytes ↔ crc_state u32_max (bytes ++ sum) = crc_residue.
Proof.
  intros Hb Hs Hl. unfold crc_state. rewrite foldl_app. fold (crc_state u32_max bytes).
  set (q := crc_state u32_max bytes). assert (is_u32 q) as Hq by by apply crc_state_range.
  fold (crc_state q sum). rewrite crc_state_word, Hl by done. unfold crc32, crc_residue. rewrite crc32_loop_state by done. fold q.
  assert (is_u32 (from_le sum)) as Hw by (pose proof (from_le_range sum Hs) as R; rewrite Hl in R; exact R).
  change (8 * 4)%nat with 32%nat. split.
  - intros ->. by rewrite <- Z.lxor_assoc, Z.lxor_nilpotent, Z.lxor_0_l.
  - intros E. assert (Z.lxor q (from_le sum) = u32_max) as E'.
    { refine (crc_bits_inj 32 _ _ _ _ E); [by apply in_u_lxor|unfold is_u32, in_u, u32_max; lia]. }
    apply (lxor_cancel q).
    by rewrite E', <- Z.lxor_assoc, Z.lxor_nilpotent, Z.lxor_0_l.
Qed.
