(* ===== verification/CaptureSuperblockFacts.v ===== *)
(** * The superblock's bytes and what they mean

    The correspondence between the copies the decoder accepts and the states the encoder
    writes ([superblock_copy_exact]). *)
From S2P Require Import Prelude Layout CaptureRing CaptureSuperblock CaptureCrc.

(** ** The states a superblock carries *)
Definition geometry_ok (g : Geometry) : Prop :=
  is_u64 (ge_start_sector g) ∧ is_u64 (ge_sectors g) ∧ is_u64 (ge_segment_bytes g)
  ∧ ge_start_sector g + ge_sectors g ≤ u64_max
  ∧ Geometry_new (ge_start_sector g) (ge_sectors g) (ge_segment_bytes g) (ge_start_sector g + ge_sectors g) = Ok g.
Definition cursor_ok (c : Cursor) : Prop := is_u64 (cu_sequence c) ∧ is_u64 (cu_offset c).
Definition reader_ok (r : ReaderCursor) : Prop := is_u32 (rd_id r) ∧ cursor_ok (rd_cursor r).

Record ring_state_ok (s : RingState) : Prop := {
  rso_geometry : geometry_ok (rs_geometry s);
  rso_generation : is_u64 (rs_write_generation s);
  rso_writer : cursor_ok (rs_writer s);
  rso_readers : Forall reader_ok (rs_readers s);
  rso_new : RingState_new (rs_geometry s) (rs_write_generation s) (rs_writer s) (rs_readers s) = Ok s
}.

Lemma RingState_new_fields g n w rs s :
  RingState_new g n w rs = Ok s →
  s = {| rs_geometry := g; rs_write_generation := n; rs_writer := w; rs_readers := rs |} ∧ (length rs ≤ MAX_READERS)%nat.
Proof.
  unfold RingState_new. case_match; [done|]. destruct (Nat.ltb_spec MAX_READERS (length rs)); [done|].
  destruct check_readers; [|done]. intros [= <-]. split; [done|lia].
Qed.

Lemma ring_state_readers s : ring_state_ok s → (length (rs_readers s) ≤ 4)%nat.
Proof. intros []. by eapply RingState_new_fields in rso_new0 as [_ ?]. Qed.

Lemma Geometry_new_fields a b c d g : Geometry_new a b c d = Ok g → ge_start_sector g = a ∧ ge_sectors g = b ∧ ge_segment_bytes g = c.
Proof. unfold Geometry_new. intros H. repeat (case_match; try done). by simplify_eq. Qed.

(** ** A copy as a tiling *)
Create HintDb ring_lens.
#[export] Hint Unfold SUPERBLOCK_COPY_BYTES SUPERBLOCK_COPIES SUPERBLOCK_BYTES MAGIC_AT VERSION_AT READER_COUNT_AT GENERATION_AT
  START_SECTOR_AT SECTORS_AT SEGMENT_BYTES_AT WRITER_SEQUENCE_AT WRITER_OFFSET_AT READERS_AT READER_BYTES READER_ID_AT
  READER_SEQUENCE_AT READER_OFFSET_AT CRC_AT MAX_READERS : ring_lens.
Ltac ring_lens := autounfold with ring_lens in *; rewrite ?length_le_bytes in *; lia.

Definition reader_tile (r : ReaderCursor) : list Z :=
  le_bytes 4 (rd_id r) ++ replicate 4 0 ++ le_bytes 8 (cu_sequence (rd_cursor r)) ++ le_bytes 8 (cu_offset (rd_cursor r)).
Definition head_tiles (s : RingState) : list (list Z) :=
  [le_bytes 8 SUPERBLOCK_MAGIC; le_bytes 4 SUPERBLOCK_VERSION; le_bytes 4 (Z.of_nat (length (rs_readers s)));
   le_bytes 8 (rs_write_generation s); le_bytes 8 (ge_start_sector (rs_geometry s)); le_bytes 8 (ge_sectors (rs_geometry s));
   le_bytes 8 (ge_segment_bytes (rs_geometry s)); le_bytes 8 (cu_sequence (rs_writer s)); le_bytes 8 (cu_offset (rs_writer s))].
Definition body_tiles (s : RingState) : list (list Z) :=
  head_tiles s ++ (reader_tile <$> rs_readers s) ++ [replicate (CRC_AT - (READERS_AT + length (rs_readers s) * READER_BYTES)) 0].
Definition body_lens (readers : nat) : list nat :=
  [8; 4; 4; 8; 8; 8; 8; 8; 8]%nat ++ replicate readers READER_BYTES ++ [(CRC_AT - (READERS_AT + readers * READER_BYTES))%nat].
Definition body (s : RingState) : list Z := concat (body_tiles s).

Lemma length_reader_tile r : length (reader_tile r) = READER_BYTES.
Proof. unfold reader_tile. by rewrite !length_app, !length_le_bytes, length_replicate. Qed.

Lemma copy_tiles_lens s : length <$> body_tiles s = body_lens (length (rs_readers s)).
Proof.
  unfold body_tiles, body_lens, head_tiles. rewrite !fmap_app. cbn [fmap list_fmap]. rewrite !length_le_bytes, length_replicate.
  f_equal. f_equal. induction (rs_readers s) as [|r rs IH]; [done|]. cbn [fmap list_fmap length replicate].
  rewrite length_reader_tile. by f_equal.
Qed.

Lemma sum_copy_lens n : (n ≤ 4)%nat → sum_list (body_lens n) = CRC_AT.
Proof. intros H. do 5 (destruct n as [|n]; [reflexivity|]). lia. Qed.

Fixpoint reader_patches (index : nat) (readers : list ReaderCursor) : list patch :=
  match readers with
  | [] => []
  | r :: readers =>
      let at_ := (READERS_AT + index * READER_BYTES)%nat in
      [((at_ + READER_ID_AT)%nat, le_bytes 4 (rd_id r)); ((at_ + READER_SEQUENCE_AT)%nat, le_bytes 8 (cu_sequence (rd_cursor r)));
       ((at_ + READER_OFFSET_AT)%nat, le_bytes 8 (cu_offset (rd_cursor r)))] ++ reader_patches (S index) readers
  end.
Definition patches_of (s : RingState) : list patch :=
  [(MAGIC_AT, le_bytes 8 SUPERBLOCK_MAGIC); (VERSION_AT, le_bytes 4 SUPERBLOCK_VERSION);
   (READER_COUNT_AT, le_bytes 4 (Z.of_nat (length (rs_readers s)))); (GENERATION_AT, le_bytes 8 (rs_write_generation s));
   (START_SECTOR_AT, le_bytes 8 (ge_start_sector (rs_geometry s))); (SECTORS_AT, le_bytes 8 (ge_sectors (rs_geometry s)));
   (SEGMENT_BYTES_AT, le_bytes 8 (ge_segment_bytes (rs_geometry s))); (WRITER_SEQUENCE_AT, le_bytes 8 (cu_sequence (rs_writer s)));
   (WRITER_OFFSET_AT, le_bytes 8 (cu_offset (rs_writer s)))] ++ reader_patches 0 (rs_readers s).

Lemma write_readers_patched image index rs : write_readers image index rs = patched image (reader_patches index rs).
Proof. revert image index. induction rs as [|r rs IH]; intros image index; [done|]. cbn [write_readers]. by rewrite IH. Qed.

Lemma encode_copy_patched s :
  encode_copy s = let image := patched (replicate SUPERBLOCK_COPY_BYTES 0) (patches_of s) in write_u32 image CRC_AT (crc32 (take CRC_AT image)).
Proof. unfold encode_copy, patches_of, patched. rewrite foldl_app, write_readers_patched. done. Qed.

Lemma readers_ordered index rs total :
  (READERS_AT + (index + length rs) * READER_BYTES ≤ total)%nat →
  ordered (READERS_AT + index * READER_BYTES) (reader_patches index rs) total.
Proof.
  revert index. induction rs as [|r rs IH]; intros index H; cbn [reader_patches app ordered length] in *; [ring_lens|].
  rewrite !length_le_bytes. split_all; try ring_lens.
  replace (READERS_AT + index * READER_BYTES + READER_OFFSET_AT + 8)%nat with (READERS_AT + S index * READER_BYTES)%nat by ring_lens.
  apply IH. by replace (S index + length rs)%nat with (index + S (length rs))%nat by lia.
Qed.

Lemma readers_filled index rs total :
  filled (READERS_AT + index * READER_BYTES) (reader_patches index rs) total
  = concat (reader_tile <$> rs) ++ replicate (total - (READERS_AT + (index + length rs) * READER_BYTES)) 0.
Proof.
  revert index. induction rs as [|r rs IH]; intros index.
  - cbn. by rewrite Nat.add_0_r.
  - cbn [reader_patches app filled fmap list_fmap concat length]. rewrite !length_le_bytes. unfold reader_tile at 1.
    rewrite <- !app_assoc.
    replace (READERS_AT + index * READER_BYTES + READER_OFFSET_AT + 8)%nat with (READERS_AT + S index * READER_BYTES)%nat by ring_lens.
    rewrite IH. replace (index + S (length rs))%nat with (S index + length rs)%nat by lia.
    repeat first [rewrite (run_none (_ - _)) by ring_lens | apply run_some; [ring_lens|] | apply app_step]. done.
Qed.

Lemma fields_ordered s total : (length (rs_readers s) ≤ 4)%nat → (CRC_AT ≤ total)%nat → ordered 0 (patches_of s) total.
Proof.
  intros Hl Ht. unfold patches_of. cbn [app ordered]. rewrite !length_le_bytes. split_all; try ring_lens.
  apply (readers_ordered 0). ring_lens.
Qed.

Lemma filled_body s total :
  filled 0 (patches_of s) total
  = concat (head_tiles s ++ (reader_tile <$> rs_readers s)) ++ replicate (total - (READERS_AT + length (rs_readers s) * READER_BYTES)) 0.
Proof.
  unfold patches_of, head_tiles. cbn [app filled concat]. rewrite !length_le_bytes, <- !app_assoc.
  pose proof (readers_filled 0 (rs_readers s) total) as E. change (READERS_AT + 0 * READER_BYTES)%nat with (WRITER_OFFSET_AT + 8)%nat in E.
  rewrite E. repeat first [rewrite (run_none (_ - _)) by ring_lens | apply app_step]. done.
Qed.

Lemma body_split s :
  body s = concat (head_tiles s ++ (reader_tile <$> rs_readers s)) ++ replicate (CRC_AT - (READERS_AT + length (rs_readers s) * READER_BYTES)) 0.
Proof. unfold body, body_tiles. rewrite app_assoc, concat_app. cbn [concat]. by rewrite app_nil_r. Qed.

Lemma length_copy_body s : (length (rs_readers s) ≤ 4)%nat → length (body s) = CRC_AT.
Proof.
  intros Hl. rewrite body_split, <- filled_body, length_filled by (by apply fields_ordered). lia.
Qed.

Lemma encode_copy_tiles s : (length (rs_readers s) ≤ 4)%nat → encode_copy s = body s ++ le_bytes 4 (crc32 (body s)).
Proof.
  intros Hl. pose proof (length_copy_body s Hl) as Hb. rewrite encode_copy_patched. cbv zeta.
  rewrite patched_zero by (apply fields_ordered; [done|ring_lens]).
  rewrite (filled_total 0 _ CRC_AT) by (ring_lens || by apply fields_ordered).
  rewrite filled_body, <- body_split. rewrite take_app_le, take_ge by lia. unfold write_u32.
  replace CRC_AT with (length (body s) + 0)%nat at 1 by lia. by rewrite list_inserts_app_r.
Qed.

Lemma length_encode_copy s : ring_state_ok s → length (encode_copy s) = SUPERBLOCK_COPY_BYTES.
Proof.
  intros Hs%ring_state_readers. rewrite encode_copy_tiles, length_app, length_copy_body, length_le_bytes by done. ring_lens.
Qed.

(** ** Reading a copy *)
Section Copy.
Context (copy : list Z) (Hlen : length copy = SUPERBLOCK_COPY_BYTES) (Hok : bytes_ok copy).

Lemma word_at n a : (a + n ≤ SUPERBLOCK_COPY_BYTES)%nat → slice copy a n = le_bytes n (from_le (slice copy a n)).
Proof using Hlen Hok. intros H. apply span_word; [done|]. by rewrite Hlen. Qed.
Lemma word_fits n a : (a + n ≤ SUPERBLOCK_COPY_BYTES)%nat → 0 ≤ from_le (slice copy a n) < 2 ^ (8 * Z.of_nat n).
Proof using Hlen Hok. intros H. apply span_range; [done|]. by rewrite Hlen. Qed.

Lemma reader_slices a r :
  (a + 24 ≤ SUPERBLOCK_COPY_BYTES)%nat →
  slice copy a 24 = reader_tile r ↔
  slice copy a 4 = le_bytes 4 (rd_id r) ∧ slice copy (a + 4) 4 = replicate 4 0
  ∧ slice copy (a + 8) 8 = le_bytes 8 (cu_sequence (rd_cursor r)) ∧ slice copy (a + 16) 8 = le_bytes 8 (cu_offset (rd_cursor r)).
Proof using Hlen.
  intros Ha. change 24%nat with (4 + (4 + (8 + 8)))%nat. unfold reader_tile.
  rewrite slice_app_iff, slice_app_iff, slice_app_iff by (rewrite ?length_le_bytes, ?length_replicate; lia).
  replace (a + 4 + 4)%nat with (a + 8)%nat by lia. by replace (a + 8 + 8)%nat with (a + 16)%nat by lia.
Qed.

Lemma read_readers_exact index n rs :
  (READERS_AT + (index + n) * READER_BYTES ≤ CRC_AT)%nat →
  read_readers copy index n = Some rs ↔
  Forall reader_ok rs ∧ cut copy (READERS_AT + index * READER_BYTES) (replicate n READER_BYTES) = reader_tile <$> rs.
Proof using Hlen Hok.
  revert index rs. induction n as [|n IH]; intros index rs Hn.
  - simpl. split; [by intros [= <-]|]. intros [_ H]. by destruct rs.
  - cbn [read_readers replicate cut]. unfold read_u32, read_u64. set (a := (READERS_AT + index * READER_BYTES)%nat).
    replace (a + READER_BYTES)%nat with (READERS_AT + S index * READER_BYTES)%nat by (unfold a; ring_lens).
    assert (a + 24 ≤ SUPERBLOCK_COPY_BYTES)%nat as Ha by (unfold a; ring_lens). clearbody a.
    assert (READERS_AT + (S index + n) * READER_BYTES ≤ CRC_AT)%nat as Hn' by (by replace (S index + n)%nat with (index + S n)%nat by lia).
    replace (a + READER_ID_AT)%nat with a by ring_lens.
    change (a + READER_SEQUENCE_AT)%nat with (a + 8)%nat. change (a + READER_OFFSET_AT)%nat with (a + 16)%nat.
    pose proof (word_at 4 (a + 4) ltac:(lia)) as Ep. pose proof (word_fits 4 a ltac:(lia)) as Ri.
    pose proof (word_fits 8 (a + 8) ltac:(lia)) as Rs. pose proof (word_fits 8 (a + 16) ltac:(lia)) as Ro.
    split.
    + destruct (from_le (slice copy (a + 4) 4) =? 0) eqn:E0; [|done]. apply Z.eqb_eq in E0. rewrite E0 in Ep. cbn [negb].
      destruct (read_readers copy (S index) n) as [rs'|] eqn:Er; [|done]. intros [= <-].
      apply (IH _ _ Hn') in Er as [Hrs Hcut]. rewrite Hcut. cbn [fmap list_fmap]. split.
      * constructor; [|done]. unfold reader_ok, cursor_ok. cbn [rd_id rd_cursor cu_sequence cu_offset]. unfold is_u32, is_u64, in_u. lia.
      * f_equal. apply reader_slices; [done|]. cbn [rd_id rd_cursor cu_sequence cu_offset].
        split_all; try done; apply word_at; lia.
    + intros [Hrs Hcut]. destruct rs as [|r rs]; [done|]. cbn [fmap list_fmap] in Hcut. injection Hcut as Ht Hcut.
      apply Forall_cons in Hrs as [(Hi & Hq & Ho) Hrs]. apply reader_slices in Ht as (Ti & Tp & Ts & To); [|done].
      rewrite Tp. cbn [from_le replicate]. change (negb (0 + 256 * (0 + 256 * (0 + 256 * (0 + 256 * 0))) =? 0)) with false. cbv iota.
      rewrite (proj2 (IH _ rs Hn') (conj Hrs Hcut)). cbn [mbind option_bind]. rewrite Ti, Ts, To.
      unfold is_u32, is_u64, in_u in *. rewrite !from_le_le_bytes by (cbn; lia). by destruct r as [? []].
Qed.

Lemma stored_geometry_exact g :
  stored_geometry copy = Some g ↔
  geometry_ok g ∧ slice copy START_SECTOR_AT 8 = le_bytes 8 (ge_start_sector g) ∧ slice copy SECTORS_AT 8 = le_bytes 8 (ge_sectors g)
  ∧ slice copy SEGMENT_BYTES_AT 8 = le_bytes 8 (ge_segment_bytes g).
Proof using Hlen Hok.
  unfold stored_geometry, read_u64.
  pose proof (word_fits 8 START_SECTOR_AT ltac:(ring_lens)) as R1. pose proof (word_fits 8 SECTORS_AT ltac:(ring_lens)) as R2.
  pose proof (word_fits 8 SEGMENT_BYTES_AT ltac:(ring_lens)) as R3.
  pose proof (word_at 8 START_SECTOR_AT ltac:(ring_lens)) as E1. pose proof (word_at 8 SECTORS_AT ltac:(ring_lens)) as E2.
  pose proof (word_at 8 SEGMENT_BYTES_AT ltac:(ring_lens)) as E3.
  split.
  - destruct (Z.ltb_spec u64_max (from_le (slice copy START_SECTOR_AT 8) + from_le (slice copy SECTORS_AT 8))); [done|].
    destruct (Geometry_new _ _ _ _) as [g'|] eqn:Eg; [|done]. intros [= ->]. destruct (Geometry_new_fields _ _ _ _ _ Eg) as (-> & -> & ->).
    split; [|done]. unfold geometry_ok. destruct (Geometry_new_fields _ _ _ _ _ Eg) as (F1 & F2 & F3). rewrite F1, F2, F3.
    unfold is_u64, in_u. split_all; try lia. done.
  - intros ((H1 & H2 & H3 & H4 & Hg) & -> & -> & ->). unfold is_u64, in_u in *. rewrite !from_le_le_bytes by (cbn; lia).
    destruct (Z.ltb_spec u64_max (ge_start_sector g + ge_sectors g)); [lia|]. by rewrite Hg.
Qed.

Lemma cut_body s :
  cut copy 0 (body_lens (length (rs_readers s))) = body_tiles s ↔
  [slice copy MAGIC_AT 8; slice copy VERSION_AT 4; slice copy READER_COUNT_AT 4; slice copy GENERATION_AT 8;
   slice copy START_SECTOR_AT 8; slice copy SECTORS_AT 8; slice copy SEGMENT_BYTES_AT 8; slice copy WRITER_SEQUENCE_AT 8;
   slice copy WRITER_OFFSET_AT 8] = head_tiles s
  ∧ cut copy READERS_AT (replicate (length (rs_readers s)) READER_BYTES) = reader_tile <$> rs_readers s
  ∧ let named_end := (READERS_AT + length (rs_readers s) * READER_BYTES)%nat in
    slice copy named_end (CRC_AT - named_end) = replicate (CRC_AT - named_end) 0.
Proof using.
  unfold body_lens, body_tiles. rewrite !cut_split. cbn [cut]. rewrite sum_list_replicate.
  split.
  - intros H. apply app_inj_1 in H as [H1 H]; [|done]. apply app_inj_1 in H as [H2 H]; [|by rewrite length_cut, length_replicate, length_fmap].
    injection H as H. split; [exact H1|]. split; [exact H2|]. exact H.
  - intros (H1 & H2 & H3). f_equal; [exact H1|]. f_equal; [exact H2|]. f_equal. exact H3.
Qed.

Lemma decode_copy_tiles s :
  decode_copy copy = Some s ↔
  ring_state_ok s ∧ cut copy 0 (body_lens (length (rs_readers s))) = body_tiles s
  ∧ slice copy CRC_AT 4 = le_bytes 4 (crc32 (take CRC_AT copy)).
Proof using Hlen Hok.
  unfold decode_copy, read_u32, read_u64.
  assert (is_u32 (crc32 (take CRC_AT copy))) as Hcrc by (apply crc32_range; by apply Forall_take).
  pose proof (word_at 8 MAGIC_AT ltac:(ring_lens)) as Em. pose proof (word_at 4 VERSION_AT ltac:(ring_lens)) as Ev.
  pose proof (word_at 4 CRC_AT ltac:(ring_lens)) as Ec. pose proof (word_at 4 READER_COUNT_AT ltac:(ring_lens)) as En.
  pose proof (word_at 8 GENERATION_AT ltac:(ring_lens)) as Eg. pose proof (word_fits 8 GENERATION_AT ltac:(ring_lens)) as Rg.
  pose proof (word_at 8 WRITER_SEQUENCE_AT ltac:(ring_lens)) as Es. pose proof (word_fits 8 WRITER_SEQUENCE_AT ltac:(ring_lens)) as Rs.
  pose proof (word_at 8 WRITER_OFFSET_AT ltac:(ring_lens)) as Eo. pose proof (word_fits 8 WRITER_OFFSET_AT ltac:(ring_lens)) as Ro.
  pose proof (word_fits 4 READER_COUNT_AT ltac:(ring_lens)) as Rn.
  split.
  - destruct (Z.eqb_spec (from_le (slice copy MAGIC_AT 8)) SUPERBLOCK_MAGIC) as [Fm|]; [|done].
    destruct (Z.eqb_spec (from_le (slice copy VERSION_AT 4)) SUPERBLOCK_VERSION) as [Fv|]; [|done].
    destruct (Z.eqb_spec (from_le (slice copy CRC_AT 4)) (crc32 (take CRC_AT copy))) as [Fc|]; [|done]. cbn [negb].
    set (n := Z.to_nat (from_le (slice copy READER_COUNT_AT 4))) in *. destruct (Nat.ltb_spec MAX_READERS n) as [|Hn]; [done|].
    destruct (forallb _ _) eqn:Ez; [|done]. apply all_zero in Ez. rewrite length_slice in Ez by ring_lens. cbn [negb].
    destruct (stored_geometry copy) as [g|] eqn:Egeo; [|done]. apply stored_geometry_exact in Egeo as (Hg & G1 & G2 & G3). cbn [mbind option_bind].
    destruct (read_readers copy 0 n) as [rs|] eqn:Er; [|done]. apply read_readers_exact in Er as [Hrs Hcut]; [|ring_lens]. cbn [mbind option_bind].
    destruct (RingState_new _ _ _ _) as [s'|] eqn:Enew; [|done]. intros [= ->]. destruct (RingState_new_fields _ _ _ _ _ Enew) as [-> Hl].
    assert (length rs = n) as Hrn by (apply (f_equal length) in Hcut; rewrite length_fmap, length_cut, length_replicate in Hcut; done).
    split; [|split].
    + by constructor.
    + apply cut_body. cbn [rs_readers]. rewrite Hrn. split; [|done]. unfold head_tiles.
      cbn [rs_geometry rs_write_generation rs_writer rs_readers cu_sequence cu_offset].
      rewrite <- Fm, <- Fv, Hrn, G1, G2, G3, <- Em, <- Ev, <- Eg, <- Es, <- Eo. unfold n. rewrite Z2Nat.id, <- En by lia. done.
    + by rewrite <- Fc.
  - intros (Hs & Hcut & Hsum). pose proof (ring_state_readers s Hs) as Hn. apply cut_body in Hcut as (Hhead & Hreaders & Hzero).
    unfold head_tiles in Hhead. 
    apply cons_eq_inj in Hhead as [Hm Hhead]. apply cons_eq_inj in Hhead as [Hv Hhead]. apply cons_eq_inj in Hhead as [Hc Hhead].
    apply cons_eq_inj in Hhead as [Hge Hhead]. apply cons_eq_inj in Hhead as [H1 Hhead]. apply cons_eq_inj in Hhead as [H2 Hhead].
    apply cons_eq_inj in Hhead as [H3 Hhead]. apply cons_eq_inj in Hhead as [Hq Hhead]. apply cons_eq_inj in Hhead as [Ho _].
    destruct Hs. destruct rso_writer0 as [Hwq Hwo].
    unfold is_u64, is_u32, in_u in *.
    assert (0 ≤ SUPERBLOCK_MAGIC < 2 ^ 64) as Rm by (by vm_compute). assert (0 ≤ SUPERBLOCK_VERSION < 2 ^ 32) as Rv by (by vm_compute).
    rewrite Hm, Hv, Hc, Hge, Hq, Ho, Hsum. rewrite !from_le_le_bytes by (change (8 * Z.of_nat 8) with 64 || change (8 * Z.of_nat 4) with 32; lia). rewrite !Z.eqb_refl. cbn [negb].
    rewrite Nat2Z.id. destruct (Nat.ltb_spec MAX_READERS (length (rs_readers s))); [ring_lens|].
    rewrite Hzero. rewrite (proj2 (all_zero _)) by (by rewrite length_replicate). cbn [negb].
    rewrite (proj2 (stored_geometry_exact (rs_geometry s))) by done. cbn [mbind option_bind].
    rewrite (proj2 (read_readers_exact 0 (length (rs_readers s)) (rs_readers s) ltac:(ring_lens))) by done. cbn [mbind option_bind].
    destruct (rs_writer s) as [q o]. cbn [cu_sequence cu_offset]. by rewrite rso_new0.
Qed.
End Copy.

(** ** The copies the decoder accepts are the encodings of states *)
Lemma decode_copy_spec copy s :
  length copy = SUPERBLOCK_COPY_BYTES → bytes_ok copy → decode_copy copy = Some s ↔ ring_state_ok s ∧ copy = encode_copy s.
Proof.
  intros Hlen Hok. rewrite decode_copy_tiles by done. split.
  - intros (Hs & Hcut & Hsum). split; [done|]. pose proof (ring_state_readers s Hs) as Hn. rewrite encode_copy_tiles by done.
    assert (take CRC_AT copy = body s) as Hb.
    { unfold body. rewrite <- Hcut. rewrite <- (take_drop CRC_AT copy) at 2. rewrite cut_app, concat_cut; [done| |];
        rewrite sum_copy_lens, ?length_take by done; ring_lens. }
    rewrite <- (take_drop CRC_AT copy) at 1. rewrite <- Hb. f_equal. rewrite <- Hsum. unfold slice. rewrite take_ge; [done|].
    rewrite length_drop. ring_lens.
  - intros [Hs ->]. pose proof (ring_state_readers s Hs) as Hn. pose proof (length_copy_body s Hn) as Hb. split; [done|].
    rewrite encode_copy_tiles by done. split.
    + rewrite cut_app by (rewrite sum_copy_lens by done; lia). unfold body. rewrite <- copy_tiles_lens. apply (cut_concat []).
    + unfold slice. rewrite <- Hb, drop_app_length, take_app_length. apply take_ge. by rewrite length_le_bytes.
Qed.

(** C31. for any sector [copy], the decoder accepts [copy] as a state [s] exactly when [s] is a
    state this code can hold (a geometry, cursors inside it, at most four readers with distinct
    identifiers) and [copy] is, byte for byte, what the encoder writes for [s]. *)
Theorem superblock_copy_exact copy s :
  length copy = SUPERBLOCK_COPY_BYTES → bytes_ok copy →
  decode_copy copy = Some s ↔ ring_state_ok s ∧ copy = encode_copy s.
Proof. apply decode_copy_spec. Qed.

(** The register over an accepted copy, its checksum included, is the residue. *)
Lemma decode_copy_residue copy s :
  length copy = SUPERBLOCK_COPY_BYTES → bytes_ok copy → decode_copy copy = Some s → crc_state u32_max copy = crc_residue.
Proof.
  intros Hlen Hok Hd. apply decode_copy_tiles in Hd as (_ & _ & Hsum); [|done|done].
  assert (slice copy CRC_AT 4 = drop CRC_AT copy) as E by (unfold slice; apply take_ge; rewrite length_drop; ring_lens).
  rewrite <- (take_drop CRC_AT copy). apply crc_checks.
  - by apply Forall_take.
  - by apply Forall_drop.
  - rewrite length_drop. ring_lens.
  - rewrite <- E, Hsum. apply from_le_le_bytes. apply crc32_range. by apply Forall_take.
Qed.

(** C32. a copy that decodes, damaged in any span of four consecutive bytes - its checksum
    included - is never decoded. *)
Theorem burst_never_decodes pre w w' post s :
  length (pre ++ w ++ post) = SUPERBLOCK_COPY_BYTES → bytes_ok (pre ++ w ++ post) → bytes_ok w' →
  length w = length w' → (length w ≤ 4)%nat → w ≠ w' →
  decode_copy (pre ++ w ++ post) = Some s → decode_copy (pre ++ w' ++ post) = None.
Proof.
  intros Hlen Hok Hw' Hl H4 Hne Hd. destruct (decode_copy (pre ++ w' ++ post)) as [s'|] eqn:Hd'; [|done]. destruct Hne.
  pose proof Hok as Hok'. rewrite !bytes_ok_app in Hok'. destruct Hok' as (Hp & Hw & Ht).
  assert (bytes_ok (pre ++ w' ++ post)) as Hok2 by (by rewrite !bytes_ok_app).
  assert (length (pre ++ w' ++ post) = SUPERBLOCK_COPY_BYTES) as Hlen2 by (rewrite !length_app in *; lia).
  apply (state_burst u32_max pre w w' post); try done.
  by rewrite (decode_copy_residue _ _ Hlen Hok Hd), (decode_copy_residue _ _ Hlen2 Hok2 Hd').
Qed.
