(* ===== verification/CaptureCheckpoint.v ===== *)
(** * Checkpoints and power cuts

    What the two copies of the superblock are for: a run of checkpoints in which the power may
    go at any moment, the copy being written left old, new or torn, always boots into the last
    checkpoint or the one it was taking ([checkpoints_recover]) - and what becomes of that when
    a checkpoint that was composed is never written
    ([skipped_checkpoint_rewrites_the_copy_in_use]). *)
From S2P Require Import Prelude Layout CaptureRing CaptureSuperblock CaptureCrc CaptureSuperblockFacts.

(** ** The two copies of a region *)
Definition region_ok (region : list Z) : Prop := length region = SUPERBLOCK_BYTES ∧ bytes_ok region.
Definition parity (generation : Z) : bool := negb (generation mod 2 =? 0).
(** [false] is the first copy. *)
Definition copy_at (region : list Z) (second : bool) : list Z :=
  if second then drop SUPERBLOCK_COPY_BYTES region else take SUPERBLOCK_COPY_BYTES region.
Definition put_copy (region : list Z) (second : bool) (copy : list Z) : list Z :=
  if second then take SUPERBLOCK_COPY_BYTES region ++ copy else copy ++ drop SUPERBLOCK_COPY_BYTES region.

Lemma length_copy_region region i : region_ok region → length (copy_at region i) = SUPERBLOCK_COPY_BYTES.
Proof. intros [H _]. destruct i; cbn [copy_at]; rewrite ?length_drop, ?length_take, H; done. Qed.
Lemma copy_at_ok region i : region_ok region → bytes_ok (copy_at region i).
Proof. intros [_ H]. destruct i; [by apply Forall_drop|by apply Forall_take]. Qed.

Lemma put_copy_same region i copy : region_ok region → length copy = SUPERBLOCK_COPY_BYTES → copy_at (put_copy region i copy) i = copy.
Proof.
  intros [H _] Hc. destruct i; cbn [put_copy copy_at].
  - rewrite drop_app_ge, length_take, H by (rewrite length_take; lia). done.
  - rewrite <- Hc. by rewrite take_app_length.
Qed.
Lemma put_copy_other region i copy :
  region_ok region → length copy = SUPERBLOCK_COPY_BYTES → copy_at (put_copy region i copy) (negb i) = copy_at region (negb i).
Proof.
  intros [H _] Hc. destruct i; cbn [put_copy copy_at negb].
  - assert (length (take SUPERBLOCK_COPY_BYTES region) = SUPERBLOCK_COPY_BYTES) as E by (rewrite length_take, H; done).
    rewrite <- E at 1. by rewrite take_app_length.
  - rewrite <- Hc at 1. by rewrite drop_app_length.
Qed.
Lemma put_copy_ok region i copy :
  region_ok region → length copy = SUPERBLOCK_COPY_BYTES → bytes_ok copy → region_ok (put_copy region i copy).
Proof.
  intros [H Hb] Hc Ho. split.
  - destruct i; cbn [put_copy]; rewrite length_app, ?length_take, ?length_drop, H, Hc; done.
  - destruct i; cbn [put_copy]; apply bytes_ok_app; split; try done; by first [apply Forall_take|apply Forall_drop].
Qed.

Lemma encode_parity region s :
  encode_superblock region s Parity
  = ({| sw_at := if parity (rs_write_generation s) then SUPERBLOCK_COPY_BYTES else 0; sw_len := SUPERBLOCK_COPY_BYTES |},
     put_copy region (parity (rs_write_generation s)) (encode_copy s)).
Proof.
  unfold encode_superblock, parity, put_copy. cbv zeta. change (Z.of_nat SUPERBLOCK_COPIES) with 2.
  destruct (Z.mod_pos_bound (rs_write_generation s) 2); [done|].
  destruct (Z.eqb_spec (rs_write_generation s mod 2) 0) as [->|]; [done|].
  assert (rs_write_generation s mod 2 = 1) as -> by lia. done.
Qed.

Lemma encode_copy_bytes s : ring_state_ok s → bytes_ok (encode_copy s).
Proof.
  intros Hs%ring_state_readers. rewrite encode_copy_tiles by done. apply bytes_ok_app. split; [|apply le_bytes_ok].
  rewrite body_split. apply bytes_ok_app. split; [|by apply Forall_replicate].
  rewrite concat_app. apply bytes_ok_app. split.
  - unfold head_tiles. cbn [concat]. rewrite !bytes_ok_app. split_all; try apply le_bytes_ok. by constructor.
  - induction (rs_readers s) as [|r rs IH]; [constructor|]. cbn [fmap list_fmap concat]. apply bytes_ok_app. split; [|apply IH; cbn in Hs; lia].
    unfold reader_tile. rewrite !bytes_ok_app. split_all; try apply le_bytes_ok. by apply Forall_replicate.
Qed.

Lemma decode_encode s : ring_state_ok s → decode_copy (encode_copy s) = Some s.
Proof. intros Hs. apply decode_copy_spec; [by apply length_encode_copy|by apply encode_copy_bytes|done]. Qed.

(** ** The copy in use *)
Definition in_use (region : list Z) (s : RingState) : Prop :=
  region_ok region ∧ decode_copy (copy_at region (parity (rs_write_generation s))) = Some s
  ∧ ∀ s', decode_copy (copy_at region (negb (parity (rs_write_generation s)))) = Some s' →
          s' = s ∨ rs_write_generation s' < rs_write_generation s.

Lemma in_use_decodes region s : in_use region s → decode_superblock region = Some s.
Proof.
  intros (Hr & Hs & Ho). unfold decode_superblock.
  change (take SUPERBLOCK_COPY_BYTES region) with (copy_at region false). change (drop SUPERBLOCK_COPY_BYTES region) with (copy_at region true).
  destruct (parity _); cbn [negb] in *; rewrite Hs.
  - destruct (decode_copy (copy_at region false)) as [s'|]; [|done]. destruct (Ho s' eq_refl) as [->|Hlt].
    + by rewrite Z.ltb_irrefl.
    + by rewrite (proj2 (Z.ltb_lt _ _)).
  - destruct (decode_copy (copy_at region true)) as [s'|]; [|done]. destruct (Ho s' eq_refl) as [->|Hlt].
    + by rewrite Z.ltb_irrefl.
    + by rewrite (proj2 (Z.ltb_ge _ _)) by lia.
Qed.

Lemma in_use_state_ok region s : in_use region s → ring_state_ok s.
Proof. intros (Hr & Hs & _). apply decode_copy_spec in Hs as [? _]; [done|by apply length_copy_region|by apply copy_at_ok]. Qed.

Lemma parity_succ n : parity (n + 1) = negb (parity n).
Proof.
  unfold parity. rewrite !Zmod_odd, Z.odd_add. by destruct (Z.odd n).
Qed.

(** Replacing the copy the next generation selects keeps the state in use; the next state
    whole in it takes over. *)
Lemma in_use_torn region s torn :
  in_use region s → length torn = SUPERBLOCK_COPY_BYTES → bytes_ok torn → decode_copy torn = None →
  in_use (put_copy region (negb (parity (rs_write_generation s))) torn) s.
Proof.
  intros (Hr & Hs & Ho) Hl Hb Ht. split; [by apply put_copy_ok|]. split.
  - rewrite <- (negb_involutive (parity _)) at 2. rewrite put_copy_other, negb_involutive by done. exact Hs.
  - intros s'. rewrite put_copy_same, Ht by done. done.
Qed.

Lemma in_use_next region s s1 :
  in_use region s → ring_state_ok s1 → rs_write_generation s1 = rs_write_generation s + 1 →
  in_use (encode_superblock region s1 Parity).2 s1.
Proof.
  intros (Hr & Hs & _) Hok Hg. rewrite encode_parity. cbn [snd].
  pose proof (length_encode_copy s1 Hok) as Hl. pose proof (encode_copy_bytes s1 Hok) as Hb.
  split; [by apply put_copy_ok|]. split.
  - rewrite put_copy_same by done. by apply decode_encode.
  - intros s'. rewrite put_copy_other by done. rewrite Hg, parity_succ, negb_involutive, Hs. intros [= <-]. right. lia.
Qed.

(** ** Runs of checkpoints *)

(** What a power cut in the middle of writing [write] may leave: the target as it was, as it
    was to be, or torn into a sector that is no superblock. *)
Inductive left_behind (region : list Z) (s1 : RingState) : list Z → Prop :=
| left_old : left_behind region s1 region
| left_new : left_behind region s1 (encode_superblock region s1 Parity).2
| left_torn torn :
    length torn = SUPERBLOCK_COPY_BYTES → bytes_ok torn → decode_copy torn = None →
    left_behind region s1 (put_copy region (parity (rs_write_generation s1)) torn).

(** The ring a boot resumes from the region, under the configured geometry. *)
Definition reopened (configured : Geometry) (prologue_len : Z) (region : list Z) : option Ring :=
  s ← decode_superblock region;
  match RingState_check s configured with Ok checked => Some (Ring_resume checked prologue_len) | Err _ => None end.

(** What a checkpoint is taken with: values of the source's types, and a generation that has
    not run out. *)
Definition checkpointable (at_ : Cursor) (readers : list ReaderCursor) (r : Ring) : Prop :=
  cursor_ok at_ ∧ Forall reader_ok readers ∧ rg_write_generation r < u64_max.

Inductive kept_step : Ring * list Z → Ring * list Z → Prop :=
| kept_append r region len a r1 : Ring_append len r = (a, r1) → kept_step (r, region) (r1, region)
| kept_commit r region placement c r1 : Reservation_commit placement r = (c, r1) → kept_step (r, region) (r1, region)
| kept_roll r region p r1 : Ring_roll r = (p, r1) → kept_step (r, region) (r1, region)
| kept_locate r region sequence offset l r1 : Ring_locate sequence offset r = (l, r1) → kept_step (r, region) (r1, region)
| kept_landed r region at_ readers s1 r1 :
    checkpointable at_ readers r → Ring_checkpoint at_ readers r = (Ok s1, r1) →
    kept_step (r, region) (r1, (encode_superblock region s1 Parity).2)
| kept_refused r region at_ readers e r1 : Ring_checkpoint at_ readers r = (Err e, r1) → kept_step (r, region) (r1, region)
| kept_cut r region at_ readers s1 r1 left r2 :
    checkpointable at_ readers r → Ring_checkpoint at_ readers r = (Ok s1, r1) → left_behind region s1 left →
    reopened (rg_geometry r) (rg_prologue_len r) left = Some r2 → kept_step (r, region) (r2, left).

Definition kept (configured : Geometry) (w : Ring * list Z) : Prop :=
  rg_geometry w.1 = configured ∧ ∃ s, in_use w.2 s ∧ rs_geometry s = configured ∧ rs_write_generation s = rg_write_generation w.1.

Lemma check_same s g : rs_geometry s = g →
  RingState_check s g = Ok {| ck_geometry := g; ck_write_generation := rs_write_generation s; ck_writer := rs_writer s; ck_readers := rs_readers s |}.
Proof. intros <-. unfold RingState_check. by rewrite !Z.eqb_refl. Qed.

Lemma checkpoint_fields at_ readers r s1 r1 :
  Ring_checkpoint at_ readers r = (Ok s1, r1) →
  s1 = {| rs_geometry := rg_geometry r; rs_write_generation := saturating_add 64 (rg_write_generation r) 1; rs_writer := at_; rs_readers := readers |}
  ∧ r1 = r <| rg_write_generation := saturating_add 64 (rg_write_generation r) 1 |>
  ∧ RingState_new (rg_geometry r) (saturating_add 64 (rg_write_generation r) 1) at_ readers = Ok s1.
Proof.
  unfold Ring_checkpoint. destruct (RingState_new _ _ _ _) eqn:E; [|done]. intros [= <- <-].
  pose proof (RingState_new_fields _ _ _ _ _ E) as [-> _]. done.
Qed.

(** One checkpoint from a state in use: the state it composes is the next generation, and
    whatever is left of its write is in use as one of the two. *)
Lemma checkpoint_left g r region s at_ readers s1 r1 left :
  rg_geometry r = g → in_use region s → rs_geometry s = g → rs_write_generation s = rg_write_generation r →
  checkpointable at_ readers r → Ring_checkpoint at_ readers r = (Ok s1, r1) → left_behind region s1 left →
  rs_geometry s1 = g ∧ rs_writer s1 = at_ ∧ rs_readers s1 = readers ∧ rs_write_generation s1 = rg_write_generation r1
  ∧ in_use (encode_superblock region s1 Parity).2 s1 ∧ (in_use left s ∨ in_use left s1).
Proof.
  intros Hrg Hu Hsg Hgen (Hat & Hrd & Hmax) Hc Hleft. apply checkpoint_fields in Hc as (Hs1 & Hr1 & Hnew).
  pose proof (in_use_state_ok _ _ Hu) as [Sg Sn _ _ _].
  assert (saturating_add 64 (rg_write_generation r) 1 = rg_write_generation r + 1) as Hsat.
  { unfold saturating_add, u64_max in *. change (2 ^ 64 - 1) with 18446744073709551615. lia. }
  assert (rs_write_generation s1 = rs_write_generation s + 1) as Hn by (rewrite Hs1; cbn; by rewrite Hsat, Hgen).
  assert (ring_state_ok s1) as Hok.
  { rewrite Hs1 in *. constructor; cbn [rs_geometry rs_write_generation rs_writer rs_readers]; try done.
    - by rewrite Hrg, <- Hsg.
    - rewrite Hsat. unfold is_u64, in_u, u64_max in *. lia. }
  pose proof (in_use_next _ _ _ Hu Hok Hn) as Hnext.
  assert (parity (rs_write_generation s1) = negb (parity (rs_write_generation s))) as Hp by (by rewrite Hn, parity_succ).
  split_all; try (by rewrite Hs1); try done.
  - rewrite Hr1, Hs1. done.
  - destruct Hleft as [| |torn Hl Hb Ht]; [by left|by right|left]. rewrite Hp. by apply in_use_torn.
Qed.

Lemma reopened_in_use g prologue region s :
  in_use region s → rs_geometry s = g →
  ∃ r, reopened g prologue region = Some r ∧ rg_geometry r = g ∧ rg_write_generation r = rs_write_generation s ∧ rg_cursor r = rs_writer s.
Proof.
  intros Hu Hg. unfold reopened. rewrite (in_use_decodes _ _ Hu). cbn [mbind option_bind]. rewrite check_same by done. eauto.
Qed.

Lemma kept_step_kept g w w' : kept g w → kept_step w w' → kept g w'.
Proof.
  intros (Hrg & s & Hu & Hsg & Hgen) Hstep. destruct Hstep as
    [r region len a r1 E|r region pl c r1 E|r region p r1 E|r region q o l r1 E|r region at_ readers s1 r1 Hc E|r region at_ readers e r1 E
    |r region at_ readers s1 r1 left r2 Hc E Hl Hre]; cbn [fst snd] in *.
  - unfold Ring_append in E. split; cbn [fst snd]; [|exists s]; destruct (Ring_fit len r); by simplify_eq/=.
  - unfold Reservation_commit in E. simplify_eq/=. split; [done|]. by exists s.
  - unfold Ring_roll in E. split; cbn [fst snd]; [|exists s]; revert E; cbv zeta; case_match; intros E; by simplify_eq/=.
  - unfold Ring_locate in E. split; cbn [fst snd]; [|exists s]; repeat case_match; by simplify_eq/=.
  - destruct (checkpoint_left g r region s at_ readers s1 r1 region Hrg Hu Hsg Hgen Hc E (left_old _ _)) as (Hg1 & _ & _ & Hn1 & Hu1 & _).
    apply checkpoint_fields in E as (_ & -> & _). split; [done|]. by exists s1.
  - unfold Ring_checkpoint in E. destruct (RingState_new _ _ _ _); [done|]. simplify_eq/=. split; [done|]. by exists s.
  - destruct (checkpoint_left g r region s at_ readers s1 r1 left Hrg Hu Hsg Hgen Hc E Hl) as (Hg1 & _ & _ & Hn1 & _ & Hin).
    assert (∃ s', in_use left s' ∧ rs_geometry s' = g) as (s' & Hu' & Hg') by (destruct Hin; eauto).
    destruct (reopened_in_use g (rg_prologue_len r) left s' Hu' Hg') as (r3 & Hr3 & Hgeo & Hgn & _).
    rewrite Hrg in Hre. rewrite Hr3 in Hre. injection Hre as <-. split; [done|]. by exists s'.
Qed.

Lemma kept_reachable g w w' : kept g w → rtc kept_step w w' → kept g w'.
Proof. intros Hk Hr. induction Hr; [done|]. eauto using kept_step_kept. Qed.

(** C29. from a region in which a ring's state is in use, let the ring run - records, rolls,
    reads, checkpoints that land, and power cuts in the middle of a checkpoint that leave its
    sector old, new or torn. At every moment the region decodes to a state of the configured
    geometry at the ring's own generation; and a cut in the middle of the next checkpoint boots
    into that state or the one the checkpoint was taking, with its writer's cursor. *)
Theorem checkpoints_recover g w r region :
  kept g w → rtc kept_step w (r, region) →
  ∃ s, decode_superblock region = Some s ∧ rs_geometry s = g ∧ rs_write_generation s = rg_write_generation r
  ∧ ∀ at_ readers s1 r1 left prologue,
      checkpointable at_ readers r → Ring_checkpoint at_ readers r = (Ok s1, r1) → left_behind region s1 left →
      ∃ r2, reopened g prologue left = Some r2
      ∧ (rg_cursor r2 = rs_writer s ∧ rg_write_generation r2 = rg_write_generation r
         ∨ rg_cursor r2 = at_ ∧ rg_write_generation r2 = rg_write_generation r + 1).
Proof.
  intros Hk Hr. destruct (kept_reachable _ _ _ Hk Hr) as (Hrg & s & Hu & Hsg & Hgen). cbn [fst snd] in *.
  exists s. split; [by apply in_use_decodes|]. split; [done|]. split; [done|]. intros at_ readers s1 r1 left prologue Hc E Hl.
  destruct (checkpoint_left g r region s at_ readers s1 r1 left Hrg Hu Hsg Hgen Hc E Hl) as (Hg1 & Hw1 & _ & Hn1 & _ & [Hin|Hin]).
  - destruct (reopened_in_use g prologue left s Hin Hsg) as (r2 & Hr2 & _ & Hn & Hcur). exists r2. rewrite Hcur, Hn, Hgen. auto.
  - destruct (reopened_in_use g prologue left s1 Hin Hg1) as (r2 & Hr2 & _ & Hn & Hcur). exists r2. split; [done|]. right.
    rewrite Hcur, Hn. split; [done|]. apply checkpoint_fields in E as (-> & _ & _). cbn. unfold saturating_add.
    destruct Hc as (_ & _ & Hmax). unfold u64_max in Hmax. change (2 ^ 64 - 1) with 18446744073709551615. lia.
Qed.

(** C30. a checkpoint that was composed and never written uses up its generation all the same.
    From a ring whose state [s] is in use, the checkpoint after a skipped one selects, by its
    parity, the very copy [s] is in; torn there, the region decodes to whatever the other copy
    holds: nothing, where an earlier cut tore it. *)
Theorem skipped_checkpoint_rewrites_the_copy_in_use r region s at_ readers s1 r1 at2 readers2 s2 r2 :
  in_use region s → rs_geometry s = rg_geometry r → rs_write_generation s = rg_write_generation r →
  rg_write_generation r + 1 < u64_max →
  Ring_checkpoint at_ readers r = (Ok s1, r1) → Ring_checkpoint at2 readers2 r1 = (Ok s2, r2) →
  parity (rs_write_generation s2) = parity (rs_write_generation s)
  ∧ ∀ torn, length torn = SUPERBLOCK_COPY_BYTES → bytes_ok torn → decode_copy torn = None →
    left_behind region s2 (put_copy region (parity (rs_write_generation s)) torn)
    ∧ decode_superblock (put_copy region (parity (rs_write_generation s)) torn)
      = decode_copy (copy_at region (negb (parity (rs_write_generation s)))).
Proof.
  intros Hu Hg Hgen Hmax E1 E2. apply checkpoint_fields in E1 as (_ & -> & _). apply checkpoint_fields in E2 as (-> & _ & _).
  pose proof (in_use_state_ok _ _ Hu) as [_ Sn _ _ _]. destruct Hu as (Hr & _ & _). cbn [rs_write_generation].
  set (n := saturating_add 64 _ 1). assert (n = rs_write_generation s + 1 + 1) as Hn.
  { unfold n. cbn. unfold saturating_add, is_u64, in_u, u64_max in *. change (2 ^ 64 - 1) with 18446744073709551615. lia. }
  clearbody n. assert (parity n = parity (rs_write_generation s)) as Hp by (by rewrite Hn, !parity_succ, negb_involutive).
  split; [done|]. intros torn Hl Hb Ht. split.
  - rewrite <- Hp. by apply (left_torn region {| rs_geometry := _; rs_write_generation := n; rs_writer := at2; rs_readers := readers2 |}).
  - pose proof (put_copy_same region (parity (rs_write_generation s)) torn Hr Hl) as Es.
    pose proof (put_copy_other region (parity (rs_write_generation s)) torn Hr Hl) as Eo. unfold decode_superblock.
    destruct (parity (rs_write_generation s)); cbn [negb copy_at] in *; rewrite Es, Ht, Eo; by case_match.
Qed.

(** ** On concrete regions *)

(** The check value of CRC-32 over the ASCII digits. *)
Example crc32_check : crc32 [49; 50; 51; 52; 53; 54; 55; 56; 57] = 0xCBF43926.
Proof. vm_compute. reflexivity. Qed.

(** Three segments of eight sectors, the first for the superblock. *)
Definition small_geometry : Geometry :=
  {| ge_start_sector := 2048; ge_sectors := 24; ge_segment_bytes := 4096; ge_segment_sectors := 8; ge_segments := 2 |}.
Definition small_cursor : Cursor := {| cu_sequence := 3; cu_offset := 1024 |}.
Definition small_readers : list ReaderCursor := [{| rd_id := 1; rd_cursor := {| cu_sequence := 2; cu_offset := 512 |} |}].
Definition small_state (generation : Z) : RingState :=
  {| rs_geometry := small_geometry; rs_write_generation := generation; rs_writer := small_cursor; rs_readers := small_readers |}.
Definition small_ring : Ring := (Ring_new small_geometry 96) <| rg_write_generation := 2 |>.
(** Generation 2 in the first copy, nothing in the second. *)
Definition small_region : list Z := encode_copy (small_state 2) ++ replicate SUPERBLOCK_COPY_BYTES 0.
Definition torn_sector : list Z := replicate SUPERBLOCK_COPY_BYTES 255.

Lemma bytes_ok_of l : forallb (λ b, (0 <=? b) && (b <=? 255)) l = true → bytes_ok l.
Proof.
  intros H. apply Forall_forall. intros x Hx%list_elem_of_In. apply (proj1 (forallb_forall _ _) H) in Hx. unfold in_u. change (2 ^ 8) with 256. lia.
Qed.

Lemma small_state_ok n : 0 ≤ n ≤ u64_max → ring_state_ok (small_state n).
Proof.
  intros Hn. constructor; cbn.
  - unfold geometry_ok, is_u64, in_u, u64_max. cbn. split_all; try lia. done.
  - unfold is_u64, in_u, u64_max in *. lia.
  - unfold cursor_ok, is_u64, in_u. cbn. lia.
  - repeat constructor; cbn; unfold is_u32, is_u64, in_u; lia.
  - done.
Qed.

Lemma small_in_use : in_use small_region (small_state 2).
Proof.
  split; [split; [by vm_compute|apply bytes_ok_of; by vm_compute]|]. split.
  - change (copy_at small_region _) with (copy_at small_region false). unfold small_region.
    assert (copy_at (encode_copy (small_state 2) ++ replicate SUPERBLOCK_COPY_BYTES 0) false = encode_copy (small_state 2)) as -> by (by vm_compute).
    apply decode_encode, small_state_ok. unfold u64_max. lia.
  - intros s'. assert (decode_copy (copy_at small_region (negb (parity (rs_write_generation (small_state 2))))) = None) as -> by (by vm_compute). done.
Qed.

Lemma superblock_copy_exact_witness :
  decode_copy (encode_copy (small_state 7)) = Some (small_state 7) ∧ length (encode_copy (small_state 7)) = 512%nat.
Proof.
  split; [|by vm_compute].
  apply superblock_copy_exact; [by vm_compute|apply bytes_ok_of; by vm_compute|]. split; [apply small_state_ok; unfold u64_max; lia|done].
Defined.

Lemma burst_never_decodes_witness :
  decode_copy ((take 100 (encode_copy (small_state 7)) ++ [1; 2; 3; 4] ++ drop 104 (encode_copy (small_state 7)))) = None.
Proof.
  apply (burst_never_decodes (take 100 (encode_copy (small_state 7))) (slice (encode_copy (small_state 7)) 100 4) [1; 2; 3; 4]
    (drop 104 (encode_copy (small_state 7))) (small_state 7)).
  - by vm_compute.
  - apply bytes_ok_of. by vm_compute.
  - apply bytes_ok_of. by vm_compute.
  - by vm_compute.
  - apply Nat.leb_le. by vm_compute.
  - by vm_compute.
  - by vm_compute.
Defined.

Lemma checkpoints_recover_witness :
  ∃ r2, reopened small_geometry 96 (put_copy small_region true torn_sector) = Some r2 ∧ rg_cursor r2 = small_cursor.
Proof.
  destruct (checkpoints_recover small_geometry (small_ring, small_region) small_ring small_region) as (s & Hd & _ & _ & Hcut).
  - split; [done|]. exists (small_state 2). split; [exact small_in_use|done].
  - apply rtc_refl.
  - destruct (Hcut small_cursor small_readers (small_state 3) (small_ring <| rg_write_generation := 3 |>)
      (put_copy small_region true torn_sector) 96) as (r2 & Hr2 & Hor).
    + split; [unfold cursor_ok, is_u64, in_u; cbn; lia|]. split; [|by unfold u64_max; cbn; lia].
      repeat constructor; cbn; unfold is_u32, is_u64, in_u; lia.
    + reflexivity.
    + apply (left_torn small_region (small_state 3) torn_sector); [by vm_compute|apply bytes_ok_of; by vm_compute|by vm_compute].
    + exists r2. split; [done|]. assert (decode_superblock small_region = Some (small_state 2)) as Hs by (by apply in_use_decodes, small_in_use).
      rewrite Hs in Hd. injection Hd as <-. by destruct Hor as [[-> _]|[-> _]].
Defined.

Lemma skipped_checkpoint_rewrites_the_copy_in_use_witness : decode_superblock (put_copy small_region false torn_sector) = None.
Proof.
  destruct (skipped_checkpoint_rewrites_the_copy_in_use small_ring small_region (small_state 2) small_cursor small_readers (small_state 3)
    (small_ring <| rg_write_generation := 3 |>) small_cursor small_readers (small_state 4) (small_ring <| rg_write_generation := 4 |>)) as [_ H].
  - exact small_in_use.
  - reflexivity.
  - reflexivity.
  - unfold u64_max. cbn. lia.
  - reflexivity.
  - reflexivity.
  - destruct (H torn_sector) as [_ Hn]; [by vm_compute|apply bytes_ok_of; by vm_compute|by vm_compute|].
    change (put_copy small_region false torn_sector) with (put_copy small_region (parity (rs_write_generation (small_state 2))) torn_sector).
    rewrite Hn. by vm_compute.
Defined.
