(* ===== verification/Pcapng.v ===== *)
(** * The pcapng encoder

    Models [datad/crates/pcapng/src/lib.rs]: every block the recorder writes, measured and then
    written by one emitter over the trait [Sink]. Strings are the bytes they are; a buffer the
    source borrows mutably is threaded. *)
From S2P Require Import Prelude.

Definition BYTE_ORDER_MAGIC : Z := 0x1A2B3C4D.
Definition UNREGISTERED_PEN : Z := 0xFFFFFFFF.
Definition BLOCK_FRAMING_LEN : Z := 12.
Definition CUSTOM_BLOCK_COPYABLE : Z := 0x00000BAD.
Definition MIN_CUSTOM_BLOCK_LEN : Z := 16.
Definition ALIGNMENT : Z := 4.
Definition BLOCK_SECTION_HEADER : Z := 0x0A0D0D0A.
Definition BLOCK_INTERFACE_DESCRIPTION : Z := 1.
Definition BLOCK_INTERFACE_STATISTICS : Z := 5.
Definition BLOCK_ENHANCED_PACKET : Z := 6.
Definition SECTION_LENGTH_UNSPECIFIED : Z := u64_max.
Definition VERSION_MAJOR : Z := 1.
Definition VERSION_MINOR : Z := 0.

Definition OPT_END_OF_OPT : Z := 0.
Definition OPT_COMMENT : Z := 1.
Definition SHB_HARDWARE : Z := 2.
Definition SHB_OS : Z := 3.
Definition SHB_USERAPPL : Z := 4.
Definition IF_NAME : Z := 2.
Definition IF_DESCRIPTION : Z := 3.
Definition IF_SPEED : Z := 8.
Definition IF_TSRESOL : Z := 9.
Definition EPB_FLAGS : Z := 2.
Definition EPB_DROPCOUNT : Z := 4.
Definition EPB_PACKETID : Z := 5.
Definition EPB_QUEUE : Z := 6.
Definition EPB_VERDICT : Z := 7.
Definition ISB_STARTTIME : Z := 2.
Definition ISB_ENDTIME : Z := 3.
Definition ISB_IFRECV : Z := 4.
Definition ISB_IFDROP : Z := 5.
Definition CUSTOM_BINARY_COPYABLE : Z := 2989.

Inductive EncodeError :=
| OutOfSpace (needed capacity : Z)
| PayloadTooLong (len : Z)
| OptionTooLong (code len : Z)
| CapturedExceedsOriginal (captured original : Z)
| BlockTooLong
| BlockNotAligned (len : Z)
| BlockTooShort (len : Z)
| MeasureDisagreed (measured : Z).
#[export] Instance EncodeError_eq_dec : EqDecision EncodeError.
Proof. solve_decision. Defined.

Definition LinkType_ETHERNET : Z := 1.
Definition TimestampResolution_MICROSECONDS : Z := 6.
Definition TimestampResolution_from_decimal_digits (digits : Z) : option Z := if 0x7F <? digits then None else Some digits.

(** ** What a caller describes *)
Record CustomBinary := { cb_pen : Z; cb_data : list Z }.
Record Verdict := { vd_kind : Z; vd_data : list Z }.
Record SectionHeader := {
  sh_hardware : option (list Z); sh_os : option (list Z); sh_application : option (list Z); sh_schema : option CustomBinary
}.
Record InterfaceDescription := {
  id_link_type : Z; id_snap_len : Z; id_name : option (list Z); id_description : option (list Z); id_speed : option Z;
  id_timestamp_resolution : Z
}.
Record EnhancedPacket := {
  ep_interface_id : Z; ep_timestamp : Z; ep_captured : list Z; ep_original_len : Z; ep_flags : option Z;
  ep_drop_count : option Z; ep_packet_id : option Z; ep_queue : option Z; ep_verdict : option Verdict;
  ep_custom : option CustomBinary; ep_comment : option (list Z)
}.
Record InterfaceStatistics := {
  is_interface_id : Z; is_timestamp : Z; is_start_time : Z; is_end_time : Z; is_received : Z; is_dropped : Z
}.

(** ** Bodies and option values *)
Inductive Payload := Payload_Bytes (bytes : list Z) | Payload_Zeros (len : Z).
Definition Payload_len (p : Payload) : Z := match p with Payload_Bytes bytes => Z.of_nat (length bytes) | Payload_Zeros len => len end.
Record Body := { bd_fixed : list Z; bd_payload : Payload }.
Definition Body_fixed (fixed : list Z) : Body := {| bd_fixed := fixed; bd_payload := Payload_Bytes [] |}.
Definition Body_with_payload (fixed payload : list Z) : Body := {| bd_fixed := fixed; bd_payload := Payload_Bytes payload |}.
Definition Body_zeroed (fixed : list Z) (zeros : Z) : Body := {| bd_fixed := fixed; bd_payload := Payload_Zeros zeros |}.

(** The two halves of a timestamp, high word first. *)
Definition split_timestamp (timestamp : Z) : Z * Z :=
  let bytes := be_bytes 8 timestamp in (from_be (take 4 bytes), from_be (drop 4 bytes)).

Inductive Inline := Inline_None | Inline_One (bytes : list Z) | Inline_Four (bytes : list Z) | Inline_Eight (bytes : list Z).
Definition Inline_from_u8 (value : Z) : Inline := Inline_One [value].
Definition Inline_from_u32 (value : Z) : Inline := Inline_Four (le_bytes 4 value).
Definition Inline_from_u64 (value : Z) : Inline := Inline_Eight (le_bytes 8 value).
Definition Inline_from_timestamp (value : Z) : Inline :=
  let '(high, low) := split_timestamp value in Inline_Eight (le_bytes 4 high ++ le_bytes 4 low).
Definition Inline_len (i : Inline) : Z :=
  match i with Inline_None => 0 | Inline_One _ => 1 | Inline_Four _ => 4 | Inline_Eight _ => 8 end.
Definition Inline_as_slice (i : Inline) : list Z :=
  match i with Inline_None => [] | Inline_One bytes | Inline_Four bytes | Inline_Eight bytes => bytes end.

Record Value := { va_len : Z; va_inline : Inline; va_tail : list Z }.
Definition Value_EMPTY : Value := {| va_len := 0; va_inline := Inline_None; va_tail := [] |}.
Definition Value_new (code : Z) (inline : Inline) (tail : list Z) : Result Value EncodeError :=
  let len := Inline_len inline + Z.of_nat (length tail) in
  if u16_max <? len then Err (OptionTooLong code len) else Ok {| va_len := len; va_inline := inline; va_tail := tail |}.
Definition Value_text (code : Z) (text : list Z) : Result Value EncodeError := Value_new code Inline_None text.
Definition Value_integer (inline : Inline) : Value := {| va_len := Inline_len inline; va_inline := inline; va_tail := [] |}.
Definition Value_custom (code : Z) (custom : CustomBinary) : Result Value EncodeError :=
  Value_new code (Inline_from_u32 (cb_pen custom)) (cb_data custom).
Definition Value_verdict (code : Z) (verdict : Verdict) : Result Value EncodeError :=
  Value_new code (Inline_from_u8 (vd_kind verdict)) (vd_data verdict).

Definition Options : Type := list (option (Z * Value)).
Definition option_ {T} (code : Z) (field : option T) (encode : Z → T → Result Value EncodeError) : Result (option (Z * Value)) EncodeError :=
  match field with
  | Some value => try! encoded <- encode code value; Ok (Some (code, encoded))
  | None => Ok None
  end.
Definition integer_option {T} (code : Z) (field : option T) (encode : T → Inline) : option (Z * Value) :=
  match field with Some value => Some (code, Value_integer (encode value)) | None => None end.

(** ** Where a block's bytes go

    A step of an emitter answers whether there was room, and the sink as it left it. *)
Definition padding_for (len : Z) : Z := (ALIGNMENT - len mod ALIGNMENT) mod ALIGNMENT.

Definition Emit (W : Type) : Type := W → bool * W.
Definition emit_done {W} : Emit W := λ s, (true, s).
Definition and_then {W} (m k : Emit W) : Emit W := λ s, let '(room, s) := m s in if room then k s else (false, s).
Notation "m '?;' k" := (and_then m k) (at level 199, k at level 200, right associativity).

Class Sink (W : Type) := { push : list Z → Emit W; zeros : Z → Emit W }.
Definition pad {W} `{Sink W} (len : Z) : Emit W :=
  match padding_for len with
  | 1 => push [0]
  | 2 => push [0; 0]
  | 3 => push [0; 0; 0]
  | _ => emit_done
  end.

Record Counter := { cn_bytes : Z }.
Definition Counter_zeros (len : Z) : Emit Counter := λ c,
  if u64_max <? cn_bytes c + len then (false, c) else (true, {| cn_bytes := cn_bytes c + len |}).
#[export] Instance Counter_sink : Sink Counter :=
  {| push := λ bytes, Counter_zeros (Z.of_nat (length bytes)); zeros := Counter_zeros |}.

Record Filler := { fi_out : list Z; fi_at : Z }.
(** [take] the next bytes of the buffer, and overwrite them with [bytes]. *)
Definition Filler_fill (bytes : list Z) : Emit Filler := λ f,
  let end_ := fi_at f + Z.of_nat (length bytes) in
  if (u64_max <? end_) || (Z.of_nat (length (fi_out f)) <? end_) then (false, f)
  else (true, {| fi_out := splice (fi_out f) (Z.to_nat (fi_at f)) bytes; fi_at := end_ |}).
#[export] Instance Filler_sink : Sink Filler :=
  {| push := Filler_fill; zeros := λ len, Filler_fill (replicate (Z.to_nat len) 0) |}.

Section Emitter.
Context {W : Type} `{Sink W}.

Definition Payload_emit (p : Payload) : Emit W :=
  match p with Payload_Bytes bytes => push bytes | Payload_Zeros len => zeros len end.

Definition emit_option (code : Z) (value : Value) : Emit W :=
  push (le_bytes 2 code) ?; push (le_bytes 2 (va_len value)) ?; push (Inline_as_slice (va_inline value)) ?;
  push (va_tail value) ?; pad (va_len value).

Fixpoint emit_options (options : Options) : Emit W :=
  match options with
  | [] => emit_done
  | Some (code, value) :: options => emit_option code value ?; emit_options options
  | None :: options => emit_options options
  end.

Definition emit (block_type total : Z) (body : Body) (options : Options) : Emit W :=
  push (le_bytes 4 block_type) ?; push (le_bytes 4 total) ?; push (bd_fixed body) ?; Payload_emit (bd_payload body) ?;
  pad (Payload_len (bd_payload body)) ?;
  (if existsb (λ o : option (Z * Value), match o with Some _ => true | None => false end) options
   then emit_options options ?; emit_option OPT_END_OF_OPT Value_EMPTY else emit_done) ?;
  push (le_bytes 4 total).
End Emitter.

(** [Measured] is the one number in its two widths. *)
Definition Measured_new (bytes : Z) : Result Z EncodeError := if u32_max <? bytes then Err BlockTooLong else Ok bytes.

Definition measure (block_type : Z) (body : Body) (options : Options) : Result Z EncodeError :=
  match emit block_type 0 body options {| cn_bytes := 0 |} with
  | (true, counter) => Measured_new (cn_bytes counter)
  | (false, _) => Err BlockTooLong
  end.

Definition write_block (block_type : Z) (body : Body) (options : Options) (out : list Z) : Result Z EncodeError * list Z :=
  let capacity := Z.of_nat (length out) in
  match measure block_type body options with
  | Err e => (Err e, out)
  | Ok measured =>
      if capacity <? measured then (Err (OutOfSpace measured capacity), out) else
      let '(room, filler) := emit block_type measured body options {| fi_out := take (Z.to_nat measured) out; fi_at := 0 |} in
      let out := fi_out filler ++ drop (Z.to_nat measured) out in
      if room then (Ok measured, out) else (Err (MeasureDisagreed measured), out)
  end.

(** ** The blocks *)
Definition section_header_body : list Z :=
  le_bytes 4 BYTE_ORDER_MAGIC ++ le_bytes 2 VERSION_MAJOR ++ le_bytes 2 VERSION_MINOR ++ le_bytes 8 SECTION_LENGTH_UNSPECIFIED.
Definition section_header_options (header : SectionHeader) : Result Options EncodeError :=
  try! hardware <- option_ SHB_HARDWARE (sh_hardware header) Value_text;
  try! os <- option_ SHB_OS (sh_os header) Value_text;
  try! application <- option_ SHB_USERAPPL (sh_application header) Value_text;
  try! schema <- option_ CUSTOM_BINARY_COPYABLE (sh_schema header) Value_custom;
  Ok [hardware; os; application; schema].
Definition section_header_len (header : SectionHeader) : Result Z EncodeError :=
  try! options <- section_header_options header;
  measure BLOCK_SECTION_HEADER (Body_fixed section_header_body) options.
Definition write_section_header (header : SectionHeader) (out : list Z) : Result Z EncodeError * list Z :=
  match section_header_options header with
  | Ok options => write_block BLOCK_SECTION_HEADER (Body_fixed section_header_body) options out
  | Err e => (Err e, out)
  end.

Definition interface_description_body (idb : InterfaceDescription) : list Z :=
  le_bytes 2 (id_link_type idb) ++ [0; 0] ++ le_bytes 4 (id_snap_len idb).
Definition interface_description_options (idb : InterfaceDescription) : Result Options EncodeError :=
  try! name <- option_ IF_NAME (id_name idb) Value_text;
  try! description <- option_ IF_DESCRIPTION (id_description idb) Value_text;
  Ok [name; description; integer_option IF_SPEED (id_speed idb) Inline_from_u64;
      Some (IF_TSRESOL, Value_integer (Inline_from_u8 (id_timestamp_resolution idb)))].
Definition interface_description_len (idb : InterfaceDescription) : Result Z EncodeError :=
  try! options <- interface_description_options idb;
  measure BLOCK_INTERFACE_DESCRIPTION (Body_fixed (interface_description_body idb)) options.
Definition write_interface_description (idb : InterfaceDescription) (out : list Z) : Result Z EncodeError * list Z :=
  match interface_description_options idb with
  | Ok options => write_block BLOCK_INTERFACE_DESCRIPTION (Body_fixed (interface_description_body idb)) options out
  | Err e => (Err e, out)
  end.

Definition captured_length (len original_len : Z) : Result Z EncodeError :=
  if u32_max <? len then Err (PayloadTooLong len) else
  if original_len <? len then Err (CapturedExceedsOriginal len original_len) else Ok len.
Definition enhanced_packet_body (epb : EnhancedPacket) : Result (list Z) EncodeError :=
  try! captured_len <- captured_length (Z.of_nat (length (ep_captured epb))) (ep_original_len epb);
  let '(high, low) := split_timestamp (ep_timestamp epb) in
  Ok (le_bytes 4 (ep_interface_id epb) ++ le_bytes 4 high ++ le_bytes 4 low ++ le_bytes 4 captured_len
      ++ le_bytes 4 (ep_original_len epb)).
Definition enhanced_packet_options (epb : EnhancedPacket) : Result Options EncodeError :=
  try! comment <- option_ OPT_COMMENT (ep_comment epb) Value_text;
  try! verdict <- option_ EPB_VERDICT (ep_verdict epb) Value_verdict;
  try! custom <- option_ CUSTOM_BINARY_COPYABLE (ep_custom epb) Value_custom;
  Ok [comment; integer_option EPB_FLAGS (ep_flags epb) Inline_from_u32;
      integer_option EPB_DROPCOUNT (ep_drop_count epb) Inline_from_u64;
      integer_option EPB_PACKETID (ep_packet_id epb) Inline_from_u64; integer_option EPB_QUEUE (ep_queue epb) Inline_from_u32;
      verdict; custom].
Definition enhanced_packet_len (epb : EnhancedPacket) : Result Z EncodeError :=
  try! options <- enhanced_packet_options epb;
  try! body <- enhanced_packet_body epb;
  measure BLOCK_ENHANCED_PACKET (Body_with_payload body (ep_captured epb)) options.
Definition write_enhanced_packet (epb : EnhancedPacket) (out : list Z) : Result Z EncodeError * list Z :=
  match enhanced_packet_options epb with
  | Ok options =>
      match enhanced_packet_body epb with
      | Ok body => write_block BLOCK_ENHANCED_PACKET (Body_with_payload body (ep_captured epb)) options out
      | Err e => (Err e, out)
      end
  | Err e => (Err e, out)
  end.

Definition interface_statistics_body (isb : InterfaceStatistics) : list Z :=
  let '(high, low) := split_timestamp (is_timestamp isb) in
  le_bytes 4 (is_interface_id isb) ++ le_bytes 4 high ++ le_bytes 4 low.
Definition interface_statistics_options (isb : InterfaceStatistics) : Options :=
  [Some (ISB_STARTTIME, Value_integer (Inline_from_timestamp (is_start_time isb)));
   Some (ISB_ENDTIME, Value_integer (Inline_from_timestamp (is_end_time isb)));
   Some (ISB_IFRECV, Value_integer (Inline_from_u64 (is_received isb)));
   Some (ISB_IFDROP, Value_integer (Inline_from_u64 (is_dropped isb)))].
Definition interface_statistics_len (isb : InterfaceStatistics) : Result Z EncodeError :=
  measure BLOCK_INTERFACE_STATISTICS (Body_fixed (interface_statistics_body isb)) (interface_statistics_options isb).
Definition write_interface_statistics (isb : InterfaceStatistics) (out : list Z) : Result Z EncodeError * list Z :=
  write_block BLOCK_INTERFACE_STATISTICS (Body_fixed (interface_statistics_body isb)) (interface_statistics_options isb) out.

Definition custom_block_body (body : CustomBinary) : list Z := le_bytes 4 (cb_pen body).
Definition custom_block_len (body : CustomBinary) : Result Z EncodeError :=
  measure CUSTOM_BLOCK_COPYABLE (Body_with_payload (custom_block_body body) (cb_data body)) [].
Definition write_custom_block (body : CustomBinary) (out : list Z) : Result Z EncodeError * list Z :=
  write_block CUSTOM_BLOCK_COPYABLE (Body_with_payload (custom_block_body body) (cb_data body)) [] out.
Definition write_padding_block (len : Z) (out : list Z) : Result Z EncodeError * list Z :=
  if negb (len mod ALIGNMENT =? 0) then (Err (BlockNotAligned len), out) else
  if len <? MIN_CUSTOM_BLOCK_LEN then (Err (BlockTooShort len), out) else
  write_block CUSTOM_BLOCK_COPYABLE (Body_zeroed (le_bytes 4 UNREGISTERED_PEN) (len - MIN_CUSTOM_BLOCK_LEN)) [] out.
