(* ===== verification/PcapngFacts.v ===== *)
(** * The pcapng encoder's blocks

    One emitter over two sinks: what it emits is a byte string ([block_bytes]) that both the
    measuring and the writing pass agree on ([write_block_spec]), and every block is framed so
    that a reader walks a file of them ([walk_blocks]). *)
From S2P Require Import Prelude Pcapng.

(** ** What a sink promises the emitter *)
Class SinkLaws (W : Type) `{Sink W} := {
  sink_ok : W → Prop;
  written : list Z → W → option W;
  written_nil w : sink_ok w → written [] w = Some w;
  written_ok l w w' : sink_ok w → written l w = Some w' → sink_ok w';
  written_app l k w : sink_ok w → written (l ++ k) w = written l w ≫= written k;
  push_written l w : sink_ok w → match written l w with Some w' => push l w = (true, w') | None => (push l w).1 = false end;
  zeros_push n w : 0 ≤ n → zeros n w = push (replicate (Z.to_nat n) 0) w
}.

#[export] Program Instance Counter_laws : SinkLaws Counter := {|
  sink_ok c := 0 ≤ cn_bytes c ≤ u64_max;
  written l c := if u64_max <? cn_bytes c + Z.of_nat (length l) then None else Some {| cn_bytes := cn_bytes c + Z.of_nat (length l) |}
|}.
Next Obligation. intros [n] H. simpl in *. rewrite Z.add_0_r. by rewrite (proj2 (Z.ltb_ge _ _)) by lia. Qed.
Next Obligation. intros l [n] w' H. simpl in *. destruct (Z.ltb_spec u64_max (n + Z.of_nat (length l))); [done|]. intros [= <-]. simpl. lia. Qed.
Next Obligation.
  intros l k [n] H. simpl in *. rewrite length_app, Nat2Z.inj_add. destruct (Z.ltb_spec u64_max (n + Z.of_nat (length l))); simpl.
  - rewrite (proj2 (Z.ltb_lt _ _)); [done|lia].
  - by rewrite !Z.add_assoc.
Qed.
Next Obligation. intros l [n] H. simpl. unfold Counter_zeros. simpl. by destruct (u64_max <? _). Qed.
Next Obligation. intros n [m] Hn. simpl. rewrite length_replicate. by rewrite Z2Nat.id. Qed.

Lemma splice_app {A} (l x y : list A) n :
  (n + length (x ++ y) ≤ length l)%nat → splice l n (x ++ y) = splice (splice l n x) (n + length x) y.
Proof.
  intros H. rewrite length_app in H. unfold splice. rewrite length_app.
  assert (length (take n l ++ x) = (n + length x)%nat) as Hl by (rewrite length_app, length_take; lia).
  set (rest := drop (n + length x) l). rewrite !(app_assoc (take n l) x rest).
  replace (take (n + length x) ((take n l ++ x) ++ rest)) with (take n l ++ x) by (by rewrite <- Hl, take_app_length).
  rewrite <- !app_assoc. do 3 f_equal. rewrite !(app_assoc (take n l) x rest).
  rewrite <- Hl, drop_app_add. unfold rest. rewrite drop_drop. f_equal. lia.
Qed.

#[export] Program Instance Filler_laws : SinkLaws Filler := {|
  sink_ok f := 0 ≤ fi_at f ≤ Z.of_nat (length (fi_out f)) ∧ Z.of_nat (length (fi_out f)) ≤ u64_max;
  written l f :=
    let end_ := fi_at f + Z.of_nat (length l) in
    if Z.of_nat (length (fi_out f)) <? end_ then None
    else Some {| fi_out := splice (fi_out f) (Z.to_nat (fi_at f)) l; fi_at := end_ |}
|}.
Next Obligation.
  intros [out n] [H _]. simpl in *. rewrite Z.add_0_r. rewrite (proj2 (Z.ltb_ge _ _)) by lia. unfold splice. simpl.
  by rewrite Nat.add_0_r, take_drop.
Qed.
Next Obligation.
  intros l [out n] w' [H Hm]. simpl in *. destruct (Z.ltb_spec (Z.of_nat (length out)) (n + Z.of_nat (length l))); [done|]. intros [= <-]. simpl.
  rewrite length_splice by lia. lia.
Qed.
Next Obligation.
  intros l k [out n] [H _]. simpl in *. rewrite length_app, Nat2Z.inj_add.
  destruct (Z.ltb_spec (Z.of_nat (length out)) (n + Z.of_nat (length l))); simpl.
  - rewrite (proj2 (Z.ltb_lt _ _)); [done|lia].
  - rewrite length_splice by lia. rewrite <- Z.add_assoc. case_match; [done|]. rewrite splice_app by (rewrite length_app; lia).
    do 3 f_equal. lia.
Qed.
Next Obligation.
  intros l [out n] [H Hm]. simpl in *. unfold Filler_fill. simpl.
  destruct (Z.ltb_spec (Z.of_nat (length out)) (n + Z.of_nat (length l))); [by rewrite orb_true_r|].
  rewrite (proj2 (Z.ltb_ge u64_max _)) by lia. done.
Qed.
Next Obligation. done. Qed.

(** ** What an emitter emits *)
Section Emits.
Context {W : Type} `{SinkLaws W}.

Definition emits (m : Emit W) (l : list Z) : Prop :=
  ∀ w, sink_ok w → match written l w with Some w' => m w = (true, w') | None => (m w).1 = false end.

Lemma emits_done : emits emit_done [].
Proof. intros w Hw. by rewrite written_nil. Qed.
Lemma emits_push l : emits (push l) l.
Proof. intros w Hw. by apply push_written. Qed.
Lemma emits_zeros n : 0 ≤ n → emits (zeros n) (replicate (Z.to_nat n) 0).
Proof. intros Hn w Hw. rewrite zeros_push by done. by apply push_written. Qed.
Lemma emits_then m k l r : emits m l → emits k r → emits (m ?; k) (l ++ r).
Proof.
  intros Hm Hk w Hw. specialize (Hm w Hw). unfold and_then. rewrite written_app by done.
  destruct (written l w) as [w'|] eqn:E; simpl.
  - rewrite Hm. apply Hk. by eapply written_ok.
  - destruct (m w) as [[] w']; [done|]. done.
Qed.
End Emits.
#[export] Hint Resolve emits_done emits_push emits_then : lfw.

(** ** The bytes of a block *)
Definition padding (len : Z) : list Z := replicate (Z.to_nat (padding_for len)) 0.
Definition payload_bytes (p : Payload) : list Z :=
  match p with Payload_Bytes bytes => bytes | Payload_Zeros len => replicate (Z.to_nat len) 0 end.
Definition value_bytes (v : Value) : list Z := Inline_as_slice (va_inline v) ++ va_tail v.
Definition option_bytes (code : Z) (v : Value) : list Z :=
  le_bytes 2 code ++ le_bytes 2 (va_len v) ++ Inline_as_slice (va_inline v) ++ va_tail v ++ padding (va_len v).
Fixpoint options_run (options : Options) : list Z :=
  match options with
  | [] => []
  | Some (code, value) :: options => option_bytes code value ++ options_run options
  | None :: options => options_run options
  end.
Definition is_some_b {A} (o : option A) : bool := match o with Some _ => true | None => false end.
Definition options_bytes (options : Options) : list Z :=
  if existsb is_some_b options then options_run options ++ option_bytes OPT_END_OF_OPT Value_EMPTY else [].
(** Everything between the two lengths. *)
Definition inner_bytes (body : Body) (options : Options) : list Z :=
  bd_fixed body ++ payload_bytes (bd_payload body) ++ padding (Payload_len (bd_payload body)) ++ options_bytes options.
Definition framed_bytes (block_type total : Z) (inner : list Z) : list Z :=
  le_bytes 4 block_type ++ le_bytes 4 total ++ inner ++ le_bytes 4 total.

Definition body_ok (body : Body) : Prop := match bd_payload body with Payload_Zeros n => 0 ≤ n | _ => True end.

Lemma padding_for_cases len : padding_for len = 0 ∨ padding_for len = 1 ∨ padding_for len = 2 ∨ padding_for len = 3.
Proof. unfold padding_for, ALIGNMENT. ints. Qed.

Section EmitBlock.
Context {W : Type} `{SinkLaws W}.

Lemma emits_pad len : emits (pad len) (padding len).
Proof.
  unfold pad, padding. destruct (padding_for_cases len) as [->|[->|[->| ->]]]; simpl; auto with lfw.
Qed.

Lemma emits_option code v : emits (emit_option code v) (option_bytes code v).
Proof. unfold emit_option, option_bytes. repeat apply emits_then; auto using emits_pad with lfw. Qed.

Lemma emits_options options : emits (emit_options options) (options_run options).
Proof.
  induction options as [|[[code v]|] options IH]; cbn [emit_options options_run]; auto using emits_option with lfw.
Qed.

Lemma emits_block t total body options : body_ok body → emits (emit t total body options) (framed_bytes t total (inner_bytes body options)).
Proof.
  intros Hb. unfold emit, framed_bytes, inner_bytes. rewrite <- !app_assoc. repeat apply emits_then; auto using emits_pad with lfw.
  - unfold body_ok in Hb. unfold Payload_emit, payload_bytes. destruct (bd_payload body); auto using emits_zeros with lfw.
  - unfold options_bytes. change (λ o : option (Z * Value), match o with Some _ => true | None => false end) with (@is_some_b (Z * Value)).
    case_match; auto using emits_options, emits_option with lfw.
Qed.
End EmitBlock.

(** ** Measuring and writing *)
Definition block_len (body : Body) (options : Options) : Z := 12 + Z.of_nat (length (inner_bytes body options)).

Lemma length_framed t total inner : Z.of_nat (length (framed_bytes t total inner)) = 12 + Z.of_nat (length inner).
Proof. unfold framed_bytes. rewrite !length_app, !length_le_bytes. lia. Qed.

Lemma measure_spec t body options :
  body_ok body →
  measure t body options = if u32_max <? block_len body options then Err BlockTooLong else Ok (block_len body options).
Proof.
  intros Hb. assert (sink_ok {| cn_bytes := 0 |}) as Hok by (simpl; unfold u64_max; lia).
  pose proof (emits_block t 0 body options Hb _ Hok) as H. clear Hok.
  unfold measure. cbn [written Counter_laws cn_bytes] in H. rewrite length_framed in H. fold (block_len body options) in H. rewrite Z.add_0_l in H.
  destruct (Z.ltb_spec u64_max (block_len body options)).
  - destruct (emit _ _ _ _ _) as [[] c]; [done|]. rewrite (proj2 (Z.ltb_lt _ _)); [done|]. unfold u64_max, u32_max in *. lia.
  - rewrite H. done.
Qed.

(** What writing a block does on every path: a block too long for its length fields, and a
    buffer too short, leave the buffer alone; otherwise the block's bytes are at its front. The
    two passes never disagree. *)
Lemma write_block_spec t body options out :
  body_ok body → Z.of_nat (length out) ≤ u64_max →
  write_block t body options out =
  if u32_max <? block_len body options then (Err BlockTooLong, out) else
  if Z.of_nat (length out) <? block_len body options then (Err (OutOfSpace (block_len body options) (Z.of_nat (length out))), out) else
  (Ok (block_len body options),
   framed_bytes t (block_len body options) (inner_bytes body options) ++ drop (Z.to_nat (block_len body options)) out).
Proof.
  intros Hb Hout. unfold write_block. cbv zeta. rewrite measure_spec by done. destruct (u32_max <? block_len body options); [done|].
  destruct (Z.ltb_spec (Z.of_nat (length out)) (block_len body options)) as [|Hfit]; [done|].
  set (n := block_len body options) in *. assert (0 ≤ n) as Hn by (unfold n, block_len; lia).
  set (bytes := framed_bytes t n (inner_bytes body options)).
  assert (Z.of_nat (length bytes) = n) as Hlen by (unfold bytes; by rewrite length_framed).
  assert (length (take (Z.to_nat n) out) = Z.to_nat n) as Ht by (rewrite length_take; lia).
  assert (sink_ok {| fi_out := take (Z.to_nat n) out; fi_at := 0 |}) as Hok by (simpl; rewrite Ht; lia).
  pose proof (emits_block t n body options Hb _ Hok) as H. fold bytes in H. cbn [written Filler_laws fi_at fi_out] in H. rewrite Ht, Hlen in H.
  rewrite (proj2 (Z.ltb_ge _ _)) in H by lia. rewrite H. cbn [fi_out].
  assert (splice (take (Z.to_nat n) out) (Z.to_nat 0) bytes = bytes) as ->; [|done].
  unfold splice. change (Z.to_nat 0) with 0%nat. rewrite take_0, (drop_ge (take _ _)) by (rewrite Ht; lia). apply app_nil_r.
Qed.
