(* ===== verification/PcapngRead.v ===== *)
(** * Reading pcapng back

    A reader of the format, written from its framing and not from the encoder: it walks the
    blocks of a file, and reads a packet block's fields and options. What the encoder writes it
    reads back ([packet_block_round_trip]). *)
From S2P Require Import Prelude Pcapng PcapngFacts.

(** ** The reader *)
Record Block := { bk_type : Z; bk_inner : list Z }.

Definition read_block (bytes : list Z) : option (Block * list Z) :=
  let total := from_le (take 4 (drop 4 bytes)) in
  if (total <? 12) || negb (total mod 4 =? 0) || (Z.of_nat (length bytes) <? total) then None else
  let inner := take (Z.to_nat (total - 12)) (drop 8 bytes) in
  let rest := drop (Z.to_nat (total - 12)) (drop 8 bytes) in
  if negb (from_le (take 4 rest) =? total) then None else
  Some ({| bk_type := from_le (take 4 bytes); bk_inner := inner |}, drop 4 rest).

Fixpoint walk (fuel : nat) (bytes : list Z) : option (list Block) :=
  match bytes with
  | [] => Some []
  | _ =>
      match fuel with
      | O => None
      | S fuel => '(block, rest) ← read_block bytes; blocks ← walk fuel rest; Some (block :: blocks)
      end
  end.
(** A file's length is fuel enough: a block is at least twelve bytes. *)
Definition walk_file (bytes : list Z) : option (list Block) := walk (length bytes) bytes.

Fixpoint read_options (fuel : nat) (bytes : list Z) : option (list (Z * list Z)) :=
  match bytes with
  | [] => Some []
  | _ =>
      match fuel with
      | O => None
      | S fuel =>
          let code := from_le (take 2 bytes) in
          let len := from_le (take 2 (drop 2 bytes)) in
          let rest := drop 4 bytes in
          if code =? 0 then if (len =? 0) && (length rest =? 0)%nat then Some [] else None else
          if Z.of_nat (length rest) <? len + padding_for len then None else
          options ← read_options fuel (drop (Z.to_nat (len + padding_for len)) rest);
          Some ((code, take (Z.to_nat len) rest) :: options)
      end
  end.

Record PacketView := {
  pv_interface_id : Z; pv_timestamp : Z; pv_captured : list Z; pv_original_len : Z; pv_options : list (Z * list Z)
}.
Definition read_packet (b : Block) : option PacketView :=
  if negb (bk_type b =? 6) || (length (bk_inner b) <? 20)%nat then None else
  let inner := bk_inner b in
  let len := from_le (take 4 (drop 12 inner)) in
  let rest := drop 20 inner in
  if Z.of_nat (length rest) <? len + padding_for len then None else
  options ← read_options (length rest) (drop (Z.to_nat (len + padding_for len)) rest);
  Some {| pv_interface_id := from_le (take 4 inner);
          pv_timestamp := from_le (take 4 (drop 4 inner)) * 2 ^ 32 + from_le (take 4 (drop 8 inner));
          pv_captured := take (Z.to_nat len) rest; pv_original_len := from_le (take 4 (drop 16 inner)); pv_options := options |}.

(** ** Framed blocks are walked *)
Definition framed (bytes : list Z) : Prop :=
  ∃ t inner, is_u32 t ∧ Z.of_nat (length inner) mod 4 = 0 ∧ 12 + Z.of_nat (length inner) ≤ u32_max
  ∧ bytes = framed_bytes t (12 + Z.of_nat (length inner)) inner.

Lemma take_app_exact {A} n (l k : list A) : length l = n → take n (l ++ k) = l.
Proof. intros <-. apply take_app_length. Qed.
Lemma drop_app_exact {A} n (l k : list A) : length l = n → drop n (l ++ k) = k.
Proof. intros <-. apply drop_app_length. Qed.

Lemma read_block_framed t inner rest :
  is_u32 t → Z.of_nat (length inner) mod 4 = 0 → 12 + Z.of_nat (length inner) ≤ u32_max →
  read_block (framed_bytes t (12 + Z.of_nat (length inner)) inner ++ rest) = Some ({| bk_type := t; bk_inner := inner |}, rest).
Proof.
  intros Ht Ha Hf. set (total := 12 + Z.of_nat (length inner)) in *. unfold read_block.
  assert (0 ≤ total < 2 ^ (8 * Z.of_nat 4)) as Htot by (unfold u32_max in Hf; change (2 ^ (8 * Z.of_nat 4)) with 4294967296; lia).
  set (bytes := framed_bytes t total inner ++ rest).
  assert (bytes = le_bytes 4 t ++ le_bytes 4 total ++ inner ++ le_bytes 4 total ++ rest) as Eb
    by (unfold bytes, framed_bytes; by rewrite <- !app_assoc).
  assert (Z.of_nat (length bytes) = total + Z.of_nat (length rest)) as Hlen
    by (unfold bytes; rewrite length_app, Nat2Z.inj_add, length_framed; unfold total; lia).
  assert (drop 4 bytes = le_bytes 4 total ++ inner ++ le_bytes 4 total ++ rest) as E4
    by (rewrite Eb; apply drop_app_exact, length_le_bytes).
  assert (drop 8 bytes = inner ++ le_bytes 4 total ++ rest) as E8.
  { change 8%nat with (4 + 4)%nat. rewrite <- drop_drop, E4. apply drop_app_exact, length_le_bytes. }
  rewrite E4, E8, (take_app_exact 4), from_le_le_bytes by (done || apply length_le_bytes). cbv zeta.
  assert (total mod 4 = 0) as Hm by (unfold total; rewrite Z.add_mod, Ha by done; done).
  rewrite Hm, (proj2 (Z.ltb_ge total 12)), (proj2 (Z.ltb_ge _ total)) by (unfold total in *; lia). cbn [orb negb Z.eqb].
  assert (length inner = Z.to_nat (total - 12)) as Hi by (unfold total; lia).
  rewrite (drop_app_exact (Z.to_nat (total - 12))), (take_app_exact (Z.to_nat (total - 12))) by done.
  rewrite (take_app_exact 4), (drop_app_exact 4), from_le_le_bytes, Z.eqb_refl by (done || apply length_le_bytes). cbn [negb].
  rewrite Eb, (take_app_exact 4), from_le_le_bytes; [done|exact Ht|apply length_le_bytes].
Qed.

Lemma walk_framed fuel t inner rest :
  is_u32 t → Z.of_nat (length inner) mod 4 = 0 → 12 + Z.of_nat (length inner) ≤ u32_max →
  walk (S fuel) (framed_bytes t (12 + Z.of_nat (length inner)) inner ++ rest)
  = blocks ← walk fuel rest; Some ({| bk_type := t; bk_inner := inner |} :: blocks).
Proof.
  intros Ht Ha Hf. pose proof (read_block_framed t inner rest Ht Ha Hf) as E.
  destruct (framed_bytes t _ inner ++ rest) as [|b bs] eqn:Eb.
  - apply (f_equal length) in Eb. unfold framed_bytes in Eb. rewrite !length_app, length_le_bytes in Eb. simpl in Eb. lia.
  - cbn [walk]. by rewrite E.
Qed.

Lemma walk_more fuel k bytes blocks : walk fuel bytes = Some blocks → walk (fuel + k) bytes = Some blocks.
Proof.
  revert bytes blocks. induction fuel as [|fuel IH]; intros bytes blocks.
  - destruct bytes; simpl; [|done]. intros [= <-]. by destruct k.
  - destruct bytes as [|b bs]; simpl; [done|]. destruct (read_block (b :: bs)) as [[block rest]|]; simpl; [|done].
    destruct (walk fuel rest) as [blocks'|] eqn:E; simpl; [|done]. by rewrite (IH _ _ E).
Qed.

(** ** Padding and options *)
Lemma length_padding len : Z.of_nat (length (padding len)) = padding_for len.
Proof. unfold padding. rewrite length_replicate. destruct (padding_for_cases len) as [->|[->|[->| ->]]]; done. Qed.
Lemma padding_aligns len : (len + padding_for len) mod 4 = 0.
Proof. unfold padding_for, ALIGNMENT. ints. Qed.

Definition value_ok (v : Value) : Prop := va_len v = Z.of_nat (length (value_bytes v)) ∧ va_len v ≤ u16_max.
Definition option_ok (o : option (Z * Value)) : Prop :=
  match o with Some (code, v) => 0 < code < 2 ^ 16 ∧ value_ok v | None => True end.
Definition view_options (options : Options) : list (Z * list Z) :=
  omap (λ o : option (Z * Value), match o with Some (code, v) => Some (code, value_bytes v) | None => None end) options.

Lemma option_bytes_aligned code v : value_ok v → Z.of_nat (length (option_bytes code v)) mod 4 = 0.
Proof.
  intros [Hv _]. unfold option_bytes. rewrite !length_app, !length_le_bytes. unfold value_bytes in Hv. rewrite length_app in Hv.
  pose proof (length_padding (va_len v)) as Hp. pose proof (padding_aligns (va_len v)) as Ha.
  replace (Z.of_nat _) with (va_len v + padding_for (va_len v) + 4) by lia. rewrite Z.add_mod, Ha by done. done.
Qed.

Lemma options_run_aligned options : Forall option_ok options → Z.of_nat (length (options_run options)) mod 4 = 0.
Proof.
  induction 1 as [|[[code v]|] options Ho _ IH]; [done| |done]. cbn [options_run]. rewrite length_app, Nat2Z.inj_add, Z.add_mod, IH by done.
  rewrite (option_bytes_aligned code v) by apply Ho. done.
Qed.

Lemma end_option_ok : value_ok Value_EMPTY.
Proof. done. Qed.

Lemma options_bytes_aligned options : Forall option_ok options → Z.of_nat (length (options_bytes options)) mod 4 = 0.
Proof.
  intros Ho. unfold options_bytes. case_match; [|done]. rewrite length_app, Nat2Z.inj_add, Z.add_mod, options_run_aligned by done. done.
Qed.

Lemma read_option_step fuel code v rest :
  0 < code < 2 ^ 16 → value_ok v →
  read_options (S fuel) (option_bytes code v ++ rest) = options ← read_options fuel rest; Some ((code, value_bytes v) :: options).
Proof.
  intros Hc [Hv Hm]. set (bytes := option_bytes code v ++ rest).
  assert (bytes = le_bytes 2 code ++ le_bytes 2 (va_len v) ++ value_bytes v ++ padding (va_len v) ++ rest) as Eb
    by (unfold bytes, option_bytes, value_bytes; by rewrite <- !app_assoc).
  assert (drop 2 bytes = le_bytes 2 (va_len v) ++ value_bytes v ++ padding (va_len v) ++ rest) as E2
    by (rewrite Eb; apply drop_app_exact, length_le_bytes).
  assert (drop 4 bytes = value_bytes v ++ padding (va_len v) ++ rest) as E4.
  { change 4%nat with (2 + 2)%nat. rewrite <- drop_drop, E2. apply drop_app_exact, length_le_bytes. }
  assert (0 ≤ va_len v < 2 ^ (8 * Z.of_nat 2)) as Hlen by (unfold u16_max in Hm; change (2 ^ (8 * Z.of_nat 2)) with 65536; lia).
  pose proof (length_padding (va_len v)) as Hp.
  assert (∃ b bs, bytes = b :: bs) as (b & bs & Ec) by (rewrite Eb; cbn [le_bytes app]; eauto).
  assert (read_options (S fuel) bytes =
    let code := from_le (take 2 bytes) in let len := from_le (take 2 (drop 2 bytes)) in let rest := drop 4 bytes in
    if code =? 0 then if (len =? 0) && (length rest =? 0)%nat then Some [] else None else
    if Z.of_nat (length rest) <? len + padding_for len then None else
    options ← read_options fuel (drop (Z.to_nat (len + padding_for len)) rest); Some ((code, take (Z.to_nat len) rest) :: options)) as ->
    by (rewrite Ec; done).
  rewrite E2, E4, (take_app_exact 2 (le_bytes 2 (va_len v))), from_le_le_bytes by (done || apply length_le_bytes). rewrite Eb.
  rewrite (take_app_exact 2 (le_bytes 2 code)), from_le_le_bytes by (apply length_le_bytes || (change (2 ^ (8 * Z.of_nat 2)) with 65536; lia)).
  cbv zeta. rewrite (proj2 (Z.eqb_neq code 0)) by lia. rewrite (proj2 (Z.ltb_ge _ _)) by (rewrite !length_app; lia).
  rewrite (app_assoc (value_bytes v)), (drop_app_exact _ (value_bytes v ++ padding (va_len v))) by (rewrite length_app; lia).
  rewrite <- app_assoc, (take_app_exact _ (value_bytes v)) by lia. done.
Qed.

Lemma read_options_run fuel options rest tail :
  Forall option_ok options → (length (view_options options) ≤ fuel)%nat → read_options (fuel - length (view_options options)) rest = Some tail →
  read_options fuel (options_run options ++ rest) = Some (view_options options ++ tail).
Proof.
  intros Ho. revert fuel. induction Ho as [|[[code v]|] options Ho Hos IH]; intros fuel Hf Hr.
  - simpl in *. by rewrite Nat.sub_0_r in Hr.
  - cbn [options_run]. change (view_options (Some (code, v) :: options)) with ((code, value_bytes v) :: view_options options) in *.
    cbn [length] in *. destruct fuel as [|fuel]; [lia|]. destruct Ho as [Hc Hv]. rewrite <- app_assoc, read_option_step by done.
    rewrite IH; [done|lia|exact Hr].
  - exact (IH fuel Hf Hr).
Qed.

Lemma view_options_fuel options : (4 * length (view_options options) ≤ length (options_run options))%nat.
Proof.
  induction options as [|[[code v]|] options IH]; [done| |exact IH]. cbn [options_run].
  change (view_options (Some (code, v) :: options)) with ((code, value_bytes v) :: view_options options).
  unfold option_bytes. cbn [length]. rewrite !length_app, !length_le_bytes. lia.
Qed.

Lemma no_options options : existsb is_some_b options = false → view_options options = [].
Proof. induction options as [|[o|] options IH]; [done|done|exact IH]. Qed.

Lemma read_options_bytes fuel options :
  Forall option_ok options → (length (options_bytes options) ≤ fuel)%nat →
  read_options fuel (options_bytes options) = Some (view_options options).
Proof.
  intros Ho Hf. unfold options_bytes in *. destruct (existsb is_some_b options) eqn:E.
  - rewrite (read_options_run fuel options _ []), app_nil_r; [done|done| |].
    + pose proof (view_options_fuel options). rewrite length_app in Hf. lia.
    + pose proof (view_options_fuel options). rewrite length_app in Hf. cbn [length] in Hf. change (length (option_bytes _ _)) with 4%nat in Hf.
      destruct (fuel - length (view_options options))%nat eqn:Ef; [lia|]. done.
  - rewrite no_options by done. by destruct fuel.
Qed.

(** ** A packet's block *)
Record packet_ok (epb : EnhancedPacket) : Prop := {
  pk_interface : is_u32 (ep_interface_id epb);
  pk_timestamp : is_u64 (ep_timestamp epb);
  pk_original : is_u32 (ep_original_len epb)
}.

(** The fields and the options a reader is owed, in the order they are written. *)
Definition owed_option {T} (code : Z) (field : option T) (bytes : T → list Z) : list (Z * list Z) :=
  match field with Some value => [(code, bytes value)] | None => [] end.
Definition packet_view (epb : EnhancedPacket) : PacketView :=
  {| pv_interface_id := ep_interface_id epb; pv_timestamp := ep_timestamp epb; pv_captured := ep_captured epb;
     pv_original_len := ep_original_len epb;
     pv_options :=
       owed_option OPT_COMMENT (ep_comment epb) id ++ owed_option EPB_FLAGS (ep_flags epb) (le_bytes 4)
       ++ owed_option EPB_DROPCOUNT (ep_drop_count epb) (le_bytes 8) ++ owed_option EPB_PACKETID (ep_packet_id epb) (le_bytes 8)
       ++ owed_option EPB_QUEUE (ep_queue epb) (le_bytes 4)
       ++ owed_option EPB_VERDICT (ep_verdict epb) (λ v, vd_kind v :: vd_data v)
       ++ owed_option CUSTOM_BINARY_COPYABLE (ep_custom epb) (λ c, le_bytes 4 (cb_pen c) ++ cb_data c) |}.

Lemma Value_new_ok code inline tail v :
  Value_new code inline tail = Ok v → Inline_len inline = Z.of_nat (length (Inline_as_slice inline)) →
  value_ok v ∧ value_bytes v = Inline_as_slice inline ++ tail.
Proof.
  unfold Value_new. destruct (Z.ltb_spec u16_max (Inline_len inline + Z.of_nat (length tail))); [done|]. intros [= <-] Hi.
  split; [|done]. split; cbn; unfold value_bytes; cbn; rewrite ?length_app; lia.
Qed.

(** One optional field: its option is well formed, and read back as the field's bytes. *)
Lemma option_field {T} code (field : option T) encode bytes o :
  option_ code field encode = Ok o → 0 < code < 2 ^ 16 →
  (∀ x v, encode code x = Ok v → value_ok v ∧ value_bytes v = bytes x) →
  option_ok o ∧ view_options [o] = owed_option code field bytes.
Proof.
  intros H Hc He. unfold option_ in H. destruct field as [x|]; [|by injection H as <-].
  destruct (encode code x) as [v|] eqn:E; [|done]. injection H as <-. destruct (He x v E) as [Hv Hb]. split; [done|].
  unfold view_options. simpl. by rewrite Hb.
Qed.

Lemma text_field code (field : option (list Z)) o :
  option_ code field Value_text = Ok o → 0 < code < 2 ^ 16 → option_ok o ∧ view_options [o] = owed_option code field id.
Proof.
  intros H Hc. apply (option_field _ _ _ id _ H Hc). intros x v Hv. by apply Value_new_ok in Hv.
Qed.
Lemma custom_field code field o :
  option_ code field Value_custom = Ok o → 0 < code < 2 ^ 16 →
  option_ok o ∧ view_options [o] = owed_option code field (λ c, le_bytes 4 (cb_pen c) ++ cb_data c).
Proof. intros H Hc. apply (option_field _ _ _ _ _ H Hc). intros x v Hv. apply Value_new_ok in Hv; done. Qed.
Lemma verdict_field code field o :
  option_ code field Value_verdict = Ok o → 0 < code < 2 ^ 16 →
  option_ok o ∧ view_options [o] = owed_option code field (λ v, vd_kind v :: vd_data v).
Proof. intros H Hc. apply (option_field _ _ _ _ _ H Hc). intros x v Hv. apply Value_new_ok in Hv; done. Qed.
Lemma integer_field {T} code (field : option T) inline :
  0 < code < 2 ^ 16 → (∀ x, Inline_len (inline x) = Z.of_nat (length (Inline_as_slice (inline x)))) →
  (∀ x, Inline_len (inline x) ≤ 8) →
  option_ok (integer_option code field inline)
  ∧ view_options [integer_option code field inline] = owed_option code field (λ x, Inline_as_slice (inline x)).
Proof.
  intros Hc Hi H8. destruct field as [x|]; [|done]. split.
  - split; [done|]. split; cbn; unfold value_bytes; cbn; rewrite ?app_nil_r; [done|]. specialize (H8 x). unfold u16_max. lia.
  - unfold view_options, value_bytes. simpl. by rewrite app_nil_r.
Qed.

Lemma view_options_cons o options : view_options (o :: options) = view_options [o] ++ view_options options.
Proof. unfold view_options. by destruct o as [[code v]|]. Qed.

Lemma packet_options_ok epb options :
  enhanced_packet_options epb = Ok options → Forall option_ok options ∧ view_options options = pv_options (packet_view epb).
Proof.
  unfold enhanced_packet_options. intros H.
  apply result_bind_Ok in H as (comment & Hc & H). apply result_bind_Ok in H as (verdict & Hv & H).
  apply result_bind_Ok in H as (custom & Hb & H). injection H as <-.
  apply text_field in Hc as [Oc Vc]; [|done]. apply verdict_field in Hv as [Ov Vv]; [|done]. apply custom_field in Hb as [Ob Vb]; [|done].
  destruct (integer_field EPB_FLAGS (ep_flags epb) Inline_from_u32) as [O1 V1]; [done|done|done|].
  destruct (integer_field EPB_DROPCOUNT (ep_drop_count epb) Inline_from_u64) as [O2 V2]; [done|done|done|].
  destruct (integer_field EPB_PACKETID (ep_packet_id epb) Inline_from_u64) as [O3 V3]; [done|done|done|].
  destruct (integer_field EPB_QUEUE (ep_queue epb) Inline_from_u32) as [O4 V4]; [done|done|done|].
  split; [by repeat constructor|]. cbn [packet_view pv_options].
  rewrite view_options_cons, (view_options_cons (integer_option EPB_FLAGS _ _)), (view_options_cons (integer_option EPB_DROPCOUNT _ _)),
    (view_options_cons (integer_option EPB_PACKETID _ _)), (view_options_cons (integer_option EPB_QUEUE _ _)), (view_options_cons verdict).
  by rewrite Vc, V1, V2, V3, V4, Vv, Vb.
Qed.

Lemma le_bytes_low n x : le_bytes n (x mod 2 ^ (8 * Z.of_nat n)) = le_bytes n x.
Proof.
  revert x. induction n as [|n IH]; intros x; [done|]. cbn [le_bytes].
  replace (8 * Z.of_nat (S n)) with (8 + 8 * Z.of_nat n) by lia. rewrite Z.pow_add_r by lia. change (2 ^ 8) with 256.
  rewrite Z.rem_mul_r by lia. f_equal.
  - rewrite Z.mul_comm, Z.mod_add, Z.mod_mod by done. done.
  - rewrite Z.mul_comm, Z.div_add, Z.div_small by (done || apply Z.mod_pos_bound; lia). apply IH.
Qed.

Lemma split_timestamp_spec t : is_u64 t → split_timestamp t = (t / 2 ^ 32, t mod 2 ^ 32).
Proof.
  intros Ht. unfold split_timestamp, be_bytes, from_be. set (l := le_bytes 8 t).
  assert (l = le_bytes 4 t ++ le_bytes 4 (t / 2 ^ 32)) as El.
  { unfold l. cbn [le_bytes app]. rewrite !Z.div_div by lia. done. }
  rewrite El, reverse_app, take_app_exact, drop_app_exact by (by rewrite length_reverse, length_le_bytes).
  rewrite !reverse_involutive. f_equal.
  - apply from_le_le_bytes. unfold is_u64, in_u in Ht. change (2 ^ (8 * Z.of_nat 4)) with (2 ^ 32). ints.
  - rewrite <- (le_bytes_low 4 t). apply from_le_le_bytes. apply Z.mod_pos_bound. lia.
Qed.

Lemma Ok_inj {T E} (x y : T) : @Ok T E x = Ok y → x = y.
Proof. by intros [= ->]. Qed.

Lemma read_packet_inner epb body options :
  packet_ok epb → enhanced_packet_body epb = Ok body → Forall option_ok options → view_options options = pv_options (packet_view epb) →
  read_packet {| bk_type := BLOCK_ENHANCED_PACKET; bk_inner := inner_bytes (Body_with_payload body (ep_captured epb)) options |}
  = Some (packet_view epb) ∧ Z.of_nat (length body) = 20.
Proof.
  intros [Hi Ht Ho] Hb Hos Hv. unfold enhanced_packet_body in Hb. apply result_bind_Ok in Hb as (n & Hn & Hb).
  unfold captured_length in Hn. destruct (Z.ltb_spec u32_max (Z.of_nat (length (ep_captured epb)))); [done|].
  destruct (Z.ltb_spec (ep_original_len epb) (Z.of_nat (length (ep_captured epb)))); [done|]. injection Hn as <-.
  rewrite split_timestamp_spec in Hb by done. apply Ok_inj in Hb. set (n := Z.of_nat (length (ep_captured epb))) in *.
  set (tail := ep_captured epb ++ padding n ++ options_bytes options).
  assert (inner_bytes (Body_with_payload body (ep_captured epb)) options = body ++ tail) as -> by done. rewrite <- Hb.
  pose proof (length_padding n) as Hp. assert (0 ≤ n < 2 ^ (8 * Z.of_nat 4)) as Rn by (unfold n, u32_max in *; change (2 ^ (8 * Z.of_nat 4)) with 4294967296; lia).
  split; [|by rewrite !length_app, !length_le_bytes].
  unfold read_packet. cbn [bk_type bk_inner]. rewrite <- !app_assoc.
  set (inner := le_bytes 4 (ep_interface_id epb) ++ _).
  assert (drop 4 inner = le_bytes 4 (ep_timestamp epb / 2 ^ 32) ++ le_bytes 4 (ep_timestamp epb mod 2 ^ 32) ++ le_bytes 4 n ++ le_bytes 4 (ep_original_len epb) ++ tail)
    as E4 by (apply drop_app_exact, length_le_bytes).
  assert (drop 8 inner = le_bytes 4 (ep_timestamp epb mod 2 ^ 32) ++ le_bytes 4 n ++ le_bytes 4 (ep_original_len epb) ++ tail) as E8
    by (change 8%nat with (4 + 4)%nat; rewrite <- drop_drop, E4; apply drop_app_exact, length_le_bytes).
  assert (drop 12 inner = le_bytes 4 n ++ le_bytes 4 (ep_original_len epb) ++ tail) as E12
    by (change 12%nat with (8 + 4)%nat; rewrite <- drop_drop, E8; apply drop_app_exact, length_le_bytes).
  assert (drop 16 inner = le_bytes 4 (ep_original_len epb) ++ tail) as E16
    by (change 16%nat with (12 + 4)%nat; rewrite <- drop_drop, E12; apply drop_app_exact, length_le_bytes).
  assert (drop 20 inner = tail) as E20
    by (change 20%nat with (16 + 4)%nat; rewrite <- drop_drop, E16; apply drop_app_exact, length_le_bytes).
  assert (length inner = (20 + length tail)%nat) as Hl by (unfold inner; rewrite !length_app, !length_le_bytes; lia).
  assert (take 4 inner = le_bytes 4 (ep_interface_id epb)) as E0 by (apply take_app_exact, length_le_bytes).
  rewrite (proj2 (Nat.ltb_ge (length inner) 20)) by lia. cbn [orb negb Z.eqb BLOCK_ENHANCED_PACKET Pos.eqb].
  rewrite E0, E4, E8, E12, E16, E20, !(take_app_exact 4) by apply length_le_bytes.
  rewrite !from_le_le_bytes; [|exact Ho|apply Z.mod_pos_bound; lia| |exact Hi|exact Rn].
  2:{ unfold is_u64, in_u in Ht. change (2 ^ (8 * Z.of_nat 4)) with (2 ^ 32). ints. }
  assert (Z.of_nat (length tail) = n + padding_for n + Z.of_nat (length (options_bytes options))) as Hlt
    by (unfold tail; rewrite !length_app; unfold n in *; lia).
  assert (drop (Z.to_nat (n + padding_for n)) tail = options_bytes options) as Ed
    by (unfold tail; rewrite app_assoc; apply drop_app_exact; rewrite length_app; unfold n in *; lia).
  assert (take (Z.to_nat n) tail = ep_captured epb) as Et by (apply take_app_exact; unfold n; lia).
  cbv zeta. rewrite (proj2 (Z.ltb_ge _ _)) by lia. rewrite Ed, Et.
  rewrite read_options_bytes by (done || lia). cbn [mbind option_bind]. rewrite Hv. unfold packet_view. f_equal. f_equal.
  rewrite Z.mul_comm, <- Z.div_mod by done. done.
Qed.

Lemma inner_aligned body options :
  Z.of_nat (length (bd_fixed body)) mod 4 = 0 → body_ok body → Forall option_ok options → Z.of_nat (length (inner_bytes body options)) mod 4 = 0.
Proof.
  intros Hf Hb Ho. unfold inner_bytes. rewrite !length_app.
  assert (Z.of_nat (length (payload_bytes (bd_payload body))) = Payload_len (bd_payload body)) as Hp
    by (unfold body_ok in Hb; destruct (bd_payload body); simpl; [done|rewrite length_replicate; lia]).
  pose proof (length_padding (Payload_len (bd_payload body))) as Hq. pose proof (padding_aligns (Payload_len (bd_payload body))) as Ha.
  pose proof (options_bytes_aligned options Ho) as Hz.
  set (x := Z.of_nat (length (bd_fixed body))) in *. set (z := Z.of_nat (length (options_bytes options))) in *.
  set (y := Payload_len (bd_payload body) + padding_for (Payload_len (bd_payload body))) in *.
  replace (Z.of_nat _) with (x + (y + z)) by lia. rewrite Z.add_mod, (Z.add_mod y z), Hf, Ha, Hz by done. done.
Qed.

(** What writing a well-formed block leaves is a framed block at the front of the buffer. *)
Lemma write_block_framed t body options out n out' :
  is_u32 t → Z.of_nat (length (bd_fixed body)) mod 4 = 0 → body_ok body → Forall option_ok options → Z.of_nat (length out) ≤ u64_max →
  write_block t body options out = (Ok n, out') →
  ∃ block, framed block ∧ Z.of_nat (length block) = n ∧ out' = block ++ drop (Z.to_nat n) out ∧ n ≤ Z.of_nat (length out)
  ∧ block = framed_bytes t n (inner_bytes body options) ∧ n = block_len body options.
Proof.
  intros Ht Hf Hb Ho Hout. rewrite write_block_spec by done. destruct (Z.ltb_spec u32_max (block_len body options)) as [|Hs]; [done|].
  destruct (Z.ltb_spec (Z.of_nat (length out)) (block_len body options)); [done|]. intros Heq.
  assert (n = block_len body options) as -> by congruence.
  exists (framed_bytes t (block_len body options) (inner_bytes body options)).
  split; [|split; [|split; [congruence|done]]].
  - exists t, (inner_bytes body options). split_all; [done|by apply inner_aligned|exact Hs|done].
  - by rewrite length_framed.
Qed.

Lemma walk_single t inner :
  is_u32 t → Z.of_nat (length inner) mod 4 = 0 → 12 + Z.of_nat (length inner) ≤ u32_max →
  walk_file (framed_bytes t (12 + Z.of_nat (length inner)) inner) = Some [{| bk_type := t; bk_inner := inner |}].
Proof.
  intros Ht Ha Hf. unfold walk_file. pose proof (length_framed t (12 + Z.of_nat (length inner)) inner) as Hl.
  destruct (length (framed_bytes _ _ inner)) as [|fuel] eqn:E; [lia|].
  rewrite <- (app_nil_r (framed_bytes _ _ inner)), walk_framed by done. by destruct fuel.
Qed.

(** C33. writing a packet into any buffer does one of two things. It answers the length the
    measuring pass predicted and leaves at the front of the buffer a block a reader walks as one
    packet block with the packet's interface, instant, bytes, wire length and options, in order,
    nothing past it touched; or it answers an error and leaves the buffer as it was: the
    measuring pass's own, or a buffer shorter than the length it names. *)
Theorem packet_block_round_trip epb out :
  packet_ok epb → Z.of_nat (length out) ≤ u64_max →
  match write_enhanced_packet epb out with
  | (Ok n, out') =>
      enhanced_packet_len epb = Ok n ∧ 0 ≤ n ≤ Z.of_nat (length out) ∧ drop (Z.to_nat n) out' = drop (Z.to_nat n) out
      ∧ ∃ block, walk_file (take (Z.to_nat n) out') = Some [block] ∧ read_packet block = Some (packet_view epb)
  | (Err e, out') =>
      out' = out
      ∧ (enhanced_packet_len epb = Err e
         ∨ ∃ n, enhanced_packet_len epb = Ok n ∧ Z.of_nat (length out) < n ∧ e = OutOfSpace n (Z.of_nat (length out)))
  end.
Proof.
  intros Hp Hout. unfold write_enhanced_packet, enhanced_packet_len.
  destruct (enhanced_packet_options epb) as [options|e] eqn:Eo; [|by split; [|left]]. cbn [result_bind].
  destruct (enhanced_packet_body epb) as [body|e] eqn:Eb; [|by split; [|left]]. cbn [result_bind].
  destruct (packet_options_ok _ _ Eo) as [Ho Hv]. destruct (read_packet_inner _ _ _ Hp Eb Ho Hv) as [Hread Hlen].
  rewrite measure_spec, write_block_spec by done. set (B := Body_with_payload body (ep_captured epb)) in *.
  destruct (Z.ltb_spec u32_max (block_len B options)) as [|Hs]; [by split; [|left]|].
  destruct (Z.ltb_spec (Z.of_nat (length out)) (block_len B options)); [split; [done|right; by exists (block_len B options)]|].
  assert (0 ≤ block_len B options) by (unfold block_len; lia).
  assert (Z.of_nat (length (inner_bytes B options)) mod 4 = 0) as Ha by (apply inner_aligned; [unfold B; simpl; by rewrite Hlen|done|done]).
  assert (length (framed_bytes BLOCK_ENHANCED_PACKET (block_len B options) (inner_bytes B options)) = Z.to_nat (block_len B options)) as Hl
    by (pose proof (length_framed BLOCK_ENHANCED_PACKET (block_len B options) (inner_bytes B options)); unfold block_len in *; lia).
  split; [done|]. split; [lia|]. split; [by rewrite drop_app_exact|].
  rewrite take_app_exact by done. eexists. split; [apply walk_single; [done|done|exact Hs]|exact Hread].
Qed.

Definition sample_packet : EnhancedPacket :=
  {| ep_interface_id := 1; ep_timestamp := 5000000000; ep_captured := [1; 2; 3; 4; 5]; ep_original_len := 60; ep_flags := Some 1;
     ep_drop_count := Some 0; ep_packet_id := Some 7; ep_queue := None; ep_verdict := Some {| vd_kind := 255; vd_data := [0] |};
     ep_custom := Some {| cb_pen := UNREGISTERED_PEN; cb_data := [3; 0; 0; 0] |}; ep_comment := None |}.

Lemma packet_block_round_trip_witness :
  ∃ n out block, write_enhanced_packet sample_packet (replicate 200 9) = (Ok n, out)
  ∧ walk_file (take (Z.to_nat n) out) = Some [block] ∧ read_packet block = Some (packet_view sample_packet).
Proof.
  pose proof (packet_block_round_trip sample_packet (replicate 200 9)) as H.
  assert (packet_ok sample_packet) as Hp by (constructor; unfold is_u32, is_u64, in_u; cbn; lia).
  assert (Z.of_nat (length (replicate 200 9)) ≤ u64_max) as Hl by (rewrite length_replicate; unfold u64_max; lia).
  specialize (H Hp Hl). destruct (write_enhanced_packet sample_packet (replicate 200 9)) as [[n|e] out] eqn:E.
  - destruct H as (_ & _ & _ & block & Hw & Hr). exists n, out, block. split; [reflexivity|]. split; [exact Hw|exact Hr].
  - exfalso. clear H. vm_compute in E. discriminate E.
Defined.
