(* ===== verification/Recorder.v ===== *)
(** * One recording sink

    Models [datad/crates/recorder/src/lib.rs]: pcapng blocks appended to a recording ring through
    a staging buffer, flushed to the device in whole sectors and found again by position. An
    operation that borrows the staging buffer takes it and answers it with the sink. *)
From Stdlib Require Import String Ascii.
From S2P Require Import Prelude Layout Shared WireTap Pcapng CaptureRing CaptureSuperblock.

Definition MAX_INTERFACES : nat := 8.
Definition MAX_INTERFACE_NAME : nat := 16.
Definition TAIL_RESERVE : Z := 2 * SECTOR_SIZE.
Definition ANNOTATION_VERSION : Z := 3.
Definition ANNOTATION_LEN : nat := 24.
Definition ANNOTATION_VERDICT_FORWARDED : Z := 0.
Definition ANNOTATION_VERDICT_DROPPED : Z := 1.
Definition ANNOTATION_VERDICT_REVOKED : Z := 2.
Definition ANNOTATION_AT_VERSION : nat := 0.
Definition ANNOTATION_AT_VERDICT : nat := 1.
Definition ANNOTATION_AT_DROP_REASON : nat := 2.
Definition ANNOTATION_AT_INTERFACE : nat := 3.
Definition ANNOTATION_AT_DIRECTION : nat := 4.
Definition ANNOTATION_AT_CLASSIFICATION : nat := 5.
Definition ANNOTATION_AT_EVENT : nat := 6.
Definition ANNOTATION_AT_FLOW_STATE : nat := 7.
Definition ANNOTATION_AT_GENERATION : nat := 8.
Definition ANNOTATION_AT_FLOW_SLOT : nat := 12.
Definition ANNOTATION_AT_FLOW_GENERATION : nat := 16.
Definition ANNOTATION_AT_RULE : nat := 20.
Definition FLAGS_INBOUND : Z := 1.
Definition FLAGS_OUTBOUND : Z := 2.
Definition VERDICT_KIND : Z := 0xFF.

(** ** Interface names *)
Definition is_cont (b : Z) : bool := (0x80 <=? b) && (b <=? 0xBF).
(** [core::str::from_utf8] accepts exactly the well-formed sequences of the Unicode table. *)
Fixpoint utf8_valid (bytes : list Z) : bool :=
  match bytes with
  | [] => true
  | a :: bytes =>
      if a <? 0x80 then utf8_valid bytes else
      match bytes with
      | [] => false
      | b :: bytes =>
          if (0xC2 <=? a) && (a <=? 0xDF) && is_cont b then utf8_valid bytes else
          match bytes with
          | [] => false
          | c :: bytes =>
              if ((a =? 0xE0) && (0xA0 <=? b) && (b <=? 0xBF) || (a =? 0xED) && (0x80 <=? b) && (b <=? 0x9F)
                  || ((0xE1 <=? a) && (a <=? 0xEC) || (a =? 0xEE) || (a =? 0xEF)) && is_cont b) && is_cont c
              then utf8_valid bytes else
              match bytes with
              | [] => false
              | d :: bytes =>
                  if ((a =? 0xF0) && (0x90 <=? b) && (b <=? 0xBF) || (a =? 0xF4) && (0x80 <=? b) && (b <=? 0x8F)
                      || (0xF1 <=? a) && (a <=? 0xF3) && is_cont b) && is_cont c && is_cont d
                  then utf8_valid bytes else false
              end
          end
      end
  end.

Record InterfaceName := { in_bytes : list Z; in_len : nat }.
Definition InterfaceName_new (name : list Z) : InterfaceName :=
  let len := if (length name <? MAX_INTERFACE_NAME)%nat then length name else MAX_INTERFACE_NAME in
  {| in_bytes := list_inserts 0 (take len name) (replicate MAX_INTERFACE_NAME 0); in_len := len |}.
Definition InterfaceName_as_str (n : InterfaceName) : list Z :=
  if (in_len n <=? length (in_bytes n))%nat && utf8_valid (take (in_len n) (in_bytes n)) then take (in_len n) (in_bytes n) else [].
Definition EMPTY_NAME : InterfaceName := {| in_bytes := replicate MAX_INTERFACE_NAME 0; in_len := 0 |}.

Record SinkConfig := { sg_geometry : Geometry; sg_snap_len : Z; sg_interfaces : list InterfaceName; sg_interface_count : nat }.

Inductive SinkError :=
| TooManyInterfaces (count : Z)
| PrologueTooLong (prologue segment : Z)
| Encode (error : EncodeError)
| State (error : RingStateError).

Inductive Recorded :=
| Recorded_Placed (bytes : Z)
| Recorded_SegmentFull
| Recorded_Oversized (needed : Z)
| Recorded_StagingFull (needed free : Z)
| Recorded_Refused (error : EncodeError).

Record Flush := { fl_sector : Z; fl_len : Z }.
Record Span := { sp_sector : Z; sp_skip : Z; sp_len : Z }.
Definition Span_sectors (s : Span) : Z := (sp_skip s + sp_len s + SECTOR_SIZE - 1) / SECTOR_SIZE.
Inductive Locate := Locate_Live (span : Span) | Locate_PastEnd | Locate_Overrun.

Record SinkCounters := {
  sc_records : Z; sc_record_bytes : Z; sc_dropped_oversized : Z; sc_staging_deferrals : Z; sc_dropped_refused : Z;
  sc_segments_closed : Z; sc_wraps : Z; sc_sectors_written : Z; sc_padding_bytes : Z
}.
#[export] Instance SinkCounters_eta : Eta SinkCounters := λ c,
  {| sc_records := sc_records c; sc_record_bytes := sc_record_bytes c; sc_dropped_oversized := sc_dropped_oversized c;
     sc_staging_deferrals := sc_staging_deferrals c; sc_dropped_refused := sc_dropped_refused c;
     sc_segments_closed := sc_segments_closed c; sc_wraps := sc_wraps c; sc_sectors_written := sc_sectors_written c;
     sc_padding_bytes := sc_padding_bytes c |}.
Definition SinkCounters_zero : SinkCounters :=
  {| sc_records := 0; sc_record_bytes := 0; sc_dropped_oversized := 0; sc_staging_deferrals := 0; sc_dropped_refused := 0;
     sc_segments_closed := 0; sc_wraps := 0; sc_sectors_written := 0; sc_padding_bytes := 0 |}.

Definition CHANNEL_READER_ID : Z := 1.

Record Sink := {
  sk_ring : Ring; sk_snap_len : Z; sk_interfaces : list InterfaceName; sk_interface_count : nat; sk_staged_sequence : Z;
  sk_staged_from : Z; sk_staged_len : Z; sk_durable : Cursor; sk_reader : option Cursor; sk_superblock_stale : bool;
  sk_flushing : bool; sk_pending_drops : Z; sk_counters : SinkCounters
}.
#[export] Instance Sink_eta : Eta Sink := λ s,
  {| sk_ring := sk_ring s; sk_snap_len := sk_snap_len s; sk_interfaces := sk_interfaces s;
     sk_interface_count := sk_interface_count s; sk_staged_sequence := sk_staged_sequence s; sk_staged_from := sk_staged_from s;
     sk_staged_len := sk_staged_len s; sk_durable := sk_durable s; sk_reader := sk_reader s;
     sk_superblock_stale := sk_superblock_stale s; sk_flushing := sk_flushing s; sk_pending_drops := sk_pending_drops s;
     sk_counters := sk_counters s |}.

(** ** The prologue *)
Definition str (s : String.string) : list Z := (λ c, Z.of_N (Ascii.N_of_ascii c)) <$> String.list_ascii_of_string s.

Definition prologue_header : SectionHeader :=
  {| sh_hardware := None; sh_os := Some (str "librefirewall"%string); sh_application := Some (str "librefirewall recorder"%string);
     sh_schema := Some {| cb_pen := UNREGISTERED_PEN; cb_data := [ANNOTATION_VERSION; 0; 0; 0] |} |}.
Definition prologue_interface (snap_len : Z) (name : InterfaceName) : InterfaceDescription :=
  {| id_link_type := LinkType_ETHERNET; id_snap_len := snap_len; id_name := Some (InterfaceName_as_str name); id_description := None;
     id_speed := None; id_timestamp_resolution := TimestampResolution_MICROSECONDS |}.

Definition map_err {T E F} (f : E → F) (r : Result T E) : Result T F := match r with Ok x => Ok x | Err e => Err (f e) end.

(** The loop over the interfaces from [index], [remaining] of them. *)
Fixpoint prologue_len_loop (config : SinkConfig) (index remaining : nat) (total : Z) : Result Z SinkError :=
  match remaining with
  | O => Ok total
  | S remaining =>
      let name := default EMPTY_NAME (sg_interfaces config !! index) in
      try! len <- map_err Encode (interface_description_len (prologue_interface (sg_snap_len config) name));
      if u64_max <? total + len then Err (PrologueTooLong u64_max (ge_segment_bytes (sg_geometry config))) else
      prologue_len_loop config (S index) remaining (total + len)
  end.
Definition prologue_len (config : SinkConfig) : Result Z SinkError :=
  if (MAX_INTERFACES <? sg_interface_count config)%nat then Err (TooManyInterfaces (Z.of_nat (sg_interface_count config))) else
  try! total <- map_err Encode (section_header_len prologue_header);
  prologue_len_loop config 0 (sg_interface_count config) total.

Definition payload_fits (prologue segment_bytes : Z) : bool :=
  if u64_max <? prologue + TAIL_RESERVE then false else prologue + TAIL_RESERVE <? segment_bytes.

(** [write] into [staging.get_mut(at..).unwrap_or_default()]. *)
Definition write_tail {R} (staging : list Z) (at_ : Z) (write : list Z → R * list Z) : R * list Z :=
  if Z.of_nat (length staging) <? at_ then ((write []).1, staging)
  else let '(r, out) := write (drop (Z.to_nat at_) staging) in (r, take (Z.to_nat at_) staging ++ out).

Fixpoint write_interfaces (s : Sink) (at_ : Z) (index remaining : nat) (written : Z) (staging : list Z) : Result Z EncodeError * list Z :=
  match remaining with
  | O => (Ok written, staging)
  | S remaining =>
      let name := default EMPTY_NAME (sk_interfaces s !! index) in
      match write_tail staging (at_ + written) (write_interface_description (prologue_interface (sk_snap_len s) name)) with
      | (Ok len, staging) => write_interfaces s at_ (S index) remaining (written + len) staging
      | (Err e, staging) => (Err e, staging)
      end
  end.
Definition Sink_write_prologue (s : Sink) (staging : list Z) : Result Z EncodeError * (Sink * list Z) :=
  let at_ := sk_staged_len s in
  match write_tail staging at_ (write_section_header prologue_header) with
  | (Err e, staging) => (Err e, (s, staging))
  | (Ok header, staging) =>
      match write_interfaces s at_ 0 (sk_interface_count s) header staging with
      | (Err e, staging) => (Err e, (s, staging))
      | (Ok written, staging) => (Ok written, (s <| sk_staged_len ::= λ n, saturating_add 64 n written |>, staging))
      end
  end.

(** ** Padding *)
Definition Sink_pad (pad : Z) (s : Sink) (staging : list Z) : Result Z EncodeError * (Sink * list Z) :=
  if pad <? MIN_CUSTOM_BLOCK_LEN then (Err (BlockTooShort pad), (s, staging)) else
  match write_tail staging (sk_staged_len s) (write_padding_block pad) with
  | (Err e, staging) => (Err e, (s, staging))
  | (Ok written, staging) =>
      match Ring_append written (sk_ring s) with
      | (Placed placement, ring) =>
          (Ok written,
           (s <| sk_ring := (Reservation_commit placement ring).2 |> <| sk_staged_len ::= λ n, saturating_add 64 n written |>
              <| sk_counters ::= λ c, c <| sc_padding_bytes ::= λ n, saturating_add 64 n written |> |>, staging))
      | (_, ring) => (Err (OutOfSpace written (Ring_slack ring)), (s <| sk_ring := ring |>, staging))
      end
  end.

Definition Sink_seal (s : Sink) (staging : list Z) : Result Z EncodeError * (Sink * list Z) :=
  let remainder := cu_offset (rg_cursor (sk_ring s)) mod SECTOR_SIZE in
  if remainder =? 0 then (Ok 0, (s, staging)) else
  let pad := SECTOR_SIZE - remainder in
  let pad := if pad <? MIN_CUSTOM_BLOCK_LEN then pad + SECTOR_SIZE else pad in
  Sink_pad pad s staging.

Definition Sink_close_segment (s : Sink) (staging : list Z) : Result Z EncodeError * (Sink * list Z) :=
  let pad := Ring_slack (sk_ring s) in
  let '(padded, (s, staging)) := if pad =? 0 then (Ok 0, (s, staging)) else Sink_pad pad s staging in
  match padded with
  | Err e => (Err e, (s, staging))
  | Ok padded => (Ok padded, (s <| sk_counters ::= λ c, c <| sc_segments_closed ::= bump |> |>, staging))
  end.

Definition Sink_begin_segment (s : Sink) (staging : list Z) : Result Z EncodeError * (Sink * list Z) :=
  let before := rc_wraps (rg_counters (sk_ring s)) in
  let s := s <| sk_ring := (Ring_roll (sk_ring s)).2 |> in
  let s := s <| sk_counters ::= λ c, c <| sc_wraps ::= λ n, saturating_add 64 n (saturating_sub (rc_wraps (rg_counters (sk_ring s))) before) |> |> in
  let s := s <| sk_staged_sequence := cu_sequence (rg_cursor (sk_ring s)) |> <| sk_staged_from := 0 |> <| sk_staged_len := 0 |> in
  Sink_write_prologue s staging.

(** ** Opening *)
Definition Sink_new (config : SinkConfig) (staging : list Z) : Result Sink SinkError * list Z :=
  match prologue_len config with
  | Err e => (Err e, staging)
  | Ok prologue =>
      if negb (payload_fits prologue (ge_segment_bytes (sg_geometry config)))
      then (Err (PrologueTooLong prologue (ge_segment_bytes (sg_geometry config))), staging) else
      let s := {| sk_ring := Ring_new (sg_geometry config) prologue; sk_snap_len := sg_snap_len config;
                  sk_interfaces := sg_interfaces config; sk_interface_count := sg_interface_count config; sk_staged_sequence := 0;
                  sk_staged_from := 0; sk_staged_len := 0; sk_durable := {| cu_sequence := 0; cu_offset := 0 |}; sk_reader := None;
                  sk_superblock_stale := true; sk_flushing := false; sk_pending_drops := 0; sk_counters := SinkCounters_zero |} in
      match Sink_write_prologue s staging with
      | (Ok _, (s, staging)) => (Ok s, staging)
      | (Err e, (_, staging)) => (Err (Encode e), staging)
      end
  end.

Definition Sink_resume (config : SinkConfig) (state : RingState) (staging : list Z) : Result Sink SinkError * list Z :=
  match RingState_check state (sg_geometry config) with
  | Err e => (Err (State e), staging)
  | Ok checked =>
      if negb (cu_offset (ck_writer checked) mod SECTOR_SIZE =? 0)
      then (Err (State (WriterOffsetNotSectorMultiple (cu_offset (ck_writer checked)))), staging) else
      match Sink_new config staging with
      | (Err e, staging) => (Err e, staging)
      | (Ok s, staging) =>
          let prologue := rg_prologue_len (sk_ring s) in
          let ring := Ring_resume checked prologue in
          let at_ := rg_cursor ring in
          let s := s <| sk_ring := ring |> <| sk_staged_sequence := cu_sequence at_ |> <| sk_staged_from := cu_offset at_ |>
                     <| sk_staged_len := 0 |> <| sk_durable := at_ |>
                     <| sk_reader := rd_cursor <$> List.find (λ reader, rd_id reader =? CHANNEL_READER_ID) (ck_readers checked) |>
                     <| sk_superblock_stale := false |> in
          match Ring_fit prologue (sk_ring s) with
          | Fits _ =>
              match Ring_append prologue (sk_ring s) with
              | (Placed placement, ring) =>
                  let s := s <| sk_ring := (Reservation_commit placement ring).2 |> in
                  match Sink_write_prologue s staging with
                  | (Ok _, (s, staging)) => (Ok s, staging)
                  | (Err e, (_, staging)) => (Err (Encode e), staging)
                  end
              | (_, ring) => (Ok (s <| sk_ring := ring |>), staging)
              end
          | _ =>
              match Sink_close_segment s staging with
              | (Ok _, (s, staging)) => (Ok s, staging)
              | (Err e, (_, staging)) => (Err (Encode e), staging)
              end
          end
      end
  end.

(** ** Recording *)
Definition annotation_verdict (tap : CheckedTap) : Z :=
  match ck_outcome tap with
  | TO_Forwarded => ANNOTATION_VERDICT_FORWARDED
  | TO_Dropped _ => ANNOTATION_VERDICT_DROPPED
  | TO_Revoked => ANNOTATION_VERDICT_REVOKED
  end.

Definition Sink_annotation (tap : CheckedTap) : list Z :=
  let drop_reason := match ck_outcome tap with TO_Forwarded | TO_Revoked => 0 | TO_Dropped reason => wrap 8 (TapDropReason_to_bits reason) end in
  let octets :=
    [(ANNOTATION_AT_VERSION, ANNOTATION_VERSION); (ANNOTATION_AT_VERDICT, annotation_verdict tap);
     (ANNOTATION_AT_DROP_REASON, drop_reason); (ANNOTATION_AT_INTERFACE, ck_interface_id tap);
     (ANNOTATION_AT_DIRECTION, match ck_direction tap with Some Inbound | None => 0 | Some Outbound => 1 end);
     (ANNOTATION_AT_CLASSIFICATION,
      match ck_flow tap ≫= tf_classification with Some classification => wrap 8 (TapClassification_to_bits classification) | None => 0 end);
     (ANNOTATION_AT_EVENT, match ck_event tap with Some event => wrap 8 (TapEvent_to_bits event) | None => 0 end);
     (ANNOTATION_AT_FLOW_STATE, match ck_flow tap with Some flow => wrap 8 (TapFlowState_to_bits (tf_state flow)) | None => 0 end)] in
  let annotation := foldl (λ annotation p, <[p.1 := p.2]> annotation) (replicate ANNOTATION_LEN 0) octets in
  let words :=
    [(ANNOTATION_AT_GENERATION, ck_generation tap); (ANNOTATION_AT_FLOW_SLOT, from_option tf_slot 0 (ck_flow tap));
     (ANNOTATION_AT_FLOW_GENERATION, from_option tf_generation 0 (ck_flow tap))] in
  let annotation := foldl (λ annotation p, list_inserts p.1 (le_bytes 4 p.2) annotation) annotation words in
  let rule := from_option (λ rule, saturating_add 16 (tap_rule_position rule) 1) 0 (ck_rule tap) in
  list_inserts ANNOTATION_AT_RULE (le_bytes 2 rule) annotation.

(** [write] into the staging a record may use. *)
Definition Sink_write_free {R} (s : Sink) (staging : list Z) (write : list Z → R * list Z) : R * list Z :=
  let end_ := saturating_sub (Z.of_nat (length staging)) TAIL_RESERVE in
  if end_ <? sk_staged_len s then ((write []).1, staging)
  else let '(r, out) := write (slice staging (Z.to_nat (sk_staged_len s)) (Z.to_nat (end_ - sk_staged_len s))) in
       (r, take (Z.to_nat (sk_staged_len s)) staging ++ out ++ drop (Z.to_nat end_) staging).

Definition count_refused (s : Sink) : Sink := s <| sk_counters ::= λ c, c <| sc_dropped_refused ::= bump |> |>.
Definition count_oversized (s : Sink) : Sink := s <| sk_counters ::= λ c, c <| sc_dropped_oversized ::= bump |> |>.

Definition Sink_packet (tap : CheckedTap) (frame : list Z) (s : Sink) : EnhancedPacket :=
  let captured_len := Z.min (Z.of_nat (length frame)) (sk_snap_len s) in
  {| ep_interface_id := ck_interface_id tap; ep_timestamp := ck_timestamp tap; ep_captured := take (Z.to_nat captured_len) frame;
     ep_original_len := ck_original_len tap;
     ep_flags := (λ direction, match direction with Inbound => FLAGS_INBOUND | Outbound => FLAGS_OUTBOUND end) <$> ck_direction tap;
     ep_drop_count := Some (sk_pending_drops s); ep_packet_id := Some (ck_packet_id tap); ep_queue := None;
     ep_verdict := Some {| vd_kind := VERDICT_KIND; vd_data := [annotation_verdict tap] |};
     ep_custom := Some {| cb_pen := UNREGISTERED_PEN; cb_data := Sink_annotation tap |}; ep_comment := None |}.

Definition Sink_record (tap : CheckedTap) (frame : list Z) (s : Sink) (staging : list Z) : Recorded * (Sink * list Z) :=
  let epb := Sink_packet tap frame s in
  match enhanced_packet_len epb with
  | Err error => (Recorded_Refused error, (count_refused s, staging))
  | Ok needed =>
      let claim := saturating_add 64 needed TAIL_RESERVE in
      if Ring_segment_payload (sk_ring s) <? claim then (Recorded_Oversized needed, (count_oversized s, staging)) else
      if Ring_slack (sk_ring s) <? claim then (Recorded_SegmentFull, (s, staging)) else
      match Sink_write_free s staging (write_enhanced_packet epb) with
      | (Err (OutOfSpace needed capacity), staging) =>
          (Recorded_StagingFull needed capacity, (s <| sk_counters ::= λ c, c <| sc_staging_deferrals ::= bump |> |>, staging))
      | (Err error, staging) => (Recorded_Refused error, (count_refused s, staging))
      | (Ok written, staging) =>
          match Ring_append written (sk_ring s) with
          | (Append_SegmentFull, ring) => (Recorded_SegmentFull, (s <| sk_ring := ring |>, staging))
          | (Append_Oversized _ _, ring) => (Recorded_Oversized written, (count_oversized (s <| sk_ring := ring |>), staging))
          | (Placed placement, ring) =>
              (Recorded_Placed written,
               (s <| sk_ring := (Reservation_commit placement ring).2 |> <| sk_staged_len ::= λ n, saturating_add 64 n written |>
                  <| sk_pending_drops := 0 |>
                  <| sk_counters ::= λ c, c <| sc_records ::= bump |> <| sc_record_bytes ::= λ n, saturating_add 64 n written |> |>, staging))
          end
      end
  end.

Definition Sink_block (data : list Z) (s : Sink) (staging : list Z) : Recorded * (Sink * list Z) :=
  let body := {| cb_pen := UNREGISTERED_PEN; cb_data := data |} in
  match custom_block_len body with
  | Err error => (Recorded_Refused error, (s, staging))
  | Ok needed =>
      let claim := saturating_add 64 needed TAIL_RESERVE in
      if Ring_segment_payload (sk_ring s) <? claim then (Recorded_Oversized needed, (s, staging)) else
      if Ring_slack (sk_ring s) <? claim then (Recorded_SegmentFull, (s, staging)) else
      match Sink_write_free s staging (write_custom_block body) with
      | (Err (OutOfSpace needed capacity), staging) => (Recorded_StagingFull needed capacity, (s, staging))
      | (Err error, staging) => (Recorded_Refused error, (s, staging))
      | (Ok written, staging) =>
          match Ring_append written (sk_ring s) with
          | (Append_SegmentFull, ring) => (Recorded_SegmentFull, (s <| sk_ring := ring |>, staging))
          | (Append_Oversized _ _, ring) => (Recorded_Oversized written, (s <| sk_ring := ring |>, staging))
          | (Placed placement, ring) =>
              (Recorded_Placed written,
               (s <| sk_ring := (Reservation_commit placement ring).2 |> <| sk_staged_len ::= λ n, saturating_add 64 n written |>, staging))
          end
      end
  end.

Definition Sink_note_drops (drops : Z) (s : Sink) : Sink := s <| sk_pending_drops ::= λ n, saturating_add 64 n drops |>.

(** ** Flushing *)
Definition Sink_take_flush (s : Sink) (staging : list Z) : option Flush * (Sink * list Z) :=
  if sk_flushing s then (None, (s, staging)) else
  match Sink_seal s staging with
  | (Err _, (s, staging)) => (None, (s, staging))
  | (Ok _, (s, staging)) =>
      let whole := sk_staged_len s / SECTOR_SIZE * SECTOR_SIZE in
      if whole =? 0 then (None, (s, staging)) else
      let sector := saturating_add 64 (Geometry_segment_sector (rg_geometry (sk_ring s)) (sk_staged_sequence s))
                      (sk_staged_from s / SECTOR_SIZE) in
      (Some {| fl_sector := sector; fl_len := whole |}, (s <| sk_flushing := true |>, staging))
  end.

Definition Sink_acknowledge (flush : Flush) (s : Sink) (staging : list Z) : Sink * list Z :=
  let len := fl_len flush in
  let s := s <| sk_flushing := false |> in
  let tail := saturating_sub (sk_staged_len s) len in
  let staging :=
    if Z.of_nat (length staging) <? sk_staged_len s then staging
    else list_inserts 0 (slice staging (Z.to_nat (Z.min len (sk_staged_len s))) (Z.to_nat (sk_staged_len s - Z.min len (sk_staged_len s)))) staging in
  let s := s <| sk_staged_from ::= λ n, saturating_add 64 n len |> <| sk_staged_len := tail |> in
  let s := s <| sk_durable :=
                  if ge_segment_bytes (rg_geometry (sk_ring s)) <=? sk_staged_from s
                  then {| cu_sequence := saturating_add 64 (sk_staged_sequence s) 1; cu_offset := 0 |}
                  else {| cu_sequence := sk_staged_sequence s; cu_offset := sk_staged_from s |} |> in
  (s <| sk_counters ::= λ c, c <| sc_sectors_written ::= λ n, saturating_add 64 n (len / SECTOR_SIZE) |> |>, staging).

(** ** The superblock *)
Definition Sink_superblock (image : list Z) (s : Sink) : Result SuperblockWrite RingStateError * (Sink * list Z) :=
  let readers := match sk_reader s with Some cursor => [{| rd_id := CHANNEL_READER_ID; rd_cursor := cursor |}] | None => [] end in
  match Ring_checkpoint (sk_durable s) readers (sk_ring s) with
  | (Err e, ring) => (Err e, (s <| sk_ring := ring |>, image))
  | (Ok state, ring) =>
      let copies := if sk_superblock_stale s then Both else Parity in
      let '(write, image) := encode_superblock image state copies in
      (Ok write, (s <| sk_ring := ring |>, image))
  end.
Definition Sink_acknowledge_checkpoint (s : Sink) : Sink := s <| sk_superblock_stale := false |>.

(** ** Positions *)
Definition Sink_durable_position (s : Sink) : Z :=
  saturating_add 64 (saturating_mul 64 (cu_sequence (sk_durable s)) (ge_segment_bytes (rg_geometry (sk_ring s)))) (cu_offset (sk_durable s)).
Definition Sink_first_position (s : Sink) : Z :=
  let '(oldest, _) := Ring_readable (sk_ring s) in saturating_mul 64 oldest (ge_segment_bytes (rg_geometry (sk_ring s))).

Definition Sink_find (position : Z) (s : Sink) : Locate * Sink :=
  let durable := Sink_durable_position s in
  if durable <=? position then (Locate_PastEnd, s) else
  let segment := ge_segment_bytes (rg_geometry (sk_ring s)) in
  if segment =? 0 then (Locate_PastEnd, s) else
  if position <? Sink_first_position s then (Locate_Overrun, s) else
  let sequence := position / segment in
  let within := position mod segment in
  let '(located, ring) := Ring_locate sequence within (sk_ring s) in
  let s := s <| sk_ring := ring |> in
  match located with
  | Live placement =>
      (Locate_Live {| sp_sector := saturating_add 64 (pl_sector placement) (within / SECTOR_SIZE); sp_skip := within mod SECTOR_SIZE;
                      sp_len := Z.min (pl_len placement) (saturating_sub durable position) |}, s)
  | Overrun _ _ => (Locate_Overrun, s)
  | Unwritten => (Locate_PastEnd, s)
  end.

Definition cursor_le (a b : Cursor) : bool :=
  (cu_sequence a <? cu_sequence b) || (cu_sequence a =? cu_sequence b) && (cu_offset a <=? cu_offset b).
Definition Sink_acknowledge_reader (position : Z) (s : Sink) : bool * Sink :=
  let segment := ge_segment_bytes (rg_geometry (sk_ring s)) in
  if segment =? 0 then (false, s) else
  let bounded := Z.min (Z.max position (Sink_first_position s)) (Sink_durable_position s) in
  let sequence := bounded / segment in
  let cursor := if cu_sequence (sk_durable s) <? sequence then sk_durable s
                else {| cu_sequence := sequence; cu_offset := bounded mod segment |} in
  match sk_reader s with
  | Some held => if cursor_le cursor held then (false, s) else (true, s <| sk_reader := Some cursor |>)
  | None => (true, s <| sk_reader := Some cursor |>)
  end.
