(* ===== verification/RecorderGeometry.v ===== *)
(** * Where a position of a recording is on the device

    A recording is addressed by position, [sequence * segment_bytes + offset]; the geometry puts
    a position at a byte of the device. The positions still readable are at bytes of their own
    ([address_inj]). *)
From S2P Require Import Prelude CaptureRing CaptureSuperblock CaptureCrc CaptureSuperblockFacts.

(** What [Geometry_new] establishes of the fields it fills in. *)
Record geometry_facts (g : Geometry) : Prop := {
  gf_segment : ge_segment_bytes g = ge_segment_sectors g * SECTOR_SIZE;
  gf_sectors : ge_sectors g = ge_segment_sectors g * (ge_segments g + 1);
  gf_small : MIN_SEGMENT_BYTES ≤ ge_segment_bytes g;
  gf_segments : MIN_PAYLOAD_SEGMENTS ≤ ge_segments g;
  gf_start : 0 ≤ ge_start_sector g;
  gf_end : ge_start_sector g + ge_sectors g ≤ u64_max;
  gf_bytes : ge_sectors g * SECTOR_SIZE ≤ u64_max
}.

Lemma Geometry_new_facts start sectors segment_bytes capacity g :
  is_u64 start → is_u64 sectors → is_u64 segment_bytes → is_u64 capacity →
  Geometry_new start sectors segment_bytes capacity = Ok g → geometry_facts g.
Proof.
  intros H1 H2 H3 H4. unfold Geometry_new.
  destruct (Z.eqb_spec (segment_bytes mod SECTOR_SIZE) 0) as [Hm|]; [|done]. cbn [negb].
  destruct (Z.ltb_spec segment_bytes MIN_SEGMENT_BYTES); [done|].
  destruct (Z.eqb_spec (sectors mod (segment_bytes / SECTOR_SIZE)) 0) as [Hs|]; [|done]. cbn [negb].
  destruct (Z.ltb_spec (sectors / (segment_bytes / SECTOR_SIZE)) (MIN_PAYLOAD_SEGMENTS + 1)); [done|].
  destruct (Z.ltb_spec u64_max (start + sectors)); [done|]. destruct (Z.ltb_spec capacity (start + sectors)); [done|].
  destruct (Z.ltb_spec u64_max (sectors * SECTOR_SIZE)); [done|]. intros [= <-].
  unfold is_u64, in_u, SECTOR_SIZE, MIN_SEGMENT_BYTES, MIN_PAYLOAD_SEGMENTS in *.
  constructor; cbn; unfold SECTOR_SIZE, MIN_SEGMENT_BYTES, MIN_PAYLOAD_SEGMENTS; try lia.
  - pose proof (Z.div_mod segment_bytes 512). lia.
  - assert (segment_bytes / 512 ≠ 0) as Hne by (intros E; pose proof (Z.div_mod segment_bytes 512 ltac:(lia)); lia).
    pose proof (Z.div_mod sectors (segment_bytes / 512) Hne). lia.
Qed.

Section Positions.
Context (g : Geometry) (Hg : geometry_facts g).
#[local] Notation seg := (ge_segment_bytes g).
#[local] Notation n := (ge_segments g).

Lemma segment_pos : 0 < seg.
Proof using Hg. destruct Hg. unfold MIN_SEGMENT_BYTES in *. lia. Qed.
Lemma segments_pos : 2 ≤ n.
Proof using Hg. destruct Hg. unfold MIN_PAYLOAD_SEGMENTS in *. lia. Qed.

(** The byte of the device a position is at. *)
Definition address (p : Z) : Z := Geometry_segment_sector g (p / seg) * SECTOR_SIZE + p mod seg.

Lemma address_eq p : address p = ge_start_sector g * SECTOR_SIZE + (p / seg mod n + 1) * seg + p mod seg.
Proof using Hg. unfold address, Geometry_segment_sector. destruct Hg. rewrite gf_segment0. lia. Qed.

Lemma address_at q r : 0 ≤ r < seg → address (q * seg + r) = ge_start_sector g * SECTOR_SIZE + (q mod n + 1) * seg + r.
Proof using Hg.
  intros Hr. pose proof segment_pos. rewrite address_eq. rewrite Z.div_add_l, (Z.div_small r), Z.add_0_r by lia.
  rewrite (Z.add_comm (q * seg)), Z.mod_add, (Z.mod_small r) by lia. done.
Qed.

Lemma mod_window a b : 0 ≤ a - b < n → a mod n = b mod n → a = b.
Proof using Hg.
  intros Hw H. pose proof segments_pos as Hn. assert ((a - b) mod n = 0) as E by (rewrite Zminus_mod, H, Z.sub_diag; apply Z.mod_0_l; lia).
  rewrite Z.mod_small in E by done. lia.
Qed.

(** Two positions fewer than [n] segments apart share no byte. *)
Lemma address_inj p p' : Z.abs (p / seg - p' / seg) < n → address p = address p' → p = p'.
Proof using Hg.
  intros Hw H. pose proof segment_pos as Hs. pose proof segments_pos as Hn. rewrite !address_eq in H.
  pose proof (Z.mod_pos_bound p seg Hs) as Hr. pose proof (Z.mod_pos_bound p' seg Hs) as Hr'.
  set (a := p / seg mod n) in *. set (b := p' / seg mod n) in *.
  assert (a = b) as Hab by nia. assert (p mod seg = p' mod seg) as Hm by nia.
  assert (p / seg = p' / seg) as Hd.
  { destruct (Z.le_ge_cases (p' / seg) (p / seg)).
    - apply mod_window; [lia|exact Hab].
    - symmetry. apply mod_window; [lia|by symmetry]. }
  rewrite (Z.div_mod p seg), (Z.div_mod p' seg), Hd, Hm by lia. done.
Qed.

(** A payload byte is inside the extent and past the superblock. *)
Lemma address_in_extent p :
  0 ≤ p → ge_start_sector g * SECTOR_SIZE + Z.of_nat SUPERBLOCK_BYTES ≤ address p < (ge_start_sector g + ge_sectors g) * SECTOR_SIZE.
Proof using Hg.
  intros Hp. pose proof segment_pos as Hs. pose proof segments_pos as Hn. rewrite address_eq.
  pose proof (Z.mod_pos_bound p seg Hs) as Hr. pose proof (Z.mod_pos_bound (p / seg) n ltac:(lia)) as Hq.
  destruct Hg. change (Z.of_nat SUPERBLOCK_BYTES) with 1024. unfold MIN_SEGMENT_BYTES in *.
  assert ((ge_start_sector g + ge_sectors g) * SECTOR_SIZE = ge_start_sector g * SECTOR_SIZE + (n + 1) * seg) as -> by (rewrite gf_sectors0; rewrite gf_segment0; lia).
  split; nia.
Qed.

Lemma sector_of q r : 0 ≤ r → r mod SECTOR_SIZE = 0 → r < seg → 0 ≤ q →
  saturating_add 64 (Geometry_segment_sector g q) (r / SECTOR_SIZE) * SECTOR_SIZE = address (q * seg + r).
Proof using Hg.
  intros Hr Hm Hlt Hq. rewrite address_at by lia. unfold Geometry_segment_sector, saturating_add.
  pose proof segments_pos as Hn. pose proof (Z.mod_pos_bound q n ltac:(lia)) as Hmq. destruct Hg.
  assert (r = SECTOR_SIZE * (r / SECTOR_SIZE)) as Er by (pose proof (Z.div_mod r SECTOR_SIZE ltac:(done)); lia).
  unfold SECTOR_SIZE, u64_max, MIN_SEGMENT_BYTES in *. change (2 ^ 64 - 1) with 18446744073709551615.
  assert ((q mod n + 1) * ge_segment_sectors g + r / 512 ≤ ge_sectors g) as Hle.
  { rewrite gf_sectors0. assert (r / 512 < ge_segment_sectors g) by (apply Z.div_lt_upper_bound; lia). nia. }
  rewrite Z.min_l by lia. rewrite gf_segment0. lia.
Qed.
End Positions.
