(* ===== verification/RecorderBlocks.v ===== *)
(** * What each operation of a sink appends

    Every block the sink writes is framed, and an operation either leaves what is staged alone
    or extends it by whole blocks, the ring's cursor with it ([grew]). *)
From S2P Require Import Prelude Layout Shared WireTap Pcapng PcapngFacts PcapngRead CaptureRing CaptureSuperblock Recorder.

(** ** Writers of one block *)

(** A writer of [block]: where it succeeds it put the block, a framed one, at the front of the
    buffer, and on any error it left the buffer alone. *)
Definition writes (write : list Z → Result Z EncodeError * list Z) (block : list Z) : Prop :=
  ∀ out, Z.of_nat (length out) ≤ u64_max →
  match write out with
  | (Ok n, out') => framed block ∧ n = Z.of_nat (length block) ∧ (length block ≤ length out)%nat ∧ out' = block ++ drop (length block) out
  | (Err _, out') => out' = out
  end.

Lemma framed_pos block : framed block → (12 ≤ length block)%nat.
Proof. intros (t & inner & _ & _ & _ & ->). pose proof (length_framed t (12 + Z.of_nat (length inner)) inner). lia. Qed.

(** The bytes of a block as the encoder frames it. *)
Definition block_of (t : Z) (body : Body) (options : Options) : list Z :=
  framed_bytes t (block_len body options) (inner_bytes body options).

Lemma length_block_of t body options : Z.of_nat (length (block_of t body options)) = block_len body options.
Proof. unfold block_of. by rewrite length_framed. Qed.

Lemma framed_block_of t body options :
  is_u32 t → Z.of_nat (length (bd_fixed body)) mod 4 = 0 → body_ok body → Forall option_ok options → block_len body options ≤ u32_max →
  framed (block_of t body options).
Proof. intros Ht Hf Hb Ho Hs. exists t, (inner_bytes body options). split_all; [done|by apply inner_aligned|exact Hs|done]. Qed.

Lemma writes_block t body options :
  is_u32 t → Z.of_nat (length (bd_fixed body)) mod 4 = 0 → body_ok body → Forall option_ok options →
  writes (write_block t body options) (block_of t body options).
Proof.
  intros Ht Hf Hb Ho out Hout. rewrite write_block_spec by done. destruct (Z.ltb_spec u32_max (block_len body options)); [done|].
  destruct (Z.ltb_spec (Z.of_nat (length out)) (block_len body options)); [done|].
  pose proof (length_block_of t body options) as Hl. fold (block_of t body options).
  split; [by apply framed_block_of|]. split; [done|]. split; [lia|]. by rewrite <- Hl, Nat2Z.id.
Qed.

(** The whole buffer after [write] has had the part of it from [at_] on. *)
Lemma write_tail_spec write block staging at_ :
  writes write block → 0 ≤ at_ → Z.of_nat (length staging) ≤ u64_max →
  match write_tail staging at_ write with
  | (Ok n, staging') =>
      framed block ∧ n = Z.of_nat (length block) ∧ at_ + n ≤ Z.of_nat (length staging) ∧ staging' = splice staging (Z.to_nat at_) block
  | (Err _, staging') => staging' = staging
  end.
Proof.
  intros Hw Ha Hs. unfold write_tail. destruct (Z.ltb_spec (Z.of_nat (length staging)) at_).
  - pose proof (Hw [] ltac:(unfold u64_max; simpl; lia)) as H0. destruct (write []) as [[n|e] out]; [|done].
    destruct H0 as (Hf%framed_pos & _ & Hl & _). simpl in Hl. lia.
  - pose proof (Hw (drop (Z.to_nat at_) staging) ltac:(rewrite length_drop; lia)) as H1.
    destruct (write (drop (Z.to_nat at_) staging)) as [[n|e] out].
    + destruct H1 as (Hf & -> & Hl & ->). rewrite length_drop in Hl. split; [done|]. split; [done|]. split; [lia|]. unfold splice. by rewrite drop_drop.
    + subst out. apply take_drop.
Qed.

Lemma write_free_spec write block s staging :
  writes write block → 0 ≤ sk_staged_len s → Z.of_nat (length staging) ≤ u64_max →
  match Sink_write_free s staging write with
  | (Ok n, staging') =>
      framed block ∧ n = Z.of_nat (length block) ∧ sk_staged_len s + n + TAIL_RESERVE ≤ Z.of_nat (length staging)
      ∧ staging' = splice staging (Z.to_nat (sk_staged_len s)) block
  | (Err _, staging') => staging' = staging
  end.
Proof.
  intros Hw Ha Hs. unfold Sink_write_free, saturating_sub. set (end_ := Z.max 0 _).
  destruct (Z.ltb_spec end_ (sk_staged_len s)).
  - pose proof (Hw [] ltac:(unfold u64_max; simpl; lia)) as H0. destruct (write []) as [[n|e] out]; [|done].
    destruct H0 as (Hf%framed_pos & _ & Hl & _). simpl in Hl. lia.
  - set (a := Z.to_nat (sk_staged_len s)) in *. set (k := Z.to_nat (end_ - sk_staged_len s)).
    assert (a + k ≤ length staging)%nat as Hak by (unfold a, k, end_, TAIL_RESERVE, SECTOR_SIZE in *; lia).
    assert (Z.to_nat end_ = (a + k)%nat) as Ee by (unfold a, k; lia). rewrite Ee.
    pose proof (length_slice staging a k Hak) as Hlen.
    assert (take a staging ++ slice staging a k ++ drop (a + k) staging = staging) as Hall
      by (unfold slice; rewrite <- drop_drop, take_drop; apply take_drop).
    pose proof (Hw (slice staging a k) ltac:(rewrite Hlen; lia)) as H1.
    destruct (write (slice staging a k)) as [[n|e] out].
    + destruct H1 as (Hf & -> & Hl & ->). rewrite Hlen in Hl. split; [done|]. split; [done|].
      split; [pose proof (framed_pos _ Hf); unfold a, k, end_, TAIL_RESERVE, SECTOR_SIZE in *; lia|].
      unfold splice. f_equal. rewrite <- app_assoc. f_equal. unfold slice. rewrite skipn_firstn_comm, drop_drop.
      replace (drop (a + k) staging) with (drop (k - length block) (drop (a + length block) staging)) by (rewrite drop_drop; f_equal; lia).
      apply take_drop.
    + by subst out.
Qed.

(** ** Growing *)
Definition sane (w : Sink * list Z) : Prop :=
  0 ≤ sk_staged_len w.1 ≤ Z.of_nat (length w.2) ∧ Z.of_nat (length w.2) ≤ u64_max
  ∧ 0 ≤ cu_offset (rg_cursor (sk_ring w.1)) ≤ ge_segment_bytes (rg_geometry (sk_ring w.1)).

(** What appending leaves alone. *)
Definition same_place (s s' : Sink) : Prop :=
  rg_geometry (sk_ring s') = rg_geometry (sk_ring s) ∧ rg_prologue_len (sk_ring s') = rg_prologue_len (sk_ring s)
  ∧ cu_sequence (rg_cursor (sk_ring s')) = cu_sequence (rg_cursor (sk_ring s)) ∧ sk_staged_sequence s' = sk_staged_sequence s
  ∧ sk_staged_from s' = sk_staged_from s ∧ sk_durable s' = sk_durable s ∧ sk_flushing s' = sk_flushing s
  ∧ sk_interfaces s' = sk_interfaces s ∧ sk_interface_count s' = sk_interface_count s ∧ sk_snap_len s' = sk_snap_len s.

Definition bytes_of (blocks : list (list Z)) : Z := Z.of_nat (length (concat blocks)).

Record grew (blocks : list (list Z)) (w w' : Sink * list Z) : Prop := {
  gr_framed : Forall framed blocks;
  gr_same : same_place w.1 w'.1;
  gr_offset : cu_offset (rg_cursor (sk_ring w'.1)) = cu_offset (rg_cursor (sk_ring w.1)) + bytes_of blocks;
  gr_room : cu_offset (rg_cursor (sk_ring w'.1)) ≤ ge_segment_bytes (rg_geometry (sk_ring w.1));
  gr_staged : sk_staged_len w'.1 = sk_staged_len w.1 + bytes_of blocks;
  gr_fits : sk_staged_len w'.1 ≤ Z.of_nat (length w'.2);
  gr_length : length w'.2 = length w.2;
  gr_take : take (Z.to_nat (sk_staged_len w'.1)) w'.2 = take (Z.to_nat (sk_staged_len w.1)) w.2 ++ concat blocks
}.

Lemma same_place_refl s : same_place s s.
Proof. by repeat split. Qed.
Lemma same_place_trans s s1 s2 : same_place s s1 → same_place s1 s2 → same_place s s2.
Proof. unfold same_place. intros. destruct_and!. split_and!; congruence. Qed.

Lemma bytes_of_app b c : bytes_of (b ++ c) = bytes_of b + bytes_of c.
Proof. unfold bytes_of. rewrite concat_app, length_app. lia. Qed.
Lemma bytes_of_pos b : 0 ≤ bytes_of b.
Proof. unfold bytes_of. lia. Qed.
Lemma bytes_of_one block : bytes_of [block] = Z.of_nat (length block).
Proof. unfold bytes_of. simpl. by rewrite app_nil_r. Qed.

(** An operation that appends nothing: the sink and the ring may have counted, and the staging
    past what is staged may hold a block that was not placed. *)
Lemma grew_nothing w w' :
  sane w → same_place w.1 w'.1 → rg_cursor (sk_ring w'.1) = rg_cursor (sk_ring w.1) → sk_staged_len w'.1 = sk_staged_len w.1 →
  length w'.2 = length w.2 → take (Z.to_nat (sk_staged_len w.1)) w'.2 = take (Z.to_nat (sk_staged_len w.1)) w.2 → grew [] w w'.
Proof.
  intros (H1 & H2 & H3) Hp Hc Hl Hlen Ht. pose proof Hp as (Hg & _).
  constructor; try done; rewrite ?Hc, ?Hl; unfold bytes_of; cbn; try lia. by rewrite app_nil_r.
Qed.

Lemma grew_counted s s' staging :
  sane (s, staging) → same_place s s' → rg_cursor (sk_ring s') = rg_cursor (sk_ring s) → sk_staged_len s' = sk_staged_len s →
  grew [] (s, staging) (s', staging).
Proof. intros. by apply grew_nothing. Qed.

Lemma grew_refl w : sane w → grew [] w w.
Proof. intros H. by apply grew_nothing. Qed.

Lemma take_before_splice {A} (l piece : list A) n : (n ≤ length l)%nat → take n (splice l n piece) = take n l.
Proof. intros H. unfold splice. apply take_app_exact. rewrite length_take. lia. Qed.

Lemma grew_trans b c w w1 w2 : grew b w w1 → grew c w1 w2 → grew (b ++ c) w w2.
Proof.
  intros H1 H2. destruct H1, H2. pose proof gr_same0 as (Hg & _).
  constructor.
  - by apply Forall_app.
  - by eapply same_place_trans.
  - rewrite gr_offset1, gr_offset0, bytes_of_app. lia.
  - by rewrite <- Hg.
  - rewrite gr_staged1, gr_staged0, bytes_of_app. lia.
  - done.
  - by rewrite gr_length1.
  - rewrite gr_take1, gr_take0, concat_app. by rewrite app_assoc.
Qed.

Lemma grew_sane b w w' : sane w → grew b w w' → sane w'.
Proof.
  intros (H1 & H2 & H3) []. pose proof gr_same0 as (Hg & _). unfold sane. rewrite Hg, gr_length0. pose proof (bytes_of_pos b).
  rewrite gr_length0 in gr_fits0. lia.
Qed.

(** The one way a block is appended: it is written at the end of what is staged, placed by the
    ring and committed. *)
Lemma grew_block block s staging s' n placement ring :
  sane (s, staging) → framed block → n = Z.of_nat (length block) → sk_staged_len s + n ≤ Z.of_nat (length staging) →
  Ring_append n (sk_ring s) = (Placed placement, ring) →
  same_place s s' → sk_ring s' = (Reservation_commit placement ring).2 → sk_staged_len s' = saturating_add 64 (sk_staged_len s) n →
  grew [block] (s, staging) (s', splice staging (Z.to_nat (sk_staged_len s)) block).
Proof.
  intros (H1 & H2 & H3) Hf -> Hroom Ha Hp Hr Hl. cbn [fst snd] in *.
  unfold Ring_append in Ha. destruct (Ring_fit _ _) as [pl| |] eqn:Ef; [|done..]. injection Ha as <- <-.
  unfold Ring_fit in Ef. destruct (Z.ltb_spec (Ring_segment_payload (sk_ring s)) (Z.of_nat (length block))); [done|].
  destruct (Z.ltb_spec (Ring_slack (sk_ring s)) (Z.of_nat (length block))) as [|Hslack]; [done|]. injection Ef as <-. unfold Ring_slack in Hslack.
  assert (sk_staged_len s' = sk_staged_len s + Z.of_nat (length block)) as Hl'
    by (rewrite Hl; unfold saturating_add, u64_max in *; change (2 ^ 64 - 1) with 18446744073709551615; lia).
  assert (cu_offset (rg_cursor (sk_ring s')) = cu_offset (rg_cursor (sk_ring s)) + Z.of_nat (length block)) as Ho
    by (rewrite Hr; cbn; lia).
  assert (length (splice staging (Z.to_nat (sk_staged_len s)) block) = length staging) as Hlen by (apply length_splice; lia).
  constructor; cbn [fst snd]; rewrite ?bytes_of_one; try done; try lia.
  - by repeat constructor.
  - rewrite Hl'. simpl. rewrite app_nil_r. unfold splice. rewrite app_assoc. apply take_app_exact.
    rewrite length_app, length_take. lia.
Qed.

Lemma append_refused n r a r' : Ring_append n r = (a, r') → (∀ placement, a ≠ Placed placement) → rg_geometry r' = rg_geometry r ∧ rg_prologue_len r' = rg_prologue_len r ∧ rg_cursor r' = rg_cursor r.
Proof. unfold Ring_append. destruct (Ring_fit n r); intros [= <- <-] H; [by destruct (H placement)|done|done]. Qed.

(** ** The blocks of a recording *)
Definition packet_block (epb : EnhancedPacket) : list Z :=
  match enhanced_packet_options epb, enhanced_packet_body epb with
  | Ok options, Ok body => block_of BLOCK_ENHANCED_PACKET (Body_with_payload body (ep_captured epb)) options
  | _, _ => []
  end.
Definition custom_block (data : list Z) : list Z :=
  block_of CUSTOM_BLOCK_COPYABLE (Body_with_payload (le_bytes 4 UNREGISTERED_PEN) data) [].
Definition padding_block (len : Z) : list Z :=
  block_of CUSTOM_BLOCK_COPYABLE (Body_zeroed (le_bytes 4 UNREGISTERED_PEN) (len - MIN_CUSTOM_BLOCK_LEN)) [].
Definition header_block : list Z :=
  match section_header_options prologue_header with
  | Ok options => block_of BLOCK_SECTION_HEADER (Body_fixed section_header_body) options
  | Err _ => []
  end.
Definition interface_block (snap_len : Z) (name : InterfaceName) : list Z :=
  match interface_description_options (prologue_interface snap_len name) with
  | Ok options => block_of BLOCK_INTERFACE_DESCRIPTION (Body_fixed (interface_description_body (prologue_interface snap_len name))) options
  | Err _ => []
  end.

Lemma body_length epb body : enhanced_packet_body epb = Ok body → length body = 20%nat.
Proof.
  unfold enhanced_packet_body. intros H. apply result_bind_Ok in H as (n & _ & H). destruct (split_timestamp _) as [hi lo].
  apply Ok_inj in H. subst body. by rewrite !length_app, !length_le_bytes.
Qed.

Lemma writes_packet epb : writes (write_enhanced_packet epb) (packet_block epb).
Proof.
  unfold write_enhanced_packet, packet_block. destruct (enhanced_packet_options epb) as [options|] eqn:Eo; [|by intros out _].
  destruct (enhanced_packet_body epb) as [body|] eqn:Eb; [|by intros out _].
  apply writes_block; [done| |done|by apply packet_options_ok in Eo as [? _]]. simpl. by rewrite (body_length _ _ Eb).
Qed.

Lemma writes_custom data : writes (write_custom_block {| cb_pen := UNREGISTERED_PEN; cb_data := data |}) (custom_block data).
Proof.
  unfold write_custom_block, custom_block. cbn [cb_data cb_pen custom_block_body].
  apply (writes_block CUSTOM_BLOCK_COPYABLE (Body_with_payload (le_bytes 4 UNREGISTERED_PEN) data) []); [done|done|done|constructor].
Qed.

Lemma writes_padding len : writes (write_padding_block len) (padding_block len).
Proof.
  intros out Hout. unfold write_padding_block. destruct (negb (len mod ALIGNMENT =? 0)); [done|]. destruct (Z.ltb_spec len MIN_CUSTOM_BLOCK_LEN); [done|].
  apply (writes_block CUSTOM_BLOCK_COPYABLE (Body_zeroed (le_bytes 4 UNREGISTERED_PEN) (len - MIN_CUSTOM_BLOCK_LEN)) []); try done.
  unfold body_ok. simpl. lia.
Qed.

Lemma length_padding_block len : MIN_CUSTOM_BLOCK_LEN ≤ len → len mod 4 = 0 → Z.of_nat (length (padding_block len)) = len.
Proof.
  intros H Hm. unfold padding_block. rewrite length_block_of. unfold block_len, inner_bytes, MIN_CUSTOM_BLOCK_LEN in *.
  cbn [bd_fixed bd_payload Body_zeroed payload_bytes Payload_len options_bytes existsb]. rewrite !length_app, length_le_bytes, length_replicate.
  pose proof (length_padding (len - 16)) as Hp.
  assert (padding_for (len - 16) = 0) as E by (unfold padding_for, ALIGNMENT; ints). cbn [length]. lia.
Qed.

Lemma header_options_ok options : section_header_options prologue_header = Ok options → Forall option_ok options.
Proof.
  unfold section_header_options. intros H.
  apply result_bind_Ok in H as (hw & Hh & H). apply result_bind_Ok in H as (os & Ho & H).
  apply result_bind_Ok in H as (app_ & Ha & H). apply result_bind_Ok in H as (sc & Hs & H). apply Ok_inj in H. subst options.
  apply text_field in Hh as [? _]; [|done]. apply text_field in Ho as [? _]; [|done]. apply text_field in Ha as [? _]; [|done].
  apply custom_field in Hs as [? _]; [|done]. by repeat constructor.
Qed.

Lemma writes_header : writes (write_section_header prologue_header) header_block.
Proof.
  unfold write_section_header, header_block. destruct (section_header_options prologue_header) as [options|] eqn:E; [|by intros out _].
  apply writes_block; [done|done|done|by apply header_options_ok].
Qed.

Lemma interface_options_ok idb options : interface_description_options idb = Ok options → Forall option_ok options.
Proof.
  unfold interface_description_options. intros H.
  apply result_bind_Ok in H as (nm & Hn & H). apply result_bind_Ok in H as (ds & Hd & H). apply Ok_inj in H. subst options.
  apply text_field in Hn as [? _]; [|done]. apply text_field in Hd as [? _]; [|done].
  destruct (integer_field IF_SPEED (id_speed idb) Inline_from_u64) as [? _]; [done|done|done|].
  constructor; [done|]. constructor; [done|]. constructor; [done|]. constructor; [|constructor]. by split.
Qed.

Lemma writes_interface snap_len name :
  writes (write_interface_description (prologue_interface snap_len name)) (interface_block snap_len name).
Proof.
  unfold write_interface_description, interface_block.
  destruct (interface_description_options (prologue_interface snap_len name)) as [options|] eqn:E; [|by intros out _].
  apply writes_block; [done|done|done|by eapply interface_options_ok].
Qed.
