(* ===== verification/RecorderOps.v ===== *)
(** * What each operation of a sink does

    The operations of [Recorder] in the terms of [RecorderBlocks]: the blocks each one appends,
    on every path. *)
From S2P Require Import Prelude Layout Shared WireTap Pcapng PcapngFacts PcapngRead CaptureRing CaptureSuperblock Recorder RecorderBlocks.

(** A writer that wrote past what is staged and was not placed. *)
Lemma grew_unplaced s s' staging block :
  sane (s, staging) → sk_staged_len s + Z.of_nat (length block) ≤ Z.of_nat (length staging) → same_place s s' →
  rg_cursor (sk_ring s') = rg_cursor (sk_ring s) → sk_staged_len s' = sk_staged_len s →
  grew [] (s, staging) (s', splice staging (Z.to_nat (sk_staged_len s)) block).
Proof.
  intros Hs Hb Hp Hc Hl. pose proof Hs as (H1 & H2 & H3). cbn [fst snd] in *. apply grew_nothing; cbn [fst snd]; try done.
  - apply length_splice. lia.
  - apply take_before_splice. lia.
Qed.

(** The two ends of an append the ring answered [Ea]: committed, or not placed. *)
Ltac placed Ea :=
  eapply grew_block; [done|done|reflexivity|lia|exact Ea| |reflexivity|reflexivity];
  unfold Ring_append in Ea; destruct (Ring_fit _ _); simplify_eq; unfold same_place; cbn; done.
Ltac unplaced Ea :=
  apply append_refused in Ea as (?Hg & ?Hp & ?Hc); [|done]; apply grew_unplaced;
  [done|lia|unfold same_place; cbn; rewrite Hg, Hp, Hc; done|done|done].

(** [Sink_pad] appends one padding block of the length asked, or nothing. *)
Lemma Sink_pad_grew pad s staging :
  sane (s, staging) →
  match Sink_pad pad s staging with
  | (Ok n, w') => n = Z.of_nat (length (padding_block pad)) ∧ grew [padding_block pad] (s, staging) w'
  | (Err _, w') => grew [] (s, staging) w'
  end.
Proof.
  intros Hs. pose proof Hs as (H1 & H2 & H3). cbn [fst snd] in *. unfold Sink_pad. destruct (pad <? MIN_CUSTOM_BLOCK_LEN); [by apply grew_refl|].
  pose proof (write_tail_spec _ _ staging (sk_staged_len s) (writes_padding pad) ltac:(lia) H2) as Hw.
  destruct (write_tail staging (sk_staged_len s) (write_padding_block pad)) as [[n|e] staging'].
  - destruct Hw as (Hf & -> & Hfit & ->). destruct (Ring_append _ _) as [a ring] eqn:Ea. destruct a as [placement| |].
    + split; [done|]. placed Ea.
    + unplaced Ea.
    + unplaced Ea.
  - subst. by apply grew_refl.
Qed.

(** The padding a seal places: what is left of the open sector, and a sector more where that
    cannot hold a block. *)
Definition seal_pad (offset : Z) : Z :=
  let pad := SECTOR_SIZE - offset mod SECTOR_SIZE in if pad <? MIN_CUSTOM_BLOCK_LEN then pad + SECTOR_SIZE else pad.
Definition seal_blocks (offset : Z) : list (list Z) :=
  if offset mod SECTOR_SIZE =? 0 then [] else [padding_block (seal_pad offset)].

Lemma Sink_seal_grew s staging :
  sane (s, staging) →
  match Sink_seal s staging with
  | (Ok _, w') => grew (seal_blocks (cu_offset (rg_cursor (sk_ring s)))) (s, staging) w'
  | (Err _, w') => grew [] (s, staging) w'
  end.
Proof.
  intros Hs. unfold Sink_seal, seal_blocks. cbv zeta. destruct (_ =? 0); [by apply grew_refl|].
  pose proof (Sink_pad_grew (seal_pad (cu_offset (rg_cursor (sk_ring s)))) s staging Hs) as H. unfold seal_pad in *. cbv zeta in H.
  destruct (Sink_pad _ s staging) as [[n|e] w']; [by destruct H|done].
Qed.

Definition close_blocks (slack : Z) : list (list Z) := if slack =? 0 then [] else [padding_block slack].

Lemma grew_count b w s' staging (f : SinkCounters → SinkCounters) :
  grew b w (s', staging) → grew b w (s' <| sk_counters ::= f |>, staging).
Proof. intros []. by constructor. Qed.

Lemma Sink_close_grew s staging :
  sane (s, staging) →
  match Sink_close_segment s staging with
  | (Ok _, w') => grew (close_blocks (Ring_slack (sk_ring s))) (s, staging) w'
  | (Err _, w') => grew [] (s, staging) w'
  end.
Proof.
  intros Hs. unfold Sink_close_segment, close_blocks. cbv zeta. destruct (Ring_slack (sk_ring s) =? 0).
  - by apply grew_count, grew_refl.
  - pose proof (Sink_pad_grew (Ring_slack (sk_ring s)) s staging Hs) as H.
    destruct (Sink_pad (Ring_slack (sk_ring s)) s staging) as [[n|e] [s1 staging1]]; [|done]. destruct H as [_ H]. by apply grew_count.
Qed.

(** Recording a packet appends the packet's block, or nothing. *)
Lemma Sink_record_grew tap frame s staging :
  sane (s, staging) →
  match Sink_record tap frame s staging with
  | (Recorded_Placed n, w') =>
      n = Z.of_nat (length (packet_block (Sink_packet tap frame s))) ∧ grew [packet_block (Sink_packet tap frame s)] (s, staging) w'
  | (_, w') => grew [] (s, staging) w'
  end.
Proof.
  intros Hs. pose proof Hs as (H1 & H2 & H3). cbn [fst snd] in *. unfold Sink_record.
  destruct (enhanced_packet_len _) as [needed|e]; [|by apply grew_count, grew_refl]. cbv zeta.
  destruct (Ring_segment_payload (sk_ring s) <? _); [by apply grew_count, grew_refl|].
  destruct (Ring_slack (sk_ring s) <? _); [by apply grew_refl|].
  pose proof (write_free_spec _ _ s staging (writes_packet (Sink_packet tap frame s)) ltac:(lia) H2) as Hw.
  destruct (Sink_write_free s staging _) as [[n|e] staging'].
  - destruct Hw as (Hf & -> & Hfit & ->). unfold TAIL_RESERVE, SECTOR_SIZE in Hfit. destruct (Ring_append _ _) as [a ring] eqn:Ea. destruct a as [placement| |].
    + split; [done|]. placed Ea.
    + unplaced Ea.
    + apply grew_count. unplaced Ea.
  - subst. destruct e; by apply grew_count, grew_refl.
Qed.

Lemma Sink_block_grew data s staging :
  sane (s, staging) →
  match Sink_block data s staging with
  | (Recorded_Placed n, w') => n = Z.of_nat (length (custom_block data)) ∧ grew [custom_block data] (s, staging) w'
  | (_, w') => grew [] (s, staging) w'
  end.
Proof.
  intros Hs. pose proof Hs as (H1 & H2 & H3). cbn [fst snd] in *. unfold Sink_block. cbv zeta.
  destruct (custom_block_len _) as [needed|e]; [|by apply grew_refl].
  destruct (Ring_segment_payload (sk_ring s) <? _); [by apply grew_refl|].
  destruct (Ring_slack (sk_ring s) <? _); [by apply grew_refl|].
  pose proof (write_free_spec _ _ s staging (writes_custom data) ltac:(lia) H2) as Hw.
  destruct (Sink_write_free s staging _) as [[n|e] staging'].
  - destruct Hw as (Hf & -> & Hfit & ->). unfold TAIL_RESERVE, SECTOR_SIZE in Hfit. destruct (Ring_append _ _) as [a ring] eqn:Ea. destruct a as [placement| |].
    + split; [done|]. placed Ea.
    + unplaced Ea.
    + unplaced Ea.
  - subst. destruct e; by apply grew_refl.
Qed.

(** ** The prologue *)
Definition interface_blocks (snap_len : Z) (interfaces : list InterfaceName) (index remaining : nat) : list (list Z) :=
  (λ i, interface_block snap_len (default EMPTY_NAME (interfaces !! i))) <$> seq index remaining.
Definition prologue_blocks (snap_len : Z) (interfaces : list InterfaceName) (count : nat) : list (list Z) :=
  header_block :: interface_blocks snap_len interfaces 0 count.

(** What writing blocks from [at_] on leaves: the blocks there and all framed, or, on an error,
    a buffer that is the same up to [at_]. *)
Definition wrote (blocks : list (list Z)) (at_ base : Z) (staging : list Z) (r : Result Z EncodeError) (staging' : list Z) : Prop :=
  length staging' = length staging ∧
  match r with
  | Ok n => n = base + bytes_of blocks ∧ at_ + bytes_of blocks ≤ Z.of_nat (length staging) ∧ Forall framed blocks
            ∧ staging' = splice staging (Z.to_nat at_) (concat blocks)
  | Err _ => take (Z.to_nat at_) staging' = take (Z.to_nat at_) staging
  end.

Lemma splice_nil {A} (l : list A) n : splice l n [] = l.
Proof. unfold splice. simpl. by rewrite Nat.add_0_r, take_drop. Qed.

(** One block more in front. *)
Lemma wrote_cons write block blocks staging at_ base r1 staging1 (next : Z → list Z → Result Z EncodeError * list Z) :
  writes write block → 0 ≤ at_ → Z.of_nat (length staging) ≤ u64_max → write_tail staging at_ write = (r1, staging1) →
  (∀ n st, n = Z.of_nat (length block) → length st = length staging → at_ + n ≤ Z.of_nat (length staging) → wrote blocks (at_ + n) (base + n) st (next n st).1 (next n st).2) →
  match r1 with
  | Ok n => wrote (block :: blocks) at_ base staging (next n staging1).1 (next n staging1).2
  | Err e => wrote (block :: blocks) at_ base staging (Err e) staging1
  end.
Proof.
  intros Hw Ha Hs E Hn. pose proof (write_tail_spec _ _ staging at_ Hw Ha Hs) as H. rewrite E in H.
  destruct r1 as [n|e]; [|by subst staging1]. destruct H as (Hf & -> & Hfit & ->).
  set (n := Z.of_nat (length block)) in *.
  assert (length (splice staging (Z.to_nat at_) block) = length staging) as Hlen by (apply length_splice; lia).
  specialize (Hn n (splice staging (Z.to_nat at_) block) eq_refl Hlen Hfit). destruct Hn as [Hl Hr]. split; [by rewrite Hl|].
  destruct (next n _) as [[m|e] staging']; cbn [fst snd] in *.
  - destruct Hr as (-> & Hfit2 & Hfr & ->). rewrite Hlen in Hfit2.
    assert (bytes_of (block :: blocks) = n + bytes_of blocks) as Eb by (unfold bytes_of, n; cbn [concat]; rewrite length_app; lia).
    rewrite Eb. split_all; [lia|lia|by constructor|]. cbn [concat]. rewrite splice_app.
    + f_equal. unfold n. lia.
    + rewrite length_app. unfold bytes_of in Hfit2. lia.
  - apply (f_equal (take (Z.to_nat at_))) in Hr. rewrite !take_take, !Nat.min_l in Hr by lia. rewrite Hr.
    apply take_before_splice. lia.
Qed.

Lemma write_interfaces_wrote s at_ index remaining written_ staging :
  0 ≤ at_ → 0 ≤ written_ → at_ + written_ ≤ Z.of_nat (length staging) → Z.of_nat (length staging) ≤ u64_max →
  wrote (interface_blocks (sk_snap_len s) (sk_interfaces s) index remaining) (at_ + written_) written_ staging
    (write_interfaces s at_ index remaining written_ staging).1 (write_interfaces s at_ index remaining written_ staging).2.
Proof.
  intros Ha. revert index written_ staging. induction remaining as [|remaining IH]; intros index written_ staging Hw Hle Hs.
  - split; [done|]. cbn. unfold bytes_of. cbn. split_all; [lia|lia|constructor|by rewrite splice_nil].
  - cbn [write_interfaces interface_blocks seq fmap list_fmap].
    destruct (write_tail staging _ _) as [r1 staging1] eqn:E.
    pose proof (wrote_cons _ _ (interface_blocks (sk_snap_len s) (sk_interfaces s) (S index) remaining) staging (at_ + written_) written_ r1 staging1
      (λ n st, write_interfaces s at_ (S index) remaining (written_ + n) st) (writes_interface (sk_snap_len s) _) ltac:(lia) Hs E) as H.
    destruct r1 as [n|e]; apply H; intros m st -> Hst Hfit; rewrite <- Z.add_assoc; apply IH; lia.
Qed.

Definition Sink_prologue_blocks (s : Sink) : list (list Z) :=
  prologue_blocks (sk_snap_len s) (sk_interfaces s) (sk_interface_count s).

(** The prologue goes behind what is staged; on an error the sink is as it was. *)
Lemma Sink_write_prologue_spec s staging :
  0 ≤ sk_staged_len s → Z.of_nat (length staging) ≤ u64_max →
  match Sink_write_prologue s staging with
  | (Ok n, (s', staging')) =>
      wrote (Sink_prologue_blocks s) (sk_staged_len s) 0 staging (Ok n) staging' ∧ s' = s <| sk_staged_len := sk_staged_len s + n |>
  | (Err e, (s', staging')) => wrote (Sink_prologue_blocks s) (sk_staged_len s) 0 staging (Err e) staging' ∧ s' = s
  end.
Proof.
  intros Ha Hs. unfold Sink_write_prologue. cbv zeta. destruct (write_tail staging _ _) as [r1 staging1] eqn:E.
  pose proof (wrote_cons _ _ (interface_blocks (sk_snap_len s) (sk_interfaces s) 0 (sk_interface_count s)) staging (sk_staged_len s) 0 r1 staging1
    (λ n st, write_interfaces s (sk_staged_len s) 0 (sk_interface_count s) n st) writes_header Ha Hs E) as H.
  destruct r1 as [n|e]; [|split; [apply H|done]; intros m st -> Hst Hfit; apply write_interfaces_wrote; lia].
  assert (wrote (Sink_prologue_blocks s) (sk_staged_len s) 0 staging (write_interfaces s (sk_staged_len s) 0 (sk_interface_count s) n staging1).1
    (write_interfaces s (sk_staged_len s) 0 (sk_interface_count s) n staging1).2) as Hw
    by (apply H; intros m st -> Hst Hfit; apply write_interfaces_wrote; lia).
  destruct (write_interfaces s (sk_staged_len s) 0 (sk_interface_count s) n staging1) as [[m|e] staging']; cbn [fst snd] in Hw; [|done].
  split; [done|]. destruct Hw as (_ & -> & Hfit & _).
  assert (saturating_add 64 (sk_staged_len s) (0 + bytes_of (Sink_prologue_blocks s)) = sk_staged_len s + (0 + bytes_of (Sink_prologue_blocks s))) as Hsat.
  { pose proof (bytes_of_pos (Sink_prologue_blocks s)). unfold saturating_add, u64_max in *. change (2 ^ 64 - 1) with 18446744073709551615. lia. }
  by cbn; rewrite Hsat.
Qed.

(** The measured prologue is the written one. *)
Lemma measure_block t body options n : body_ok body → measure t body options = Ok n → n = Z.of_nat (length (block_of t body options)).
Proof. intros Hb. rewrite measure_spec by done. case_match; [done|]. intros [= <-]. by rewrite length_block_of. Qed.

Lemma prologue_len_loop_blocks config index remaining total P :
  prologue_len_loop config index remaining total = Ok P →
  P = total + bytes_of (interface_blocks (sg_snap_len config) (sg_interfaces config) index remaining).
Proof.
  revert index total. induction remaining as [|remaining IH]; intros index total; cbn [prologue_len_loop].
  - intros [= ->]. unfold bytes_of. cbn. lia.
  - intros H. apply result_bind_Ok in H as (n & Hn & H). case_match; [done|]. apply IH in H. rewrite H.
    cbn [interface_blocks seq fmap list_fmap]. unfold bytes_of. cbn [concat]. rewrite length_app.
    set (name := default EMPTY_NAME (sg_interfaces config !! index)) in *.
    assert (n = Z.of_nat (length (interface_block (sg_snap_len config) name))) as ->; [|unfold interface_blocks; lia].
    unfold interface_description_len in Hn. unfold interface_block.
    destruct (interface_description_options _) as [options|]; [|done]. cbn [result_bind] in Hn.
    destruct (measure _ _ options) as [k|] eqn:Em; [|done]. injection Hn as ->. by apply measure_block in Em.
Qed.

Lemma prologue_len_blocks config P :
  prologue_len config = Ok P →
  P = bytes_of (prologue_blocks (sg_snap_len config) (sg_interfaces config) (sg_interface_count config)) ∧ 0 ≤ P.
Proof.
  unfold prologue_len. destruct (_ <? _)%nat; [done|]. intros H. apply result_bind_Ok in H as (n & Hn & H). apply prologue_len_loop_blocks in H.
  assert (n = Z.of_nat (length header_block)) as ->.
  { unfold section_header_len in Hn. unfold header_block. destruct (section_header_options prologue_header) as [options|]; [|done].
    cbn [result_bind] in Hn. destruct (measure _ _ options) as [k|] eqn:Em; [|done]. injection Hn as ->. by apply measure_block in Em. }
  unfold prologue_blocks, bytes_of. cbn [concat]. rewrite length_app. unfold bytes_of in H. lia.
Qed.

(** ** The prologue always fits

    A prologue the configuration could measure is small, and a sink that has room for it writes
    it: beginning a segment cannot fail half way. *)

(** A writer that has the room succeeds. *)
Definition lands (write : list Z → Result Z EncodeError * list Z) (block : list Z) : Prop :=
  ∀ out, Z.of_nat (length out) ≤ u64_max → (length block ≤ length out)%nat → ∃ n out', write out = (Ok n, out').

Lemma lands_block t body options n : body_ok body → measure t body options = Ok n → lands (write_block t body options) (block_of t body options).
Proof.
  intros Hb Hm out Hout Hl. rewrite measure_spec in Hm by done. rewrite write_block_spec by done.
  destruct (Z.ltb_spec u32_max (block_len body options)); [done|]. pose proof (length_block_of t body options).
  destruct (Z.ltb_spec (Z.of_nat (length out)) (block_len body options)); [lia|]. by do 2 eexists.
Qed.

Lemma write_tail_lands write block staging at_ :
  lands write block → 0 ≤ at_ → Z.of_nat (length staging) ≤ u64_max → at_ + Z.of_nat (length block) ≤ Z.of_nat (length staging) →
  ∃ n staging', write_tail staging at_ write = (Ok n, staging').
Proof.
  intros Hw Ha Hs Hfit. unfold write_tail. rewrite (proj2 (Z.ltb_ge _ _)) by lia.
  destruct (Hw (drop (Z.to_nat at_) staging)) as (n & out & ->); [rewrite length_drop; lia..|]. by do 2 eexists.
Qed.

Lemma header_lands n : section_header_len prologue_header = Ok n → lands (write_section_header prologue_header) header_block.
Proof.
  unfold section_header_len, write_section_header, header_block. destruct (section_header_options prologue_header) as [options|]; [|done].
  intros H. by eapply lands_block.
Qed.

Lemma interface_lands snap_len name n :
  interface_description_len (prologue_interface snap_len name) = Ok n →
  lands (write_interface_description (prologue_interface snap_len name)) (interface_block snap_len name).
Proof.
  unfold interface_description_len, write_interface_description, interface_block.
  destruct (interface_description_options (prologue_interface snap_len name)) as [options|]; [|done]. intros H. by eapply lands_block.
Qed.

Lemma interface_blocks_cons snap_len interfaces index remaining :
  bytes_of (interface_blocks snap_len interfaces index (S remaining))
  = Z.of_nat (length (interface_block snap_len (default EMPTY_NAME (interfaces !! index)))) + bytes_of (interface_blocks snap_len interfaces (S index) remaining).
Proof. unfold bytes_of. cbn [interface_blocks seq fmap list_fmap concat]. rewrite length_app. unfold interface_blocks. lia. Qed.

Lemma write_interfaces_lands config s at_ index remaining total P written_ staging :
  prologue_len_loop config index remaining total = Ok P → sk_snap_len s = sg_snap_len config → sk_interfaces s = sg_interfaces config →
  0 ≤ at_ → 0 ≤ written_ → Z.of_nat (length staging) ≤ u64_max →
  at_ + written_ + bytes_of (interface_blocks (sk_snap_len s) (sk_interfaces s) index remaining) ≤ Z.of_nat (length staging) →
  ∃ n staging', write_interfaces s at_ index remaining written_ staging = (Ok n, staging').
Proof.
  intros H Hsn Hif Ha. revert index total written_ staging H. induction remaining as [|remaining IH]; intros index total written_ staging H Hw Hs Hfit.
  - by do 2 eexists.
  - cbn [prologue_len_loop] in H. cbn [write_interfaces]. apply result_bind_Ok in H as (n & Hn & H). destruct (_ <? _); [done|].
    rewrite interface_blocks_cons in Hfit. pose proof (bytes_of_pos (interface_blocks (sk_snap_len s) (sk_interfaces s) (S index) remaining)) as Hpos.
    rewrite Hsn, Hif in *. set (name := default EMPTY_NAME (sg_interfaces config !! index)) in *.
    destruct (interface_description_len _) as [k|] eqn:Ek; [|done]. apply interface_lands in Ek.
    destruct (write_tail_lands _ _ staging (at_ + written_) Ek ltac:(lia) Hs ltac:(lia)) as (m & st & E). rewrite E.
    pose proof (write_tail_spec _ _ staging (at_ + written_) (writes_interface (sg_snap_len config) name) ltac:(lia) Hs) as Hspec.
    rewrite E in Hspec. destruct Hspec as (_ & -> & _ & ->).
    eapply IH; [exact H|lia|rewrite length_splice by lia; lia|rewrite length_splice by lia; lia].
Qed.

(** Given the room, the prologue is written. *)
Lemma Sink_write_prologue_lands config s staging P :
  prologue_len config = Ok P → sk_snap_len s = sg_snap_len config → sk_interfaces s = sg_interfaces config →
  sk_interface_count s = sg_interface_count config → 0 ≤ sk_staged_len s → Z.of_nat (length staging) ≤ u64_max →
  sk_staged_len s + P ≤ Z.of_nat (length staging) → ∃ n w', Sink_write_prologue s staging = (Ok n, w').
Proof.
  intros HP Hsn Hif Hic Ha Hs Hfit. pose proof (prologue_len_blocks _ _ HP) as [EP _]. unfold prologue_blocks, bytes_of in EP. cbn [concat] in EP.
  rewrite length_app in EP. fold (interface_blocks (sg_snap_len config) (sg_interfaces config) 0 (sg_interface_count config)) in EP.
  unfold prologue_len in HP. destruct (_ <? _)%nat; [done|]. apply result_bind_Ok in HP as (t & Ht & HP).
  destruct (section_header_len prologue_header) as [k|] eqn:Ek; [|done]. apply header_lands in Ek.
  unfold Sink_write_prologue. cbv zeta.
  destruct (write_tail_lands _ _ staging (sk_staged_len s) Ek Ha Hs ltac:(lia)) as (m & st & E). rewrite E.
  pose proof (write_tail_spec _ _ staging (sk_staged_len s) writes_header Ha Hs) as Hspec. rewrite E in Hspec. destruct Hspec as (_ & -> & _ & ->).
  destruct (write_interfaces_lands config s (sk_staged_len s) 0 (sk_interface_count s) t P (Z.of_nat (length header_block))
    (splice staging (Z.to_nat (sk_staged_len s)) header_block)) as (n & st & ->); [by rewrite Hic|done|done|done|lia|rewrite length_splice; lia| |by do 2 eexists].
  rewrite length_splice by lia. rewrite Hsn, Hif, Hic. unfold bytes_of. lia.
Qed.

(** ** How long it can be *)
Lemma as_str_short name : (length (in_bytes name) ≤ MAX_INTERFACE_NAME)%nat → (length (InterfaceName_as_str name) ≤ MAX_INTERFACE_NAME)%nat.
Proof. intros H. unfold InterfaceName_as_str. destruct (_ && _); [|simpl; unfold MAX_INTERFACE_NAME; lia]. rewrite length_take. lia. Qed.

Lemma length_option_bytes code v :
  Z.of_nat (length (option_bytes code v)) = 4 + Z.of_nat (length (value_bytes v)) + padding_for (va_len v).
Proof. unfold option_bytes, value_bytes. rewrite !length_app, !length_le_bytes, !Nat2Z.inj_add, length_padding. lia. Qed.

Lemma interface_block_short snap_len name :
  (length (in_bytes name) ≤ MAX_INTERFACE_NAME)%nat → Z.of_nat (length (interface_block snap_len name)) ≤ 52.
Proof.
  intros H%as_str_short. unfold interface_block, interface_description_options, prologue_interface, Value_text, Value_new. cbn [id_name id_description id_speed option_].
  set (text := InterfaceName_as_str name) in *. cbn [Inline_len]. unfold MAX_INTERFACE_NAME in H.
  rewrite (proj2 (Z.ltb_ge _ _)) by (unfold u16_max; lia). cbn [result_bind]. rewrite length_block_of. unfold block_len, inner_bytes.
  unfold options_bytes. cbn [existsb is_some_b integer_option orb options_run bd_fixed bd_payload Body_fixed Payload_len payload_bytes].
  unfold interface_description_body. rewrite !length_app, !Nat2Z.inj_add, !length_option_bytes, !length_le_bytes. cbn [length Value_integer Value_EMPTY value_bytes va_len va_inline va_tail].
  unfold value_bytes, Value_integer, Value_EMPTY. cbn [va_len va_inline va_tail Inline_as_slice Inline_from_u8 Inline_len]. rewrite !length_app. cbn [length].
  change (padding 0) with (@nil Z). change (padding_for 0) with 0. change (padding_for 1) with 3. cbn [length].
  pose proof (padding_aligns (0 + Z.of_nat (length text))) as Ha. pose proof (padding_for_cases (0 + Z.of_nat (length text))) as Hc.
  change (Z.of_nat (length (padding (Z.of_nat 0)))) with 0. rewrite Z.add_0_l in *. set (k := padding_for _) in *. clearbody k text. Z.div_mod_to_equations. lia.
Qed.

Lemma interface_blocks_short snap_len interfaces index remaining :
  Forall (λ name, (length (in_bytes name) ≤ MAX_INTERFACE_NAME)%nat) interfaces →
  bytes_of (interface_blocks snap_len interfaces index remaining) ≤ 52 * Z.of_nat remaining.
Proof.
  intros H. revert index. induction remaining as [|remaining IH]; intros index; [done|]. rewrite interface_blocks_cons. specialize (IH (S index)).
  enough (Z.of_nat (length (interface_block snap_len (default EMPTY_NAME (interfaces !! index)))) ≤ 52) by lia. apply interface_block_short.
  destruct (interfaces !! index) as [name|] eqn:E; [exact (proj1 (Forall_lookup _ _) H index name E)|]. vm_compute. lia.
Qed.

Lemma prologue_short config P :
  Forall (λ name, (length (in_bytes name) ≤ MAX_INTERFACE_NAME)%nat) (sg_interfaces config) → prologue_len config = Ok P → P ≤ 1024.
Proof.
  intros H HP. pose proof (prologue_len_blocks _ _ HP) as [-> _]. unfold prologue_len in HP.
  destruct (Nat.ltb_spec MAX_INTERFACES (sg_interface_count config)); [done|]. unfold MAX_INTERFACES in *.
  pose proof (interface_blocks_short (sg_snap_len config) (sg_interfaces config) 0 (sg_interface_count config) H) as Hi.
  assert (Z.of_nat (length header_block) ≤ 256) as Hh by (vm_compute; done).
  unfold prologue_blocks, bytes_of in *. cbn [concat]. rewrite length_app. lia.
Qed.
