(* ===== verification/RecorderRun.v ===== *)
(** * A recording over a device

    A sink, its staging buffer and the bytes of the device as one transition system: the
    operations of the sink in the order the deck calls them, a device that takes a flush piece by
    piece, and power cuts that resume from any checkpoint taken since the last one. Beside the
    world runs its history: the blocks appended, in order. *)
From S2P Require Import Prelude Layout Shared WireTap Pcapng PcapngFacts PcapngRead CaptureRing CaptureSuperblock CaptureCrc CaptureSuperblockFacts Recorder RecorderGeometry RecorderBlocks RecorderOps.

Record World := { wo_sink : Sink; wo_staging : list Z; wo_medium : Z → Z; wo_flight : option Flush; wo_landed : bool }.
(** The blocks appended and kept; the states of the checkpoints taken since the last boot, and
    the one it resumed from; and the position below which a lost run has written over the ring. *)
Record History := { hi_log : list (list Z); hi_saved : list RingState; hi_floor : Z }.

(** The blocks of a log that lie before a position. *)
Fixpoint blocks_upto (position : Z) (log : list (list Z)) : list (list Z) :=
  match log with
  | [] => []
  | block :: log =>
      if position <? Z.of_nat (length block) then [] else block :: blocks_upto (position - Z.of_nat (length block)) log
  end.

Definition position_of (g : Geometry) (c : Cursor) : Z := cu_sequence c * ge_segment_bytes g + cu_offset c.
Definition write_run (medium : Z → Z) (at_ : Z) (bytes : list Z) : Z → Z :=
  λ a, if (at_ <=? a) && (a <? at_ + Z.of_nat (length bytes)) then byte_at bytes (Z.to_nat (a - at_)) else medium a.

Definition appended (r : Recorded) (block : list Z) : list (list Z) := match r with Recorded_Placed _ => [block] | _ => [] end.
Definition ok_blocks {T E} (r : Result T E) (blocks : list (list Z)) : list (list Z) := match r with Ok _ => blocks | Err _ => [] end.

(** A recording's configuration as the deck makes it: names are arrays, and the geometry is one
    the ring accepted. *)
Definition config_ok (config : SinkConfig) : Prop :=
  Forall (λ name, (length (in_bytes name) ≤ MAX_INTERFACE_NAME)%nat) (sg_interfaces config)
  ∧ ∃ start sectors segment_bytes capacity,
      (is_u64 start ∧ is_u64 sectors ∧ is_u64 segment_bytes ∧ is_u64 capacity)
      ∧ Geometry_new start sectors segment_bytes capacity = Ok (sg_geometry config).

(** What a sink that resumes at the cursor of [st] puts behind it. *)
Definition resumed_blocks (config : SinkConfig) (P : Z) (st : RingState) : list (list Z) :=
  let slack := ge_segment_bytes (sg_geometry config) - cu_offset (rs_writer st) in
  if P <=? slack then prologue_blocks (sg_snap_len config) (sg_interfaces config) (sg_interface_count config) else close_blocks slack.

Definition off_of (s : Sink) : Z := cu_offset (rg_cursor (sk_ring s)).
Definition seq_of (s : Sink) : Z := cu_sequence (rg_cursor (sk_ring s)).

Inductive step (config : SinkConfig) : World * History → World * History → Prop :=
| step_record tap frame s st m f l log saved floor r s' st' :
    Sink_record tap frame s st = (r, (s', st')) →
    step config ({| wo_sink := s; wo_staging := st; wo_medium := m; wo_flight := f; wo_landed := l |},
                 {| hi_log := log; hi_saved := saved; hi_floor := floor |})
                ({| wo_sink := s'; wo_staging := st'; wo_medium := m; wo_flight := f; wo_landed := l |},
                 {| hi_log := log ++ appended r (packet_block (Sink_packet tap frame s)); hi_saved := saved; hi_floor := floor |})
| step_block data s st m f l log saved floor r s' st' :
    Sink_block data s st = (r, (s', st')) →
    step config ({| wo_sink := s; wo_staging := st; wo_medium := m; wo_flight := f; wo_landed := l |},
                 {| hi_log := log; hi_saved := saved; hi_floor := floor |})
                ({| wo_sink := s'; wo_staging := st'; wo_medium := m; wo_flight := f; wo_landed := l |},
                 {| hi_log := log ++ appended r (custom_block data); hi_saved := saved; hi_floor := floor |})
| step_seal s st m f l log saved floor r s' st' :
    Sink_seal s st = (r, (s', st')) →
    step config ({| wo_sink := s; wo_staging := st; wo_medium := m; wo_flight := f; wo_landed := l |},
                 {| hi_log := log; hi_saved := saved; hi_floor := floor |})
                ({| wo_sink := s'; wo_staging := st'; wo_medium := m; wo_flight := f; wo_landed := l |},
                 {| hi_log := log ++ ok_blocks r (seal_blocks (off_of s)); hi_saved := saved; hi_floor := floor |})
| step_close s st m f l log saved floor r s' st' :
    Sink_close_segment s st = (r, (s', st')) →
    step config ({| wo_sink := s; wo_staging := st; wo_medium := m; wo_flight := f; wo_landed := l |},
                 {| hi_log := log; hi_saved := saved; hi_floor := floor |})
                ({| wo_sink := s'; wo_staging := st'; wo_medium := m; wo_flight := f; wo_landed := l |},
                 {| hi_log := log ++ ok_blocks r (close_blocks (Ring_slack (sk_ring s))); hi_saved := saved; hi_floor := floor |})
(** The deck begins a segment once the closed one is wholly on the device; the positions have
    not run out. *)
| step_begin s st m l log saved floor r s' st' :
    Ring_slack (sk_ring s) = 0 → sk_staged_len s = 0 → (seq_of s + 3) * ge_segment_bytes (sg_geometry config) ≤ u64_max →
    Sink_begin_segment s st = (r, (s', st')) →
    step config ({| wo_sink := s; wo_staging := st; wo_medium := m; wo_flight := None; wo_landed := l |},
                 {| hi_log := log; hi_saved := saved; hi_floor := floor |})
                ({| wo_sink := s'; wo_staging := st'; wo_medium := m; wo_flight := None; wo_landed := l |},
                 {| hi_log := log ++ ok_blocks r (Sink_prologue_blocks s); hi_saved := saved; hi_floor := floor |})
| step_take_flush s st m l log saved floor fo s' st' :
    Sink_take_flush s st = (fo, (s', st')) →
    step config ({| wo_sink := s; wo_staging := st; wo_medium := m; wo_flight := None; wo_landed := l |},
                 {| hi_log := log; hi_saved := saved; hi_floor := floor |})
                ({| wo_sink := s'; wo_staging := st'; wo_medium := m; wo_flight := fo; wo_landed := l |},
                 {| hi_log := log ++ ok_blocks (Sink_seal s st).1 (seal_blocks (off_of s)); hi_saved := saved; hi_floor := floor |})
(** The device, in the middle of a flush, has touched only where the flush goes. *)
| step_device s st m m' f log saved floor :
    (∀ a, a < fl_sector f * SECTOR_SIZE ∨ fl_sector f * SECTOR_SIZE + fl_len f ≤ a → m' a = m a) →
    step config ({| wo_sink := s; wo_staging := st; wo_medium := m; wo_flight := Some f; wo_landed := false |},
                 {| hi_log := log; hi_saved := saved; hi_floor := floor |})
                ({| wo_sink := s; wo_staging := st; wo_medium := m'; wo_flight := Some f; wo_landed := false |},
                 {| hi_log := log; hi_saved := saved; hi_floor := floor |})
(** The device has other extents, and the ring its superblock. *)
| step_elsewhere s st m m' f l log saved floor :
    (∀ p, 0 ≤ p → m' (address (sg_geometry config) p) = m (address (sg_geometry config) p)) →
    step config ({| wo_sink := s; wo_staging := st; wo_medium := m; wo_flight := f; wo_landed := l |},
                 {| hi_log := log; hi_saved := saved; hi_floor := floor |})
                ({| wo_sink := s; wo_staging := st; wo_medium := m'; wo_flight := f; wo_landed := l |},
                 {| hi_log := log; hi_saved := saved; hi_floor := floor |})
| step_landed s st m f l log saved floor :
    step config ({| wo_sink := s; wo_staging := st; wo_medium := m; wo_flight := Some f; wo_landed := l |},
                 {| hi_log := log; hi_saved := saved; hi_floor := floor |})
                ({| wo_sink := s; wo_staging := st; wo_medium := write_run m (fl_sector f * SECTOR_SIZE) (take (Z.to_nat (fl_len f)) st);
                    wo_flight := Some f; wo_landed := true |},
                 {| hi_log := log; hi_saved := saved; hi_floor := floor |})
| step_acknowledge s st m f log saved floor s' st' :
    Sink_acknowledge f s st = (s', st') →
    step config ({| wo_sink := s; wo_staging := st; wo_medium := m; wo_flight := Some f; wo_landed := true |},
                 {| hi_log := log; hi_saved := saved; hi_floor := floor |})
                ({| wo_sink := s'; wo_staging := st'; wo_medium := m; wo_flight := None; wo_landed := false |},
                 {| hi_log := log; hi_saved := saved; hi_floor := floor |})
(** Operations that append nothing: a find, drops noted, a reader's position taken, a
    checkpoint acknowledged. *)
| step_aside s s' st m f l log saved floor :
    (∃ p, s' = (Sink_find p s).2) ∨ (∃ n, s' = Sink_note_drops n s) ∨ (∃ p, s' = (Sink_acknowledge_reader p s).2)
    ∨ s' = Sink_acknowledge_checkpoint s →
    step config ({| wo_sink := s; wo_staging := st; wo_medium := m; wo_flight := f; wo_landed := l |},
                 {| hi_log := log; hi_saved := saved; hi_floor := floor |})
                ({| wo_sink := s'; wo_staging := st; wo_medium := m; wo_flight := f; wo_landed := l |},
                 {| hi_log := log; hi_saved := saved; hi_floor := floor |})
| step_superblock image s st m f l log saved floor write s' image' state ring :
    Sink_superblock image s = (Ok write, (s', image')) →
    Ring_checkpoint (sk_durable s) (match sk_reader s with Some c => [{| rd_id := CHANNEL_READER_ID; rd_cursor := c |}] | None => [] end)
      (sk_ring s) = (Ok state, ring) →
    step config ({| wo_sink := s; wo_staging := st; wo_medium := m; wo_flight := f; wo_landed := l |},
                 {| hi_log := log; hi_saved := saved; hi_floor := floor |})
                ({| wo_sink := s'; wo_staging := st; wo_medium := m; wo_flight := f; wo_landed := l |},
                 {| hi_log := log; hi_saved := saved ++ [state]; hi_floor := floor |})
(** The power goes, and a boot resumes from a checkpoint: staging is new, what was appended past
    the checkpoint is gone, and what the lost run wrote over stays written over. *)
| step_cut s st m f l log saved floor state staging0 s' st' :
    state ∈ saved → length staging0 = length st →
    (cu_sequence (rs_writer state) + 2) * ge_segment_bytes (sg_geometry config) ≤ u64_max → Sink_resume config state staging0 = (Ok s', st') →
    step config ({| wo_sink := s; wo_staging := st; wo_medium := m; wo_flight := f; wo_landed := l |},
                 {| hi_log := log; hi_saved := saved; hi_floor := floor |})
                ({| wo_sink := s'; wo_staging := st'; wo_medium := m; wo_flight := None; wo_landed := false |},
                 {| hi_log := blocks_upto (position_of (sg_geometry config) (rs_writer state)) log
                              ++ resumed_blocks config (rg_prologue_len (sk_ring s)) state;
                    hi_saved := [state]; hi_floor := Z.max floor (Sink_first_position s) |}).

(** A fresh sink over any device. *)
Inductive fresh (config : SinkConfig) : World * History → Prop :=
| fresh_new staging0 s st m :
    config_ok config → Z.of_nat (length staging0) ≤ u64_max → Sink_new config staging0 = (Ok s, st) →
    fresh config ({| wo_sink := s; wo_staging := st; wo_medium := m; wo_flight := None; wo_landed := false |},
                  {| hi_log := prologue_blocks (sg_snap_len config) (sg_interfaces config) (sg_interface_count config); hi_saved := [];
                     hi_floor := 0 |}).

Definition run (config : SinkConfig) (wh : World * History) : Prop := ∃ wh0, fresh config wh0 ∧ rtc (step config) wh0 wh.

(** ** The invariant *)
Definition log_at (log : list (list Z)) (p : Z) : Z := byte_at (concat log) (Z.to_nat p).

Section Invariant.
Context (config : SinkConfig) (P : Z).
#[local] Notation g := (sg_geometry config).
#[local] Notation seg := (ge_segment_bytes (sg_geometry config)).
Definition prologue : list (list Z) := prologue_blocks (sg_snap_len config) (sg_interfaces config) (sg_interface_count config).

(** Every segment of the log opens with the prologue, at a block of its own. *)
Definition segmented (log : list (list Z)) : Prop :=
  ∀ q, 0 ≤ q → q * seg < bytes_of log → ∃ k rest, bytes_of (take k log) = q * seg ∧ drop k log = prologue ++ rest.
Definition boundary (log : list (list Z)) (p : Z) : Prop :=
  ∃ k, (k ≤ length log)%nat ∧ bytes_of (take k log) = p ∧ segmented (take k log).

Definition state_kept (log : list (list Z)) (durable : Z) (st : RingState) : Prop :=
  rs_geometry st = g ∧ 0 ≤ cu_sequence (rs_writer st) ∧ 0 ≤ cu_offset (rs_writer st) < seg ∧ cu_offset (rs_writer st) mod SECTOR_SIZE = 0
  ∧ position_of g (rs_writer st) ≤ durable ∧ boundary log (position_of g (rs_writer st)).

Definition staged_position (s : Sink) : Z := sk_staged_sequence s * seg + sk_staged_from s.
Definition oldest_of (s : Sink) : Z := Z.max 0 (seq_of s - (ge_segments g - 1)).

Record core (wh : World * History) : Prop := {
  i_facts : geometry_facts g;
  i_prologue : prologue_len config = Ok P ∧ P ≤ 1024 ∧ P + TAIL_RESERVE < seg ∧ P ≤ Z.of_nat (length (wo_staging wh.1));
  i_ring : rg_geometry (sk_ring (wo_sink wh.1)) = g ∧ rg_prologue_len (sk_ring (wo_sink wh.1)) = P;
  i_names : sk_snap_len (wo_sink wh.1) = sg_snap_len config ∧ sk_interfaces (wo_sink wh.1) = sg_interfaces config
            ∧ sk_interface_count (wo_sink wh.1) = sg_interface_count config;
  i_sane : sane (wo_sink wh.1, wo_staging wh.1);
  i_sequence : 0 ≤ seq_of (wo_sink wh.1) ∧ (seq_of (wo_sink wh.1) + 2) * seg ≤ u64_max;
  i_log : bytes_of (hi_log wh.2) = seq_of (wo_sink wh.1) * seg + off_of (wo_sink wh.1);
  i_framed : Forall framed (hi_log wh.2) ∧ segmented (hi_log wh.2);
  i_staged : sk_staged_sequence (wo_sink wh.1) = seq_of (wo_sink wh.1) ∧ 0 ≤ sk_staged_from (wo_sink wh.1)
             ∧ sk_staged_from (wo_sink wh.1) mod SECTOR_SIZE = 0
             ∧ sk_staged_from (wo_sink wh.1) + sk_staged_len (wo_sink wh.1) = off_of (wo_sink wh.1);
  i_take : take (Z.to_nat (sk_staged_len (wo_sink wh.1))) (wo_staging wh.1)
           = drop (Z.to_nat (staged_position (wo_sink wh.1))) (concat (hi_log wh.2));
  i_durable : sk_durable (wo_sink wh.1)
              = if seg <=? sk_staged_from (wo_sink wh.1) then {| cu_sequence := seq_of (wo_sink wh.1) + 1; cu_offset := 0 |}
                else {| cu_sequence := seq_of (wo_sink wh.1); cu_offset := sk_staged_from (wo_sink wh.1) |};
  i_boundary : boundary (hi_log wh.2) (staged_position (wo_sink wh.1));
  i_flight : match wo_flight wh.1 with
             | None => sk_flushing (wo_sink wh.1) = false ∧ wo_landed wh.1 = false
             | Some f =>
                 sk_flushing (wo_sink wh.1) = true ∧ fl_sector f * SECTOR_SIZE = address g (staged_position (wo_sink wh.1))
                 ∧ fl_len f mod SECTOR_SIZE = 0 ∧ 0 < fl_len f ≤ sk_staged_len (wo_sink wh.1)
                 ∧ boundary (hi_log wh.2) (staged_position (wo_sink wh.1) + fl_len f)
                 ∧ (wo_landed wh.1 = true → ∀ p, staged_position (wo_sink wh.1) ≤ p < staged_position (wo_sink wh.1) + fl_len f →
                    wo_medium wh.1 (address g p) = log_at (hi_log wh.2) p)
             end;
  i_medium : ∀ p, oldest_of (wo_sink wh.1) * seg ≤ p → hi_floor wh.2 ≤ p → p < staged_position (wo_sink wh.1) →
             wo_medium wh.1 (address g p) = log_at (hi_log wh.2) p;
  i_saved : Forall (state_kept (hi_log wh.2) (staged_position (wo_sink wh.1))) (hi_saved wh.2)
}.
(** Between operations the open segment has its prologue. *)
Definition inv (wh : World * History) : Prop := core wh ∧ 0 < off_of (wo_sink wh.1).
End Invariant.
