(* ===== verification/RecorderKeeps.v ===== *)
(** * The invariant of a recording

    Every step of [RecorderRun] keeps the invariant: the log's blocks are where the cursor says,
    staging holds the tail of them, and the device holds the rest that is still readable. *)
From S2P Require Import Prelude Layout Shared WireTap Pcapng PcapngFacts PcapngRead CaptureRing CaptureSuperblock CaptureCrc CaptureSuperblockFacts Recorder RecorderGeometry RecorderBlocks RecorderOps RecorderRun.

(** ** Logs *)
Lemma log_at_app log blocks p : 0 ≤ p < bytes_of log → log_at (log ++ blocks) p = log_at log p.
Proof.
  intros [H0 H]. unfold log_at, bytes_of in *. rewrite concat_app. apply byte_at_app_l. lia.
Qed.

Lemma bytes_of_take k log : bytes_of (take k log) ≤ bytes_of log.
Proof. rewrite <- (take_drop k log) at 2. rewrite bytes_of_app. pose proof (bytes_of_pos (drop k log)). lia. Qed.

Lemma concat_take k log : concat (take k log) = take (Z.to_nat (bytes_of (take k log))) (concat log).
Proof.
  unfold bytes_of. rewrite Nat2Z.id. rewrite <- (take_drop k log) at 3. rewrite concat_app. by rewrite take_app_length.
Qed.

Lemma log_at_take k log p : 0 ≤ p < bytes_of (take k log) → log_at (take k log) p = log_at log p.
Proof. intros H. rewrite <- (take_drop k log) at 2. by rewrite log_at_app. Qed.

Lemma framed_mod4 block : framed block → Z.of_nat (length block) mod 4 = 0.
Proof. intros (t & inner & _ & Hm & _ & ->). rewrite length_framed. rewrite Z.add_mod, Hm by done. done. Qed.
Lemma bytes_of_mod4 log : Forall framed log → bytes_of log mod 4 = 0.
Proof.
  induction 1 as [|block log Hb _ IH]; [done|]. unfold bytes_of in *. cbn [concat]. rewrite length_app, Nat2Z.inj_add, Z.add_mod, IH by done.
  by rewrite (framed_mod4 block Hb).
Qed.

(** A block boundary names its blocks. *)
Lemma blocks_upto_take k log : Forall framed log → (k ≤ length log)%nat → blocks_upto (bytes_of (take k log)) log = take k log.
Proof.
  intros H. revert k. induction H as [|block log Hb _ IH]; intros k Hk; [by destruct k|]. apply framed_pos in Hb.
  destruct k as [|k]; cbn [take blocks_upto firstn].
  - unfold bytes_of. cbn [concat length]. rewrite (proj2 (Z.ltb_lt _ _)) by lia. done.
  - assert (bytes_of (block :: take k log) = Z.of_nat (length block) + bytes_of (take k log)) as E by (unfold bytes_of; cbn [concat]; rewrite length_app; lia).
    pose proof (bytes_of_pos (take k log)). rewrite E, (proj2 (Z.ltb_ge _ _)) by lia.
    replace (Z.of_nat (length block) + bytes_of (take k log) - Z.of_nat (length block)) with (bytes_of (take k log)) by lia.
    by rewrite IH by (cbn [length] in Hk; lia).
Qed.

Section Keeps.
Context (config : SinkConfig) (P : Z).
#[local] Notation g := (sg_geometry config).
#[local] Notation seg := (ge_segment_bytes (sg_geometry config)).
#[local] Notation prologue := (prologue config).
#[local] Notation core := (core config P).
#[local] Notation inv := (inv config P).
#[local] Notation boundary := (boundary config).
#[local] Notation segmented := (segmented config).

Lemma segmented_app log blocks q r :
  0 < seg → bytes_of log = q * seg + r → 0 ≤ r → r + bytes_of blocks ≤ seg →
  0 < r ∨ (∃ rest, blocks = prologue ++ rest) → segmented log → segmented (log ++ blocks).
Proof.
  intros Hs Hl Hr Hb Hor Hseg q' Hq' Hlt. rewrite bytes_of_app in Hlt. assert (q' ≤ q) as Hle by nia.
  destruct (Z.lt_ge_cases (q' * seg) (bytes_of log)) as [Hin|Hout].
  - destruct (Hseg q' Hq' Hin) as (k & rest & Hk & Hd). exists k, (rest ++ blocks).
    assert (k ≤ length log)%nat as Hkl.
    { destruct (Nat.le_gt_cases k (length log)); [done|]. rewrite drop_ge in Hd by lia. done. }
    rewrite take_app_le, drop_app_le, Hd, app_assoc by done. done.
  - assert (r = 0 ∧ q' = q) as [-> ->] by nia. destruct Hor as [?|[rest ->]]; [lia|]. exists (length log), rest.
    rewrite take_app_length, drop_app_length. split; [lia|done].
Qed.

Lemma boundary_app log blocks p : boundary log p → boundary (log ++ blocks) p.
Proof.
  intros (k & Hk & Hp & Hs). exists k. rewrite length_app. rewrite take_app_le by done. split_all; [lia|done|done].
Qed.
Lemma boundary_le log p : boundary log p → 0 ≤ p ≤ bytes_of log.
Proof. intros (k & Hk & <- & _). split; [apply bytes_of_pos|apply bytes_of_take]. Qed.

Lemma state_kept_app log blocks p state : state_kept config log p state → state_kept config (log ++ blocks) p state.
Proof. unfold state_kept. intros. destruct_and!. split_and!; try done. by apply boundary_app. Qed.
Lemma state_kept_more log p p' state : p ≤ p' → state_kept config log p state → state_kept config log p' state.
Proof. unfold state_kept. intros. destruct_and!. split_and!; try done. lia. Qed.

(** Growing by blocks, with the log. *)
Lemma core_grew s st m f l log saved floor s' st' blocks :
  core ({| wo_sink := s; wo_staging := st; wo_medium := m; wo_flight := f; wo_landed := l |},
        {| hi_log := log; hi_saved := saved; hi_floor := floor |}) →
  grew blocks (s, st) (s', st') → 0 < off_of s ∨ blocks = [] ∨ (∃ rest, blocks = prologue ++ rest) →
  core ({| wo_sink := s'; wo_staging := st'; wo_medium := m; wo_flight := f; wo_landed := l |},
        {| hi_log := log ++ blocks; hi_saved := saved; hi_floor := floor |}).
Proof.
  intros [] Hg Hor. pose proof (grew_sane _ _ _ i_sane Hg) as Hsane. destruct Hg as [Hfr Hsame Hoff Hroom Hstg Hfit Hlen Htake].
  cbn [fst snd wo_sink wo_staging wo_medium wo_flight wo_landed hi_log hi_saved hi_floor] in *.
  pose proof Hsame as (Eg & Ep & Eq & Ess & Esf & Ed & Efl & Ei & Ec & Esn). pose proof (segment_pos _ i_facts) as Hseg.
  destruct i_ring as [Hgeo Hpl]. destruct i_prologue as (HP & HPs & HPt & HPl). destruct i_framed as [Hframed Hsegm].
  destruct i_staged as (S1 & S2 & S3 & S4). destruct i_sane as (N1 & N2 & N3). cbn [fst snd] in *.
  assert (staged_position config s' = staged_position config s) as Epos by (unfold staged_position; by rewrite Ess, Esf).
  assert (oldest_of config s' = oldest_of config s) as Eold by (unfold oldest_of, seq_of; by rewrite Eq).
  assert (0 ≤ staged_position config s ≤ bytes_of log) as Hpos by (by apply boundary_le).
  unfold seq_of, off_of in *. rewrite Hgeo in *.
  constructor; cbn [fst snd wo_sink wo_staging wo_medium wo_flight wo_landed hi_log hi_saved hi_floor]; unfold seq_of, off_of.
  - done.
  - rewrite Hlen. done.
  - rewrite Eg, Ep. done.
  - by rewrite Esn, Ei, Ec.
  - done.
  - by rewrite Eq.
  - rewrite bytes_of_app, i_log, Eq, Hoff. lia.
  - split; [by apply Forall_app|]. destruct Hor as [Ho|[->|Ho]]; [|by rewrite app_nil_r|].
    + eapply (segmented_app log blocks _ (cu_offset (rg_cursor (sk_ring s)))); [done|exact i_log|lia|lia|by left|done].
    + eapply (segmented_app log blocks _ (cu_offset (rg_cursor (sk_ring s)))); [done|exact i_log|lia|lia|by right|done].
  - rewrite Ess, Esf, Eq, Hoff, Hstg. split_all; [done|done|done|lia].
  - rewrite Htake, i_take, Epos, concat_app, drop_app_le; [done|]. unfold bytes_of in Hpos. lia.
  - by rewrite Ed, Esf, Eq.
  - rewrite Epos. by apply boundary_app.
  - destruct f as [f|]; [|by rewrite Efl]. destruct i_flight as (F1 & F2 & F3 & F4 & F5 & F6). rewrite Efl, Epos. pose proof (bytes_of_pos blocks).
    pose proof (boundary_le _ _ F5). split_all; [done|done|done|lia|lia|by apply boundary_app|]. intros Hl p Hp. rewrite log_at_app by lia. by apply F6.
  - intros p. rewrite Eold, Epos. intros H1 H2 H3. rewrite i_medium by done. symmetry. apply log_at_app. unfold oldest_of, seq_of in *. nia.
  - rewrite Epos. eapply Forall_impl; [exact i_saved|]. intros state. apply state_kept_app.
Qed.

Lemma inv_grew s st m f l log saved floor s' st' blocks :
  inv ({| wo_sink := s; wo_staging := st; wo_medium := m; wo_flight := f; wo_landed := l |},
       {| hi_log := log; hi_saved := saved; hi_floor := floor |}) →
  grew blocks (s, st) (s', st') →
  inv ({| wo_sink := s'; wo_staging := st'; wo_medium := m; wo_flight := f; wo_landed := l |},
       {| hi_log := log ++ blocks; hi_saved := saved; hi_floor := floor |}).
Proof.
  intros [Hc Ho] Hg. split; [eapply core_grew; [done|done|by left]|]. cbn in *. destruct Hg. cbn in *. pose proof (bytes_of_pos blocks). unfold off_of in *. lia.
Qed.

(** An operation that only counts. *)
Lemma inv_counted s s' st m f l log saved floor :
  inv ({| wo_sink := s; wo_staging := st; wo_medium := m; wo_flight := f; wo_landed := l |},
       {| hi_log := log; hi_saved := saved; hi_floor := floor |}) →
  same_place s s' → rg_cursor (sk_ring s') = rg_cursor (sk_ring s) → sk_staged_len s' = sk_staged_len s →
  inv ({| wo_sink := s'; wo_staging := st; wo_medium := m; wo_flight := f; wo_landed := l |},
       {| hi_log := log; hi_saved := saved; hi_floor := floor |}).
Proof.
  intros Hi Hp Hc Hl. rewrite <- (app_nil_r log). eapply inv_grew; [exact Hi|]. apply grew_counted; [|done..]. apply (i_sane _ _ _ (proj1 Hi)).
Qed.
(** ** Beginning a segment *)

(** Writing the prologue is growing by it, from the sink whose cursor is not yet past it. *)
Lemma prologue_grew s0 s st n s' st' :
  sane (s0, st) → Sink_write_prologue s st = (Ok n, (s', st')) → same_place s0 s → sk_staged_len s0 = sk_staged_len s →
  cu_offset (rg_cursor (sk_ring s)) = cu_offset (rg_cursor (sk_ring s0)) + bytes_of (Sink_prologue_blocks s) →
  cu_offset (rg_cursor (sk_ring s)) ≤ ge_segment_bytes (rg_geometry (sk_ring s0)) →
  grew (Sink_prologue_blocks s) (s0, st) (s', st').
Proof.
  intros (H1 & H2 & H3) Hw Hp Hl Ho Hr. cbn [fst snd] in *. pose proof (Sink_write_prologue_spec s st ltac:(lia) H2) as H. rewrite Hw in H.
  destruct H as [[Hlen (-> & Hfit & Hfr & Est)] ->]. rewrite Hl in *.
  set (B := Sink_prologue_blocks s) in *. clearbody B. clear Hw.
  constructor; cbn [fst snd]; try done.
  - cbn. lia.
  - cbn. lia.
  - cbn. rewrite Est. unfold splice. rewrite app_assoc. rewrite Hl. apply take_app_exact. rewrite length_app, length_take. unfold bytes_of in *. lia.
Qed.

Lemma core_roll s st m l log saved floor s0 :
  core ({| wo_sink := s; wo_staging := st; wo_medium := m; wo_flight := None; wo_landed := l |},
        {| hi_log := log; hi_saved := saved; hi_floor := floor |}) →
  off_of s = seg → sk_staged_len s = 0 → (seq_of s + 3) * seg ≤ u64_max →
  rg_geometry (sk_ring s0) = rg_geometry (sk_ring s) → rg_prologue_len (sk_ring s0) = rg_prologue_len (sk_ring s) →
  rg_cursor (sk_ring s0) = {| cu_sequence := seq_of s + 1; cu_offset := 0 |} →
  sk_snap_len s0 = sk_snap_len s → sk_interfaces s0 = sk_interfaces s → sk_interface_count s0 = sk_interface_count s →
  sk_staged_sequence s0 = seq_of s + 1 → sk_staged_from s0 = 0 → sk_staged_len s0 = 0 → sk_durable s0 = sk_durable s →
  sk_flushing s0 = sk_flushing s →
  core ({| wo_sink := s0; wo_staging := st; wo_medium := m; wo_flight := None; wo_landed := l |},
        {| hi_log := log; hi_saved := saved; hi_floor := floor |}).
Proof.
  intros [] Hoff Hlen0 Hroom Eg Ep Ecur Esn Ei Ec Ess Esf Esl Ed Efl.
  cbn [fst snd wo_sink wo_staging wo_medium wo_flight wo_landed hi_log hi_saved hi_floor] in *.
  pose proof (segment_pos _ i_facts) as Hseg. destruct i_staged as (S1 & S2 & S3 & S4). destruct i_sane as (N1 & N2 & N3). cbn [fst snd] in *.
  assert (sk_staged_from s = seg) as Hfrom by lia.
  assert (staged_position config s0 = staged_position config s) as Epos by (unfold staged_position; rewrite Ess, Esf, S1, Hfrom; lia).
  constructor; cbn [fst snd wo_sink wo_staging wo_medium wo_flight wo_landed hi_log hi_saved hi_floor]; unfold seq_of, off_of; rewrite ?Ecur; cbn [cu_sequence cu_offset].
  - done.
  - done.
  - by rewrite Eg, Ep.
  - by rewrite Esn, Ei, Ec.
  - unfold sane. cbn [fst snd]. rewrite Esl, Ecur, Eg. cbn. lia.
  - lia.
  - lia.
  - done.
  - rewrite Ess, Esf, Esl. split_all; done || lia.
  - rewrite Esl, Epos. rewrite Hlen0 in i_take. done.
  - rewrite Esf, Ed, i_durable, Hfrom, (proj2 (Z.leb_le _ _)), (proj2 (Z.leb_gt _ _)) by lia. done.
  - by rewrite Epos.
  - by rewrite Efl.
  - rewrite Epos. intros p Hp. apply i_medium. unfold oldest_of, seq_of in *. rewrite Ecur in Hp. cbn [cu_sequence] in Hp. nia.
  - by rewrite Epos.
Qed.

Lemma prologue_bytes s : prologue_len config = Ok P →
  sk_snap_len s = sg_snap_len config → sk_interfaces s = sg_interfaces config → sk_interface_count s = sg_interface_count config →
  Sink_prologue_blocks s = prologue ∧ bytes_of prologue = P ∧ 0 < P.
Proof.
  intros HP H1 H2 H3. unfold Sink_prologue_blocks. rewrite H1, H2, H3. split; [done|]. destruct (prologue_len_blocks _ _ HP) as [E _]. split; [by rewrite E|].
  rewrite E. unfold prologue_blocks, bytes_of. cbn [concat]. rewrite length_app. assert (0 < length header_block)%nat by (vm_compute; lia). lia.
Qed.

Lemma Ring_roll_place r :
  rg_cursor (Ring_roll r).2 = {| cu_sequence := saturating_add 64 (cu_sequence (rg_cursor r)) 1; cu_offset := opening_offset (rg_geometry r) (rg_prologue_len r) |}
  ∧ rg_geometry (Ring_roll r).2 = rg_geometry r ∧ rg_prologue_len (Ring_roll r).2 = rg_prologue_len r.
Proof. unfold Ring_roll. cbv zeta. by destruct (_ =? 0). Qed.

Lemma inv_begin s st m l log saved floor r s' st' :
  inv ({| wo_sink := s; wo_staging := st; wo_medium := m; wo_flight := None; wo_landed := l |},
       {| hi_log := log; hi_saved := saved; hi_floor := floor |}) →
  Ring_slack (sk_ring s) = 0 → sk_staged_len s = 0 → (seq_of s + 3) * seg ≤ u64_max →
  Sink_begin_segment s st = (r, (s', st')) →
  inv ({| wo_sink := s'; wo_staging := st'; wo_medium := m; wo_flight := None; wo_landed := l |},
       {| hi_log := log ++ ok_blocks r (Sink_prologue_blocks s); hi_saved := saved; hi_floor := floor |}).
Proof.
  intros [Hc Ho] Hslack Hlen0 Hroom E. pose proof Hc as [].
  cbn [fst snd wo_sink wo_staging wo_medium wo_flight wo_landed hi_log hi_saved hi_floor] in *.
  pose proof (segment_pos _ i_facts) as Hseg. destruct i_prologue as (HP & HPs & HPt & HPl). destruct i_ring as [Hgeo Hpl]. destruct i_names as (M1 & M2 & M3).
  destruct (prologue_bytes s HP M1 M2 M3) as (Epb & EP & HP0).
  unfold Sink_begin_segment in E. cbv zeta in E. set (s1 := _ <| sk_staged_len := 0 |>) in E.
  assert (rg_cursor (sk_ring s1) = {| cu_sequence := seq_of s + 1; cu_offset := P |}) as Ecur.
  { change (rg_cursor (sk_ring s1)) with (rg_cursor (Ring_roll (sk_ring s)).2). rewrite (proj1 (Ring_roll_place _)), Hgeo, Hpl.
    unfold opening_offset, saturating_add, seq_of in *. rewrite (proj2 (Z.ltb_ge _ _)) by (unfold TAIL_RESERVE, SECTOR_SIZE in *; lia).
    by rewrite Z.min_l by (unfold u64_max in *; change (2 ^ 64 - 1) with 18446744073709551615; nia). }
  assert (rg_geometry (sk_ring s1) = g ∧ rg_prologue_len (sk_ring s1) = P) as [Eg1 Ep1].
  { destruct (Ring_roll_place (sk_ring s)) as (_ & H1 & H2). rewrite <- Hgeo, <- Hpl. split; [exact H1|exact H2]. }
  assert (sk_staged_sequence s1 = seq_of s + 1) as Eq1.
  { change (sk_staged_sequence s1) with (cu_sequence (rg_cursor (sk_ring s1))). by rewrite Ecur. }
  set (s0 := s1 <| sk_ring ::= λ ring, ring <| rg_cursor := {| cu_sequence := seq_of s + 1; cu_offset := 0 |} |> |>).
  assert (core ({| wo_sink := s0; wo_staging := st; wo_medium := m; wo_flight := None; wo_landed := l |},
                {| hi_log := log; hi_saved := saved; hi_floor := floor |})) as Hc0.
  { eapply core_roll; [exact Hc|unfold Ring_slack, off_of in *; rewrite Hgeo in Hslack; lia|done|done|by rewrite Hgeo|by rewrite Hpl|done..]. }
  assert (sane (s0, st)) as Hs0 by apply (RecorderRun.i_sane _ _ _ Hc0).
  destruct (Sink_write_prologue_lands config s1 st P HP M1 M2 M3) as (n & w' & Ew).
  { reflexivity. } { apply i_sane. } { change (0 + P ≤ Z.of_nat (length st)). lia. }
  rewrite Ew in E. injection E as <- ->. cbn [ok_blocks]. rewrite Epb.
  assert (grew prologue (s0, st) (s', st')) as Hg.
  { rewrite <- Epb. eapply (prologue_grew s0 s1); [exact Hs0|exact Ew|unfold same_place; rewrite Ecur; repeat split; reflexivity|reflexivity| |].
    - rewrite Ecur. change (Sink_prologue_blocks s1) with (Sink_prologue_blocks s). rewrite Epb, EP. done.
    - rewrite Ecur. change (rg_geometry (sk_ring s0)) with (rg_geometry (sk_ring s1)). rewrite Eg1. unfold TAIL_RESERVE, SECTOR_SIZE in *. cbn [cu_offset]. lia. }
  split; [eapply core_grew; [exact Hc0|exact Hg|right; right; exists []; by rewrite app_nil_r]|].
  cbn. destruct Hg as [_ _ Hgo _ _ _ _ _]. unfold off_of. cbn [fst] in Hgo. rewrite Hgo, EP. cbn. lia.
Qed.
(** ** Flushing *)

Lemma mod4_off k r : (k * 512 + r) mod 4 = 0 → r mod 4 = 0.
Proof. ints. Qed.

(** A sealed sink's cursor is at a sector. *)
Lemma seal_aligned offset : 0 ≤ offset → offset mod 4 = 0 → (offset + bytes_of (seal_blocks offset)) mod SECTOR_SIZE = 0.
Proof.
  intros H0 H4. unfold seal_blocks. destruct (Z.eqb_spec (offset mod SECTOR_SIZE) 0) as [E|E].
  - unfold bytes_of. cbn [concat length]. by rewrite Z.add_0_r.
  - rewrite bytes_of_one. unfold SECTOR_SIZE in *. unfold seal_pad, MIN_CUSTOM_BLOCK_LEN, SECTOR_SIZE. cbv zeta.
    destruct (Z.ltb_spec (512 - offset mod 512) 16); rewrite length_padding_block; unfold MIN_CUSTOM_BLOCK_LEN; ints.
Qed.

Lemma boundary_end log : segmented log → boundary log (bytes_of log).
Proof. intros H. exists (length log). rewrite take_ge by done. done. Qed.

Lemma inv_take_flush s st m l log saved floor fo s' st' :
  inv ({| wo_sink := s; wo_staging := st; wo_medium := m; wo_flight := None; wo_landed := l |},
       {| hi_log := log; hi_saved := saved; hi_floor := floor |}) →
  Sink_take_flush s st = (fo, (s', st')) →
  inv ({| wo_sink := s'; wo_staging := st'; wo_medium := m; wo_flight := fo; wo_landed := l |},
       {| hi_log := log ++ ok_blocks (Sink_seal s st).1 (seal_blocks (off_of s)); hi_saved := saved; hi_floor := floor |}).
Proof.
  intros Hi E. pose proof (RecorderRun.i_sane _ _ _ (proj1 Hi)) as Hsane. cbn in Hsane. pose proof (Sink_seal_grew s st Hsane) as Hseal.
  unfold Sink_take_flush in E. destruct (i_flight _ _ _ (proj1 Hi)) as [Hnf Hnl]. cbn in Hnf, Hnl. rewrite Hnf in E.
  destruct (Sink_seal s st) as [[n|e] [s1 st1]]; cbn [fst ok_blocks].
  2: { injection E as <- <- <-. eapply inv_grew; [exact Hi|exact Hseal]. }
  set (blocks := seal_blocks (off_of s)) in *. change (seal_blocks (cu_offset (rg_cursor (sk_ring s)))) with blocks in Hseal.
  pose proof (inv_grew _ _ _ _ _ _ _ _ _ _ _ Hi Hseal) as Hi1. pose proof Hi1 as [[] Ho1].
  cbn [fst snd wo_sink wo_staging wo_medium wo_flight wo_landed hi_log hi_saved hi_floor] in *.
  pose proof (segment_pos _ i_facts) as Hseg. pose proof i_staged as (S1 & S2 & S3 & S4). pose proof i_ring as [Hgeo _]. pose proof i_framed as [Hfr Hsg].
  assert (off_of s1 mod SECTOR_SIZE = 0) as Hal.
  { destruct Hseal as [_ _ Ho _ _ _ _ _]. cbn [fst] in Ho. unfold off_of. rewrite Ho. unfold blocks. apply seal_aligned; [apply Hsane|].
    pose proof (bytes_of_mod4 log (proj1 (RecorderRun.i_framed _ _ _ (proj1 Hi)))) as H4. pose proof (RecorderRun.i_log _ _ _ (proj1 Hi)) as Hl. cbn in Hl. rewrite Hl in H4.
    unfold off_of in H4. pose proof (gf_segment _ i_facts) as Hs. unfold SECTOR_SIZE in Hs. rewrite Hs, Z.mul_assoc in H4. by apply (mod4_off (seq_of s * ge_segment_sectors g)). }
  assert (sk_staged_len s1 / SECTOR_SIZE * SECTOR_SIZE = sk_staged_len s1) as Ewhole by (unfold SECTOR_SIZE in *; ints).
  rewrite Ewhole in E. destruct (Z.eqb_spec (sk_staged_len s1) 0) as [E0|E0].
  - injection E as <- <- <-. exact Hi1.
  - injection E as <- <- <-. split; [|exact Ho1]. pose proof i_sane as (N1 & N2 & N3). cbn [fst snd] in N1, N2, N3. rewrite Hgeo in N3.
    constructor; cbn [fst snd wo_sink wo_staging wo_medium wo_flight wo_landed hi_log hi_saved hi_floor]; try done.
    unfold staged_position in *. cbn [sk_flushing sk_staged_len sk_staged_sequence sk_staged_from sk_ring fl_sector fl_len]. rewrite Hgeo.
    assert (sk_staged_sequence s1 * seg + sk_staged_from s1 + sk_staged_len s1 = bytes_of (log ++ blocks)) as Eend by (rewrite i_log, S1; lia).
    split_all; [done| |unfold SECTOR_SIZE in *; ints|lia|lia| |by rewrite Hnl].
    + apply (sector_of g i_facts); unfold off_of in *; lia.
    + change (boundary (log ++ blocks) (sk_staged_sequence s1 * seg + sk_staged_from s1 + sk_staged_len s1)). rewrite Eend. by apply boundary_end.
Qed.

(** Where a flush goes: the bytes of the device that the positions from the flush's first on
    are at. *)
Lemma address_run p d : geometry_facts g → 0 ≤ d → p mod seg + d < seg → address g (p + d) = address g p + d.
Proof.
  intros Hf Hd Hlt. pose proof (segment_pos _ Hf) as Hs. pose proof (Z.mod_pos_bound p seg Hs) as Hm.
  rewrite (Z.div_mod p seg) at 1 by lia. replace (seg * (p / seg) + p mod seg + d) with (p / seg * seg + (p mod seg + d)) by lia.
  rewrite address_at by (done || lia). rewrite address_eq by done. lia.
Qed.

(** What the device may do to the bytes of a flush leaves the readable positions alone. *)
Lemma flight_elsewhere s st m f l log saved floor p :
  core ({| wo_sink := s; wo_staging := st; wo_medium := m; wo_flight := Some f; wo_landed := l |},
        {| hi_log := log; hi_saved := saved; hi_floor := floor |}) →
  oldest_of config s * seg ≤ p → p < staged_position config s →
  address g p < fl_sector f * SECTOR_SIZE ∨ fl_sector f * SECTOR_SIZE + fl_len f ≤ address g p.
Proof.
  intros [] H1 H2. cbn [fst snd wo_sink wo_staging wo_medium wo_flight wo_landed hi_log hi_saved hi_floor] in *.
  destruct i_flight as (F1 & F2 & F3 & F4 & F5 & F6). destruct i_staged as (S1 & S2 & S3 & S4). destruct i_sane as (N1 & N2 & N3). cbn [fst snd] in *.
  pose proof (segment_pos _ i_facts) as Hs. pose proof (segments_pos _ i_facts) as Hn. destruct i_ring as [Hgeo _]. rewrite Hgeo in *. unfold off_of in *.
  rewrite F2. set (pos := staged_position config s) in *.
  destruct (Z.lt_ge_cases (address g p) (address g pos)) as [|Hge]; [by left|]. right. destruct (Z.le_gt_cases (address g pos + fl_len f) (address g p)) as [|Hlt]; [done|].
  exfalso. set (d := address g p - address g pos).
  assert (pos / seg = seq_of s ∧ pos mod seg = sk_staged_from s) as [Ed Em].
  { unfold pos, staged_position. rewrite S1. split; [rewrite Z.div_add_l, Z.div_small by lia; lia|]. rewrite Z.add_comm, Z.mod_add, Z.mod_small by lia. done. }
  assert (address g (pos + d) = address g p) as Eq by (rewrite address_run by (done || (unfold d; lia)); unfold d; lia).
  assert ((pos + d) / seg = seq_of s) as Ed'.
  { rewrite (Z.div_mod pos seg) by lia. replace (seg * (pos / seg) + pos mod seg + d) with (pos / seg * seg + (pos mod seg + d)) by lia.
    rewrite Z.div_add_l, (Z.div_small (pos mod seg + d)) by (unfold d; lia). lia. }
  apply (address_inj g i_facts) in Eq; [unfold d in *; lia|]. rewrite Ed'.
  assert (p / seg ≤ seq_of s) by (rewrite <- Ed; apply Z.div_le_mono; lia).
  assert (oldest_of config s ≤ p / seg) by (apply Z.div_le_lower_bound; lia). unfold oldest_of in *. lia.
Qed.

Lemma inv_device s st m m' f log saved floor :
  inv ({| wo_sink := s; wo_staging := st; wo_medium := m; wo_flight := Some f; wo_landed := false |},
       {| hi_log := log; hi_saved := saved; hi_floor := floor |}) →
  (∀ a, a < fl_sector f * SECTOR_SIZE ∨ fl_sector f * SECTOR_SIZE + fl_len f ≤ a → m' a = m a) →
  inv ({| wo_sink := s; wo_staging := st; wo_medium := m'; wo_flight := Some f; wo_landed := false |},
       {| hi_log := log; hi_saved := saved; hi_floor := floor |}).
Proof.
  intros [Hc Ho] Hm. split; [|done]. pose proof (λ p, flight_elsewhere _ _ _ _ _ _ _ _ p Hc) as Hel. destruct Hc.
  cbn [fst snd wo_sink wo_staging wo_medium wo_flight wo_landed hi_log hi_saved hi_floor] in *.
  constructor; cbn [fst snd wo_sink wo_staging wo_medium wo_flight wo_landed hi_log hi_saved hi_floor]; try done.
  - destruct i_flight as (F1 & F2 & F3 & F4 & F5 & F6). split_all; done || lia.
  - intros p H1 H2 H3. rewrite Hm by (by apply Hel). by apply i_medium.
Qed.

Lemma inv_elsewhere s st m m' f l log saved floor :
  inv ({| wo_sink := s; wo_staging := st; wo_medium := m; wo_flight := f; wo_landed := l |},
       {| hi_log := log; hi_saved := saved; hi_floor := floor |}) →
  (∀ p, 0 ≤ p → m' (address g p) = m (address g p)) →
  inv ({| wo_sink := s; wo_staging := st; wo_medium := m'; wo_flight := f; wo_landed := l |},
       {| hi_log := log; hi_saved := saved; hi_floor := floor |}).
Proof.
  intros [Hc Ho] Hm. split; [|done]. destruct Hc. cbn [fst snd wo_sink wo_staging wo_medium wo_flight wo_landed hi_log hi_saved hi_floor] in *.
  pose proof (boundary_le _ _ i_boundary) as [Hp _]. pose proof (segment_pos _ i_facts) as Hs.
  constructor; cbn [fst snd wo_sink wo_staging wo_medium wo_flight wo_landed hi_log hi_saved hi_floor]; try done.
  - destruct f as [f|]; [|done]. destruct i_flight as (F1 & F2 & F3 & F4 & F5 & F6). split_and!; try done; try lia. intros Hl p Hr. rewrite Hm by lia. by apply F6.
  - intros p H1 H2 H3. rewrite Hm by (unfold oldest_of in H1; nia). by apply i_medium.
Qed.

Lemma inv_landed s st m f l log saved floor :
  inv ({| wo_sink := s; wo_staging := st; wo_medium := m; wo_flight := Some f; wo_landed := l |},
       {| hi_log := log; hi_saved := saved; hi_floor := floor |}) →
  inv ({| wo_sink := s; wo_staging := st; wo_medium := write_run m (fl_sector f * SECTOR_SIZE) (take (Z.to_nat (fl_len f)) st);
          wo_flight := Some f; wo_landed := true |},
       {| hi_log := log; hi_saved := saved; hi_floor := floor |}).
Proof.
  intros [Hc Ho]. split; [|done]. pose proof (λ p, flight_elsewhere _ _ _ _ _ _ _ _ p Hc) as Hel. destruct Hc.
  cbn [fst snd wo_sink wo_staging wo_medium wo_flight wo_landed hi_log hi_saved hi_floor] in *.
  destruct i_flight as (F1 & F2 & F3 & F4 & F5 & F6). pose proof i_staged as (S1 & S2 & S3 & S4). pose proof i_sane as (N1 & N2 & N3). cbn [fst snd] in N1, N2, N3.
  pose proof (segment_pos _ i_facts) as Hs. pose proof i_ring as [Hgeo _]. rewrite Hgeo in N3. unfold off_of in S4.
  assert (length (take (Z.to_nat (fl_len f)) st) = Z.to_nat (fl_len f)) as Hlen by (rewrite length_take; lia).
  constructor; cbn [fst snd wo_sink wo_staging wo_medium wo_flight wo_landed hi_log hi_saved hi_floor]; try done.
  - split_and!; [exact F1|exact F2|exact F3|exact (proj1 F4)|exact (proj2 F4)|exact F5|]. intros _ p Hp. set (pos := staged_position config s) in *. set (d := p - pos).
    assert (pos mod seg = sk_staged_from s) as Em by (unfold pos, staged_position; rewrite S1, Z.add_comm, Z.mod_add, Z.mod_small by lia; done).
    assert (address g p = address g pos + d) as -> by (rewrite <- address_run by (done || (unfold d; lia)); f_equal; unfold d; lia).
    unfold write_run. rewrite F2, Hlen, (proj2 (Z.leb_le _ _)), (proj2 (Z.ltb_lt _ _)) by (unfold d; lia). cbn [andb].
    replace (address g pos + d - address g pos) with d by lia. unfold log_at, byte_at.
    assert (take (Z.to_nat (sk_staged_len s)) st !! Z.to_nat d = concat log !! Z.to_nat p) as E.
    { rewrite i_take, lookup_drop. f_equal. pose proof (boundary_le _ _ i_boundary). unfold d. lia. }
    rewrite lookup_take_lt in E by (unfold d; lia). rewrite !nth_lookup, lookup_take_lt by (unfold d; lia). by rewrite E.
  - intros p H1 H2 H3. unfold write_run. specialize (Hel p H1 H3). rewrite Hlen.
    destruct (Z.leb_spec (fl_sector f * SECTOR_SIZE) (address g p)), (Z.ltb_spec (address g p) (fl_sector f * SECTOR_SIZE + Z.of_nat (Z.to_nat (fl_len f))));
      [lia|by apply i_medium..].
Qed.
End Keeps.
