(* ===== verification/RecorderInvariant.v ===== *)
(** * The invariant holds of every run

    The steps of [RecorderKeeps] with the ones that move the durable end, take a checkpoint or
    boot from one; [run_inv] puts them together. *)
From S2P Require Import Prelude Layout Shared WireTap Pcapng PcapngFacts PcapngRead CaptureRing CaptureSuperblock CaptureCrc CaptureSuperblockFacts Recorder RecorderGeometry RecorderBlocks RecorderOps RecorderRun RecorderKeeps.

Section Invariant.
Context (config : SinkConfig) (P : Z).
#[local] Notation g := (sg_geometry config).
#[local] Notation seg := (ge_segment_bytes (sg_geometry config)).
#[local] Notation prologue := (prologue config).
#[local] Notation core := (core config P).
#[local] Notation inv := (inv config P).
#[local] Notation boundary := (boundary config).
#[local] Notation segmented := (segmented config).

(** ** A flush acknowledged *)
Lemma take_inserted {A} (l : list A) a n : (a + n ≤ length l)%nat → take n (list_inserts 0 (take n (drop a l)) l) = take n (drop a l).
Proof.
  intros H. set (x := take n (drop a l)). assert (length x = n) as Hx by (unfold x; rewrite length_take, length_drop; lia).
  apply list_eq. intros i. destruct (decide (i < n)%nat) as [Hi|Hi].
  - rewrite lookup_take_lt by done. rewrite list_lookup_inserts by lia. f_equal. lia.
  - rewrite !lookup_ge_None_2; [done|lia|rewrite length_take; lia].
Qed.

Lemma inv_acknowledge s st m f log saved floor s' st' :
  inv ({| wo_sink := s; wo_staging := st; wo_medium := m; wo_flight := Some f; wo_landed := true |},
       {| hi_log := log; hi_saved := saved; hi_floor := floor |}) →
  Sink_acknowledge f s st = (s', st') →
  inv ({| wo_sink := s'; wo_staging := st'; wo_medium := m; wo_flight := None; wo_landed := false |},
       {| hi_log := log; hi_saved := saved; hi_floor := floor |}).
Proof.
  intros [Hc Ho] E. pose proof Hc as []. cbn [fst snd wo_sink wo_staging wo_medium wo_flight wo_landed hi_log hi_saved hi_floor] in *.
  destruct i_flight as (F1 & F2 & F3 & F4 & F5 & F6). destruct i_staged as (S1 & S2 & S3 & S4). destruct i_sane as (N1 & N2 & N3). cbn [fst snd] in *.
  pose proof (segment_pos _ i_facts) as Hs. destruct i_ring as [Hgeo Hpl]. rewrite Hgeo in N3. destruct i_sequence as [Q1 Q2].
  assert (s' = (Sink_acknowledge f s st).1 ∧ st' = (Sink_acknowledge f s st).2) as [Es Est] by by rewrite E.
  assert (saturating_sub (sk_staged_len s) (fl_len f) = sk_staged_len s - fl_len f) as Etail by (unfold saturating_sub; lia).
  assert (saturating_add 64 (sk_staged_from s) (fl_len f) = sk_staged_from s + fl_len f) as Efrom.
  { unfold saturating_add, off_of, u64_max in *. change (2 ^ 64 - 1) with 18446744073709551615. apply Z.min_l. nia. }
  assert (saturating_add 64 (sk_staged_sequence s) 1 = seq_of s + 1) as Eseq.
  { unfold saturating_add, u64_max in *. change (2 ^ 64 - 1) with 18446744073709551615. rewrite S1. apply Z.min_l. nia. }
  assert (st' = list_inserts 0 (slice st (Z.to_nat (fl_len f)) (Z.to_nat (sk_staged_len s - fl_len f))) st) as Hst.
  { rewrite Est. unfold Sink_acknowledge. cbn [snd]. change (sk_staged_len (s <| sk_flushing := false |>)) with (sk_staged_len s).
    by rewrite (proj2 (Z.ltb_ge _ _)), (Z.min_l (fl_len f)) by lia. }
  clear E Est.
  assert (sk_ring s' = sk_ring s ∧ sk_staged_sequence s' = sk_staged_sequence s ∧ sk_flushing s' = false ∧ sk_snap_len s' = sk_snap_len s
    ∧ sk_interfaces s' = sk_interfaces s ∧ sk_interface_count s' = sk_interface_count s) as (R1 & R2 & R3 & R4 & R5 & R6) by (rewrite Es; repeat split).
  assert (sk_staged_len s' = sk_staged_len s - fl_len f) as L1 by (rewrite Es; exact Etail).
  assert (sk_staged_from s' = sk_staged_from s + fl_len f) as L2 by (rewrite Es; exact Efrom).
  assert (sk_durable s' = if seg <=? sk_staged_from s + fl_len f then {| cu_sequence := seq_of s + 1; cu_offset := 0 |}
                          else {| cu_sequence := seq_of s; cu_offset := sk_staged_from s + fl_len f |}) as L3.
  { rewrite Es, <- Efrom, <- Eseq, <- S1, <- Hgeo. reflexivity. }
  assert (staged_position config s' = staged_position config s + fl_len f) as Epos.
  { unfold staged_position. rewrite L2, R2. lia. }
  clear Es. set (n := Z.to_nat (sk_staged_len s - fl_len f)) in *.
  assert (length st' = length st) as Hlen by (rewrite Hst; apply length_inserts).
  split; [|cbn; unfold off_of; rewrite R1; exact Ho].
  constructor; cbn [fst snd wo_sink wo_staging wo_medium wo_flight wo_landed hi_log hi_saved hi_floor]; unfold seq_of, off_of, oldest_of; rewrite ?R1, ?R2, ?R4, ?R5, ?R6.
  - done.
  - by rewrite Hlen.
  - done.
  - done.
  - unfold sane. cbn [fst snd]. rewrite R1, L1, Hlen, Hgeo. lia.
  - done.
  - done.
  - done.
  - rewrite L1, L2. unfold SECTOR_SIZE, off_of in *. split_all; [done|lia|ints|lia].
  - rewrite L1, Epos. fold n. rewrite Hst. unfold slice. rewrite take_inserted by lia. rewrite take_drop_commute.
    replace (Z.to_nat (fl_len f) + n)%nat with (Z.to_nat (sk_staged_len s)) by lia. rewrite i_take, drop_drop. f_equal.
    pose proof (boundary_le _ _ _ i_boundary). lia.
  - by rewrite L2, L3.
  - by rewrite Epos.
  - done.
  - rewrite Epos. intros p H1 H2 H3. destruct (Z.lt_ge_cases p (staged_position config s)); [apply i_medium; [unfold seq_of in H1; rewrite R1 in H1; exact H1|exact H2|done]|apply F6; [done|lia]].
  - rewrite Epos. eapply Forall_impl; [exact i_saved|]. intros state. apply state_kept_more. lia.
Qed.

(** ** Asides and checkpoints *)
Lemma Sink_find_ring p s : ∃ ring, (Sink_find p s).2 = s <| sk_ring := ring |> ∧ rg_geometry ring = rg_geometry (sk_ring s)
  ∧ rg_prologue_len ring = rg_prologue_len (sk_ring s) ∧ rg_cursor ring = rg_cursor (sk_ring s).
Proof.
  assert (∀ r : Sink, r = s → ∃ ring, r = s <| sk_ring := ring |> ∧ rg_geometry ring = rg_geometry (sk_ring s)
    ∧ rg_prologue_len ring = rg_prologue_len (sk_ring s) ∧ rg_cursor ring = rg_cursor (sk_ring s)) as Hself.
  { intros r ->. exists (sk_ring s). by destruct s. }
  unfold Sink_find. cbv zeta. destruct (_ <=? p); [by apply Hself|]. destruct (_ =? 0); [by apply Hself|]. destruct (p <? _); [by apply Hself|].
  unfold Ring_locate. destruct (Ring_readable (sk_ring s)) as [oldest newest]. destruct (_ <? oldest); [by eexists|].
  destruct (newest <? _); [by eexists|]. cbv zeta. destruct (_ <=? _); by eexists.
Qed.

Lemma inv_aside s s' st m f l log saved floor :
  inv ({| wo_sink := s; wo_staging := st; wo_medium := m; wo_flight := f; wo_landed := l |},
       {| hi_log := log; hi_saved := saved; hi_floor := floor |}) →
  (∃ p, s' = (Sink_find p s).2) ∨ (∃ n, s' = Sink_note_drops n s) ∨ (∃ p, s' = (Sink_acknowledge_reader p s).2) ∨ s' = Sink_acknowledge_checkpoint s →
  inv ({| wo_sink := s'; wo_staging := st; wo_medium := m; wo_flight := f; wo_landed := l |},
       {| hi_log := log; hi_saved := saved; hi_floor := floor |}).
Proof.
  intros Hi H. assert (same_place s s' ∧ rg_cursor (sk_ring s') = rg_cursor (sk_ring s) ∧ sk_staged_len s' = sk_staged_len s) as (H1 & H2 & H3).
  { destruct H as [[p ->]|[[n ->]|[[p ->]| ->]]].
    - destruct (Sink_find_ring p s) as (ring & -> & E1 & E2 & E3). unfold same_place. cbn. by rewrite E1, E2, E3.
    - done.
    - unfold Sink_acknowledge_reader. cbv zeta. destruct (_ =? 0); [done|]. destruct (sk_reader s) as [held|]; [|done]. by destruct (cursor_le _ held).
    - done. }
  by eapply inv_counted.
Qed.
(** The durable cursor is the staged position, inside a segment. *)
Lemma durable_at wh :
  core wh → let d := sk_durable (wo_sink wh.1) in
  position_of g d = staged_position config (wo_sink wh.1) ∧ 0 ≤ cu_sequence d ≤ seq_of (wo_sink wh.1) + 1 ∧ 0 ≤ cu_offset d < seg
  ∧ cu_offset d mod SECTOR_SIZE = 0.
Proof.
  intros []. pose proof (segment_pos _ i_facts) as Hs. destruct i_staged as (S1 & S2 & S3 & S4). destruct i_sane as (N1 & N2 & N3). destruct i_ring as [Hgeo _].
  cbn [fst snd] in N1, N2, N3. rewrite Hgeo in N3. destruct i_sequence as [Q1 _]. unfold off_of in *.
  cbv zeta. rewrite i_durable. unfold position_of, staged_position. rewrite S1. destruct (Z.leb_spec seg (sk_staged_from (wo_sink wh.1))); cbn [cu_sequence cu_offset];
    split_all; try lia; done.
Qed.

Lemma inv_superblock image s st m f l log saved floor write s' image' state ring :
  inv ({| wo_sink := s; wo_staging := st; wo_medium := m; wo_flight := f; wo_landed := l |},
       {| hi_log := log; hi_saved := saved; hi_floor := floor |}) →
  Sink_superblock image s = (Ok write, (s', image')) →
  Ring_checkpoint (sk_durable s) (match sk_reader s with Some c => [{| rd_id := CHANNEL_READER_ID; rd_cursor := c |}] | None => [] end)
    (sk_ring s) = (Ok state, ring) →
  inv ({| wo_sink := s'; wo_staging := st; wo_medium := m; wo_flight := f; wo_landed := l |},
       {| hi_log := log; hi_saved := saved ++ [state]; hi_floor := floor |}).
Proof.
  intros Hi E Ec. unfold Sink_superblock in E. rewrite Ec in E. destruct (encode_superblock image state _) as [w i]. injection E as _ <- _.
  unfold Ring_checkpoint in Ec. destruct (RingState_new _ _ _ _) as [st0|] eqn:En; [|done]. injection Ec as <- <-.
  assert (rs_geometry st0 = rg_geometry (sk_ring s) ∧ rs_writer st0 = sk_durable s) as [Eg Ew].
  { unfold RingState_new in En. cbv zeta in En. destruct (_ <? _); [done|]. destruct (_ <? _)%nat; [done|]. apply result_bind_Ok in En as (u & _ & En).
    apply Ok_inj in En. by subst st0. }
  destruct (durable_at _ (proj1 Hi)) as (D1 & D2 & D3 & D4). cbn [fst wo_sink] in D1, D2, D3, D4.
  pose proof (i_boundary _ _ _ (proj1 Hi)) as Hb. pose proof (i_ring _ _ _ (proj1 Hi)) as [Hgeo _]. cbn [fst snd wo_sink hi_log] in Hb, Hgeo.
  assert (state_kept config log (staged_position config s) st0) as Hk.
  { unfold state_kept. rewrite Eg, Ew, D1, Hgeo. split_all; done || lia. }
  eapply (inv_counted _ _ _ _) in Hi; [|unfold same_place; repeat split; reflexivity|reflexivity|reflexivity].
  destruct Hi as [[] Ho]. split; [|exact Ho]. constructor; try assumption.
  cbn [fst snd hi_log hi_saved]. apply Forall_app. split; [assumption|]. apply Forall_singleton. exact Hk.
Qed.

(** ** Boots *)

(** The sink as [Sink_new] builds it, before its prologue is written. *)
Definition opening : Sink :=
  {| sk_ring := Ring_new g P; sk_snap_len := sg_snap_len config; sk_interfaces := sg_interfaces config;
     sk_interface_count := sg_interface_count config; sk_staged_sequence := 0; sk_staged_from := 0; sk_staged_len := 0;
     sk_durable := {| cu_sequence := 0; cu_offset := 0 |}; sk_reader := None; sk_superblock_stale := true; sk_flushing := false;
     sk_pending_drops := 0; sk_counters := SinkCounters_zero |}.

Lemma Sink_new_writes staging s st :
  prologue_len config = Ok P → Sink_new config staging = (Ok s, st) → Z.of_nat (length staging) ≤ u64_max →
  (∃ n, Sink_write_prologue opening staging = (Ok n, (s, st))) ∧ s = opening <| sk_staged_len := P |> ∧ P + TAIL_RESERVE < seg
  ∧ P ≤ Z.of_nat (length staging) ∧ length st = length staging.
Proof.
  intros HP H Hs. unfold Sink_new in H. rewrite HP in H. destruct (payload_fits P seg) eqn:Ef; [|done]. cbn [negb] in H. fold opening in H.
  assert (P + TAIL_RESERVE < seg) as Hfit by (unfold payload_fits in Ef; destruct (_ <? _); [done|]; by apply Z.ltb_lt).
  pose proof (Sink_write_prologue_spec opening staging ltac:(done) Hs) as Hw.
  destruct (Sink_write_prologue opening staging) as [[n|e] [s1 st1]]; [|done]. injection H as -> ->. destruct Hw as [[Hl (-> & Hr & _)] ->].
  destruct (prologue_bytes config P opening HP eq_refl eq_refl eq_refl) as (Eb & EP & _). rewrite Eb, EP in *. change (sk_staged_len opening) with 0 in *.
  split_all; [by eexists|done|lia|lia|done].
Qed.

Lemma inv_fresh staging s st m :
  config_ok config → prologue_len config = Ok P → Z.of_nat (length staging) ≤ u64_max → Sink_new config staging = (Ok s, st) →
  inv ({| wo_sink := s; wo_staging := st; wo_medium := m; wo_flight := None; wo_landed := false |},
       {| hi_log := prologue; hi_saved := []; hi_floor := 0 |}).
Proof.
  intros [Hnames (start & sectors & bytes & capacity & (U1 & U2 & U3 & U4) & Hgeo)] HP Hs H.
  apply Geometry_new_facts in Hgeo; [|done..]. pose proof (segment_pos _ Hgeo) as Hseg. pose proof (segments_pos _ Hgeo) as Hn.
  destruct (Sink_new_writes _ _ _ HP H Hs) as ([n Hw] & Es & Hfit & Hroom & Hlen).
  destruct (prologue_bytes config P opening HP eq_refl eq_refl eq_refl) as (Eb & EP & HP0). pose proof (prologue_short _ _ Hnames HP) as Hshort.
  set (s0 := opening <| sk_ring ::= λ ring, ring <| rg_cursor := {| cu_sequence := 0; cu_offset := 0 |} |> |>).
  assert (core ({| wo_sink := s0; wo_staging := staging; wo_medium := m; wo_flight := None; wo_landed := false |},
                {| hi_log := []; hi_saved := []; hi_floor := 0 |})) as Hc.
  { constructor; cbn [fst snd wo_sink wo_staging wo_medium wo_flight wo_landed hi_log hi_saved hi_floor].
    - exact Hgeo.
    - split_all; [exact HP|lia|lia|lia].
    - split; reflexivity.
    - split_all; reflexivity.
    - unfold sane. cbn [fst snd]. change (sk_staged_len s0) with 0. change (cu_offset (rg_cursor (sk_ring s0))) with 0. change (rg_geometry (sk_ring s0)) with g. lia.
    - change (seq_of s0) with 0. pose proof (gf_bytes _ Hgeo) as Hb. rewrite (gf_sectors _ Hgeo) in Hb. rewrite (gf_segment _ Hgeo).
      pose proof (gf_segment _ Hgeo) as Hgs. unfold SECTOR_SIZE in *. split; [lia|nia].
    - reflexivity.
    - split; [constructor|]. intros q Hq Hlt. change (bytes_of []) with 0 in Hlt. nia.
    - split_all; [reflexivity|change (0 ≤ 0); lia|reflexivity|reflexivity].
    - reflexivity.
    - change (sk_staged_from s0) with 0. rewrite (proj2 (Z.leb_gt _ _)) by lia. reflexivity.
    - exists 0%nat. split_all; [cbn [length]; lia|reflexivity|]. intros q Hq Hlt. change (bytes_of (take 0 [])) with 0 in Hlt. nia.
    - split; reflexivity.
    - intros p Hp _ Hp2. change (staged_position config s0) with (0 * seg + 0) in Hp2. change (seq_of s0) with 0 in *. unfold oldest_of in Hp. nia.
    - constructor. }
  assert (grew prologue (s0, staging) (s, st)) as Hg.
  { rewrite <- Eb. eapply (prologue_grew s0 opening); [apply (i_sane _ _ _ Hc)|exact Hw|by repeat split|done| |].
    - rewrite Eb, EP. unfold s0. cbn. unfold opening_offset. rewrite (proj2 (Z.ltb_ge _ _)) by (unfold TAIL_RESERVE, SECTOR_SIZE in *; lia). done.
    - cbn. unfold opening_offset. rewrite (proj2 (Z.ltb_ge _ _)) by (unfold TAIL_RESERVE, SECTOR_SIZE in *; lia). unfold TAIL_RESERVE, SECTOR_SIZE in *; lia. }
  split.
  - apply (core_grew config P s0 staging m None false [] [] 0 s st prologue Hc Hg). right; right. exists []. by rewrite app_nil_r.
  - destruct Hg as [_ _ Ho _ _ _ _ _]. cbn [fst wo_sink]. unfold off_of. cbn [fst] in Ho. rewrite Ho, EP. cbn. lia.
Qed.
(** A sink at the writer of a checkpoint, with nothing staged. *)
Record resumed_at (state : RingState) (s : Sink) : Prop := {
  ra_geometry : rg_geometry (sk_ring s) = g;
  ra_prologue : rg_prologue_len (sk_ring s) = P;
  ra_cursor : rg_cursor (sk_ring s) = rs_writer state;
  ra_names : sk_snap_len s = sg_snap_len config ∧ sk_interfaces s = sg_interfaces config ∧ sk_interface_count s = sg_interface_count config;
  ra_sequence : sk_staged_sequence s = cu_sequence (rs_writer state);
  ra_from : sk_staged_from s = cu_offset (rs_writer state);
  ra_len : sk_staged_len s = 0;
  ra_durable : sk_durable s = rs_writer state;
  ra_flushing : sk_flushing s = false
}.

(** What a resume does from there. *)
Definition resume_tail (s : Sink) (staging : list Z) : Result Sink SinkError * list Z :=
  match Ring_fit P (sk_ring s) with
  | Fits _ =>
      match Ring_append P (sk_ring s) with
      | (Placed placement, ring) =>
          let s := s <| sk_ring := (Reservation_commit placement ring).2 |> in
          match Sink_write_prologue s staging with
          | (Ok _, (s, staging)) => (Ok s, staging)
          | (Err e, (_, staging)) => (Err (Encode e), staging)
          end
      | (_, ring) => (Ok (s <| sk_ring := ring |>), staging)
      end
  | _ =>
      match Sink_close_segment s staging with
      | (Ok _, (s, staging)) => (Ok s, staging)
      | (Err e, (_, staging)) => (Err (Encode e), staging)
      end
  end.

Lemma Sink_resume_tail state staging s' st' :
  prologue_len config = Ok P → Z.of_nat (length staging) ≤ u64_max → Sink_resume config state staging = (Ok s', st') →
  ∃ s1 st1, resumed_at state s1 ∧ length st1 = length staging ∧ P ≤ Z.of_nat (length staging) ∧ resume_tail s1 st1 = (Ok s', st').
Proof.
  intros HP Hs H. unfold Sink_resume in H. destruct (RingState_check state g) as [checked|] eqn:Ek; [|done].
  assert (ck_geometry checked = g ∧ ck_writer checked = rs_writer state) as [Eg Ew].
  { unfold RingState_check in Ek. destruct (negb _); [done|]. destruct (negb _); [done|]. destruct (negb _); [done|]. apply Ok_inj in Ek. by subst checked. }
  destruct (negb _); [done|]. destruct (Sink_new config staging) as [[s0|] st1] eqn:En; [|done].
  destruct (Sink_new_writes _ _ _ HP En Hs) as (_ & Es0 & Hfit & Hroom & Hlen). clear En.
  assert (rg_prologue_len (sk_ring s0) = P ∧ sk_snap_len s0 = sg_snap_len config ∧ sk_interfaces s0 = sg_interfaces config
    ∧ sk_interface_count s0 = sg_interface_count config ∧ sk_flushing s0 = false) as (E0 & E1 & E2 & E3 & E4) by (rewrite Es0; repeat split).
  clear Es0. eexists _, st1. split; [|split; [exact Hlen|split; [lia|]]]; cycle 1.
  - unfold resume_tail. rewrite <- E0. exact H.
  - constructor; first [reflexivity|exact Eg|exact E0|exact Ew|exact E4|by rewrite <- Ew|split_all; assumption].
Qed.

(** A resume is such a sink, grown by a fresh prologue or, short of the room for it, by the
    padding that closes the segment. *)
Lemma Sink_resume_grew state staging s' st' :
  prologue_len config = Ok P → 2 * P ≤ seg → 0 ≤ cu_offset (rs_writer state) < seg → Z.of_nat (length staging) ≤ u64_max →
  Sink_resume config state staging = (Ok s', st') →
  ∃ s1 st1, resumed_at state s1 ∧ length st1 = length staging ∧ P ≤ Z.of_nat (length staging)
  ∧ grew (resumed_blocks config P state) (s1, st1) (s', st').
Proof.
  intros HP H2 Ho Hs Hres. destruct (Sink_resume_tail _ _ _ _ HP Hs Hres) as (s1 & st1 & R & Hlen & Hroom & H). clear Hres.
  exists s1, st1. split; [exact R|]. split; [exact Hlen|]. split; [lia|]. destruct R. destruct ra_names0 as (M1 & M2 & M3).
  assert (sane (s1, st1)) as Hsane by (unfold sane; cbn [fst snd]; rewrite ra_len0, ra_cursor0, ra_geometry0, Hlen; lia).
  destruct (prologue_bytes config P s1 HP M1 M2 M3) as (Eb & EP & HP0).
  assert (opening_offset g P = P) as Eop by (unfold opening_offset; rewrite (proj2 (Z.ltb_ge _ _)) by lia; done).
  unfold resumed_blocks. cbv zeta.
  assert (Ring_slack (sk_ring s1) = seg - cu_offset (rs_writer state)) as Esl by (unfold Ring_slack; by rewrite ra_cursor0, ra_geometry0).
  unfold resume_tail, Ring_append, Ring_fit, Ring_segment_payload in H.
  rewrite Esl, ra_geometry0, ra_prologue0, Eop, (proj2 (Z.ltb_ge (seg - P) P)) in H by lia.
  destruct (Z.ltb_spec (seg - cu_offset (rs_writer state)) P) as [Hshort|Hlong].
  - rewrite (proj2 (Z.leb_gt _ _)) by lia. pose proof (Sink_close_grew s1 st1 Hsane) as Hc. rewrite Esl in Hc.
    destruct (Sink_close_segment s1 st1) as [[n|] [s2 st2]]; [|discriminate H]. injection H as <- <-. exact Hc.
  - rewrite (proj2 (Z.leb_le _ _)) by lia. cbv zeta in H.
    match type of H with context [Sink_write_prologue ?x st1] => remember x as s2 eqn:Es2 in H end.
    assert (cu_offset (rg_cursor (sk_ring s2)) = cu_offset (rg_cursor (sk_ring s1)) + P) as E2 by (rewrite Es2; cbn; lia).
    assert (same_place s1 s2 ∧ sk_staged_len s1 = sk_staged_len s2) as [Hsame Hsl] by (rewrite Es2; by repeat split).
    assert (Sink_prologue_blocks s2 = prologue) as Eb2 by (rewrite <- Eb; by rewrite Es2).
    clear Es2. destruct (Sink_write_prologue s2 st1) as [[n|] [s3 st3]] eqn:Ewr; [|discriminate H]. injection H as <- <-.
    fold prologue. rewrite <- Eb2. eapply (prologue_grew s1 s2); [exact Hsane|exact Ewr|exact Hsame|exact Hsl| |].
    + by rewrite Eb2, EP.
    + rewrite E2, ra_cursor0, ra_geometry0. lia.
Qed.

Lemma first_position_at wh : core wh → Sink_first_position (wo_sink wh.1) = oldest_of config (wo_sink wh.1) * seg.
Proof.
  intros []. pose proof (segment_pos _ i_facts) as Hs. pose proof (segments_pos _ i_facts) as Hn. destruct i_ring as [Hgeo _]. destruct i_sequence as [Q1 Q2].
  unfold Sink_first_position, Ring_readable, oldest_of, seq_of, saturating_sub, saturating_mul in *. rewrite Hgeo. unfold u64_max in *.
  change (2 ^ 64 - 1) with 18446744073709551615. apply Z.min_l. nia.
Qed.

Lemma core_cut s st m f l log saved floor state s0 st0 k :
  core ({| wo_sink := s; wo_staging := st; wo_medium := m; wo_flight := f; wo_landed := l |},
        {| hi_log := log; hi_saved := saved; hi_floor := floor |}) →
  state_kept config log (staged_position config s) state → (cu_sequence (rs_writer state) + 2) * seg ≤ u64_max →
  resumed_at state s0 → length st0 = length st →
  bytes_of (take k log) = position_of g (rs_writer state) → segmented (take k log) →
  core ({| wo_sink := s0; wo_staging := st0; wo_medium := m; wo_flight := None; wo_landed := false |},
        {| hi_log := take k log; hi_saved := [state]; hi_floor := Z.max floor (Sink_first_position s) |}).
Proof.
  intros Hc (K1 & K2 & K3 & K4 & K5 & K6) Hroom [] Hlen Hk Hsg. pose proof (first_position_at _ Hc) as Hfirst. destruct Hc.
  cbn [fst snd wo_sink wo_staging wo_medium wo_flight wo_landed hi_log hi_saved hi_floor] in *. pose proof (segment_pos _ i_facts) as Hs. destruct i_sane as (N1 & N2 & N3).
  cbn [fst snd] in N1, N2, N3. set (w := rs_writer state) in *.
  assert (staged_position config s0 = position_of g w) as Epos by (unfold staged_position, position_of; by rewrite ra_sequence0, ra_from0).
  assert (seq_of s0 = cu_sequence w ∧ off_of s0 = cu_offset w) as [Eseq Eoff] by (unfold seq_of, off_of; by rewrite ra_cursor0).
  assert (boundary (take k log) (position_of g w)) as Hb by (rewrite <- Hk; by apply boundary_end).
  constructor; cbn [fst snd wo_sink wo_staging wo_medium wo_flight wo_landed hi_log hi_saved hi_floor]; rewrite ?Epos, ?Eseq, ?Eoff.
  - exact i_facts.
  - by rewrite Hlen.
  - by rewrite ra_geometry0, ra_prologue0.
  - exact ra_names0.
  - unfold sane. cbn [fst snd]. rewrite ra_len0, ra_cursor0, ra_geometry0, Hlen. lia.
  - lia.
  - exact Hk.
  - split; [by apply Forall_take, i_framed|exact Hsg].
  - rewrite ra_sequence0, ra_from0, ra_len0. split_all; [done|lia|done|lia].
  - rewrite ra_len0, drop_ge; [done|]. rewrite <- Hk. unfold bytes_of. lia.
  - rewrite ra_durable0, ra_from0, (proj2 (Z.leb_gt _ _)) by lia. by destruct w.
  - exact Hb.
  - by split.
  - intros p H1 H2 H3. rewrite i_medium by lia. symmetry. apply log_at_take. unfold oldest_of in H1. nia.
  - constructor; [|constructor]. unfold state_kept. fold w. split_all; try done; lia.
Qed.

Lemma inv_cut s st m f l log saved floor state staging0 s' st' :
  inv ({| wo_sink := s; wo_staging := st; wo_medium := m; wo_flight := f; wo_landed := l |},
       {| hi_log := log; hi_saved := saved; hi_floor := floor |}) →
  state ∈ saved → length staging0 = length st → (cu_sequence (rs_writer state) + 2) * seg ≤ u64_max →
  Sink_resume config state staging0 = (Ok s', st') →
  inv ({| wo_sink := s'; wo_staging := st'; wo_medium := m; wo_flight := None; wo_landed := false |},
       {| hi_log := blocks_upto (position_of g (rs_writer state)) log ++ resumed_blocks config (rg_prologue_len (sk_ring s)) state;
          hi_saved := [state]; hi_floor := Z.max floor (Sink_first_position s) |}).
Proof.
  intros [Hc Ho] Hin Hlen Hroom H. pose proof Hc as []. cbn [fst snd wo_sink wo_staging wo_medium wo_flight wo_landed hi_log hi_saved hi_floor] in *.
  pose proof (segment_pos _ i_facts) as Hs. destruct i_prologue as (HP & HPs & HPt & HPl). destruct i_sane as (N1 & N2 & N3). cbn [fst snd] in N1, N2, N3.
  pose proof (proj1 (Forall_forall _ _) i_saved _ Hin) as Hkept. pose proof Hkept as (K1 & K2 & K3 & K4 & K5 & (k & Hk1 & Hk2 & Hk3)).
  pose proof (gf_small _ i_facts) as Hsmall. unfold MIN_SEGMENT_BYTES in Hsmall.
  destruct (Sink_resume_grew state staging0 s' st' HP ltac:(lia) K3 ltac:(lia) H) as (s1 & st1 & R & Hl1 & _ & Hg).
  rewrite (proj2 i_ring), <- Hk2, blocks_upto_take by (done || apply i_framed).
  assert (core ({| wo_sink := s1; wo_staging := st1; wo_medium := m; wo_flight := None; wo_landed := false |},
                {| hi_log := take k log; hi_saved := [state]; hi_floor := Z.max floor (Sink_first_position s) |})) as Hc1
    by (eapply core_cut; [exact Hc|exact Hkept|exact Hroom|exact R|by rewrite Hl1|exact Hk2|exact Hk3]).
  destruct (prologue_len_blocks _ _ HP) as [EP _]. destruct (prologue_bytes config P opening HP eq_refl eq_refl eq_refl) as (_ & EP' & HP0).
  assert (off_of s1 = cu_offset (rs_writer state)) as Eoff by (unfold off_of; by rewrite (ra_cursor _ _ R)).
  split.
  - eapply core_grew; [exact Hc1|exact Hg|]. unfold resumed_blocks. cbv zeta. rewrite Eoff. destruct (Z.leb_spec P (seg - cu_offset (rs_writer state))).
    + right; right. exists []. by rewrite app_nil_r.
    + left. lia.
  - cbn [fst wo_sink]. destruct Hg as [_ _ Hoff _ _ _ _ _]. cbn [fst] in Hoff. unfold off_of in *. rewrite Hoff, Eoff. unfold resumed_blocks. cbv zeta.
    destruct (Z.leb_spec P (seg - cu_offset (rs_writer state))); [change (0 < cu_offset (rs_writer state) + bytes_of prologue); lia|].
    pose proof (bytes_of_pos (close_blocks (seg - cu_offset (rs_writer state)))). lia.
Qed.

(** ** Every run *)
Lemma inv_step wh wh' : inv wh → step config wh wh' → inv wh'.
Proof.
  intros Hi H. pose proof (i_sane _ _ _ (proj1 Hi)) as Hs. destruct H; cbn [fst wo_sink wo_staging] in Hs.
  - pose proof (Sink_record_grew tap frame s st Hs) as Hg. rewrite H in Hg. eapply inv_grew; [exact Hi|]. destruct r; [apply Hg|exact Hg..].
  - pose proof (Sink_block_grew data s st Hs) as Hg. rewrite H in Hg. eapply inv_grew; [exact Hi|]. destruct r; [apply Hg|exact Hg..].
  - pose proof (Sink_seal_grew s st Hs) as Hg. rewrite H in Hg. eapply inv_grew; [exact Hi|]. destruct r; exact Hg.
  - pose proof (Sink_close_grew s st Hs) as Hg. rewrite H in Hg. eapply inv_grew; [exact Hi|]. destruct r; exact Hg.
  - by eapply inv_begin.
  - by eapply inv_take_flush.
  - by eapply inv_device.
  - by eapply inv_elsewhere.
  - by eapply inv_landed.
  - by eapply inv_acknowledge.
  - by eapply inv_aside.
  - by eapply inv_superblock.
  - by eapply inv_cut.
Qed.
End Invariant.

Lemma run_inv config wh : run config wh → ∃ P, inv config P wh.
Proof.
  intros (wh0 & Hf & Hr). assert (∃ P, inv config P wh0) as [P H0].
  { destruct Hf as [staging s st m Hok Hs Hnew]. destruct (prologue_len config) as [P|e] eqn:HP; [|unfold Sink_new in Hnew; by rewrite HP in Hnew].
    exists P. by eapply inv_fresh. }
  exists P. clear Hf. induction Hr as [|wh1 wh2 wh3 H _ IH]; [done|]. apply IH. by eapply inv_step.
Qed.
