(* ===== verification/RecorderReadback.v ===== *)
(** * A recording is read back

    Where [Sink_find] sends a reader, the device holds the blocks that were appended there: of
    every run, power cuts included, a reader that starts at a segment reads a file that walks
    block by block and opens with the prologue. *)
From S2P Require Import Prelude Layout Shared WireTap Pcapng PcapngFacts PcapngRead CaptureRing CaptureSuperblock CaptureCrc CaptureSuperblockFacts Recorder RecorderGeometry RecorderBlocks RecorderOps RecorderRun RecorderKeeps RecorderInvariant.

(** ** The reader *)

(** The bytes of the device from a byte on. *)
Definition read_run (medium : Z → Z) (at_ len : Z) : list Z := (λ i, medium (at_ + Z.of_nat i)) <$> seq 0 (Z.to_nat len).
Definition span_at (span : Span) : Z := sp_sector span * SECTOR_SIZE + sp_skip span.

(** A reader's windows, one after another: at each position it asks for [want] bytes, takes what
    it is given and goes on behind it, until there is no more. *)
Fixpoint download (want : Z → Z) (medium : Z → Z) (s : Sink) (fuel : nat) (p : Z) : option (list Z) :=
  match fuel with
  | O => None
  | S fuel =>
      match Sink_find p s with
      | (Locate_PastEnd, _) => Some []
      | (Locate_Overrun, _) => None
      | (Locate_Live span, s) =>
          let len := Z.min (sp_len span) (want p) in
          rest ← download want medium s fuel (p + len); Some (read_run medium (span_at span) len ++ rest)
      end
  end.

(** What is left of a log between two positions. *)
Definition log_between (log : list (list Z)) (p p' : Z) : list Z := slice (concat log) (Z.to_nat p) (Z.to_nat (p' - p)).

(** ** Walking what was read *)
Definition as_walked (block : list Z) (view : Block) : Prop :=
  block = framed_bytes (bk_type view) (12 + Z.of_nat (length (bk_inner view))) (bk_inner view).

Lemma walk_blocks blocks : Forall framed blocks → ∃ views, walk_file (concat blocks) = Some views ∧ Forall2 as_walked blocks views.
Proof.
  intros H. enough (∀ fuel, (length (concat blocks) ≤ fuel)%nat → ∃ views, walk fuel (concat blocks) = Some views ∧ Forall2 as_walked blocks views) as He
    by (by apply He). induction H as [|block blocks Hb _ IH]; intros fuel Hf.
  - exists []. split; [by destruct fuel|constructor].
  - cbn [concat] in *. rewrite length_app in Hf. pose proof (framed_pos _ Hb). destruct Hb as (t & inner & Ht & Hm & Hs & ->).
    destruct fuel as [|fuel]; [lia|]. destruct (IH fuel ltac:(lia)) as (views & Hw & Hv). exists ({| bk_type := t; bk_inner := inner |} :: views).
    rewrite walk_framed by done. rewrite Hw. split; [done|]. by constructor.
Qed.

(** ** What a find answers *)
Section Find.
Context (config : SinkConfig) (P : Z) (w : World) (h : History) (Hcore : core config P (w, h)).
#[local] Notation g := (sg_geometry config).
#[local] Notation seg := (ge_segment_bytes (sg_geometry config)).
#[local] Notation s := (wo_sink w).

Lemma durable_position_at : Sink_durable_position s = staged_position config s.
Proof using Hcore.
  destruct (durable_at _ _ _ Hcore) as (D1 & D2 & D3 & _). destruct Hcore. cbn [fst] in *. pose proof (segment_pos _ i_facts) as Hs.
  destruct i_ring as [Hgeo _]. destruct i_sequence as [Q1 Q2]. rewrite <- D1. unfold Sink_durable_position, position_of, saturating_add, saturating_mul in *.
  rewrite Hgeo. unfold u64_max in *. change (2 ^ 64 - 1) with 18446744073709551615.
  assert (cu_sequence (sk_durable s) * seg ≤ (seq_of s + 1) * seg) by nia. lia.
Qed.

(** Positions in the readable window are in a segment of the ring. *)
Lemma staged_position_end : 0 ≤ staged_position config s ≤ seq_of s * seg + off_of s ∧ off_of s ≤ seg.
Proof using Hcore.
  destruct Hcore. cbn [fst snd] in *. pose proof (boundary_le _ _ _ i_boundary) as Hb. rewrite i_log in Hb. destruct i_sane as (_ & _ & N3). cbn [fst snd] in N3.
  destruct i_ring as [Hgeo _]. rewrite Hgeo in N3. unfold off_of in *. lia.
Qed.

Lemma Sink_find_spec p :
  0 ≤ p →
  match (Sink_find p s).1 with
  | Locate_PastEnd => Sink_durable_position s ≤ p
  | Locate_Overrun => p < Sink_first_position s ∧ p < Sink_durable_position s
  | Locate_Live span =>
      Sink_first_position s ≤ p ∧ 0 < sp_len span ∧ p + sp_len span ≤ Sink_durable_position s ∧ 0 ≤ sp_skip span < SECTOR_SIZE
      ∧ p mod seg + sp_len span ≤ seg ∧ span_at span = address g p
  end.
Proof using Hcore.
  intros Hp. pose proof durable_position_at as Hd. pose proof (first_position_at _ _ _ Hcore) as Hf. pose proof staged_position_end as [He1 He2].
  cbn [fst] in Hf. destruct Hcore. cbn [fst snd] in *. pose proof (segment_pos _ i_facts) as Hs. pose proof (segments_pos _ i_facts) as Hn.
  destruct i_ring as [Hgeo _]. destruct i_sequence as [Q1 Q2]. unfold Sink_find. rewrite Hgeo, Hd, Hf. cbv zeta.
  destruct (Z.leb_spec (staged_position config s) p); [done|]. rewrite (proj2 (Z.eqb_neq seg 0)) by lia.
  destruct (Z.ltb_spec p (oldest_of config s * seg)); [done|].
  assert (p / seg ≤ seq_of s) as Hle by (apply Z.lt_succ_r, Z.div_lt_upper_bound; nia).
  assert (oldest_of config s ≤ p / seg) as Hge by (apply Z.div_le_lower_bound; lia).
  pose proof (Z.mod_pos_bound p seg Hs) as Hm. pose proof (Z.div_mod p seg ltac:(lia)) as Hdm.
  unfold Ring_locate, Ring_readable, saturating_sub. rewrite Hgeo. fold (seq_of s). fold (off_of s).
  rewrite (proj2 (Z.ltb_ge (p / seg) _)) by (unfold oldest_of in *; lia). rewrite (proj2 (Z.ltb_ge (seq_of s) _)) by lia.
  set (run_end := if p / seg =? seq_of s then off_of s else seg).
  assert (p mod seg < run_end ≤ seg) as [Hrun1 Hrun2] by (unfold run_end; destruct (Z.eqb_spec (p / seg) (seq_of s)); nia).
  cbv zeta. rewrite (proj2 (Z.leb_gt run_end _)) by lia. cbn [fst sp_len sp_skip pl_len pl_sector]. unfold SECTOR_SIZE in *. pose proof (Z.mod_pos_bound (p mod seg) 512 ltac:(lia)) as Hk.
  split_all; try lia.
  unfold span_at. cbn [sp_sector sp_skip pl_sector].
  pose proof (sector_of g i_facts (p / seg) (p mod seg - p mod seg mod 512)) as Hsec. unfold SECTOR_SIZE in *.
  assert ((p mod seg - p mod seg mod 512) / 512 = p mod seg / 512) as Eq by ints. rewrite Eq in Hsec.
  rewrite Hsec; [|ints|ints|lia|unfold oldest_of in *; lia]. rewrite <- (address_run config _ (p mod seg mod 512) i_facts); [f_equal; lia|lia|].
  replace (p / seg * seg + (p mod seg - p mod seg mod 512)) with ((p mod seg - p mod seg mod 512) + p / seg * seg) by lia.
  rewrite Z.mod_add, (Z.mod_small (p mod seg - p mod seg mod 512)) by ints. lia.
Qed.
End Find.

(** ** What a reader is given *)
Lemma concat_drop k log : concat (drop k log) = drop (Z.to_nat (bytes_of (take k log))) (concat log).
Proof. unfold bytes_of. rewrite Nat2Z.id. rewrite <- (take_drop k log) at 3. rewrite concat_app. by rewrite drop_app_length. Qed.

Lemma log_between_split log p p1 p2 : 0 ≤ p ≤ p1 → p1 ≤ p2 → log_between log p p2 = log_between log p p1 ++ log_between log p1 p2.
Proof.
  intros H1 H2. unfold log_between, slice. replace (Z.to_nat (p2 - p)) with (Z.to_nat (p1 - p) + Z.to_nat (p2 - p1))%nat by lia.
  rewrite <- (take_take_drop _ (Z.to_nat (p1 - p))). f_equal. rewrite drop_drop. do 3 f_equal. lia.
Qed.

(** The bytes of a span, or of the front of it, are the log's. *)
Lemma span_bytes config P w h p len :
  core config P (w, h) → 0 ≤ p → Sink_first_position (wo_sink w) ≤ p → hi_floor h ≤ p → 0 ≤ len →
  p mod ge_segment_bytes (sg_geometry config) + len ≤ ge_segment_bytes (sg_geometry config) → p + len ≤ Sink_durable_position (wo_sink w) →
  read_run (wo_medium w) (address (sg_geometry config) p) len = log_between (hi_log h) p (p + len).
Proof.
  intros Hc H0 Hfirst Hfloor Hl Hseg Hd. rewrite (durable_position_at _ _ _ _ Hc) in Hd. pose proof (first_position_at _ _ _ Hc) as Hf. cbn [fst] in Hf. destruct Hc. cbn [fst snd] in *.
  pose proof (boundary_le _ _ _ i_boundary) as Hb. unfold bytes_of in Hb. unfold read_run, log_between. replace (p + len - p) with len by lia.
  apply list_eq. intros i. unfold slice. destruct (decide (i < Z.to_nat len)%nat) as [Hi|Hi].
  - rewrite list_lookup_fmap, lookup_seq_lt by done. rewrite lookup_take_lt, lookup_drop by done. cbn [fmap option_fmap option_map].
    rewrite <- (address_run config) by (done || lia). rewrite i_medium by lia. unfold log_at, byte_at.
    destruct (lookup_lt_is_Some_2 (concat (hi_log h)) (Z.to_nat p + i)) as [x Hx]; [lia|]. rewrite Hx. f_equal.
    replace (Z.to_nat (p + Z.of_nat (0 + i))) with (Z.to_nat p + i)%nat by lia. rewrite nth_lookup, Hx. done.
  - rewrite !lookup_ge_None_2; [done|rewrite length_take; lia|rewrite length_fmap, length_seq; lia].
Qed.

Lemma core_find config P w h p :
  core config P (w, h) →
  core config P ({| wo_sink := (Sink_find p (wo_sink w)).2; wo_staging := wo_staging w; wo_medium := wo_medium w; wo_flight := wo_flight w; wo_landed := wo_landed w |}, h).
Proof.
  intros Hc. destruct w as [s st m f l]. destruct h as [log saved floor]. cbn [wo_sink wo_staging wo_medium wo_flight wo_landed].
  rewrite <- (app_nil_r log). eapply core_grew; [exact Hc| |by right; left]. apply grew_counted; [apply (i_sane _ _ _ Hc)|..].
  all: destruct (Sink_find_ring p s) as (ring & -> & E1 & E2 & E3); unfold same_place; cbn; by rewrite ?E1, ?E2, ?E3.
Qed.

Lemma positions_kept p s : Sink_durable_position (Sink_find p s).2 = Sink_durable_position s ∧ Sink_first_position (Sink_find p s).2 = Sink_first_position s.
Proof.
  destruct (Sink_find_ring p s) as (ring & -> & E1 & E2 & E3). unfold Sink_durable_position, Sink_first_position, Ring_readable. cbn. by rewrite E1, E3.
Qed.

Lemma download_spec config P want h fuel w p :
  core config P (w, h) → (∀ q, 0 < want q) → 0 ≤ p → Sink_first_position (wo_sink w) ≤ p → hi_floor h ≤ p →
  Z.max 0 (Sink_durable_position (wo_sink w) - p) < Z.of_nat fuel →
  download want (wo_medium w) (wo_sink w) fuel p = Some (log_between (hi_log h) p (Z.max p (Sink_durable_position (wo_sink w)))).
Proof.
  intros Hc Hw. revert w p Hc. induction fuel as [|fuel IH]; intros w p Hc H0 Hfirst Hfloor Hfuel.
  - lia.
  - cbn [download]. pose proof (Sink_find_spec _ _ _ _ Hc p H0) as Hs. pose proof (core_find _ _ _ _ p Hc) as Hc2. pose proof (positions_kept p (wo_sink w)) as [E1 E2].
    destruct (Sink_find p (wo_sink w)) as [[span| |] s2]; cbn [fst snd] in *.
    + destruct Hs as (_ & L1 & L2 & L3 & L4 & ->). specialize (Hw p). set (len := Z.min (sp_len span) (want p)).
      specialize (IH _ (p + len) Hc2). cbn [wo_sink wo_medium] in IH. rewrite E1, E2 in IH. rewrite IH by lia. cbn [mbind option_bind]. f_equal.
      rewrite (span_bytes config P w h p len Hc) by lia. rewrite !Z.max_r by lia. symmetry. apply log_between_split; lia.
    + f_equal. unfold log_between. rewrite Z.max_l, Z.sub_diag by done. done.
    + lia.
Qed.

(** C24. A recording is read back. Of every run of a sink over a device, whatever is recorded,
    sealed, flushed, checkpointed and begun in whatever order, the device leaving a flush in any
    state until it has landed and the power going at any point, a reader that starts at any
    segment still readable, not lost to an earlier cut, and asks for windows of any size is given exactly the blocks
    appended from there to the durable end: the file opens with the prologue and a reader of the
    format walks it block by block to its end. *)
Theorem recording_reads_back config w h want q fuel :
  run config (w, h) → (∀ p, 0 < want p) →
  let s := wo_sink w in
  let start := q * ge_segment_bytes (sg_geometry config) in
  0 ≤ q → Sink_first_position s ≤ start → hi_floor h ≤ start → start < Sink_durable_position s →
  Sink_durable_position s - start < Z.of_nat fuel →
  ∃ blocks views i j,
    blocks = take j (drop i (hi_log h)) ∧ bytes_of (take i (hi_log h)) = start ∧ start + bytes_of blocks = Sink_durable_position s
    ∧ (∃ rest, blocks = Sink_prologue_blocks s ++ rest)
    ∧ download want (wo_medium w) s fuel start = Some (concat blocks)
    ∧ walk_file (concat blocks) = Some views ∧ Forall2 as_walked blocks views.
Proof.
  intros Hrun Hw s start Hq Hfirst Hfloor Hlt Hfuel. destruct (run_inv _ _ Hrun) as [P [Hc _]].
  pose proof (segment_pos _ (i_facts _ _ _ Hc)) as Hseg. assert (0 ≤ start) as Hstart by (unfold start; nia).
  pose proof (download_spec _ _ want h fuel w start Hc Hw Hstart Hfirst Hfloor ltac:(unfold s in *; lia)) as Hdl.
  pose proof (durable_position_at _ _ _ _ Hc) as Hd. pose proof (i_boundary _ _ _ Hc) as (k & Hk & Hkb & Hks). cbn [fst snd] in Hk, Hkb, Hks. fold s in Hkb, Hd, Hdl.
  rewrite <- Hd in Hkb. destruct (Hks q Hq) as (i & rest & Hi & Hrest); [rewrite Hkb; exact Hlt|].
  destruct (walk_blocks (drop i (take k (hi_log h)))) as (views & Hv1 & Hv2); [apply Forall_drop, Forall_take, (i_framed _ _ _ Hc)|].
  assert (i ≤ k)%nat as Hik.
  { destruct (Nat.le_gt_cases i k); [done|]. rewrite drop_ge in Hrest by (rewrite length_take; lia). done. }
  exists (drop i (take k (hi_log h))), views, i, (k - i)%nat.
  rewrite take_take, Nat.min_l in Hi by done.
  assert (start + bytes_of (drop i (take k (hi_log h))) = Sink_durable_position s) as Hend.
  { rewrite <- Hkb. rewrite <- (take_drop i (take k (hi_log h))) at 2. rewrite bytes_of_app, take_take, Nat.min_l, Hi by done. done. }
  destruct (prologue_bytes config P s) as (Eb & _ & _); [apply (i_prologue _ _ _ Hc)|apply (i_names _ _ _ Hc)..|].
  split_all; [apply skipn_firstn_comm|exact Hi|exact Hend|exists rest; by rewrite Eb| |exact Hv1|exact Hv2].
  rewrite Hdl. f_equal. rewrite Z.max_r by lia. rewrite concat_drop, take_take, Nat.min_l, Hi by done. rewrite concat_take, Hkb.
  unfold log_between, slice. rewrite take_drop_commute. do 2 f_equal. lia.
Qed.
