(* ===== verification/RecorderExamples.v ===== *)
(** * Recordings run on concrete devices

    Runs of [RecorderRun] computed from a list of operations: the witness of the read-back
    theorem, and the run in which a boot goes on serving a segment that the run lost to the cut
    had already written over. *)
From S2P Require Import Prelude Layout Shared WireTap Pcapng PcapngFacts PcapngRead CaptureRing CaptureSuperblock CaptureCrc CaptureSuperblockFacts Recorder RecorderGeometry RecorderBlocks RecorderOps RecorderRun RecorderKeeps RecorderInvariant RecorderReadback.

(** ** Executing operations *)
Inductive op := op_block (data : list Z) | op_close | op_begin | op_flush | op_superblock | op_cut (checkpoint : nat).

Section Exec.
Context (config : SinkConfig).
#[local] Notation seg := (ge_segment_bytes (sg_geometry config)).

Definition exec_one (o : op) (wh : World * History) : option (World * History) :=
  let '({| wo_sink := s; wo_staging := st; wo_medium := m; wo_flight := f; wo_landed := l |},
        {| hi_log := log; hi_saved := saved; hi_floor := floor |}) := wh in
  match o with
  | op_block data =>
      let '(r, (s', st')) := Sink_block data s st in
      Some ({| wo_sink := s'; wo_staging := st'; wo_medium := m; wo_flight := f; wo_landed := l |},
            {| hi_log := log ++ appended r (custom_block data); hi_saved := saved; hi_floor := floor |})
  | op_close =>
      let '(r, (s', st')) := Sink_close_segment s st in
      Some ({| wo_sink := s'; wo_staging := st'; wo_medium := m; wo_flight := f; wo_landed := l |},
            {| hi_log := log ++ ok_blocks r (close_blocks (Ring_slack (sk_ring s))); hi_saved := saved; hi_floor := floor |})
  | op_begin =>
      match f with
      | Some _ => None
      | None =>
          if (Ring_slack (sk_ring s) =? 0) && (sk_staged_len s =? 0) && ((seq_of s + 3) * seg <=? u64_max) then
            let '(r, (s', st')) := Sink_begin_segment s st in
            Some ({| wo_sink := s'; wo_staging := st'; wo_medium := m; wo_flight := None; wo_landed := l |},
                  {| hi_log := log ++ ok_blocks r (Sink_prologue_blocks s); hi_saved := saved; hi_floor := floor |})
          else None
      end
  | op_flush =>
      match f with
      | Some _ => None
      | None =>
          match Sink_take_flush s st with
          | (Some f', (s', st')) =>
              let '(s2, st2) := Sink_acknowledge f' s' st' in
              Some ({| wo_sink := s2; wo_staging := st2; wo_medium := write_run m (fl_sector f' * SECTOR_SIZE) (take (Z.to_nat (fl_len f')) st');
                       wo_flight := None; wo_landed := false |},
                    {| hi_log := log ++ ok_blocks (Sink_seal s st).1 (seal_blocks (off_of s)); hi_saved := saved; hi_floor := floor |})
          | _ => None
          end
      end
  | op_superblock =>
      match Sink_superblock [] s,
        Ring_checkpoint (sk_durable s) (match sk_reader s with Some c => [{| rd_id := CHANNEL_READER_ID; rd_cursor := c |}] | None => [] end) (sk_ring s) with
      | (Ok _, (s', _)), (Ok state, _) =>
          Some ({| wo_sink := s'; wo_staging := st; wo_medium := m; wo_flight := f; wo_landed := l |},
                {| hi_log := log; hi_saved := saved ++ [state]; hi_floor := floor |})
      | _, _ => None
      end
  | op_cut checkpoint =>
      match saved !! checkpoint with
      | Some state =>
          if (cu_sequence (rs_writer state) + 2) * seg <=? u64_max then
            match Sink_resume config state (replicate (length st) 0) with
            | (Ok s', st') =>
                Some ({| wo_sink := s'; wo_staging := st'; wo_medium := m; wo_flight := None; wo_landed := false |},
                      {| hi_log := blocks_upto (position_of (sg_geometry config) (rs_writer state)) log
                                   ++ resumed_blocks config (rg_prologue_len (sk_ring s)) state;
                         hi_saved := [state]; hi_floor := Z.max floor (Sink_first_position s) |})
            | _ => None
            end
          else None
      | None => None
      end
  end.

Lemma exec_one_steps o wh wh' : exec_one o wh = Some wh' → rtc (step config) wh wh'.
Proof.
  destruct wh as [[s st m f l] [log saved floor]]. destruct o; cbn [exec_one]; intros H.
  - destruct (Sink_block data s st) as [r [s' st']] eqn:E. apply (inj Some) in H. subst wh'. apply rtc_once. by apply step_block.
  - destruct (Sink_close_segment s st) as [r [s' st']] eqn:E. apply (inj Some) in H. subst wh'. apply rtc_once. by apply step_close.
  - destruct f; [discriminate H|]. destruct (_ && _) eqn:Ec; [|discriminate H]. apply andb_prop in Ec as [Ec H3]. apply andb_prop in Ec as [H1 H2].
    destruct (Sink_begin_segment s st) as [r [s' st']] eqn:E. apply (inj Some) in H. subst wh'. apply rtc_once. apply step_begin; [by apply Z.eqb_eq|by apply Z.eqb_eq|by apply Z.leb_le|exact E].
  - destruct f; [discriminate H|]. destruct (Sink_take_flush s st) as [[f'|] [s' st']] eqn:E; [|discriminate H].
    destruct (Sink_acknowledge f' s' st') as [s2 st2] eqn:E2. apply (inj Some) in H. subst wh'.
    eapply rtc_l; [by apply step_take_flush|]. eapply rtc_l; [apply step_landed|]. apply rtc_once. by apply step_acknowledge.
  - destruct (Sink_superblock [] s) as [[w|] [s' i]] eqn:E; [|discriminate H]. destruct (Ring_checkpoint _ _ _) as [[state|] ring] eqn:E2; [|discriminate H].
    apply (inj Some) in H. subst wh'. apply rtc_once. by eapply step_superblock.
  - destruct (saved !! checkpoint) as [state|] eqn:E; [|discriminate H]. destruct (_ <=? _) eqn:E1; [|discriminate H].
    destruct (Sink_resume config state (replicate (length st) 0)) as [[s'|] st'] eqn:E2; [|discriminate H]. apply (inj Some) in H. subst wh'.
    apply rtc_once. eapply step_cut; [by eapply list_elem_of_lookup_2|apply length_replicate|by apply Z.leb_le|exact E2].
Qed.

Fixpoint exec (ops : list op) (wh : World * History) : option (World * History) :=
  match ops with
  | [] => Some wh
  | o :: ops => match exec_one o wh with Some wh => exec ops wh | None => None end
  end.

Lemma exec_steps ops wh wh' : exec ops wh = Some wh' → rtc (step config) wh wh'.
Proof.
  revert wh. induction ops as [|o ops IH]; intros wh; cbn [exec]; [intros H; apply (inj Some) in H; by subst|].
  destruct (exec_one o wh) as [wh1|] eqn:E; [|done]. intros H. etrans; [by eapply exec_one_steps|by apply IH].
Qed.
End Exec.

(** ** A small recording *)

(** Two segments of eight sectors behind the superblock's. *)
Definition tiny : Geometry := {| ge_start_sector := 0; ge_sectors := 24; ge_segment_bytes := 4096; ge_segment_sectors := 8; ge_segments := 2 |}.
Definition tiny_config : SinkConfig :=
  {| sg_geometry := tiny; sg_snap_len := 64; sg_interfaces := [InterfaceName_new [101; 116; 104; 48]]; sg_interface_count := 1 |}.
Definition tiny_start (m : Z → Z) : option (World * History) :=
  match Sink_new tiny_config (replicate 4608 0) with
  | (Ok s, st) =>
      Some ({| wo_sink := s; wo_staging := st; wo_medium := m; wo_flight := None; wo_landed := false |},
            {| hi_log := prologue_blocks (sg_snap_len tiny_config) (sg_interfaces tiny_config) (sg_interface_count tiny_config); hi_saved := []; hi_floor := 0 |})
  | _ => None
  end.
Definition tiny_run (ops : list op) : option (World * History) :=
  match tiny_start (λ _, 0) with Some wh => exec tiny_config ops wh | None => None end.

Lemma tiny_ok : config_ok tiny_config.
Proof.
  split; [constructor; [vm_compute; lia|constructor]|]. exists 0, 24, 4096, 24. split; [unfold is_u64, in_u; lia|reflexivity].
Qed.

Lemma tiny_runs ops wh : tiny_run ops = Some wh → run tiny_config wh.
Proof.
  unfold tiny_run, tiny_start. destruct (Sink_new tiny_config (replicate 4608 0)) as [[s|] st] eqn:E; [|discriminate]. intros H. eexists. split; [|by eapply exec_steps].
  eapply fresh_new; [exact tiny_ok| |exact E]. rewrite length_replicate. unfold u64_max. lia.
Qed.

(** Two segments recorded, a checkpoint, a third segment begun and a boot that resumes. *)
Definition first_data : list Z := replicate 24 170.
Definition lost_data : list Z := replicate 24 85.
Definition cut_ops : list op :=
  [op_block first_data; op_close; op_flush; op_begin; op_block [1; 2; 3; 4]; op_flush; op_superblock; op_close; op_flush; op_begin; op_block lost_data;
   op_flush; op_cut 0; op_block [5; 6; 7; 8]; op_flush].

(** The world at the end of the run, if the operations went through. *)
Definition served_wrong (wh : World * History) (p : Z) : bool :=
  let s := wo_sink wh.1 in
  match (Sink_find p s).1 with
  | Locate_Live span =>
      (Sink_first_position s <=? p) && (p <? Sink_durable_position s) && negb (wo_medium wh.1 (span_at span) =? log_at (hi_log wh.2) p)
      && match download (λ _, 4096) (wo_medium wh.1) s 8 (Sink_first_position s) with
         | Some bytes => match walk_file bytes with None => true | Some _ => false end
         | None => false
         end
  | _ => false
  end.

(** C25. A boot serves a segment that is gone. There is a run in which a segment is begun and
    flushed after the last checkpoint that landed and the power goes: the boot resumes from that
    checkpoint and counts the segment the lost run wrote over among the readable ones. A position
    it answers as live, at or past the first position it names, reads bytes that were never
    recorded there, and the file a reader is given from that first position does not walk. *)
Theorem resumed_ring_serves_a_lost_segment :
  ∃ config w h p span,
    run config (w, h) ∧ (Sink_find p (wo_sink w)).1 = Locate_Live span
    ∧ Sink_first_position (wo_sink w) ≤ p < Sink_durable_position (wo_sink w)
    ∧ wo_medium w (span_at span) ≠ log_at (hi_log h) p
    ∧ ∃ fuel bytes, download (λ _, 4096) (wo_medium w) (wo_sink w) fuel (Sink_first_position (wo_sink w)) = Some bytes ∧ walk_file bytes = None.
Proof.
  assert (match tiny_run cut_ops with Some wh => served_wrong wh 144 | None => false end = true) as H by (vm_compute; reflexivity).
  destruct (tiny_run cut_ops) as [[w h]|] eqn:E; [|discriminate H]. apply tiny_runs in E. unfold served_wrong in H. cbn [fst snd] in H.
  destruct (Sink_find 144 (wo_sink w)).1 as [span| |] eqn:Ef; [|discriminate H..]. exists tiny_config, w, h, 144, span.
  apply andb_prop in H as [H H4]. apply andb_prop in H as [H H3]. apply andb_prop in H as [H1 H2].
  split; [exact E|]. split; [exact Ef|]. split; [split; [by apply Z.leb_le|by apply Z.ltb_lt]|].
  split; [intros Eq; by rewrite Eq, Z.eqb_refl in H3|]. destruct (download _ _ _ _ _) as [bytes|] eqn:Ed; [|discriminate H4].
  destruct (walk_file bytes) as [views|] eqn:Ew; [discriminate H4|]. by exists 8%nat, bytes.
Qed.

(** Past what the lost run wrote over, the same boot's recording reads back. *)
Definition reads_ahead (wh : World * History) : bool :=
  let s := wo_sink wh.1 in
  (Sink_first_position s <=? 4096) && (hi_floor wh.2 <=? 4096) && (4096 <? Sink_durable_position s) && (Sink_durable_position s <? 8192).

Lemma recording_reads_back_witness :
  ∃ w h blocks, run tiny_config (w, h) ∧ hi_floor h = 4096 ∧ download (λ p, 100 + p mod 7) (wo_medium w) (wo_sink w) (Z.to_nat 4096) 4096 = Some (concat blocks)
    ∧ ∃ rest, blocks = Sink_prologue_blocks (wo_sink w) ++ rest.
Proof.
  assert (match tiny_run cut_ops with Some wh => reads_ahead wh && (hi_floor wh.2 =? 4096) | None => false end = true) as H by (vm_compute; reflexivity).
  destruct (tiny_run cut_ops) as [[w h]|] eqn:E; [|discriminate H]. apply tiny_runs in E. unfold reads_ahead in H. cbn [fst snd] in H.
  apply andb_prop in H as [H H5]. apply andb_prop in H as [H H4]. apply andb_prop in H as [H H3]. apply andb_prop in H as [H1 H2].
  apply Z.leb_le in H1, H2. apply Z.ltb_lt in H3, H4. apply Z.eqb_eq in H5.
  destruct (recording_reads_back tiny_config w h (λ p, 100 + p mod 7) 1 (Z.to_nat 4096)) as (blocks & views & i & j & _ & _ & _ & Hp & Hd & _).
  - exact E.
  - intros p. pose proof (Z.mod_pos_bound p 7 ltac:(lia)). lia.
  - lia.
  - change (1 * ge_segment_bytes (sg_geometry tiny_config)) with 4096. lia.
  - change (1 * ge_segment_bytes (sg_geometry tiny_config)) with 4096. lia.
  - change (1 * ge_segment_bytes (sg_geometry tiny_config)) with 4096. lia.
  - change (1 * ge_segment_bytes (sg_geometry tiny_config)) with 4096. lia.
  - exists w, h, blocks. split; [exact E|]. split; [exact H5|]. split; [exact Hd|exact Hp].
Defined.
