(* ===== verification/Deck.v ===== *)
(** * Both recordings on one device

    Models [datad/crates/recorder/src/deck.rs] and [preload.rs]: the two recordings, the pass
    that settles completions, takes what the tap offers, flushes and checkpoints, the downloads,
    and the superblocks read back at boot. The trait [Medium] is the class below; what a pass is
    offered by the domains it reads (the tap's records, a settled reading of the metrics, the
    console's lines composed into a batch) is its argument [Offered]. *)
From S2P Require Import Prelude Layout Shared Clock WireTap Pcapng CaptureRing CaptureSuperblock Recorder.

Definition RESERVED_SECTORS : Z := 2048.
Definition SEGMENT_BYTES : Z := 1024 * 1024.
Definition LOG_START_SECTOR : Z := RESERVED_SECTORS.
Definition LOG_SECTORS : Z := 32768.
Definition LOG_SNAP_LEN : Z := 128.
Definition CAPTURE_START_SECTOR : Z := LOG_START_SECTOR + LOG_SECTORS.
Definition CAPTURE_SECTORS : Z := 65536.
Definition CAPTURE_SNAP_LEN : Z := Z.of_nat TAP_SNAP_LEN.
Definition DOWNLOAD_WINDOW_LEN : Z := 32 * 1024.
Definition LOG_STAGING_OFFSET : Z := 0.
Definition LOG_STAGING_BYTES : Z := 64 * 1024.
Definition CAPTURE_STAGING_OFFSET : Z := LOG_STAGING_OFFSET + LOG_STAGING_BYTES.
Definition CAPTURE_STAGING_BYTES : Z := 128 * 1024.
Definition DOWNLOAD_STAGING_OFFSET : Z := CAPTURE_STAGING_OFFSET + CAPTURE_STAGING_BYTES.
Definition DOWNLOAD_STAGING_BYTES : Z := DOWNLOAD_WINDOW_LEN + SECTOR_SIZE.
Definition SUPERBLOCK_STAGING_OFFSET : Z := DOWNLOAD_STAGING_OFFSET + DOWNLOAD_STAGING_BYTES.
Definition SUPERBLOCK_STAGING_BYTES : Z := Z.of_nat SUPERBLOCK_BYTES.
Definition COMPLETION_BUDGET : nat := 8.
Definition TAP_BUDGET : nat := 16.
Definition POLL_BUDGET : nat := N.to_nat 20000000.

(** ** Downloads, as the channel hands them over *)
Inductive DownloadSink := DownloadSink_Log | DownloadSink_Capture.
Inductive DownloadReader := DownloadReader_Ring.
Definition DownloadSink_from_bits (bits : Z) : option DownloadSink :=
  if bits =? 0 then Some DownloadSink_Log else if bits =? 1 then Some DownloadSink_Capture else None.
Definition DownloadReader_from_bits (bits : Z) : option DownloadReader := if bits =? 1 then Some DownloadReader_Ring else None.
Inductive DownloadRefusal := NotReady | OutOfRange | Refusal_Overrun | DeviceError | NoSuchSink | NoSuchReader.
Record Acknowledged := { ac_log : Z; ac_capture : Z }.
Definition Acknowledged_of (a : Acknowledged) (recording : DownloadSink) : Z :=
  match recording with DownloadSink_Log => ac_log a | DownloadSink_Capture => ac_capture a end.
Record DownloadDemand := {
  dd_sequence : Z; dd_sink : option DownloadSink; dd_reader : option DownloadReader; dd_offset : Z; dd_len : Z; dd_acked : Acknowledged
}.

#[export] Instance DownloadSink_eq_dec : EqDecision DownloadSink.
Proof. solve_decision. Defined.
#[export] Instance DownloadReader_eq_dec : EqDecision DownloadReader.
Proof. solve_decision. Defined.
#[export] Instance Acknowledged_eq_dec : EqDecision Acknowledged.
Proof. solve_decision. Defined.
#[export] Instance DownloadDemand_eq_dec : EqDecision DownloadDemand.
Proof. solve_decision. Defined.

(** ** Areas, recordings and jobs *)
Inductive Area := Area_Log | Area_Capture | Area_Download | Area_Superblock.
#[export] Instance Area_eq_dec : EqDecision Area.
Proof. solve_decision. Defined.
Definition Area_extent (a : Area) : Z * Z :=
  match a with
  | Area_Log => (LOG_STAGING_OFFSET, LOG_STAGING_BYTES)
  | Area_Capture => (CAPTURE_STAGING_OFFSET, CAPTURE_STAGING_BYTES)
  | Area_Download => (DOWNLOAD_STAGING_OFFSET, DOWNLOAD_STAGING_BYTES)
  | Area_Superblock => (SUPERBLOCK_STAGING_OFFSET, SUPERBLOCK_STAGING_BYTES)
  end.

Inductive Which := Which_Log | Which_Capture.
#[export] Instance Which_eq_dec : EqDecision Which.
Proof. solve_decision. Defined.
Definition Which_area (w : Which) : Area := match w with Which_Log => Area_Log | Which_Capture => Area_Capture end.
Definition Which_sink (w : Which) : DownloadSink := match w with Which_Log => DownloadSink_Log | Which_Capture => DownloadSink_Capture end.
Definition Which_named (s : DownloadSink) : Which := match s with DownloadSink_Log => Which_Log | DownloadSink_Capture => Which_Capture end.
Definition Which_extent (w : Which) : Z * Z :=
  match w with Which_Log => (LOG_START_SECTOR, LOG_SECTORS) | Which_Capture => (CAPTURE_START_SECTOR, CAPTURE_SECTORS) end.
Definition Which_geometry (w : Which) (capacity_sectors : Z) : Result Geometry GeometryError :=
  let '(start, sectors) := Which_extent w in Geometry_new start sectors SEGMENT_BYTES capacity_sectors.
Definition Which_snap_len (w : Which) : Z := match w with Which_Log => LOG_SNAP_LEN | Which_Capture => CAPTURE_SNAP_LEN end.
Definition Which_records (w : Which) (tap : CheckedTap) : bool :=
  match w with
  | Which_Log => match ck_event tap with Some _ => true | None => false end
  | Which_Capture => TapOutcome_observes_a_frame (ck_outcome tap)
  end.

(** The source's arrays of two, indexed by [Which::index]. *)
Record Both (A : Type) := { of_log : A; of_capture : A }.
#[global] Arguments of_log {A}.
#[global] Arguments of_capture {A}.
#[global] Arguments Build_Both {A}.
Definition at_which {A} (w : Which) (b : Both A) : A := match w with Which_Log => of_log b | Which_Capture => of_capture b end.
Definition set_which {A} (w : Which) (x : A) (b : Both A) : Both A :=
  match w with Which_Log => {| of_log := x; of_capture := of_capture b |} | Which_Capture => {| of_log := of_log b; of_capture := x |} end.
Definition Which_ALL : list Which := [Which_Log; Which_Capture].

Inductive Job := Job_Preload (w : Which) | Job_Flush (w : Which) | Job_Barrier (w : Which) | Job_Checkpoint (w : Which) | Job_Fetch.
#[export] Instance Job_eq_dec : EqDecision Job.
Proof. solve_decision. Defined.
Record Transfer := { xf_area : Area; xf_at : Z; xf_sector : Z; xf_len : Z; xf_write : bool }.
Inductive Ended := Ended_Ok (delivered : Z) | Ended_Failed.
Record Completion := { cp_job : Job; cp_ended : Ended }.
Inductive Polled := Settled (completion : Completion) | Unattributed.

(** The trait: [md_stage] is what writing through the slice [staging] borrows leaves. A
    submission answers whether it was taken. *)
Class Medium (M : Type) := {
  md_staging : Area → M → list Z;
  md_stage : Area → list Z → M → M;
  md_orders_writes : M → bool;
  md_submit : Job → Transfer → M → bool * M;
  md_barrier : Job → M → bool * M;
  md_poll : M → option Polled * M
}.

Record RecorderCounters := {
  rk_sinks : Both SinkCounters; rk_tap_records : Z; rk_tap_refused : Z; rk_tap_dropped_by_writer : Z; rk_downloads_served : Z;
  rk_downloads_refused : Z; rk_records_unclocked : Z; rk_medium_refusals : Z; rk_medium_failures : Z; rk_completions_unexpected : Z;
  rk_snapshots_written : Z; rk_snapshots_missed : Z; rk_snapshots_dropped : Z; rk_transcripts_written : Z; rk_transcripts_dropped : Z;
  rk_transcript_lines : Z
}.
#[export] Instance RecorderCounters_eta : Eta RecorderCounters := λ c,
  {| rk_sinks := rk_sinks c; rk_tap_records := rk_tap_records c; rk_tap_refused := rk_tap_refused c;
     rk_tap_dropped_by_writer := rk_tap_dropped_by_writer c; rk_downloads_served := rk_downloads_served c;
     rk_downloads_refused := rk_downloads_refused c; rk_records_unclocked := rk_records_unclocked c;
     rk_medium_refusals := rk_medium_refusals c; rk_medium_failures := rk_medium_failures c;
     rk_completions_unexpected := rk_completions_unexpected c; rk_snapshots_written := rk_snapshots_written c;
     rk_snapshots_missed := rk_snapshots_missed c; rk_snapshots_dropped := rk_snapshots_dropped c;
     rk_transcripts_written := rk_transcripts_written c; rk_transcripts_dropped := rk_transcripts_dropped c;
     rk_transcript_lines := rk_transcript_lines c |}.
Definition RecorderCounters_default : RecorderCounters :=
  {| rk_sinks := {| of_log := SinkCounters_zero; of_capture := SinkCounters_zero |}; rk_tap_records := 0; rk_tap_refused := 0;
     rk_tap_dropped_by_writer := 0; rk_downloads_served := 0; rk_downloads_refused := 0; rk_records_unclocked := 0; rk_medium_refusals := 0;
     rk_medium_failures := 0; rk_completions_unexpected := 0; rk_snapshots_written := 0; rk_snapshots_missed := 0; rk_snapshots_dropped := 0;
     rk_transcripts_written := 0; rk_transcripts_dropped := 0; rk_transcript_lines := 0 |}.

Inductive Opened := Resumed (generation sequence offset : Z) | FreshMedium | Rebound (error : RingStateError).
Inductive DeckError := DeckError_Extent (which : Which) (error : GeometryError) | DeckError_Sink (which : Which) (error : SinkError).

Record Recording := {
  rec_which : Which; rec_sink : Sink; rec_in_flight : option Flush; rec_submitted : bool; rec_rolling : bool; rec_checkpoint_due : bool
}.
#[export] Instance Recording_eta : Eta Recording := λ r,
  {| rec_which := rec_which r; rec_sink := rec_sink r; rec_in_flight := rec_in_flight r; rec_submitted := rec_submitted r;
     rec_rolling := rec_rolling r; rec_checkpoint_due := rec_checkpoint_due r |}.

Definition Recording_new (which : Which) (capacity_sectors : Z) (stored : option RingState) (interfaces : list InterfaceName)
    (interface_count : nat) (staging : list Z) : Result (Recording * Opened) DeckError * list Z :=
  match Which_geometry which capacity_sectors with
  | Err error => (Err (DeckError_Extent which error), staging)
  | Ok geometry =>
      let config := {| sg_geometry := geometry; sg_snap_len := Which_snap_len which; sg_interfaces := interfaces; sg_interface_count := interface_count |} in
      let '(sink, opened, staging) :=
        match stored with
        | None => let '(sink, staging) := Sink_new config staging in (sink, FreshMedium, staging)
        | Some state =>
            match Sink_resume config state staging with
            | (Ok sink, staging) =>
                (Ok sink, Resumed (rs_write_generation state) (cu_sequence (rs_writer state)) (cu_offset (rs_writer state)), staging)
            | (Err (State error), staging) => let '(sink, staging) := Sink_new config staging in (sink, Rebound error, staging)
            | (Err error, staging) => (Err error, FreshMedium, staging)
            end
        end in
      match sink with
      | Err error => (Err (DeckError_Sink which error), staging)
      | Ok sink =>
          (Ok ({| rec_which := which; rec_sink := sink; rec_in_flight := None; rec_submitted := false; rec_rolling := false;
                  rec_checkpoint_due := true |}, opened), staging)
      end
  end.

Record Pending := { pn_tap : CheckedTap; pn_bytes : list Z; pn_len : nat; pn_owed : Both bool }.

Inductive Download :=
| Idle
| Fetching (demand : DownloadDemand) (total_len first skip len sector sectors : Z) (submitted : bool)
| Fetched (demand : DownloadDemand) (total_len first skip len : Z)
| Answered (demand : DownloadDemand) (reason : option DownloadRefusal) (total_len first : Z).

Inductive Served :=
| Deliver (demand : DownloadDemand) (bytes : list Z) (total_len first : Z)
| Refuse (demand : DownloadDemand) (reason : DownloadRefusal) (total_len first : Z).

Inductive Checkpointing := CK_Idle | CK_Barrier (w : Which) | CK_Ordered (w : Which) | CK_Written (w : Which).
#[export] Instance Checkpointing_eq_dec : EqDecision Checkpointing.
Proof. solve_decision. Defined.

Record Deck := {
  dk_recordings : Both Recording; dk_pending : option Pending; dk_download : Download; dk_clock : option Calibration;
  dk_checkpointing : Checkpointing; dk_framed_generation : Z; dk_counters : RecorderCounters
}.
#[export] Instance Deck_eta : Eta Deck := λ d,
  {| dk_recordings := dk_recordings d; dk_pending := dk_pending d; dk_download := dk_download d; dk_clock := dk_clock d;
     dk_checkpointing := dk_checkpointing d; dk_framed_generation := dk_framed_generation d; dk_counters := dk_counters d |}.

(** What the other domains hold out to one pass: what the tap's writer says it dropped, the
    reads of the tap in order, the calibration; a metrics relay, empty or with a settled reading
    and its encoding; and the console's batch with the lines it stands for. *)
Record Offered := {
  of_dropped : Z; of_taps : list (Result (CheckedTap * list Z) TapFault); of_clock : option Calibration;
  of_relay : option (option (Z * Result (list Z) unit)); of_transcript : option (option (list Z * Z))
}.

Section Pass.
Context {M : Type} `{Medium M}.

Definition counted (f : RecorderCounters → RecorderCounters) (d : Deck) : Deck := d <| dk_counters ::= f |>.
Definition recording (w : Which) (d : Deck) : Recording := at_which w (dk_recordings d).
Definition set_recording (w : Which) (r : Recording) (d : Deck) : Deck := d <| dk_recordings ::= set_which w r |>.

Definition Deck_new (capacity_sectors : Z) (stored : Both (option RingState)) (interfaces : list InterfaceName) (interface_count : nat) (m : M) :
    Result (Deck * Both Opened) DeckError * M :=
  let '(log, staging) := Recording_new Which_Log capacity_sectors (of_log stored) interfaces interface_count (md_staging Area_Log m) in
  let m := md_stage Area_Log staging m in
  match log with
  | Err e => (Err e, m)
  | Ok (log, log_opened) =>
      let '(capture, staging) := Recording_new Which_Capture capacity_sectors (of_capture stored) interfaces interface_count (md_staging Area_Capture m) in
      let m := md_stage Area_Capture staging m in
      match capture with
      | Err e => (Err e, m)
      | Ok (capture, capture_opened) =>
          (Ok ({| dk_recordings := {| of_log := log; of_capture := capture |}; dk_pending := None; dk_download := Idle; dk_clock := None;
                  dk_checkpointing := CK_Idle; dk_framed_generation := 0; dk_counters := RecorderCounters_default |},
               {| of_log := log_opened; of_capture := capture_opened |}), m)
      end
  end.

Definition Deck_extents : list (Z * Z) := [Which_extent Which_Log; Which_extent Which_Capture].
Definition Deck_get_counters (d : Deck) : RecorderCounters :=
  (dk_counters d) <| rk_sinks := {| of_log := sk_counters (rec_sink (of_log (dk_recordings d)));
                                  of_capture := sk_counters (rec_sink (of_capture (dk_recordings d))) |} |>.

(** ** Completions *)
Definition Deck_asked (job : Job) (d : Deck) : option Z :=
  match job with
  | Job_Flush w => let r := recording w d in if rec_submitted r then fl_len <$> rec_in_flight r else None
  | Job_Barrier _ => None
  | Job_Preload _ => None
  | Job_Checkpoint w => if decide (dk_checkpointing d = CK_Written w) then Some (Z.of_nat SUPERBLOCK_COPY_BYTES) else None
  | Job_Fetch => match dk_download d with Fetching _ _ _ _ _ _ sectors true => Some (saturating_mul 64 sectors SECTOR_SIZE) | _ => None end
  end.

Definition unexpected (d : Deck) : Deck := counted (λ c, c <| rk_completions_unexpected ::= bump |>) d.

Definition Deck_settle (d : Deck) (m : M) : bool * (Deck * M) :=
  let '(polled, m) := md_poll m in
  match polled with
  | None => (false, (d, m))
  | Some Unattributed => (true, (unexpected d, m))
  | Some (Settled {| cp_job := job; cp_ended := ended |}) =>
      let short := match ended with
                   | Ended_Ok delivered => match Deck_asked job d with Some asked => delivered <? asked | None => false end
                   | Ended_Failed => false
                   end in
      let failed := match ended with Ended_Failed => true | Ended_Ok _ => short end in
      let d := if failed then counted (λ c, c <| rk_medium_failures ::= bump |>) d else d in
      match job with
      | Job_Preload _ => (true, (unexpected d, m))
      | Job_Flush w =>
          let staging := md_staging (Which_area w) m in
          let r := recording w d in
          match rec_in_flight r with
          | Some flush =>
              if rec_submitted r then
                let '(sink, staging) := Sink_acknowledge flush (rec_sink r) staging in
                (true, (set_recording w (r <| rec_in_flight := None |> <| rec_submitted := false |> <| rec_sink := sink |> <| rec_checkpoint_due := true |>) d,
                        md_stage (Which_area w) staging m))
              else (true, (unexpected d, m))
          | None => (true, (unexpected d, m))
          end
      | Job_Barrier w =>
          if decide (dk_checkpointing d = CK_Barrier w)
          then (true, (d <| dk_checkpointing := if failed then CK_Idle else CK_Ordered w |>, m))
          else (true, (unexpected d, m))
      | Job_Checkpoint w =>
          if decide (dk_checkpointing d = CK_Written w) then
            let d := d <| dk_checkpointing := CK_Idle |> in
            if failed then (true, (d, m))
            else (true, (set_recording w ((recording w d) <| rec_sink ::= Sink_acknowledge_checkpoint |>) d, m))
          else (true, (unexpected d, m))
      | Job_Fetch =>
          match dk_download d with
          | Fetching demand total_len first skip len _ _ true =>
              (true, (d <| dk_download := if failed then Answered demand (Some DeviceError) total_len first
                                          else Fetched demand total_len first skip len |>, m))
          | _ => (true, (unexpected d, m))
          end
      end
  end.

Fixpoint settle_loop (budget : nat) (d : Deck) (m : M) : Deck * M :=
  match budget with
  | O => (d, m)
  | S budget => match Deck_settle d m with (true, (d, m)) => settle_loop budget d m | (false, (d, m)) => (d, m) end
  end.

(** ** The tap *)
Definition close_rolling (w : Which) (d : Deck) (m : M) : Deck * M :=
  let r := recording w d in
  if rec_rolling r then (d, m) else
  let '(closed, (sink, staging)) := Sink_close_segment (rec_sink r) (md_staging (Which_area w) m) in
  let m := md_stage (Which_area w) staging m in
  (set_recording w (r <| rec_sink := sink |> <| rec_rolling := match closed with Ok _ => true | Err _ => false end |>) d, m).

Definition place (w : Which) (tap : CheckedTap) (bytes : list Z) (d : Deck) (m : M) : bool * (Deck * M) :=
  let r := recording w d in
  let '(recorded, (sink, staging)) := Sink_record tap bytes (rec_sink r) (md_staging (Which_area w) m) in
  let d := set_recording w (r <| rec_sink := sink |>) d in
  let m := md_stage (Which_area w) staging m in
  match recorded with
  | Recorded_Placed _ | Recorded_Oversized _ | Recorded_Refused _ => (true, (d, m))
  | Recorded_SegmentFull => (false, close_rolling w d m)
  | Recorded_StagingFull _ _ => (false, (d, m))
  end.

(** The loop over [Which::ALL], against what the held record still owes. *)
Fixpoint settle_owed (ws : list Which) (tap : CheckedTap) (bytes : list Z) (owed : Both bool) (still_owed : bool) (d : Deck) (m : M) :
    (Both bool * bool) * (Deck * M) :=
  match ws with
  | [] => ((owed, still_owed), (d, m))
  | w :: ws =>
      if at_which w owed then
        match place w tap bytes d m with
        | (false, (d, m)) => settle_owed ws tap bytes owed true d m
        | (true, (d, m)) => settle_owed ws tap bytes (set_which w false owed) still_owed d m
        end
      else settle_owed ws tap bytes (set_which w false owed) still_owed d m
  end.

Definition Deck_settle_pending (d : Deck) (m : M) : bool * (Deck * M) :=
  match dk_pending d with
  | None => (true, (d, m))
  | Some held =>
      let d := d <| dk_pending := None |> in
      let bytes := if (pn_len held <=? length (pn_bytes held))%nat then take (pn_len held) (pn_bytes held) else [] in
      let '((owed, still_owed), (d, m)) := settle_owed Which_ALL (pn_tap held) bytes (pn_owed held) false d m in
      if still_owed
      then (false, (d <| dk_pending := Some {| pn_tap := pn_tap held; pn_bytes := pn_bytes held; pn_len := pn_len held; pn_owed := owed |} |>, m))
      else (true, (d, m))
  end.

Definition Deck_stamped (tap : CheckedTap) (d : Deck) : CheckedTap * Deck :=
  match dk_clock d with
  | Some calibration => (tap <| ck_timestamp := Calibration_utc calibration (ck_timestamp tap) / 1000 |>, d)
  | None => (tap <| ck_timestamp := 0 |>, counted (λ c, c <| rk_records_unclocked ::= bump |>) d)
  end.

Fixpoint offer_loop (ws : list Which) (tap : CheckedTap) (bytes : list Z) (owed : Both bool) (any : bool) (d : Deck) (m : M) :
    (Both bool * bool) * (Deck * M) :=
  match ws with
  | [] => ((owed, any), (d, m))
  | w :: ws =>
      if Which_records w tap then
        match place w tap bytes d m with
        | (false, (d, m)) => offer_loop ws tap bytes (set_which w true owed) true d m
        | (true, (d, m)) => offer_loop ws tap bytes owed any d m
        end
      else offer_loop ws tap bytes owed any d m
  end.

Definition Deck_offer (tap : CheckedTap) (bytes : list Z) (d : Deck) (m : M) : Deck * M :=
  let '((owed, any), (d, m)) := offer_loop Which_ALL tap bytes {| of_log := false; of_capture := false |} false d m in
  if any then
    (d <| dk_pending := Some {| pn_tap := tap; pn_bytes := list_inserts 0 (take TAP_SNAP_LEN bytes) (replicate TAP_SNAP_LEN 0);
                                pn_len := Nat.min (length bytes) TAP_SNAP_LEN; pn_owed := owed |} |>, m)
  else (d, m).

(** Answers the reads of the tap that are left. *)
Fixpoint drain_tap_loop (budget : nat) (taps : list (Result (CheckedTap * list Z) TapFault)) (d : Deck) (m : M) :
    list (Result (CheckedTap * list Z) TapFault) * (Deck * M) :=
  match budget with
  | O => (taps, (d, m))
  | S budget =>
      match Deck_settle_pending d m with
      | (false, (d, m)) => (taps, (d, m))
      | (true, (d, m)) =>
          match taps with
          | [] => ([], (d, m))
          | Ok (checked, bytes) :: taps =>
              let d := counted (λ c, c <| rk_tap_records ::= bump |>) d in
              let '(checked, d) := Deck_stamped checked d in
              let '(d, m) := Deck_offer checked bytes d m in
              drain_tap_loop budget taps d m
          | Err _ :: taps => drain_tap_loop budget taps (counted (λ c, c <| rk_tap_refused ::= bump |>) d) m
          end
      end
  end.

Definition note_drops (n : Z) (r : Recording) : Recording := r <| rec_sink ::= Sink_note_drops n |>.
Definition Deck_drain_tap (dropped : Z) (taps : list (Result (CheckedTap * list Z) TapFault)) (d : Deck) (m : M) :
    list (Result (CheckedTap * list Z) TapFault) * (Deck * M) :=
  let unattributed := saturating_sub dropped (rk_tap_dropped_by_writer (dk_counters d)) in
  let d := if 0 <? unattributed
           then d <| dk_recordings ::= λ rs, {| of_log := note_drops unattributed (of_log rs); of_capture := note_drops unattributed (of_capture rs) |} |>
           else d in
  let d := counted (λ c, c <| rk_tap_dropped_by_writer := dropped |>) d in
  drain_tap_loop TAP_BUDGET taps d m.

(** ** Readings and transcripts *)

(** A block framed into the log, and its sector completed where it was placed. *)
Definition frame_block (body : list Z) (d : Deck) (m : M) : Recorded * (Deck * M) :=
  let r := recording Which_Log d in
  let '(recorded, (sink, staging)) := Sink_block body (rec_sink r) (md_staging Area_Log m) in
  let d1 := set_recording Which_Log (r <| rec_sink := sink |>) d in
  let m1 := md_stage Area_Log staging m in
  match recorded with
  | Recorded_Placed _ =>
      let '(_, (sink, staging)) := Sink_seal sink staging in
      (recorded, (set_recording Which_Log (r <| rec_sink := sink |>) d, md_stage Area_Log staging m))
  | Recorded_SegmentFull => (recorded, close_rolling Which_Log d1 m1)
  | _ => (recorded, (d1, m1))
  end.

Definition Deck_frame_snapshot (relay : option (option (Z * Result (list Z) unit))) (d : Deck) (m : M) : Deck * M :=
  match relay with
  | None => (d, m)
  | Some None => (counted (λ c, c <| rk_snapshots_missed ::= bump |>) d, m)
  | Some (Some (generation, encoded)) =>
      if generation =? dk_framed_generation d then (d, m) else
      match encoded with
      | Err _ => (counted (λ c, c <| rk_snapshots_dropped ::= bump |>) (d <| dk_framed_generation := generation |>), m)
      | Ok body =>
          let '(recorded, (d, m)) := frame_block body d m in
          match recorded with
          | Recorded_Placed _ => (counted (λ c, c <| rk_snapshots_written ::= bump |>) (d <| dk_framed_generation := generation |>), m)
          | Recorded_SegmentFull | Recorded_StagingFull _ _ => (d, m)
          | Recorded_Oversized _ | Recorded_Refused _ =>
              (counted (λ c, c <| rk_snapshots_dropped ::= bump |>) (d <| dk_framed_generation := generation |>), m)
          end
      end
  end.

(** Answers how many lines of the relay are consumed. *)
Definition Deck_frame_transcript (transcript : option (option (list Z * Z))) (d : Deck) (m : M) : Z * (Deck * M) :=
  match transcript with
  | None | Some None => (0, (d, m))
  | Some (Some (body, lines)) =>
      let '(recorded, (d, m)) := frame_block body d m in
      match recorded with
      | Recorded_Placed _ =>
          (lines, (counted (λ c, c <| rk_transcripts_written ::= bump |> <| rk_transcript_lines ::= λ n, saturating_add 64 n lines |>) d, m))
      | Recorded_SegmentFull | Recorded_StagingFull _ _ => (0, (d, m))
      | Recorded_Oversized _ | Recorded_Refused _ => (lines, (counted (λ c, c <| rk_transcripts_dropped ::= bump |>) d, m))
      end
  end.

(** ** Flushes *)
Definition refusal (d : Deck) : Deck := counted (λ c, c <| rk_medium_refusals ::= bump |>) d.

Definition Deck_advance (w : Which) (d : Deck) (m : M) : Deck * M :=
  let r := recording w d in
  let '(r, staging) :=
    if rec_rolling r && match rec_in_flight r with None => true | Some _ => false end && (sk_staged_len (rec_sink r) =? 0) then
      let '(begun, (sink, staging)) := Sink_begin_segment (rec_sink r) (md_staging (Which_area w) m) in
      match begun with
      | Ok _ => (r <| rec_sink := sink |> <| rec_rolling := false |> <| rec_checkpoint_due := true |>, staging)
      | Err _ => (r <| rec_sink := sink |>, staging)
      end
    else (r, md_staging (Which_area w) m) in
  let '(r, staging) :=
    match rec_in_flight r with
    | None =>
        let '(flush, (sink, staging)) := Sink_take_flush (rec_sink r) staging in
        (r <| rec_sink := sink |> <| rec_in_flight := flush |> <| rec_submitted := false |>, staging)
    | Some _ => (r, staging)
    end in
  let d := set_recording w r d in
  let m := md_stage (Which_area w) staging m in
  match rec_in_flight r with
  | None => (d, m)
  | Some flush =>
      if rec_submitted r then (d, m) else
      let transfer := {| xf_area := Which_area w; xf_at := 0; xf_sector := fl_sector flush; xf_len := fl_len flush; xf_write := true |} in
      match md_submit (Job_Flush w) transfer m with
      | (true, m) => (set_recording w (r <| rec_submitted := true |>) d, m)
      | (false, m) => (refusal d, m)
      end
  end.

(** ** Checkpoints *)
Definition Deck_write_superblock (w : Which) (d : Deck) (m : M) : Deck * M :=
  let r := recording w d in
  let sector := Geometry_superblock_sector (rg_geometry (sk_ring (rec_sink r))) in
  let area := md_staging Area_Superblock m in
  if (length area <? SUPERBLOCK_BYTES)%nat then (d <| dk_checkpointing := CK_Idle |>, m) else
  let '(composed, (sink, image)) := Sink_superblock (take SUPERBLOCK_BYTES area) (rec_sink r) in
  let m := md_stage Area_Superblock (image ++ drop SUPERBLOCK_BYTES area) m in
  let r := r <| rec_sink := sink |> in
  match composed with
  | Err _ => (set_recording w (r <| rec_checkpoint_due := false |>) (d <| dk_checkpointing := CK_Idle |>), m)
  | Ok write =>
      let d := set_recording w r d in
      let transfer := {| xf_area := Area_Superblock; xf_at := Z.of_nat (sw_at write);
                         xf_sector := saturating_add 64 sector (Z.of_nat (sw_at write) / SECTOR_SIZE); xf_len := Z.of_nat (sw_len write); xf_write := true |} in
      match md_submit (Job_Checkpoint w) transfer m with
      | (true, m) => (set_recording w (r <| rec_checkpoint_due := false |>) (d <| dk_checkpointing := CK_Written w |>), m)
      | (false, m) => (refusal d, m)
      end
  end.

Definition Deck_order_checkpoint (d : Deck) (m : M) : Deck * M :=
  match List.find (λ w, rec_checkpoint_due (recording w d)) Which_ALL with
  | None => (d, m)
  | Some w =>
      if negb (md_orders_writes m) then Deck_write_superblock w (d <| dk_checkpointing := CK_Ordered w |>) m else
      match md_barrier (Job_Barrier w) m with
      | (true, m) => (set_recording w ((recording w d) <| rec_checkpoint_due := false |>) (d <| dk_checkpointing := CK_Barrier w |>), m)
      | (false, m) => (refusal d, m)
      end
  end.

Definition Deck_checkpoint (d : Deck) (m : M) : Deck * M :=
  match dk_checkpointing d with
  | CK_Idle => Deck_order_checkpoint d m
  | CK_Ordered w => Deck_write_superblock w d m
  | CK_Barrier _ | CK_Written _ => (d, m)
  end.

(** ** Downloads *)
Definition acknowledge_one (a : Acknowledged) (r : Recording) : Recording :=
  let '(moved, sink) := Sink_acknowledge_reader (Acknowledged_of a (Which_sink (rec_which r))) (rec_sink r) in
  if moved : bool then r <| rec_sink := sink |> <| rec_checkpoint_due := true |> else r <| rec_sink := sink |>.
Definition Deck_acknowledge (a : Acknowledged) (d : Deck) : Deck :=
  d <| dk_recordings ::= λ rs, {| of_log := acknowledge_one a (of_log rs); of_capture := acknowledge_one a (of_capture rs) |} |>.

Definition Deck_find (demand : DownloadDemand) (w : Which) (d : Deck) : Deck :=
  let r := recording w d in
  let total_len := Sink_durable_position (rec_sink r) in
  let first := Sink_first_position (rec_sink r) in
  let '(located, sink) := Sink_find (dd_offset demand) (rec_sink r) in
  let d := set_recording w (r <| rec_sink := sink |>) d in
  match located with
  | Locate_PastEnd => d <| dk_download := Answered demand None total_len first |>
  | Locate_Overrun => d <| dk_download := Answered demand (Some Refusal_Overrun) total_len first |>
  | Locate_Live span =>
      let len := Z.min (sp_len span) (dd_len demand) in
      if len =? 0 then d <| dk_download := Answered demand None total_len first |> else
      d <| dk_download := Fetching demand total_len first (sp_skip span) len (sp_sector span) ((sp_skip span + len + SECTOR_SIZE - 1) / SECTOR_SIZE) false |>
  end.

Definition Deck_demand (demand : DownloadDemand) (d : Deck) : Deck :=
  let d := Deck_acknowledge (dd_acked demand) d in
  match dd_sink demand with
  | None => d <| dk_download := Answered demand (Some NoSuchSink) 0 0 |>
  | Some sink =>
      match dd_reader demand with
      | None => d <| dk_download := Answered demand (Some NoSuchReader) 0 0 |>
      | Some DownloadReader_Ring => Deck_find demand (Which_named sink) d
      end
  end.

Definition Deck_serving (d : Deck) : bool := match dk_download d with Idle => false | _ => true end.

Definition Deck_answer (d : Deck) (m : M) : option Served * Deck :=
  match dk_download d with
  | Answered demand (Some reason) total_len first =>
      (Some (Refuse demand reason total_len first), counted (λ c, c <| rk_downloads_refused ::= bump |>) (d <| dk_download := Idle |>))
  | Answered demand None total_len first =>
      (Some (Deliver demand [] total_len first), counted (λ c, c <| rk_downloads_served ::= bump |>) (d <| dk_download := Idle |>))
  | Fetched demand total_len first skip len =>
      let staging := md_staging Area_Download m in
      let bytes := if Z.of_nat (length staging) <? skip then [] else
                   if Z.of_nat (length staging) - skip <? len then [] else slice staging (Z.to_nat skip) (Z.to_nat len) in
      (Some (Deliver demand bytes total_len first), counted (λ c, c <| rk_downloads_served ::= bump |>) (d <| dk_download := Idle |>))
  | _ => (None, d)
  end.

Definition Deck_advance_download (d : Deck) (m : M) : Deck * M :=
  match dk_download d with
  | Fetching demand total_len first skip len sector sectors false =>
      let transfer := {| xf_area := Area_Download; xf_at := 0; xf_sector := sector; xf_len := saturating_mul 64 sectors SECTOR_SIZE; xf_write := false |} in
      match md_submit Job_Fetch transfer m with
      | (true, m) => (d <| dk_download := Fetching demand total_len first skip len sector sectors true |>, m)
      | (false, m) => (refusal d, m)
      end
  | _ => (d, m)
  end.

(** ** The pass *)

(** Answers the reads of the tap that are left and the console lines consumed. *)
Definition Deck_poll (offered : Offered) (d : Deck) (m : M) :
    (list (Result (CheckedTap * list Z) TapFault) * Z) * (Deck * M) :=
  let d := d <| dk_clock := of_clock offered |> in
  let '(d, m) := settle_loop COMPLETION_BUDGET d m in
  let '(taps, (d, m)) := Deck_drain_tap (of_dropped offered) (of_taps offered) d m in
  let '(d, m) := Deck_frame_snapshot (of_relay offered) d m in
  let '(lines, (d, m)) := Deck_frame_transcript (of_transcript offered) d m in
  let '(d, m) := Deck_advance_download d m in
  let '(d, m) := Deck_advance Which_Log d m in
  let '(d, m) := Deck_advance Which_Capture d m in
  ((taps, lines), Deck_checkpoint d m).

(** ** The superblocks at boot *)
Inductive PreloadError :=
| PreloadError_Extent (which : Which) (error : GeometryError)
| PreloadError_Refused (which : Which)
| PreloadError_Silent (which : Which)
| PreloadError_Misattributed (which : Which)
| PreloadError_Failed (which : Which)
| PreloadError_Short (which : Which) (delivered : Z)
| PreloadError_Unstaged (which : Which) (len : Z).

Fixpoint await_completion (budget : nat) (which : Which) (m : M) : Result Completion PreloadError * M :=
  match budget with
  | O => (Err (PreloadError_Silent which), m)
  | S budget =>
      match md_poll m with
      | (Some (Settled completion), m) => (Ok completion, m)
      | (Some Unattributed, m) | (None, m) => await_completion budget which m
      end
  end.

Definition judge (which : Which) (job : Job) (completion : Completion) : Result unit PreloadError :=
  if decide (cp_job completion = job) then
    match cp_ended completion with
    | Ended_Failed => Err (PreloadError_Failed which)
    | Ended_Ok delivered => if negb (delivered =? Z.of_nat SUPERBLOCK_BYTES) then Err (PreloadError_Short which delivered) else Ok tt
    end
  else Err (PreloadError_Misattributed which).

Definition read_one (which : Which) (capacity_sectors : Z) (m : M) : Result (option RingState) PreloadError * M :=
  match Which_geometry which capacity_sectors with
  | Err error => (Err (PreloadError_Extent which error), m)
  | Ok geometry =>
      let transfer := {| xf_area := Area_Superblock; xf_at := 0; xf_sector := Geometry_superblock_sector geometry;
                         xf_len := Z.of_nat SUPERBLOCK_BYTES; xf_write := false |} in
      match md_submit (Job_Preload which) transfer m with
      | (false, m) => (Err (PreloadError_Refused which), m)
      | (true, m) =>
          match await_completion POLL_BUDGET which m with
          | (Err e, m) => (Err e, m)
          | (Ok completion, m) =>
              match judge which (Job_Preload which) completion with
              | Err e => (Err e, m)
              | Ok _ =>
                  let staging := md_staging Area_Superblock m in
                  if (length staging =? SUPERBLOCK_BYTES)%nat then (Ok (decode_superblock staging), m)
                  else (Err (PreloadError_Unstaged which (Z.of_nat (length staging))), m)
              end
          end
      end
  end.

Definition read_superblocks (capacity_sectors : Z) (m : M) : Result (Both (option RingState)) PreloadError * M :=
  match read_one Which_Log capacity_sectors m with
  | (Err e, m) => (Err e, m)
  | (Ok log, m) =>
      match read_one Which_Capture capacity_sectors m with
      | (Err e, m) => (Err e, m)
      | (Ok capture, m) => (Ok {| of_log := log; of_capture := capture |}, m)
      end
  end.
End Pass.
