(* ===== verification/DeckAccount.v ===== *)
(** * No record is left out in silence

    Over any device, a record the tap hands over is placed in each recording that selects it,
    dropped for a reason its sink counts, or held: the counters of every reachable deck add up
    to what was offered. *)
From S2P Require Import Prelude Layout Shared Clock WireTap Pcapng CaptureRing CaptureSuperblock Recorder Deck.

(** The records a sink has decided on. *)
Definition decided (s : Sink) : Z := sc_records (sk_counters s) + sc_dropped_oversized (sk_counters s) + sc_dropped_refused (sk_counters s).
Definition same_counts (s s' : Sink) : Prop :=
  sc_records (sk_counters s') = sc_records (sk_counters s) ∧ sc_dropped_oversized (sk_counters s') = sc_dropped_oversized (sk_counters s)
  ∧ sc_dropped_refused (sk_counters s') = sc_dropped_refused (sk_counters s).
Definition counts_ok (s : Sink) : Prop :=
  0 ≤ sc_records (sk_counters s) ∧ 0 ≤ sc_dropped_oversized (sk_counters s) ∧ 0 ≤ sc_dropped_refused (sk_counters s).

Lemma same_counts_refl s : same_counts s s.
Proof. done. Qed.
Lemma same_counts_trans s s1 s2 : same_counts s s1 → same_counts s1 s2 → same_counts s s2.
Proof. unfold same_counts. intros (-> & -> & ->) (-> & -> & ->). done. Qed.

Lemma decided_same s s' : same_counts s s' → decided s' = decided s ∧ (counts_ok s → counts_ok s').
Proof. unfold same_counts, decided, counts_ok. intros (-> & -> & ->). done. Qed.

(** ** What each operation of a sink counts *)
Lemma Sink_pad_counts n s st : same_counts s (Sink_pad n s st).2.1.
Proof. unfold Sink_pad. destruct (_ <? _); [done|]. destruct (write_tail _ _ _) as [[k|] st']; [|done]. by destruct (Ring_append k (sk_ring s)) as [[| |] ring]. Qed.

Lemma Sink_seal_counts s st : same_counts s (Sink_seal s st).2.1.
Proof. unfold Sink_seal. cbv zeta. destruct (_ =? 0); [done|]. apply Sink_pad_counts. Qed.

Lemma Sink_close_counts s st : same_counts s (Sink_close_segment s st).2.1.
Proof.
  unfold Sink_close_segment. cbv zeta. destruct (_ =? 0); [done|]. pose proof (Sink_pad_counts (Ring_slack (sk_ring s)) s st) as H.
  destruct (Sink_pad (Ring_slack (sk_ring s)) s st) as [[n|] [s1 st1]]; [|exact H]. destruct H as (H1 & H2 & H3). unfold same_counts. cbn. by rewrite <- H1, <- H2, <- H3.
Qed.

Lemma Sink_write_prologue_counts s st : sk_counters (Sink_write_prologue s st).2.1 = sk_counters s.
Proof. unfold Sink_write_prologue. cbv zeta. destruct (write_tail _ _ _) as [[n|] st1]; [|done]. by destruct (write_interfaces _ _ _ _ _ _) as [[k|] st2]. Qed.

Lemma Sink_begin_counts s st : same_counts s (Sink_begin_segment s st).2.1.
Proof. unfold Sink_begin_segment, same_counts. cbv zeta. rewrite Sink_write_prologue_counts. done. Qed.

Lemma Sink_take_flush_counts s st : same_counts s (Sink_take_flush s st).2.1.
Proof.
  unfold Sink_take_flush. destruct (sk_flushing s); [done|]. pose proof (Sink_seal_counts s st) as H. destruct (Sink_seal s st) as [[n|] [s1 st1]]; [|exact H].
  cbv zeta. destruct (_ =? 0); exact H.
Qed.

Lemma Sink_block_counts data s st : same_counts s (Sink_block data s st).2.1.
Proof.
  unfold Sink_block. cbv zeta. destruct (custom_block_len _); [|done]. destruct (_ <? _); [done|]. destruct (_ <? _); [done|].
  destruct (Sink_write_free s st _) as [[n|[]] st']; try done. by destruct (Ring_append n (sk_ring s)) as [[| |] ring].
Qed.

Lemma Sink_superblock_counts image s : same_counts s (Sink_superblock image s).2.1.
Proof. unfold Sink_superblock. cbv zeta. destruct (Ring_checkpoint _ _ _) as [[state|] ring]; [|done]. by destruct (encode_superblock image state _). Qed.

Lemma Sink_reader_counts p s : same_counts s (Sink_acknowledge_reader p s).2.
Proof.
  unfold Sink_acknowledge_reader. cbv zeta. destruct (_ =? 0); [done|]. destruct (sk_reader s) as [held|]; [|done]. by destruct (cursor_le _ held).
Qed.

Lemma Sink_find_counts p s : same_counts s (Sink_find p s).2.
Proof.
  unfold Sink_find. cbv zeta. destruct (_ <=? p); [done|]. destruct (_ =? 0); [done|]. destruct (p <? _); [done|].
  by destruct (Ring_locate _ _ _) as [[| |] ring].
Qed.

(** Whether an answer of [Sink_record] is a decision. *)
Definition settles (r : Recorded) : bool :=
  match r with Recorded_Placed _ | Recorded_Oversized _ | Recorded_Refused _ => true | _ => false end.

Lemma Sink_record_counts tap frame s st :
  counts_ok s → decided s < u64_max →
  let '(r, (s', _)) := Sink_record tap frame s st in
  counts_ok s' ∧ decided s' = decided s + (if settles r then 1 else 0) ∧ (settles r = false → same_counts s s').
Proof.
  unfold decided, counts_ok, count_refused, count_oversized. intros (H1 & H2 & H3) H. unfold Sink_record. cbv zeta.
  assert (∀ n, 0 ≤ n → n < u64_max → bump n = n + 1) as Hb by (intros n Hn Hlt; unfold bump, saturating_add, u64_max in *; change (2 ^ 64 - 1) with 18446744073709551615; lia).
  destruct (enhanced_packet_len _) as [needed|e]; [|cbn; rewrite Hb by lia; lia].
  destruct (_ <? _); [cbn; rewrite Hb by lia; lia|]. destruct (_ <? _); [cbn; unfold same_counts; cbn; lia|].
  destruct (Sink_write_free s st _) as [[n|[]] st']; try (cbn; unfold same_counts; cbn; rewrite ?Hb by lia; lia).
  destruct (Ring_append n (sk_ring s)) as [[| |] ring]; cbn; unfold same_counts; cbn; rewrite ?Hb by lia; lia.
Qed.

Lemma Sink_new_counts config st s st' : Sink_new config st = (Ok s, st') → counts_ok s ∧ decided s = 0.
Proof.
  unfold Sink_new. destruct (prologue_len config) as [P|]; [|discriminate]. destruct (negb _); [discriminate|]. cbv zeta.
  match goal with |- context [Sink_write_prologue ?x st] => pose proof (Sink_write_prologue_counts x st) as H; destruct (Sink_write_prologue x st) as [[n|] [s1 st1]] end;
    [|discriminate]. intros [= <- <-]. cbn [fst snd] in H. unfold counts_ok, decided. rewrite H. cbn. lia.
Qed.

Lemma Sink_resume_counts config state st s st' : Sink_resume config state st = (Ok s, st') → counts_ok s ∧ decided s = 0.
Proof.
  unfold Sink_resume. destruct (RingState_check _ _) as [checked|]; [|discriminate]. destruct (negb _); [discriminate|].
  destruct (Sink_new config st) as [[s0|] st0] eqn:E; [|discriminate]. apply Sink_new_counts in E as [E1 E2]. cbv zeta.
  set (s1 := _ <| sk_superblock_stale := false |>). assert (sk_counters s1 = sk_counters s0) as Ec by reflexivity. clearbody s1.
  assert (counts_ok s1 ∧ decided s1 = 0) as [F1 F2] by (unfold counts_ok, decided in *; by rewrite Ec).
  assert (∀ s2, same_counts s1 s2 → counts_ok s2 ∧ decided s2 = 0) as Hsame by (intros s2 Hs; destruct (decided_same _ _ Hs) as [-> Hk]; auto).
  intros H. destruct (Ring_fit _ _).
  - destruct (Ring_append _ _) as [[pl| |] ring].
    + match type of H with context [Sink_write_prologue ?x st0] => pose proof (Sink_write_prologue_counts x st0) as Hw; destruct (Sink_write_prologue x st0) as [[n|] [s2 st2]] end;
        [|discriminate H]. injection H as <- <-. apply Hsame. cbn [fst snd] in Hw. unfold same_counts. by rewrite Hw.
    + injection H as <- <-. by apply Hsame.
    + injection H as <- <-. by apply Hsame.
  - pose proof (Sink_close_counts s1 st0) as Hc. destruct (Sink_close_segment s1 st0) as [[n|] [s2 st2]]; [|discriminate H]. injection H as <- <-. by apply Hsame.
  - pose proof (Sink_close_counts s1 st0) as Hc. destruct (Sink_close_segment s1 st0) as [[n|] [s2 st2]]; [|discriminate H]. injection H as <- <-. by apply Hsame.
Qed.

(** ** What each operation of the deck counts *)
Definition sink_of (w : Which) (d : Deck) : Sink := rec_sink (recording w d).
Definition owes (w : Which) (d : Deck) : Z :=
  match dk_pending d with Some held => if at_which w (pn_owed held) then 1 else 0 | None => 0 end.

(** An operation that decides on no record. *)
Definition calm (d d' : Deck) : Prop := dk_pending d' = dk_pending d ∧ ∀ w, same_counts (sink_of w d) (sink_of w d').

Lemma calm_refl d : calm d d.
Proof. by split. Qed.
Lemma calm_trans d d1 d2 : calm d d1 → calm d1 d2 → calm d d2.
Proof. intros [H1 H2] [H3 H4]. split; [congruence|]. intros w. by eapply same_counts_trans. Qed.

Lemma sink_of_set w w' r d : sink_of w (set_recording w' r d) = if decide (w = w') then rec_sink r else sink_of w d.
Proof. by destruct w, w'. Qed.

Lemma calm_set w r d : same_counts (sink_of w d) (rec_sink r) → calm d (set_recording w r d).
Proof. intros H. split; [done|]. intros w'. rewrite sink_of_set. destruct (decide _) as [->|]; done. Qed.

Section Calm.
Context {M : Type} `{Medium M}.

(** What the deck does besides taking records is calm. *)
Lemma close_rolling_calm w d (m : M) : calm d (close_rolling w d m).1.
Proof.
  unfold close_rolling. cbv zeta. destruct (rec_rolling _); [apply calm_refl|]. pose proof (Sink_close_counts (rec_sink (recording w d)) (md_staging (Which_area w) m)) as Hc.
  destruct (Sink_close_segment _ _) as [closed [sink staging]]. by apply calm_set.
Qed.

Lemma settle_calm d (m : M) : calm d (Deck_settle d m).2.1.
Proof.
  unfold Deck_settle. destruct (md_poll m) as [[[[job ended]|]|] m']; [|by split..]. cbv zeta.
  match goal with |- context [if ?b then counted ?f d else d] => set (failed := b); set (d1 := if failed then counted f d else d) end.
  assert (calm d d1) as H1 by (unfold d1; by destruct failed). clearbody d1 failed.
  eapply calm_trans; [exact H1|]. destruct job as [w|w|w|w|].
  - by split.
  - destruct (rec_in_flight (recording w d1)) as [flush|]; [|by split]. destruct (rec_submitted (recording w d1)); [|by split].
    destruct (Sink_acknowledge flush (rec_sink (recording w d1)) (md_staging (Which_area w) m')) as [sink staging] eqn:E. apply calm_set. cbn.
    unfold Sink_acknowledge in E. injection E as <- _. done.
  - destruct (decide _); by split.
  - destruct (decide _); [|by split]. destruct failed; [by split|]. by split; [|intros []; destruct w].
  - destruct (dk_download d1) as [|? ? ? ? ? ? ? []| |]; by split.
Qed.

Lemma settle_loop_calm budget d (m : M) : calm d (settle_loop budget d m).1.
Proof.
  revert d m. induction budget as [|budget IH]; intros d m; [by split|]. cbn [settle_loop]. pose proof (settle_calm d m) as Hc.
  destruct (Deck_settle d m) as [[] [d1 m1]]; [eapply calm_trans; [exact Hc|apply IH]|exact Hc].
Qed.

Lemma frame_block_calm body d (m : M) : calm d (frame_block body d m).2.1.
Proof.
  unfold frame_block. cbv zeta. pose proof (Sink_block_counts body (rec_sink (recording Which_Log d)) (md_staging Area_Log m)) as Hb.
  destruct (Sink_block _ _ _) as [recorded [sink staging]]. cbn [fst snd] in Hb. destruct recorded; try by apply calm_set.
  - pose proof (Sink_seal_counts sink staging) as Hs. destruct (Sink_seal sink staging) as [? [s2 st2]]. apply calm_set. by eapply same_counts_trans.
  - cbn [fst snd]. eapply calm_trans; [|apply close_rolling_calm]. by apply calm_set.
Qed.

Lemma frame_snapshot_calm relay d (m : M) : calm d (Deck_frame_snapshot relay d m).1.
Proof.
  unfold Deck_frame_snapshot. destruct relay as [[[generation encoded]|]|]; [|by split..]. destruct (generation =? dk_framed_generation d); [by split|].
  destruct encoded as [body|]; [|by split]. pose proof (frame_block_calm body d m) as Hf.
  destruct (frame_block body d m) as [recorded [d1 m1]]. cbn [fst snd] in Hf. by destruct recorded.
Qed.

Lemma frame_transcript_calm transcript d (m : M) : calm d (Deck_frame_transcript transcript d m).2.1.
Proof.
  unfold Deck_frame_transcript. destruct transcript as [[[body lines]|]|]; [|by split..]. pose proof (frame_block_calm body d m) as Hf.
  destruct (frame_block body d m) as [recorded [d1 m1]]. cbn [fst snd] in Hf. by destruct recorded.
Qed.

Lemma advance_calm w d (m : M) : calm d (Deck_advance w d m).1.
Proof.
  unfold Deck_advance. cbv zeta. match goal with |- context [let '(r, staging) := ?x in _] => set (begun := x) end.
  assert (same_counts (sink_of w d) (rec_sink begun.1)) as H1.
  { unfold begun. destruct (_ && _ && _); [|done]. pose proof (Sink_begin_counts (rec_sink (recording w d)) (md_staging (Which_area w) m)) as Hb.
    destruct (Sink_begin_segment _ _) as [[|] [sink staging]]; exact Hb. }
  destruct begun as [r1 staging1]. cbn [fst] in H1. match goal with |- context [let '(r, staging) := ?x in _] => set (flushed := x) end.
  assert (same_counts (sink_of w d) (rec_sink flushed.1)) as H2.
  { unfold flushed. destruct (rec_in_flight r1); [done|]. pose proof (Sink_take_flush_counts (rec_sink r1) staging1) as Hf.
    destruct (Sink_take_flush _ _) as [flush [sink staging]]. cbn [fst snd rec_sink] in *. by eapply same_counts_trans. }
  destruct flushed as [r2 staging2]. cbn [fst] in H2. destruct (rec_in_flight r2) as [flush|]; [|by apply calm_set]. destruct (rec_submitted r2); [by apply calm_set|].
  destruct (md_submit _ _ _) as [[] m']; [|by apply calm_set]. eapply calm_trans; [by apply calm_set|]. apply calm_set. rewrite sink_of_set. by destruct (decide _).
Qed.

Lemma write_superblock_calm w d (m : M) : calm d (Deck_write_superblock w d m).1.
Proof.
  unfold Deck_write_superblock. cbv zeta. destruct (_ <? _)%nat; [by split|].
  pose proof (Sink_superblock_counts (take SUPERBLOCK_BYTES (md_staging Area_Superblock m)) (rec_sink (recording w d))) as Hs.
  destruct (Sink_superblock _ _) as [[write|] [sink image]]; cbn [fst snd] in Hs.
  - destruct (md_submit _ _ _) as [[] m']; [|by apply calm_set]. eapply calm_trans; [by apply (calm_set w ((recording w d) <| rec_sink := sink |>))|].
    eapply calm_trans; [|apply calm_set]; [by split|]. by destruct w.
  - eapply (calm_trans _ (d <| dk_checkpointing := CK_Idle |>)); [by split|]. apply calm_set. by destruct w.
Qed.

Lemma checkpoint_calm d (m : M) : calm d (Deck_checkpoint d m).1.
Proof.
  unfold Deck_checkpoint. destruct (dk_checkpointing d) as [|w|w|w]; [|by split| |by split].
  - unfold Deck_order_checkpoint. destruct (List.find _ _) as [w|]; [|by split]. destruct (negb _).
    + eapply calm_trans; [|apply write_superblock_calm]. by split.
    + destruct (md_barrier _ _) as [[] m']; [|by split]. eapply (calm_trans _ (d <| dk_checkpointing := CK_Barrier w |>)); [by split|]. apply calm_set. by destruct w.
  - apply write_superblock_calm.
Qed.

Lemma advance_download_calm d (m : M) : calm d (Deck_advance_download d m).1.
Proof. unfold Deck_advance_download. destruct (dk_download d) as [|? ? ? ? ? ? ? []| |]; try by split. by destruct (md_submit _ _ _) as [[] m']. Qed.

Lemma acknowledge_one_counts a r : same_counts (rec_sink r) (rec_sink (acknowledge_one a r)).
Proof.
  unfold acknowledge_one. pose proof (Sink_reader_counts (Acknowledged_of a (Which_sink (rec_which r))) (rec_sink r)) as Hr.
  by destruct (Sink_acknowledge_reader _ _) as [[] sink].
Qed.

Lemma demand_calm demand d : calm d (Deck_demand demand d).
Proof.
  unfold Deck_demand. cbv zeta. set (d1 := Deck_acknowledge (dd_acked demand) d).
  assert (calm d d1) as H1.
  { split; [done|]. intros []; apply acknowledge_one_counts. }
  clearbody d1. eapply calm_trans; [exact H1|]. destruct (dd_sink demand) as [sink|]; [|by split]. destruct (dd_reader demand) as [[]|]; [|by split].
  unfold Deck_find. cbv zeta. pose proof (Sink_find_counts (dd_offset demand) (sink_of (Which_named sink) d1)) as Hf. unfold sink_of in Hf.
  destruct (Sink_find _ _) as [located s2]. cbn [snd] in Hf. eapply calm_trans; [by apply (calm_set (Which_named sink) ((recording (Which_named sink) d1) <| rec_sink := s2 |>))|].
  destruct located as [span| |]; [|by split..]. destruct (_ =? 0); by split.
Qed.

Lemma answer_calm d (m : M) : calm d (Deck_answer d m).2.
Proof. unfold Deck_answer. destruct (dk_download d) as [| | |? []]; by split. Qed.
End Calm.

(** ** Records *)

(** What has been decided and what is owed, recording by recording. *)
Definition account (n : Which → Z) (d : Deck) : Prop := ∀ w, counts_ok (sink_of w d) ∧ decided (sink_of w d) + owes w d = n w.

Lemma account_calm n d d' : calm d d' → account n d → account n d'.
Proof.
  intros [H1 H2] H w. destruct (H w) as [H3 H4]. destruct (decided_same _ _ (H2 w)) as [E Hk]. split; [auto|]. unfold owes in *. by rewrite E, H1.
Qed.

Section Records.
Context {M : Type} `{Medium M}.

Lemma place_account w tap bytes d (m : M) :
  counts_ok (sink_of w d) → decided (sink_of w d) < u64_max →
  let '(settled, (d', _)) := place w tap bytes d m in
  dk_pending d' = dk_pending d ∧ (∀ w', w' ≠ w → same_counts (sink_of w' d) (sink_of w' d')) ∧ counts_ok (sink_of w d')
  ∧ decided (sink_of w d') = decided (sink_of w d) + (if settled : bool then 1 else 0).
Proof.
  intros Hk Hlt. unfold place. cbv zeta. pose proof (Sink_record_counts tap bytes (sink_of w d) (md_staging (Which_area w) m) Hk Hlt) as Hr. unfold sink_of in Hr at 1.
  destruct (Sink_record _ _ _ _) as [recorded [sink staging]]. destruct Hr as (H1 & H2 & _).
  set (d1 := set_recording w ((recording w d) <| rec_sink := sink |>) d).
  assert (dk_pending d1 = dk_pending d ∧ (∀ w', w' ≠ w → same_counts (sink_of w' d) (sink_of w' d1)) ∧ sink_of w d1 = sink) as (P1 & P2 & P3).
  { split; [done|]. split; [|by destruct w]. intros w' Hne. unfold d1. rewrite sink_of_set. by destruct (decide _). }
  destruct recorded; cbn [settles] in H2; try (split_all; [done|done|by rewrite P3|by rewrite P3]).
  set (m1 := md_stage (Which_area w) staging m). pose proof (close_rolling_calm w d1 m1) as [C1 C2]. destruct (close_rolling w d1 m1) as [d2 m2]. cbn [fst] in C1, C2.
  destruct (decided_same _ _ (C2 w)) as [E Hok]. rewrite P3 in E, Hok. split_all; [by rewrite C1|intros w' Hne; eapply same_counts_trans; auto|auto|by rewrite E].
Qed.

Definition unit_of (b : bool) : Z := if b then 1 else 0.
Definition accounted (n : Which → Z) (owed : Both bool) (d : Deck) : Prop :=
  ∀ w, counts_ok (sink_of w d) ∧ decided (sink_of w d) + unit_of (at_which w owed) = n w.

Lemma at_set {A} w w' (x : A) b : at_which w (set_which w' x b) = if decide (w = w') then x else at_which w b.
Proof. by destruct w, w'. Qed.

(** A recording that decides on the record, or owes it as before. *)
Lemma accounted_place n owed w d d' settled :
  accounted n owed d → (∀ w', w' ≠ w → same_counts (sink_of w' d) (sink_of w' d')) → counts_ok (sink_of w d') →
  decided (sink_of w d') = decided (sink_of w d) + unit_of settled → (settled = true → at_which w owed = true) →
  accounted n (if settled then set_which w false owed else owed) d'.
Proof.
  intros Ha Hs Hk Hd Hset w'. destruct (Ha w') as [A1 A2]. destruct (decide (w' = w)) as [->|Hne].
  - split; [done|]. destruct settled; [rewrite at_set, decide_True by done; rewrite (Hset eq_refl) in A2|]; cbn [unit_of] in *; lia.
  - destruct (decided_same _ _ (Hs w' Hne)) as [E Hok]. split; [auto|]. rewrite E. destruct settled; [rewrite at_set, decide_False by done|]; done.
Qed.

Lemma settle_owed_accounted n ws tap bytes owed still d (m : M) :
  (∀ w, n w ≤ u64_max) → accounted n owed d →
  let '((owed', still'), (d', _)) := settle_owed ws tap bytes owed still d m in
  dk_pending d' = dk_pending d ∧ accounted n owed' d' ∧ (∀ w, at_which w owed = false → at_which w owed' = false)
  ∧ (still' = false → still = false ∧ ∀ w, w ∈ ws → at_which w owed' = false).
Proof.
  intros Hn. revert owed still d m. induction ws as [|w ws IH]; intros owed still d m Ha; cbn [settle_owed].
  - split_all; [done|done|done|]. intros ->. split; [done|]. intros w Hw. by apply not_elem_of_nil in Hw.
  - destruct (at_which w owed) eqn:Ew.
    + destruct (Ha w) as [A1 A2]. rewrite Ew in A2. pose proof (Hn w). pose proof (place_account w tap bytes d m A1 ltac:(cbn in A2; lia)) as Hp.
      destruct (place w tap bytes d m) as [settled [d1 m1]]. destruct Hp as (P1 & P2 & P3 & P4).
      pose proof (accounted_place n owed w d d1 settled Ha P2 P3 P4 (λ _, Ew)) as Ha1. destruct settled.
      * specialize (IH (set_which w false owed) still d1 m1 Ha1). destruct (settle_owed ws tap bytes _ still d1 m1) as [[owed' still'] [d' m']].
        destruct IH as (I1 & I2 & I3 & I4). split_all; [congruence|done| |].
        -- intros w' Hw'. apply I3. rewrite at_set. by destruct (decide _).
        -- intros Hs. destruct (I4 Hs) as [J1 J2]. split; [done|]. intros w' [->|Hw']%elem_of_cons; [|auto]. apply I3. rewrite at_set. by rewrite decide_True.
      * specialize (IH owed true d1 m1 Ha1). destruct (settle_owed ws tap bytes owed true d1 m1) as [[owed' still'] [d' m']]. destruct IH as (I1 & I2 & I3 & I4).
        split_all; [congruence|done|done|]. intros Hs. by destruct (I4 Hs).
    + assert (accounted n (set_which w false owed) d) as Ha1.
      { intros w'. destruct (Ha w') as [A1 A2]. rewrite at_set. destruct (decide (w' = w)) as [->|]; [by rewrite Ew in A2|done]. }
      specialize (IH (set_which w false owed) still d m Ha1). destruct (settle_owed ws tap bytes _ still d m) as [[owed' still'] [d' m']].
      destruct IH as (I1 & I2 & I3 & I4). split_all; [done|done| |].
      * intros w' Hw'. apply I3. rewrite at_set. by destruct (decide _).
      * intros Hs. destruct (I4 Hs) as [J1 J2]. split; [done|]. intros w' [->|Hw']%elem_of_cons; [|auto]. apply I3. rewrite at_set. by rewrite decide_True.
Qed.

Lemma in_ALL w : w ∈ Which_ALL.
Proof. destruct w; [apply list_elem_of_here|apply list_elem_of_further, list_elem_of_here]. Qed.

(** A deck that owes what a held record says. *)
Lemma account_held n owed d held : accounted n owed d → pn_owed held = owed → account n (d <| dk_pending := Some held |>).
Proof. intros Ha <- w. destruct (Ha w) as [A1 A2]. split; [by destruct w|]. unfold owes. cbn [dk_pending]. by destruct w. Qed.
Lemma account_clear n owed d : accounted n owed d → (∀ w, at_which w owed = false) → dk_pending d = None → account n d.
Proof. intros Ha Ho Hp w. destruct (Ha w) as [A1 A2]. rewrite Ho in A2. split; [done|]. unfold owes. by rewrite Hp. Qed.

Lemma settle_pending_account n d (m : M) :
  (∀ w, n w ≤ u64_max) → account n d →
  let '(clear, (d', _)) := Deck_settle_pending d m in account n d' ∧ (clear = true → dk_pending d' = None).
Proof.
  intros Hn Ha. unfold Deck_settle_pending. destruct (dk_pending d) as [held|] eqn:Ep; [|done]. cbv zeta.
  set (bytes := if (_ <=? _)%nat then _ else _). set (d0 := d <| dk_pending := None |>).
  assert (accounted n (pn_owed held) d0) as H0.
  { intros w. destruct (Ha w) as [K1 K2]. unfold owes in K2. rewrite Ep in K2. by destruct w. }
  pose proof (settle_owed_accounted n Which_ALL (pn_tap held) bytes (pn_owed held) false d0 m Hn H0) as Hs.
  destruct (settle_owed _ _ _ _ _ d0 m) as [[owed' still'] [d' m']]. destruct Hs as (I1 & I2 & I3 & I4). destruct still'.
  - split; [|done]. by eapply account_held.
  - destruct (I4 eq_refl) as [_ J]. split; [|done]. eapply account_clear; [exact I2|intros w; apply J, in_ALL|exact I1].
Qed.

(** A record offered: each recording that selects it has one more to account for. *)
Definition more (tap : CheckedTap) (n : Which → Z) : Which → Z := λ w, n w + unit_of (Which_records w tap).

Lemma accounted_ext n n' owed d : (∀ w, n w = n' w) → accounted n owed d → accounted n' owed d.
Proof. intros He Ha w. rewrite <- He. apply Ha. Qed.

Lemma offer_loop_accounted n ws tap bytes owed any d (m : M) :
  (∀ w, w ∈ ws → n w + 1 ≤ u64_max) → NoDup ws → accounted n owed d → (∀ w, w ∈ ws → at_which w owed = false) →
  let '((owed', any'), (d', _)) := offer_loop ws tap bytes owed any d m in
  dk_pending d' = dk_pending d ∧ accounted (λ w, if decide (w ∈ ws) then more tap n w else n w) owed' d' ∧ (any' = false → any = false ∧ owed' = owed).
Proof.
  revert n owed any d m. induction ws as [|w ws IH]; intros n owed any d m Hn Hnd Ha Ho; cbn [offer_loop]; [by split_all|].
  apply NoDup_cons in Hnd as [Hnw Hnd]. pose proof (list_elem_of_here w ws) as Hin.
  assert (∀ w', w' ∈ ws → w' ≠ w) as Hother by (intros w' Hw' ->; done).
  assert (∀ w', w' ∈ ws → w' ∈ w :: ws) as Hdeep by (intros; by apply list_elem_of_further). unfold more in *.
  destruct (Which_records w tap) eqn:Er.
  - destruct (Ha w) as [A1 A2]. rewrite (Ho w Hin) in A2. pose proof (Hn w Hin). pose proof (place_account w tap bytes d m A1 ltac:(cbn in A2; lia)) as Hp.
    destruct (place w tap bytes d m) as [settled [d1 m1]]. destruct Hp as (P1 & P2 & P3 & P4).
    set (n1 := λ w', n w' + unit_of (bool_decide (w' = w))).
    assert (accounted n1 (if settled then owed else set_which w true owed) d1) as Ha1.
    { intros w'. destruct (Ha w') as [B1 B2]. unfold n1. destruct (decide (w' = w)) as [->|Hne].
      - rewrite bool_decide_true by done. split; [done|]. destruct settled; [|rewrite at_set, decide_True by done]; rewrite ?(Ho w Hin) in *; cbn [unit_of] in *; lia.
      - rewrite bool_decide_false by done. destruct (decided_same _ _ (P2 w' Hne)) as [E Hok]. split; [auto|]. rewrite E. cbn [unit_of].
        destruct settled; [|rewrite at_set, decide_False by done]; lia. }
    assert (∀ w', (if decide (w' ∈ ws) then n1 w' + unit_of (Which_records w' tap) else n1 w')
      = (if decide (w' ∈ w :: ws) then n w' + unit_of (Which_records w' tap) else n w')) as Hext.
    { intros w'. unfold n1. destruct (decide (w' = w)) as [->|Hne].
      - rewrite bool_decide_true, (decide_False (P:=w ∈ ws)), (decide_True (P:=w ∈ w :: ws)), Er by done. done.
      - rewrite bool_decide_false by done. cbn [unit_of]. rewrite Z.add_0_r. destruct (decide (w' ∈ ws)); [by rewrite decide_True by auto|].
        rewrite decide_False; [done|]. by intros [?|?]%elem_of_cons. }
    assert (∀ w', w' ∈ ws → n1 w' + 1 ≤ u64_max) as Hn1 by (intros w' Hw'; unfold n1; rewrite bool_decide_false by auto; cbn [unit_of]; rewrite Z.add_0_r; auto).
    destruct settled.
    + specialize (IH n1 owed any d1 m1 Hn1 Hnd Ha1 ltac:(auto)). destruct (offer_loop ws tap bytes owed any d1 m1) as [[owed' any'] [d' m']].
      destruct IH as (I1 & I2 & I3). split_all; [congruence| |exact I3]. eapply accounted_ext; [exact Hext|exact I2].
    + specialize (IH n1 (set_which w true owed) true d1 m1 Hn1 Hnd Ha1).
      destruct (offer_loop ws tap bytes _ true d1 m1) as [[owed' any'] [d' m']]. destruct IH as (I1 & I2 & I3).
      * intros w' Hw'. rewrite at_set, decide_False by auto. auto.
      * split_all; [congruence| |intros Hf; by destruct (I3 Hf)]. eapply accounted_ext; [exact Hext|exact I2].
  - specialize (IH n owed any d m ltac:(auto) Hnd Ha ltac:(auto)). destruct (offer_loop ws tap bytes owed any d m) as [[owed' any'] [d' m']].
    destruct IH as (I1 & I2 & I3). split_all; [done| |done]. eapply accounted_ext; [|exact I2]. intros w'. cbn beta. destruct (decide (w' ∈ ws)); [by rewrite decide_True by auto|].
    destruct (decide (w' ∈ w :: ws)) as [[->|?]%elem_of_cons|]; [|done|done]. rewrite Er. cbn [unit_of]. lia.
Qed.

Lemma offer_account n tap bytes d (m : M) :
  (∀ w, n w + 1 ≤ u64_max) → account n d → dk_pending d = None → account (more tap n) (Deck_offer tap bytes d m).1.
Proof.
  intros Hn Ha Hp. unfold Deck_offer. set (none := {| of_log := false; of_capture := false |}).
  assert (accounted n none d) as H0 by (intros w; destruct (Ha w) as [A1 A2]; unfold owes in A2; rewrite Hp in A2; by destruct w).
  assert (NoDup Which_ALL) as Hnd by (apply (bool_decide_unpack _); done).
  pose proof (offer_loop_accounted n Which_ALL tap bytes none false d m ltac:(auto) Hnd H0 ltac:(intros []; done)) as Hl.
  destruct (offer_loop _ _ _ _ _ d m) as [[owed any] [d1 m1]]. destruct Hl as (I1 & I2 & I3).
  assert (accounted (more tap n) owed d1) as I2' by (eapply accounted_ext; [|exact I2]; intros w; cbn beta; by rewrite decide_True by apply in_ALL).
  destruct any; [by eapply account_held|]. destruct (I3 eq_refl) as [_ ->]. eapply account_clear; [exact I2'|intros []; done|]. cbn [fst]. congruence.
Qed.

(** ** Passes *)
Definition handed (taps : list (Result (CheckedTap * list Z) TapFault)) : list CheckedTap :=
  omap (λ t, match t with Ok (checked, _) => Some checked | Err _ => None end) taps.
Definition selected (w : Which) (recs : list CheckedTap) : Z := Z.of_nat (length (filter (λ t, Which_records w t = true) recs)).
Definition plus (n : Which → Z) (recs : list CheckedTap) : Which → Z := λ w, n w + selected w recs.

Lemma selected_cons w t recs : selected w (t :: recs) = unit_of (Which_records w t) + selected w recs.
Proof. unfold selected. rewrite filter_cons. destruct (decide _) as [->|Hf]; [cbn [length unit_of]; lia|]. by apply not_true_is_false in Hf as ->. Qed.
Lemma selected_app w recs recs' : selected w (recs ++ recs') = selected w recs + selected w recs'.
Proof. unfold selected. rewrite filter_app, length_app. lia. Qed.
Lemma selected_le w recs : 0 ≤ selected w recs ≤ Z.of_nat (length recs).
Proof. unfold selected. pose proof (length_filter (λ t, Which_records w t = true) recs). lia. Qed.

Lemma account_ext n n' d : (∀ w, n w = n' w) → account n d → account n' d.
Proof. intros He Ha w. rewrite <- He. apply Ha. Qed.

Lemma drain_loop_account budget n taps d (m : M) :
  (∀ w, n w + Z.of_nat budget ≤ u64_max) → account n d →
  let '(rest, (d', _)) := drain_tap_loop budget taps d m in ∃ used, taps = used ++ rest ∧ account (plus n (handed used)) d'.
Proof.
  assert (∀ n0 d0, account n0 d0 → account (plus n0 (handed [])) d0) as Hnil.
  { intros n0 d0. apply account_ext. intros w. unfold plus, selected. cbn. lia. }
  revert n taps d m. induction budget as [|budget IH]; intros n taps d m Hn Ha; cbn [drain_tap_loop]; [exists []; split; [done|by apply Hnil]|].
  assert (∀ w, n w ≤ u64_max) as Hn0 by (intros w; specialize (Hn w); lia).
  pose proof (settle_pending_account n d m Hn0 Ha) as Hs. destruct (Deck_settle_pending d m) as [clear [d1 m1]]. destruct Hs as [Ha1 Hc].
  destruct clear; [|exists []; split; [done|by apply Hnil]]. specialize (Hc eq_refl).
  destruct taps as [|[[checked bytes]|e] taps].
  - exists []. split; [done|by apply Hnil].
  - set (d2 := counted _ d1). assert (account n d2 ∧ dk_pending d2 = None) as [Ha2 Hp2] by (split; [|done]; eapply account_calm; [|exact Ha1]; by split). clearbody d2.
    assert (∀ w, Which_records w (Deck_stamped checked d2).1 = Which_records w checked) as Hw by (intros w; unfold Deck_stamped; destruct (dk_clock d2), w; done).
    assert (account n (Deck_stamped checked d2).2 ∧ dk_pending (Deck_stamped checked d2).2 = None) as [Ha3 Hp3].
    { unfold Deck_stamped. destruct (dk_clock d2); [done|]. split; [|done]. eapply account_calm; [|exact Ha2]. by split. }
    destruct (Deck_stamped checked d2) as [stamped d3]. cbn [fst snd] in *.
    assert (∀ w, more stamped n w = n w + unit_of (Which_records w checked)) as Hm by (intros w; unfold more; by rewrite Hw).
    pose proof (offer_account n stamped bytes d3 m1 ltac:(intros w; specialize (Hn w); lia) Ha3 Hp3) as Ha4.
    destruct (Deck_offer stamped bytes d3 m1) as [d4 m4]. cbn [fst] in Ha4. specialize (IH (more stamped n) taps d4 m4).
    destruct (drain_tap_loop budget taps d4 m4) as [rest [d5 m5]]. destruct IH as (used & -> & Hu); [|exact Ha4|].
    + intros w. rewrite Hm. specialize (Hn w). destruct (Which_records w checked); cbn [unit_of]; lia.
    + exists (Ok (checked, bytes) :: used). split; [done|]. eapply account_ext; [|exact Hu]. intros w. unfold plus. rewrite Hm.
      change (handed (Ok (checked, bytes) :: used)) with (checked :: handed used). rewrite selected_cons. lia.
  - set (d2 := counted _ d1). assert (account n d2) as Ha2 by (eapply account_calm; [|exact Ha1]; by split). clearbody d2.
    specialize (IH n taps d2 m1 ltac:(intros w; specialize (Hn w); lia) Ha2). destruct (drain_tap_loop budget taps d2 m1) as [rest [d5 m5]]. destruct IH as (used & -> & Hu).
    exists (Err e :: used). done.
Qed.

Lemma poll_account n offered d (m : M) :
  (∀ w, n w + Z.of_nat TAP_BUDGET ≤ u64_max) → account n d →
  let '((rest, _), (d', _)) := Deck_poll offered d m in ∃ used, of_taps offered = used ++ rest ∧ account (plus n (handed used)) d'.
Proof.
  intros Hn Ha. unfold Deck_poll. cbv zeta. set (d0 := d <| dk_clock := of_clock offered |>).
  assert (account n d0) as Ha0 by (eapply account_calm; [|exact Ha]; by split). clearbody d0.
  pose proof (settle_loop_calm COMPLETION_BUDGET d0 m) as C1. destruct (settle_loop COMPLETION_BUDGET d0 m) as [d1 m1]. pose proof (account_calm _ _ _ C1 Ha0) as Ha1.
  unfold Deck_drain_tap. cbv zeta. match goal with |- context [drain_tap_loop TAP_BUDGET _ ?x m1] => set (d2 := x) end.
  assert (account n d2) as Ha2 by (eapply account_calm; [|exact Ha1]; unfold d2; destruct (0 <? _); split; done || by intros []). clearbody d2.
  pose proof (drain_loop_account TAP_BUDGET n (of_taps offered) d2 m1 Hn Ha2) as Hd. destruct (drain_tap_loop TAP_BUDGET (of_taps offered) d2 m1) as [rest [d3 m3]].
  destruct Hd as (used & Hu & Ha3).
  pose proof (frame_snapshot_calm (of_relay offered) d3 m3) as C4. destruct (Deck_frame_snapshot (of_relay offered) d3 m3) as [d4 m4].
  pose proof (frame_transcript_calm (of_transcript offered) d4 m4) as C5. destruct (Deck_frame_transcript (of_transcript offered) d4 m4) as [lines [d5 m5]].
  pose proof (advance_download_calm d5 m5) as C6. destruct (Deck_advance_download d5 m5) as [d6 m6].
  pose proof (advance_calm Which_Log d6 m6) as C7. destruct (Deck_advance Which_Log d6 m6) as [d7 m7].
  pose proof (advance_calm Which_Capture d7 m7) as C8. destruct (Deck_advance Which_Capture d7 m7) as [d8 m8].
  pose proof (checkpoint_calm d8 m8) as C9. destruct (Deck_checkpoint d8 m8) as [d9 m9]. cbn [fst snd] in *.
  exists used. split; [exact Hu|]. eapply account_calm; [|exact Ha3]. repeat (eapply calm_trans; [eassumption|]). apply calm_refl.
Qed.
End Records.

(** ** Every reachable deck *)

(** The deck over a device: passes, which take records off the tap, demands and answers; and the
    device on its own. *)
Inductive deck_step {M} `{Medium M} : list CheckedTap → Deck * M → Deck * M → Prop :=
| deck_poll offered d m rest lines d' m' used :
    Deck_poll offered d m = ((rest, lines), (d', m')) → of_taps offered = used ++ rest → deck_step (handed used) (d, m) (d', m')
| deck_demand demand d m : deck_step [] (d, m) (Deck_demand demand d, m)
| deck_answer d m : deck_step [] (d, m) ((Deck_answer d m).2, m)
| deck_device d m m' : deck_step [] (d, m) (d, m').

Inductive deck_run {M} `{Medium M} : list CheckedTap → Deck * M → Prop :=
| deck_boot capacity_sectors stored interfaces interface_count m d opened m' :
    Deck_new capacity_sectors stored interfaces interface_count m = (Ok (d, opened), m') → deck_run [] (d, m')
| deck_more recs new dm dm' : deck_run recs dm → deck_step new dm dm' → deck_run (recs ++ new) dm'.

Lemma Recording_new_counts which capacity stored interfaces count_ st r opened st' :
  Recording_new which capacity stored interfaces count_ st = (Ok (r, opened), st') → counts_ok (rec_sink r) ∧ decided (rec_sink r) = 0.
Proof.
  unfold Recording_new. destruct (Which_geometry which capacity) as [g|]; [|discriminate]. cbv zeta. set (config := {| sg_geometry := g |}). clearbody config.
  destruct stored as [state|].
  - destruct (Sink_resume config state st) as [[s|[]] st1] eqn:E; try discriminate.
    + intros [= <- <- <-]. by apply Sink_resume_counts in E.
    + destruct (Sink_new config st1) as [[s|] st2] eqn:En; [|discriminate]. intros [= <- <- <-]. by apply Sink_new_counts in En.
  - destruct (Sink_new config st) as [[s|] st2] eqn:En; [|discriminate]. intros [= <- <- <-]. by apply Sink_new_counts in En.
Qed.

Lemma deck_run_account {M} `{Medium M} recs dm :
  deck_run recs dm → Z.of_nat (length recs + TAP_BUDGET) ≤ u64_max → account (λ w, selected w recs) dm.1.
Proof.
  induction 1 as [capacity stored interfaces ic m d opened m' E|recs new dm dm' _ IH Hs]; intros Hlen.
  - unfold Deck_new in E. destruct (Recording_new Which_Log _ _ _ _ _) as [[[log lo]|] st1] eqn:E1; [|discriminate E].
    destruct (Recording_new Which_Capture _ _ _ _ _) as [[[capture co]|] st2] eqn:E2; [|discriminate E]. injection E as <- _ _.
    apply Recording_new_counts in E1, E2. intros []; [destruct E1 as [K1 K2]|destruct E2 as [K1 K2]]; (split; [exact K1|]).
    + change (decided (rec_sink log) + 0 = 0). lia.
    + change (decided (rec_sink capture) + 0 = 0). lia.
  - rewrite length_app in Hlen. specialize (IH ltac:(lia)). eapply (account_ext (plus (λ w, selected w recs) new)).
    { intros w. unfold plus. by rewrite selected_app. }
    assert (∀ d', calm dm.1 d' → account (plus (λ w, selected w recs) []) d') as Hcalm.
    { intros d' Hc. eapply account_ext; [|eapply account_calm; [exact Hc|exact IH]]. intros w. unfold plus, selected. cbn. lia. }
    destruct Hs as [offered d m rest lines d' m' used E Hu|demand d m|d m|d m m']; cbn [fst] in *.
    + pose proof (poll_account (λ w, selected w recs) offered d m) as Hp. rewrite E in Hp. destruct Hp as (used' & Hu' & Ha); [|exact IH|].
      * intros w. pose proof (selected_le w recs). cbn beta. lia.
      * assert (used = used') as -> by (apply (app_inv_tail rest); congruence). exact Ha.
    + apply Hcalm, demand_calm.
    + apply Hcalm, answer_calm.
    + apply Hcalm, calm_refl.
Qed.

