(* ===== verification/DeckDisk.v ===== *)
(** * A disk under the deck

    A device with a write cache, in the terms of the trait's contract: a transfer moves its
    bytes when it completes, in whatever order the device answers, and a write is on the medium
    for good once a barrier submitted after its completion has completed; the power going before
    that keeps or loses it. The runs below are computed on it. *)
From S2P Require Import Prelude Layout Shared Clock WireTap Pcapng CaptureRing CaptureSuperblock Recorder RecorderGeometry RecorderRun RecorderReadback Deck DeckAccount.

(** [di_loose] are the completed writes no barrier covers yet, oldest first; a queued barrier
    remembers how many there were. [di_takes] and [di_polls] decide what the device does: which
    submissions it takes, and which queued job each poll answers. *)
Record Disk := {
  di_log : list Z; di_capture : list Z; di_download : list Z; di_superblock : list Z; di_stable : Z → Z; di_loose : list (Z * list Z);
  di_queue : list (Job * (Transfer + nat)); di_takes : list bool; di_polls : list (option nat)
}.
#[export] Instance Disk_eta : Eta Disk := λ m,
  {| di_log := di_log m; di_capture := di_capture m; di_download := di_download m; di_superblock := di_superblock m; di_stable := di_stable m;
     di_loose := di_loose m; di_queue := di_queue m; di_takes := di_takes m; di_polls := di_polls m |}.

Definition Disk_area (a : Area) (m : Disk) : list Z :=
  match a with Area_Log => di_log m | Area_Capture => di_capture m | Area_Download => di_download m | Area_Superblock => di_superblock m end.
Definition Disk_stage (a : Area) (bytes : list Z) (m : Disk) : Disk :=
  match a with
  | Area_Log => m <| di_log := bytes |>
  | Area_Capture => m <| di_capture := bytes |>
  | Area_Download => m <| di_download := bytes |>
  | Area_Superblock => m <| di_superblock := bytes |>
  end.
Definition apply_writes (stable : Z → Z) (writes : list (Z * list Z)) : Z → Z := foldl (λ f w, write_run f w.1 w.2) stable writes.
(** What a read of the device sees. *)
Definition Disk_bytes (m : Disk) : Z → Z := apply_writes (di_stable m) (di_loose m).

Definition Disk_submit (job : Job) (what : Transfer + nat) (m : Disk) : bool * Disk :=
  let taken := default true (head (di_takes m)) in
  let m := m <| di_takes ::= tail |> in
  if taken then (true, m <| di_queue ::= λ q, q ++ [(job, what)] |>) else (false, m).

(** A job done. *)
Definition Disk_perform (what : Transfer + nat) (m : Disk) : Z * Disk :=
  match what with
  | inl t =>
      let at_ := xf_sector t * SECTOR_SIZE in
      (xf_len t,
       if xf_write t then m <| di_loose ::= λ l, l ++ [(at_, slice (Disk_area (xf_area t) m) (Z.to_nat (xf_at t)) (Z.to_nat (xf_len t)))] |>
       else Disk_stage (xf_area t) (list_inserts (Z.to_nat (xf_at t)) (read_run (Disk_bytes m) at_ (xf_len t)) (Disk_area (xf_area t) m)) m)
  | inr covered => (0, m <| di_stable := apply_writes (di_stable m) (take covered (di_loose m)) |> <| di_loose ::= drop covered |>)
  end.

Definition Disk_poll (m : Disk) : option Polled * Disk :=
  let answer := head (di_polls m) in
  let m := m <| di_polls ::= tail |> in
  match answer with
  | Some (Some i) =>
      match di_queue m !! i with
      | Some (job, what) =>
          let '(delivered, m) := Disk_perform what (m <| di_queue ::= λ q, take i q ++ drop (S i) q |>) in
          (Some (Settled {| cp_job := job; cp_ended := Ended_Ok delivered |}), m)
      | None => (None, m)
      end
  | _ => (None, m)
  end.

#[export] Instance Disk_medium : Medium Disk := {
  md_staging := Disk_area;
  md_stage := Disk_stage;
  md_orders_writes := λ _, true;
  md_submit := λ job t m, Disk_submit job (inl t) m;
  md_barrier := λ job m, Disk_submit job (inr (length (di_loose m))) m;
  md_poll := Disk_poll
}.

(** The power goes: of the writes behind no barrier the device keeps those it says. *)
Definition Disk_cut (kept : list nat) (m : Disk) : Z → Z := apply_writes (di_stable m) (omap (λ i, di_loose m !! i) kept).

(** ** Runs *)
Definition blank_disk (bytes : Z → Z) : Disk :=
  {| di_log := replicate (Z.to_nat LOG_STAGING_BYTES) 0; di_capture := replicate (Z.to_nat CAPTURE_STAGING_BYTES) 0;
     di_download := replicate (Z.to_nat DOWNLOAD_STAGING_BYTES) 0; di_superblock := replicate SUPERBLOCK_BYTES 0; di_stable := bytes;
     di_loose := []; di_queue := []; di_takes := []; di_polls := [] |}.
Definition CAPACITY : Z := CAPTURE_START_SECTOR + CAPTURE_SECTORS.
Definition names : list InterfaceName := [InterfaceName_new [101; 116; 104; 48]].
Definition boot (stored : Both (option RingState)) (bytes : Z → Z) : option (Deck * Disk) :=
  match Deck_new CAPACITY stored names 1 (blank_disk bytes) with (Ok (d, _), m) => Some (d, m) | (Err _, _) => None end.
Definition nothing_stored : Both (option RingState) := {| of_log := None; of_capture := None |}.
Definition offering (taps : list (Result (CheckedTap * list Z) TapFault)) : Offered :=
  {| of_dropped := 0; of_taps := taps; of_clock := None; of_relay := None; of_transcript := None |}.
(** One pass over the disk answering [polls]. *)
Definition pass (polls : list (option nat)) (taps : list (Result (CheckedTap * list Z) TapFault)) (dm : Deck * Disk) : Deck * Disk :=
  let '(d, m) := dm in (Deck_poll (offering taps) d (m <| di_polls := polls |>)).2.

(** What a boot makes of the log's superblock. *)
Definition stored_log (bytes : Z → Z) : option RingState :=
  decode_superblock (read_run bytes (LOG_START_SECTOR * SECTOR_SIZE) (Z.of_nat SUPERBLOCK_BYTES)).
