(* ===== verification/DeckExamples.v ===== *)
(** * Runs of the deck

    Computed on the disk of [DeckDisk]: a checkpoint that claims what its barrier did not cover, a
    download answered with another segment's bytes, and a deck with a record held. *)
From S2P Require Import Prelude Layout Shared Clock WireTap Pcapng CaptureRing CaptureSuperblock Recorder RecorderGeometry RecorderRun RecorderReadback Deck DeckAccount DeckDisk.

(** Passes of a deck, the device taking and answering what it does in each. *)
Definition one_pass (a b : Deck * Disk) : Prop := ∃ takes polls taps, b = pass polls taps (a.1, a.2 <| di_takes := takes |>).
Definition passes : Deck * Disk → Deck * Disk → Prop := rtc one_pass.
Fixpoint run_passes (script : list (list bool * list (option nat) * list (Result (CheckedTap * list Z) TapFault))) (dm : Deck * Disk) : Deck * Disk :=
  match script with
  | [] => dm
  | (takes, polls, taps) :: script => run_passes script (pass polls taps (dm.1, dm.2 <| di_takes := takes |>))
  end.
Lemma run_passes_are script dm : passes dm (run_passes script dm).
Proof. revert dm. induction script as [|[[takes polls] taps] script IH]; intros dm; [apply rtc_refl|]. eapply rtc_l; [by exists takes, polls, taps|apply IH]. Qed.

(** ** A checkpoint and its barrier *)
Definition log_sink (dm : Deck * Disk) : Sink := sink_of Which_Log dm.1.

(** Flushes and a barrier go out; the log's flush completes, then the barrier, submitted before
    it did; then the superblock. *)
Definition early_barrier : list (list bool * list (option nat) * list (Result (CheckedTap * list Z) TapFault)) :=
  [([], [], []); ([], [Some 0%nat; Some 1%nat], []); ([], [Some 1%nat], [])].

Definition claims_lost_bytes (dm : Deck * Disk) : bool :=
  let bytes := Disk_cut [1%nat] dm.2 in
  match stored_log bytes with
  | Some state =>
      match boot {| of_log := Some state; of_capture := None |} bytes with
      | Some dm2 =>
          match (Sink_find 0 (log_sink dm2)).1, (Sink_find 0 (log_sink dm)).1 with
          | Locate_Live span, Locate_Live span' => (span_at span =? span_at span') && negb (bytes (span_at span) =? Disk_bytes dm.2 (span_at span))
          | _, _ => false
          end
      | None => false
      end
  | None => false
  end.

Lemma early_barrier_claims :
  match boot nothing_stored (λ _, 0) with Some dm => claims_lost_bytes (run_passes early_barrier dm) | None => false end = true.
Proof. vm_compute. reflexivity. Qed.

Lemma claims_lost_bytes_spec dm :
  claims_lost_bytes dm = true →
  ∃ state dm2 span span',
    stored_log (Disk_cut [1%nat] dm.2) = Some state ∧ boot {| of_log := Some state; of_capture := None |} (Disk_cut [1%nat] dm.2) = Some dm2
    ∧ (Sink_find 0 (log_sink dm2)).1 = Locate_Live span ∧ (Sink_find 0 (log_sink dm)).1 = Locate_Live span' ∧ span_at span = span_at span'
    ∧ Disk_cut [1%nat] dm.2 (span_at span) ≠ Disk_bytes dm.2 (span_at span).
Proof.
  unfold claims_lost_bytes. cbv zeta. generalize (Disk_cut [1%nat] dm.2) as bytes. intros bytes H.
  destruct (stored_log bytes) as [state|] eqn:E1; [|discriminate H]. destruct (boot _ bytes) as [dm2|] eqn:E2; [|discriminate H].
  destruct (Sink_find 0 (log_sink dm2)).1 as [span| |] eqn:E3; [|discriminate H..]. destruct (Sink_find 0 (log_sink dm)).1 as [span'| |] eqn:E4; [|discriminate H..].
  apply andb_prop in H as [H1 H2]. apply Z.eqb_eq in H1. exists state, dm2, span, span'.
  split_all; [reflexivity|exact E2|exact E3|reflexivity|exact H1|]. intros Eq. rewrite Eq, Z.eqb_refl in H2. discriminate H2.
Qed.

(** C27. A superblock outruns its barrier. On a device that honours barriers there are passes of a
    fresh deck after which the power can go so that the boot resumes from a superblock naming
    bytes that never reached the medium: the superblock is composed from the durable end at the
    time it is written, and that has moved past what was complete when the barrier was
    submitted. The position is answered as live on both sides of the cut, at the same place. *)
Theorem superblock_outruns_its_barrier :
  ∃ dm0 dm kept state dm2 p span span',
    boot nothing_stored (λ _, 0) = Some dm0 ∧ passes dm0 dm
    ∧ stored_log (Disk_cut kept dm.2) = Some state ∧ boot {| of_log := Some state; of_capture := None |} (Disk_cut kept dm.2) = Some dm2
    ∧ (Sink_find p (log_sink dm2)).1 = Locate_Live span ∧ (Sink_find p (log_sink dm)).1 = Locate_Live span' ∧ span_at span = span_at span'
    ∧ Disk_cut kept dm.2 (span_at span) ≠ Disk_bytes dm.2 (span_at span).
Proof.
  pose proof early_barrier_claims as H. destruct (boot nothing_stored (λ _, 0)) as [dm0|]; [|discriminate H].
  destruct (claims_lost_bytes_spec _ H) as (state & dm2 & span & span' & H1 & H2 & H3 & H4 & H5 & H6).
  exists dm0, (run_passes early_barrier dm0), [1%nat], state, dm2, 0, span, span'. split; [reflexivity|]. split; [apply run_passes_are|].
  split; [exact H1|]. split; [exact H2|]. split; [exact H3|]. split; [exact H4|]. split; [exact H5|exact H6].
Qed.

(** ** A download and its segment *)
Definition log_geometry : Geometry :=
  {| ge_start_sector := 2048; ge_sectors := 32768; ge_segment_bytes := 1048576; ge_segment_sectors := 2048; ge_segments := 15 |}.
(** A recording about to wrap: the segment in the next one's place is the oldest readable. *)
Definition late_state : RingState :=
  {| rs_geometry := log_geometry; rs_write_generation := 7; rs_writer := {| cu_sequence := 15; cu_offset := SEGMENT_BYTES - 1024 |}; rs_readers := [] |}.
Definition late_boot : Both (option RingState) := {| of_log := Some late_state; of_capture := None |}.
Definition opening_record : CheckedTap :=
  {| ck_packet_id := 7; ck_timestamp := 1000; ck_interface_id := 0; ck_original_len := 60; ck_outcome := TO_Forwarded; ck_direction := Some Inbound;
     ck_generation := 1; ck_flow := None; ck_rule := None; ck_event := Some TE_FlowOpened |}.
Definition oldest_demand : DownloadDemand :=
  {| dd_sequence := 1; dd_sink := Some DownloadSink_Log; dd_reader := Some DownloadReader_Ring; dd_offset := SEGMENT_BYTES; dd_len := 64;
     dd_acked := {| ac_log := 0; ac_capture := 0 |} |}.

(** The device refuses the read twice, being busy, and completes everything in order. *)
Definition busy_device : list (list bool * list (option nat) * list (Result (CheckedTap * list Z) TapFault)) :=
  [([false], [], [Ok (opening_record, replicate 60 1)]); ([false], [Some 0%nat], []);
   ([], [Some 0%nat; Some 0%nat; Some 0%nat], []); ([], [Some 0%nat; Some 0%nat], [])].

Definition answers_wrong (dm0 dm : Deck * Disk) : bool :=
  match (Deck_answer dm.1 dm.2).1, (Sink_find SEGMENT_BYTES (log_sink dm0)).1, (Sink_find SEGMENT_BYTES (log_sink dm)).1 with
  | Some (Deliver demand got _ first), Locate_Live span, Locate_Overrun =>
      bool_decide (demand = oldest_demand) && (first <=? SEGMENT_BYTES)
      && negb (bool_decide (got = read_run (Disk_bytes dm0.2) (span_at span) (Z.of_nat (length got))))
  | _, _, _ => false
  end.

Lemma busy_device_answers :
  match boot late_boot (λ _, 7) with Some dm => answers_wrong dm (run_passes busy_device (Deck_demand oldest_demand dm.1, dm.2)) | None => false end = true.
Proof. vm_compute. reflexivity. Qed.

Lemma answers_wrong_spec dm0 dm :
  answers_wrong dm0 dm = true →
  ∃ got total first span,
    (Deck_answer dm.1 dm.2).1 = Some (Deliver oldest_demand got total first) ∧ first ≤ SEGMENT_BYTES
    ∧ (Sink_find SEGMENT_BYTES (log_sink dm0)).1 = Locate_Live span ∧ got ≠ read_run (Disk_bytes dm0.2) (span_at span) (Z.of_nat (length got))
    ∧ (Sink_find SEGMENT_BYTES (log_sink dm)).1 = Locate_Overrun.
Proof.
  unfold answers_wrong. destruct (Deck_answer dm.1 dm.2).1 as [[demand got total first|]|] eqn:E1; [|discriminate..].
  destruct (Sink_find SEGMENT_BYTES (log_sink dm0)).1 as [span| |] eqn:E2; [|discriminate..].
  destruct (Sink_find SEGMENT_BYTES (log_sink dm)).1 as [| |] eqn:E3; [discriminate..|]. intros H. apply andb_prop in H as [H H3]. apply andb_prop in H as [H1 H2].
  apply bool_decide_eq_true in H1. apply Z.leb_le in H2. apply negb_true_iff, bool_decide_eq_false in H3.
  exists got, total, first, span. rewrite H1. split; [reflexivity|]. split; [exact H2|]. split; [reflexivity|]. split; [exact H3|reflexivity].
Qed.

(** C28. A download outlives its segment. There are a deck, a demand and passes over a device that
    completes everything in order after which the demand is answered with bytes that were not at
    its position when it was taken: the place is decided when the demand is, the read goes out
    when the device takes it, and in between the recording has wrapped onto the segment. The
    answer says the position is still there; the sink it came from no longer holds it. *)
Theorem download_outlives_its_segment :
  ∃ stored bytes dm0 dm demand got total first span,
    boot stored bytes = Some dm0 ∧ passes (Deck_demand demand dm0.1, dm0.2) dm
    ∧ (Deck_answer dm.1 dm.2).1 = Some (Deliver demand got total first) ∧ first ≤ dd_offset demand
    ∧ (Sink_find (dd_offset demand) (log_sink dm0)).1 = Locate_Live span ∧ got ≠ read_run (Disk_bytes dm0.2) (span_at span) (Z.of_nat (length got))
    ∧ (Sink_find (dd_offset demand) (log_sink dm)).1 = Locate_Overrun.
Proof.
  pose proof busy_device_answers as H. destruct (boot late_boot (λ _, 7)) as [dm0|] eqn:E0; [|discriminate H].
  destruct (answers_wrong_spec _ _ H) as (got & total & first & span & H1 & H2 & H3 & H4 & H5).
  exists late_boot, (λ _, 7), dm0, (run_passes busy_device (Deck_demand oldest_demand dm0.1, dm0.2)), oldest_demand, got, total, first, span.
  split; [exact E0|]. split; [apply run_passes_are|]. split; [exact H1|]. split; [exact H2|]. split; [exact H3|]. split; [exact H4|exact H5].
Qed.

(** ** A record held *)

(** The record finds the segment full: the log closes it and owes the record a place. *)
Definition one_record : Offered := offering [Ok (opening_record, replicate 60 1)].
Definition holds_one (dm : Deck * Disk) : bool :=
  match Deck_poll one_record dm.1 dm.2 with (([], _), (d, _)) => owes Which_Log d =? 1 | _ => false end.
Lemma late_boot_holds : match boot late_boot (λ _, 7) with Some dm => holds_one dm | None => false end = true.
Proof. vm_compute. reflexivity. Qed.

Lemma boot_runs stored bytes dm : boot stored bytes = Some dm → deck_run [] dm.
Proof.
  unfold boot. destruct (Deck_new _ _ _ _ _) as [[[d opened]|] m] eqn:E; [|discriminate]. intros [= <-]. by eapply deck_boot.
Qed.
Lemma holds_one_spec dm : deck_run [] dm → holds_one dm = true → ∃ d m, deck_run [opening_record] (d, m) ∧ owes Which_Log d = 1.
Proof.
  destruct dm as [d0 m0]. unfold holds_one. cbn [fst snd]. intros Hr. destruct (Deck_poll one_record d0 m0) as [[[|t rest] lines] [d m]] eqn:E; [|discriminate].
  intros H%Z.eqb_eq. exists d, m. split; [|exact H]. change [opening_record] with ([] ++ handed [Ok (opening_record, replicate 60 1)]).
  eapply deck_more; [exact Hr|]. eapply deck_poll; [exact E|reflexivity].
Qed.

